(* ===== verification/_CoqProject ===== *)
-Q . S2P
Prelude.v
Bytes.v
Text.v
Crypto.v
Bitmap.v
EnvelopeScript.v
CodecTransfer.v
CodecIssue.v
CodecPool.v
CodecSlots.v
CodecAmm.v
CodecBatch.v
Messages.v
AmmMath.v
Curve.v
Hex.v
Merkle.v
MerkleFacts.v
Mixer.v
MixerProof.v
CodecBridge.v
CurveModel.v
Kernel.v
Notes.v
MixerLeaf.v
Handlers.v
Validator.v
MixerWithdraw.v
MixerSync.v
WalkFacts.v
ValidSpec.v
ValidShape.v
ValidSound.v
MixerTree.v
MixerFacts.v
MixerLeafFacts.v
ValidComplete.v
ValidFacts.v
ChainModel.v
MixerModel.v
BatchGrows.v
LaunchIndex.v
Airdrop.v
AirdropFacts.v
AirdropText.v
LaunchClient.v
LaunchOrder.v
LaunchFacts.v
LaunchSteps.v
LaunchCheck.v
LaunchSound.v
LaunchDrops.v
LaunchModel.v
ValidatorProps.v
MixerProps.v
LaunchProps.v
CodecProps.v
WorkerNotes.v
AmmPool.v
AmmBatch.v
AmmScan.v
AmmPoolFacts.v
AmmScanFacts.v
AmmErrors.v
AmmModel.v
AmmBatchFacts.v
BatchModel.v
PoolProps.v
BatchProps.v
Farm.v
FarmFacts.v
FarmScan.v
FarmModel.v
FarmProps.v
ProtocolProps.v
