(* ===== verification/Prelude.v ===== *)
(** * tacit: confidential assets on Bitcoin, verified

    tacit puts confidential tokens on Bitcoin.  A transaction carries a protocol message
    in the tapscript of its first input; its outputs are notes, Pedersen commitments to
    hidden amounts.  Nobody enforces the rules on chain: each client walks the history of
    a note back to the etch that created its asset and checks every step, and an indexer
    (a worker) runs the shared state: liquidity pools, farms, fair launches.  This
    development models that core and proves it correct.

    ** Parts of the program and where they are modelled

    - Messages on the wire.  [dapp/tacit.js] and [dapp/amm-envelope.js] encode,
      [dapp/tacit.js] and [worker/src/index.js] decode.  [Bytes] (integers, the cursor
      decoders run on), [Text] (UTF-8), [Bitmap], [EnvelopeScript] (the script around a
      payload), [CodecTransfer], [CodecIssue], [CodecPool], [CodecSlots], [CodecAmm].
      Every [encodeX] and [decodeX] keeps its name; the interface [WireCodec] says what a
      format promises to the client that sends and receives it.
    - Signed messages.  [Messages] has the preimages of kernels, mints, drops, bids,
      slots and AMM operations ([computeKernelMsg], [ammSwapVarIntentMsg], ...).
    - The curve.  [Crypto] and [Curve] have the libraries as classes, and the sources'
      commitments and BIP-340 signatures over them ([pedersenCommit], [signSchnorr],
      [verifySchnorr] and the worker's copy); [Kernel] the excess points of transfers
      and of AMM operations.
    - AMM arithmetic.  [AmmMath]: [ammIsqrt], [ammCurveDeltaOut], the LP shares and the
      protocol fee of [worker/src/index.js].
    - The client validator of [dapp/tacit.js].  [Notes] (its maps, the note read back
      for an output), [Handlers] (one function per kind of message), [Validator]
      ([_validateOutpointSingle], the walk over ancestors, the parents-first order,
      [validateOutpoint]).  [WalkFacts], [ValidSpec], [ValidShape], [ValidSound],
      [ValidComplete], [ValidFacts] prove it; [ChainModel] is a concrete chain.
    - The indexer of [worker/src/index.js].  [WorkerNotes] is [commitmentForUtxo] with the
      structural decoders it reads with; [AmmPool] the branches of [scanForEtches] for
      T_LP_ADD (both variants), T_LP_REMOVE, T_PROTOCOL_FEE_CLAIM, T_SWAP_VAR and
      T_SWAP_ROUTE, [AmmBatch] the one for T_SWAP_BATCH, each a function from the key-value
      store to the store, to [continue] ([Null]) or to an exception; [AmmScan] is the
      dispatch.  [CodecBatch] has the batch's decoder, whose layout is given without an
      encoder, since only tests write it.  [AmmPoolFacts], [AmmScanFacts] and [AmmErrors] prove
      what each branch writes, the invariant of the pools and which branches can throw;
      [AmmModel] is a concrete run from the bytes of the envelopes, [AmmBatchFacts] and
      [BatchModel] the same for batches, whose Groth16 proof the indexer leaves to clients.
    - The farms of the indexer.  [Farm] is the branches for T_FARM_INIT, T_LP_BOND,
      T_LP_UNBOND, T_LP_HARVEST and T_FARM_REFUND and [_farmCrystallize].  The store is
      not transactional and the code reasons about partial writes, so a handler answers
      the list of its writes in the order it makes them; [run_writes] applies them and a
      prefix of the list is an interrupted scan.  [FarmFacts] has the invariant and what
      each handler writes, [FarmScan] the step relation, the ledger of the rewards and
      what persists, [FarmModel] a concrete run.  [first_scan] is what the invariants
      assume of the order of a scan; [FarmProps.farm_scanned_again] says what happens
      without it.
    - The mixer of [dapp/tacit.js].  [Hex] (hex and decimal strings), [Merkle] (Poseidon
      inputs, [computePoolRoot], the path of [buildMixerMerkleProof]), [Mixer] (the
      registry, the trees and the nullifiers, every [mixer*] operation), [MixerProof]
      ([verifyMixerProof] around snarkjs, the decimal form of its inputs), [CodecBridge]
      (the bridge's payloads and bind hashes), [MixerLeaf] (what the client checks of a
      deposit, of a slot's leaf and of a bridge's), [MixerSync] ([processPool] of
      [scanPools]) and [MixerWithdraw] (the T_WITHDRAW branch of
      [_validateOutpointSingle], the checks on a nullifier's owner, and the service this is
      to the validator).  [MerkleFacts], [MixerTree] (every operation is a sequence of
      [change]s, and what each change keeps), [MixerFacts] and [MixerLeafFacts] prove them;
      [MixerModel] is a pool with toy Poseidon functions and verifier.
    - Fair launches, drops and airdrops.  [LaunchIndex] is the indexer's side: the
      branches of [scanForEtches] for T_PETCH, T_PMINT, T_DROP and T_DCLAIM over the records
      and their ordered keys, in the loop over blocks ([scan_tick]), and what it serves from
      them ([loadCanonicalPmints], [refreshPetchProgress], the answers of
      [handlePmintList], [loadCreditedDclaims], the progress of a drop).  [LaunchClient] is
      the client's: the T_PMINT, T_DROP and T_DCLAIM branches of [_validateOutpointSingle]
      and [_dropFundingFailure], which validates a drop's funding notes by a nested
      [validateOutpoint]; [launch_services] takes that nesting [n] deep, and the theorems
      hold for every [n].  [Airdrop] has the trees, the claim text and the recovery of its
      signer.  [LaunchOrder] proves that the keys sort as the chain does; [LaunchFacts]
      that every walk computes one list, [credit_list]; [LaunchSteps] what any
      sequence of scans ([launch_tick]) keeps; [LaunchCheck] the client's verdicts;
      [BatchGrows] and [LaunchSound] the soundness of the validator over these branches;
      [LaunchDrops] drops from the scan to the reclaim; [AirdropFacts] and [AirdropText]
      the trees and what a signed text determines; [LaunchModel] a launch, a drop and an
      airdrop, scanned and validated.

    ** What the theorems show

    [ValidatorProps]: the validator is sound and complete for an inductive definition of
    valid notes ([ValidSpec.valid]); valid notes descend from an etch and transfers
    conserve amounts; the walk ends and its order is topological; all transfer handlers
    refine one abstract transfer; bound notes stand only with their pool.
    [ProtocolProps]: signatures, commitments, kernels and messages, and the bounds and
    monotonicity of the AMM arithmetic.  [CodecProps]: which bytes each format accepts,
    and that decoding never fails in an uncontrolled way.  [PoolProps]: the invariant of the
    pools over every run of the scan, the worth of a share, how a swap settles, that the
    indexer reads the notes the client reads, what a second scan of a transaction does,
    and what can stop the scan.  [BatchProps]: what an accepted batch settles, what it
    conserves and what it does not look at.  [FarmProps]: farms stay solvent and conserve their
    rewards, what a harvest settles, the exactness of the accumulator and the width it
    outgrows, what scanning a farm transaction again does and what an interrupted one
    leaves.  [MixerProps]: when a withdrawal is accepted and that it is not repeated, what
    backs a leaf, the trees and their roots, and what the mixer does not check.
    [LaunchProps]: the validator with fair mints, drops, claims and withdrawals as its
    services; who a launch credits, and that both of the indexer's lists agree and only
    grow; which mints the indexer keys and which the client accepts; that claims and
    reclaim of a drop add up to what it holds; who an airdrop pays.  The files below hold the
    lemmas; these files hold the statements and their instances on concrete inputs.

    ** Conventions

    A JavaScript call ends in a value, [null], an exception or a read out of range:
    [res] below.  [BigInt] is [Z], with the 64-bit wrap of the sources' writers written
    out.  Hex strings and [Uint8Array]s are lists of bytes; decimal strings are numbers; an
    array the sources leave out is the empty one.  State is passed: the validator's calls
    are a state monad [V] that keeps its writes when it throws.  Calls of asynchronous
    reads (transactions, attested notes) are functions of the chain, which does not
    change during a run.

    Fuel: [walk_loop] and the order take a step count.  [walk_order] gives the
    number of ancestors as enough; the order's own bound is computed from the walk
    ([dfs_fuel]) and proved enough.  [ammIsqrt] takes its bound from the logarithm of its
    argument, proved enough; the script reader's is the length of the script.

    ** Code outside the repository

    SHA-256, the curve, the range-proof and Groth16 verifiers, Poseidon and Ethereum reads
    are classes of operations without definitions.  Laws of the curve ([SecpLaws]: a group of prime
    order and its encoding) and of the hash are hypotheses of the theorems that need
    them, and hold of the instance in [CurveModel].  No law says that discrete logarithms
    are hard: the theorems conclude with "or a relation between the generators is known".

    ** Not modelled

    The validator's output parameters that only report ([metadataOut], [pmintStatusOut])
    and its caches; the list of strict failures beyond the exception they end in.  The
    notes other services decide (AMM outputs, farm payouts, notes from Ethereum) enter
    the validator through the interface [Service]; soundness is proved for any service with
    its law, and the mixer's withdrawals, fair mints, drops and claims are such services.
    What the indexer answers the client over HTTP is a parameter there ([LaunchChain]), and
    the theorems that join the two sides say which answer they assume.  The indexer's
    descriptive fields, its hint endpoint and its rewind after a re-organisation are left
    out: [launch_tick] scans one chain, forwards.  The fetching of the indexer's pages
    and the interleaving of the six workers of [scanPools] are left out: a pool's pages are
    an argument, and pools are processed one after the other.  Range proofs are
    parameters.  The wallet, its pages, the order books and the Ethereum pool's client are
    I/O around this core.  Still to do, in order:
    the other service branches of the validator (AMM
    outputs, farm payouts, notes from Ethereum), and the rest of the scan loop: its
    remaining branches, the unconfirmed keys of the hint endpoint and the rewind after a
    re-organisation. *)
From Stdlib Require Export ZArith Lia.
From stdpp Require Export base tactics numbers list strings gmap.

#[global] Open Scope Z_scope.

(** ** Outcomes

    The four ways a call of the modelled JavaScript can end: it returns a value,
    it returns [null] (the decoders' "not a well-formed payload"), it throws an
    [Error] with a message, or it reads past the end of a byte array (which
    JavaScript answers with [undefined]; the development proves it never
    happens in the modelled decoders). *)
Inductive res (A : Type) : Type :=
| Ok (a : A)
| Null
| Throw (msg : string)
| Oob.
Arguments Ok {A} a.
Arguments Null {A}.
Arguments Throw {A} msg.
Arguments Oob {A}.

#[export] Instance res_ret : MRet res := @Ok.
#[export] Instance res_bind : MBind res := λ A B k m,
  match m with
  | Ok a => k a
  | Null => Null
  | Throw e => Throw e
  | Oob => Oob
  end.

(** [if (b) throw new Error(msg);] *)
Definition throw_if (b : bool) (msg : string) : res unit :=
  if b then Throw msg else Ok tt.

(** [if (b) return null;] *)
Definition null_when (b : bool) : res unit := if b then Null else Ok tt.

Lemma res_bind_Ok {A B} (m : res A) (k : A → res B) b :
  (m ≫= k) = Ok b ↔ ∃ a, m = Ok a ∧ k a = Ok b.
Proof. destruct m; naive_solver. Qed.

Lemma throw_if_Ok b msg u : throw_if b msg = Ok u ↔ b = false.
Proof. destruct b, u; naive_solver. Qed.

Lemma null_when_Ok b u : null_when b = Ok u ↔ b = false.
Proof. destruct b, u; naive_solver. Qed.

(** ** Chains of [throw_if] *)
Ltac enc_inv H :=
  repeat match type of H with
  | (throw_if _ _ ≫= _) = Ok _ =>
      let u := fresh "u" in let H1 := fresh "H" in
      apply res_bind_Ok in H as (u & H1 & H); apply throw_if_Ok in H1
  end.

Lemma throw_if_run {A} b msg (k : unit → res A) :
  b = false → (throw_if b msg ≫= k) = k tt.
Proof. by intros ->. Qed.

Ltac enc_run tac := repeat (rewrite throw_if_run by tac).

(** ** Arithmetic shared by the components *)
Lemma Z_div_le_mono_num a b c : 0 < c → a ≤ b → a / c ≤ b / c.
Proof. intros; by apply Z.div_le_mono. Qed.

(** [bool_lia]: goals and hypotheses that mix boolean comparisons and arithmetic. *)
Ltac bool_to_prop :=
  repeat match goal with
  | H : _ && _ = true |- _ => apply andb_true_iff in H as [??]
  | H : _ || _ = false |- _ => apply orb_false_iff in H as [??]
  | H : negb _ = true |- _ => apply negb_true_iff in H
  | H : negb _ = false |- _ => apply negb_false_iff in H
  | H : (_ <? _) = true |- _ => apply Z.ltb_lt in H
  | H : (_ <? _) = false |- _ => apply Z.ltb_ge in H
  | H : (_ <=? _) = true |- _ => apply Z.leb_le in H
  | H : (_ <=? _) = false |- _ => apply Z.leb_gt in H
  | H : (_ >? _) = true |- _ => rewrite Z.gtb_ltb in H; apply Z.ltb_lt in H
  | H : (_ >? _) = false |- _ => rewrite Z.gtb_ltb in H; apply Z.ltb_ge in H
  | H : (_ >=? _) = true |- _ => rewrite Z.geb_leb in H; apply Z.leb_le in H
  | H : (_ >=? _) = false |- _ => rewrite Z.geb_leb in H; apply Z.leb_gt in H
  | H : (_ =? _) = true |- _ => apply Z.eqb_eq in H
  | H : (_ =? _) = false |- _ => apply Z.eqb_neq in H
  | H : bool_decide _ = true |- _ => apply bool_decide_eq_true in H
  | H : bool_decide _ = false |- _ => apply bool_decide_eq_false in H
  end.

Ltac bool_goal :=
  repeat match goal with
  | |- (_ <? _) = false => apply Z.ltb_ge
  | |- (_ <? _) = true => apply Z.ltb_lt
  | |- (_ <=? _) = false => apply Z.leb_gt
  | |- (_ <=? _) = true => apply Z.leb_le
  | |- (_ >? _) = _ => rewrite Z.gtb_ltb
  | |- (_ >=? _) = _ => rewrite Z.geb_leb
  | |- (_ =? _) = true => apply Z.eqb_eq
  | |- (_ =? _) = false => apply Z.eqb_neq
  | |- negb _ = false => apply negb_false_iff
  | |- negb _ = true => apply negb_true_iff
  | |- (_ || _) = false => apply orb_false_iff; split
  | |- (_ && _) = true => apply andb_true_iff; split
  end.

(** Case analysis on every comparison of the goal, innermost first, closing the
    impossible branches. *)
Ltac zatomic a := lazymatch a with context [match _ with _ => _ end] => fail | _ => idtac end.
Ltac zcases :=
  repeat (match goal with
  | |- context [?a <? ?b] => zatomic a; destruct (Z.ltb_spec a b)
  | |- context [?a <=? ?b] => zatomic a; destruct (Z.leb_spec a b)
  | |- context [?a =? ?b] => zatomic a; destruct (Z.eqb_spec a b)
  end; try lia; cbn [andb orb negb]).
