(* ===== verification/Bytes.v ===== *)
(** * Byte strings, integer encodings and the decoders' cursor

    [Uint8Array] values are lists of bytes.  This file has the fixed-width
    integer encodings the sources write with [DataView], and the cursor the payload
    decoders run on.  A decoder of the sources keeps the whole [payload] and an
    offset [p]; the cursor here is the unread suffix [payload.slice(p)], so
    [p + n > payload.length] is "the suffix is shorter than [n]". *)
From Stdlib Require Export Init.Byte Strings.Byte.
From S2P Require Export Prelude.

Abbreviation bytes := (list byte).

Definition blen (b : bytes) : Z := Z.of_nat (length b).

#[export] Instance byte_eq_dec : EqDecision byte := Byte.byte_eq_dec.
#[export] Instance byte_countable : Countable byte :=
  inj_countable Byte.to_N Byte.of_N Byte.of_to_N.

(** [concatBytes(...parts)] *)
Definition concatBytes (parts : list bytes) : bytes := concat parts.

Lemma concatBytes_cons x l : concatBytes (x :: l) = x ++ concatBytes l.
Proof. done. Qed.
Lemma concatBytes_nil : concatBytes [] = [].
Proof. done. Qed.

(** ** Bytes as integers *)
Definition byteZ (b : byte) : Z := Z.of_N (Byte.to_N b).

(** Storing a number in a [Uint8Array] keeps its low 8 bits. *)
Definition byte_of_Z (z : Z) : byte := default x00 (Byte.of_N (Z.to_N (z mod 256))).

Lemma byteZ_range b : 0 <= byteZ b < 256.
Proof. pose proof (Byte.to_N_bounded b). unfold byteZ. lia. Qed.

Lemma byteZ_of_Z z : byteZ (byte_of_Z z) = z mod 256.
Proof.
  unfold byte_of_Z, byteZ. pose proof (Z.mod_pos_bound z 256 ltac:(lia)).
  destruct (Byte.of_N (Z.to_N (z mod 256))) as [b|] eqn:E; simpl.
  - apply Byte.to_of_N in E. lia.
  - apply Byte.of_N_None_iff in E. lia.
Qed.

Lemma byteZ_inj b c : byteZ b = byteZ c → b = c.
Proof.
  unfold byteZ. intros H%N2Z.inj.
  pose proof (Byte.of_to_N b) as Hb. rewrite H, Byte.of_to_N in Hb. congruence.
Qed.

Lemma byte_of_byteZ b : byte_of_Z (byteZ b) = b.
Proof. apply byteZ_inj. rewrite byteZ_of_Z. apply Z.mod_small, byteZ_range. Qed.

(** [new Uint8Array([v])] *)
Definition u8b (v : Z) : bytes := [byte_of_Z v].

(** Little-endian, [n] bytes: [setUint16/setUint32/setBigUint64(0, v, true)];
    like them it keeps the low [8n] bits. *)
Fixpoint le (n : nat) (v : Z) : bytes :=
  match n with
  | O => []
  | S n => byte_of_Z v :: le n (v / 256)
  end.

Fixpoint unle (b : bytes) : Z :=
  match b with
  | [] => 0
  | x :: b => byteZ x + 256 * unle b
  end.

(** Big-endian, for the keccak-side messages. *)
Definition be (n : nat) (v : Z) : bytes := rev (le n v).
Definition unbe (b : bytes) : Z := unle (rev b).

(** [setUint32(0, lo, true); setUint32(4, hi, true)] with the two halves taken by
    masks and shifts, the way the encoders write a [u64] *)
Definition u64_halves (v : Z) : bytes :=
  le 4 (Z.land v 0xffffffff) ++ le 4 (Z.land (Z.shiftr v 32) 0xffffffff).

Lemma length_le n v : length (le n v) = n.
Proof. revert v; induction n; intros; simpl; f_equal; auto. Qed.

Lemma unle_range b : 0 <= unle b < 256 ^ blen b.
Proof.
  unfold blen. induction b as [|x b IH]; cbn [unle length]; [lia|].
  rewrite Nat2Z.inj_succ, Z.pow_succ_r by lia. pose proof (byteZ_range x). nia.
Qed.

Lemma unle_le n v : unle (le n v) = v mod 256 ^ Z.of_nat n.
Proof.
  revert v; induction n as [|n IH]; intros v.
  - simpl. by rewrite Z.mod_1_r.
  - cbn [le unle]. rewrite IH, byteZ_of_Z, Nat2Z.inj_succ, Z.pow_succ_r by lia.
    pose proof (Z.pow_pos_nonneg 256 (Z.of_nat n)).
    rewrite (Z.rem_mul_r v 256 (256 ^ Z.of_nat n)) by lia. lia.
Qed.

Lemma le_unle n b : length b = n → le n (unle b) = b.
Proof.
  revert n; induction b as [|x b IH]; intros [|n]; try done; intros [= Hl].
  cbn [le unle]. rewrite (Z.add_comm (byteZ x)), (Z.mul_comm 256).
  rewrite Z.div_add_l by lia. rewrite (Z.div_small (byteZ x)) by apply byteZ_range.
  rewrite Z.add_0_r, IH by done. f_equal. apply byteZ_inj.
  rewrite byteZ_of_Z, Z.add_comm, Z.mod_add by lia.
  apply Z.mod_small, byteZ_range.
Qed.

Lemma unle_app a b : unle (a ++ b) = unle a + 256 ^ blen a * unle b.
Proof.
  unfold blen. induction a as [|x a IH]; cbn [app unle length]; [lia|].
  rewrite IH, Nat2Z.inj_succ, Z.pow_succ_r by lia. ring.
Qed.

(** Writing the two 32-bit halves is writing the 64-bit integer. *)
Lemma u64_halves_le v : u64_halves v = le 8 v.
Proof.
  assert (Hl : length (u64_halves v) = 8%nat)
    by (unfold u64_halves; by rewrite length_app, !length_le).
  rewrite <- (le_unle 8 (u64_halves v) Hl).
  rewrite <- (le_unle 8 (le 8 v) (length_le 8 v)). f_equal.
  unfold u64_halves. rewrite unle_app. unfold blen. rewrite !length_le, !unle_le.
  change (256 ^ Z.of_nat 4) with (2 ^ 32). change (256 ^ Z.of_nat 8) with (2 ^ 32 * 2 ^ 32).
  change 0xffffffff with (Z.ones 32).
  rewrite !Z.land_ones, !Z.mod_mod, Z.shiftr_div_pow2 by lia.
  by rewrite Z.rem_mul_r by lia.
Qed.

Lemma lor_shiftl_add hi lo n : 0 <= n → 0 <= lo < 2 ^ n → Z.lor (Z.shiftl hi n) lo = hi * 2 ^ n + lo.
Proof.
  intros Hn Hlo. assert (Z.land (Z.shiftl hi n) lo = 0) as Hd.
  { apply Z.bits_inj'. intros i Hi. rewrite Z.land_spec, Z.bits_0.
    destruct (Z.lt_ge_cases i n) as [Hin|Hin].
    - by rewrite Z.shiftl_spec_low.
    - assert (Z.testbit lo i = false) as ->; [|apply andb_false_r].
      destruct (Z.eq_dec lo 0) as [->|]; [apply Z.bits_0|].
      apply Z.bits_above_log2; [lia|].
      apply Z.lt_le_trans with n; [|done]. apply Z.log2_lt_pow2; lia. }
  rewrite <- (Z.lxor_lor _ _ Hd), <- (Z.add_nocarry_lxor _ _ Hd).
  by rewrite Z.shiftl_mul_pow2.
Qed.

(** [(BigInt(getUint32(4)) << 32n) | BigInt(getUint32(0))] *)
Definition halves_u64 (b : bytes) : Z :=
  Z.lor (Z.shiftl (unle (drop 4 b)) 32) (unle (take 4 b)).

Lemma halves_u64_unle b : length b = 8%nat → halves_u64 b = unle b.
Proof.
  intros Hl. unfold halves_u64.
  assert (blen (take 4 b) = 4) as H4 by (unfold blen; rewrite length_take, Hl; done).
  pose proof (unle_range (take 4 b)) as Hlo. rewrite H4 in Hlo.
  change (256 ^ 4) with (2 ^ 32) in Hlo.
  rewrite lor_shiftl_add by lia.
  rewrite <- (take_drop 4 b) at 3. rewrite unle_app, H4.
  change (256 ^ 4) with (2 ^ 32). ring.
Qed.

(** [payload[p] | (payload[p + 1] << 8)] *)
Definition or_u16 (lo hi : byte) : Z := Z.lor (byteZ lo) (Z.shiftl (byteZ hi) 8).

Lemma or_u16_unle lo hi : or_u16 lo hi = unle [lo; hi].
Proof.
  unfold or_u16. rewrite Z.lor_comm, lor_shiftl_add by (pose proof (byteZ_range lo); lia).
  simpl. lia.
Qed.

(** ** Lengths *)
Lemma blen_app a b : blen (a ++ b) = blen a + blen b.
Proof. unfold blen. rewrite length_app. lia. Qed.
Lemma blen_cons x b : blen (x :: b) = 1 + blen b.
Proof. unfold blen. simpl. lia. Qed.
Lemma blen_nil : blen [] = 0. Proof. done. Qed.
Lemma blen_nonneg b : 0 <= blen b. Proof. unfold blen. lia. Qed.
Lemma blen_le n v : blen (le n v) = Z.of_nat n.
Proof. unfold blen. by rewrite length_le. Qed.
Lemma blen_u64_halves v : blen (u64_halves v) = 8.
Proof. by rewrite u64_halves_le, blen_le. Qed.
Lemma blen_u8b v : blen (u8b v) = 1. Proof. done. Qed.
Lemma blen_0 b : blen b = 0 → b = [].
Proof. destruct b; [done|]. rewrite blen_cons. pose proof (blen_nonneg b0). lia. Qed.

Lemma app_inj_blen (a b c d : bytes) : blen a = blen c → a ++ b = c ++ d → a = c ∧ b = d.
Proof. unfold blen. intros Hl. apply app_inj_1. lia. Qed.

Lemma le_inj n v w :
  0 <= v < 256 ^ Z.of_nat n → 0 <= w < 256 ^ Z.of_nat n → le n v = le n w → v = w.
Proof.
  intros Hv Hw H%(f_equal unle). rewrite !unle_le in H.
  by rewrite !Z.mod_small in H.
Qed.

#[global] Arguments u8b : simpl never.
#[global] Arguments le : simpl never.
#[global] Arguments u64_halves : simpl never.
#[global] Arguments concatBytes : simpl never.

Create Rewrite HintDb blen.
#[export] Hint Rewrite blen_app blen_cons blen_nil blen_le blen_u64_halves blen_u8b : blen.

(** ** Byte strings all zero *)
Definition all_zero (b : bytes) : bool := forallb (λ x, byteZ x =? 0) b.
Definition zeros (n : nat) : bytes := replicate n x00.

(** ** The cursor monad of the decoders *)
Definition rd (A : Type) : Type := bytes → res (A * bytes).

#[export] Instance rd_ret : MRet rd := λ A a s, Ok (a, s).
#[export] Instance rd_bind : MBind rd := λ A B k m s,
  match m s with
  | Ok (a, s') => k a s'
  | Null => Null
  | Throw e => Throw e
  | Oob => Oob
  end.

(** Run a decoder on a payload and return its value. *)
Definition run {A} (m : rd A) (payload : bytes) : res A :=
  match m payload with
  | Ok (a, _) => Ok a
  | Null => Null
  | Throw e => Throw e
  | Oob => Oob
  end.

(** [if (b) return null;] *)
Definition null_if (b : bool) : rd unit := λ s, if b then Null else Ok (tt, s).
(** [if (p + n > payload.length) return null;] *)
Definition room (n : Z) : rd unit := λ s, if blen s <? n then Null else Ok (tt, s).
(** [if (p + n !== payload.length) return null;] *)
Definition ends_at (n : Z) : rd unit := λ s, if blen s =? n then Ok (tt, s) else Null.
(** [if (payload[0] !== T) return null; let p = 1;] *)
Definition opcode (t : Z) : rd unit := λ s,
  match s with
  | [] => Null
  | x :: s' => if byteZ x =? t then Ok (tt, s') else Null
  end.
(** [payload.slice(p, p + n); p += n;] *)
Definition slice (n : Z) : rd bytes := λ s,
  if blen s <? n then Oob else Ok (take (Z.to_nat n) s, drop (Z.to_nat n) s).
(** [payload[p]; p += 1;] *)
Definition u8 : rd Z := λ s,
  match s with
  | [] => Oob
  | x :: s' => Ok (byteZ x, s')
  end.
(** [payload[p] | (payload[p + 1] << 8); p += 2;] *)
Definition u16 : rd Z := λ s,
  match s with
  | lo :: hi :: s' => Ok (or_u16 lo hi, s')
  | _ => Oob
  end.
(** [new DataView(...).getUint16/getUint32/getBigUint64(0, true)] over [n] bytes *)
Definition uint (n : nat) : rd Z := b ← slice (Z.of_nat n); mret (unle b).
(** the 64-bit read through two [getUint32] halves *)
Definition u64h : rd Z := b ← slice 8; mret (halves_u64 b).
(** [for (let i = 0; i < n; i++) out.push(m)] *)
Fixpoint repeatM {A} (n : nat) (m : rd A) : rd (list A) :=
  match n with
  | O => mret []
  | S n => a ← m; l ← repeatM n m; mret (a :: l)
  end.

Section cursor_laws.
Context {A B : Type}.

Lemma run_Ok (m : rd A) p a : run m p = Ok a ↔ ∃ s, m p = Ok (a, s).
Proof. unfold run. destruct (m p) as [[]| | |]; naive_solver. Qed.

Lemma rd_bind_Ok (m : rd A) (k : A → rd B) s b s'' :
  (m ≫= k) s = Ok (b, s'') ↔ ∃ a s', m s = Ok (a, s') ∧ k a s' = Ok (b, s'').
Proof.
  unfold mbind, rd_bind. destruct (m s) as [[a s']| | |] eqn:E; naive_solver.
Qed.

Lemma rd_ret_Ok (a a' : A) s s' : (mret a : rd A) s = Ok (a', s') ↔ a = a' ∧ s' = s.
Proof. unfold mret, rd_ret. naive_solver. Qed.
End cursor_laws.

Lemma null_if_Ok b s u s' : null_if b s = Ok (u, s') ↔ b = false ∧ s' = s.
Proof. unfold null_if. destruct b, u; naive_solver. Qed.

Lemma room_Ok n s u s' : room n s = Ok (u, s') ↔ n <= blen s ∧ s' = s.
Proof. unfold room. destruct (Z.ltb_spec (blen s) n), u; naive_solver lia. Qed.

Lemma ends_at_Ok n s u s' : ends_at n s = Ok (u, s') ↔ blen s = n ∧ s' = s.
Proof. unfold ends_at. destruct (Z.eqb_spec (blen s) n), u; naive_solver. Qed.

Lemma opcode_Ok t s u s' : 0 <= t < 256 → opcode t s = Ok (u, s') ↔ s = u8b t ++ s'.
Proof.
  intros Ht. destruct u. split.
  - destruct s as [|x s]; simpl; [done|]. destruct (Z.eqb_spec (byteZ x) t) as [<-|]; [|done].
    intros [= ->]. unfold u8b. by rewrite byte_of_byteZ.
  - intros ->. simpl. rewrite byteZ_of_Z, Z.mod_small, Z.eqb_refl by lia. done.
Qed.

Lemma slice_Ok n s x s' : 0 <= n → slice n s = Ok (x, s') ↔ s = x ++ s' ∧ blen x = n.
Proof.
  intros Hn. unfold slice. destruct (Z.ltb_spec (blen s) n) as [Hl|Hl]; split.
  - done.
  - intros [-> <-]. rewrite blen_app in Hl. pose proof (blen_nonneg s'). lia.
  - intros [= <- <-]. rewrite take_drop. split; [done|].
    unfold blen in *. rewrite length_take. lia.
  - intros [-> <-]. unfold blen. rewrite Nat2Z.id.
    by rewrite take_app_length, drop_app_length.
Qed.

Lemma u8_Ok s v s' : u8 s = Ok (v, s') ↔ s = u8b v ++ s' ∧ 0 <= v < 256.
Proof.
  split.
  - destruct s as [|x s]; simpl; [done|]. intros [= <- ->].
    unfold u8b. rewrite byte_of_byteZ. auto using byteZ_range.
  - intros [-> Hv]. simpl. by rewrite byteZ_of_Z, Z.mod_small.
Qed.

Lemma u16_Ok s v s' : u16 s = Ok (v, s') ↔ s = le 2 v ++ s' ∧ 0 <= v < 65536.
Proof.
  split.
  - destruct s as [|lo [|hi s]]; [done..|]. unfold u16. intros [= <- ->].
    rewrite or_u16_unle. pose proof (unle_range [lo; hi]) as Hr.
    change (256 ^ blen [lo; hi]) with 65536 in Hr. split; [|done].
    by rewrite (le_unle 2 [lo; hi]).
  - intros [-> Hv]. unfold le; cbn [app u16]. rewrite or_u16_unle. cbn [unle].
    rewrite !byteZ_of_Z. do 2 f_equal.
    rewrite (Z.mod_small (v / 256)) by (split; [apply Z.div_pos|apply Z.div_lt_upper_bound]; lia).
    pose proof (Z.div_mod v 256). lia.
Qed.

Lemma uint_Ok n s v s' :
  uint n s = Ok (v, s') ↔ s = le n v ++ s' ∧ 0 <= v < 256 ^ Z.of_nat n.
Proof.
  unfold uint. rewrite rd_bind_Ok. setoid_rewrite slice_Ok; [|lia].
  setoid_rewrite rd_ret_Ok. split.
  - intros (b & s0 & [-> Hb] & <- & ->). rewrite le_unle by (unfold blen in Hb; lia).
    pose proof (unle_range b). rewrite Hb in H. done.
  - intros [-> Hv]. exists (le n v), s'. rewrite blen_le, unle_le, Z.mod_small by done. done.
Qed.

Lemma u64h_Ok s v s' : u64h s = Ok (v, s') ↔ s = u64_halves v ++ s' ∧ 0 <= v < 2 ^ 64.
Proof.
  assert (u64h s = uint 8 s) as ->; [|by rewrite uint_Ok, u64_halves_le].
  unfold u64h, uint, mbind, rd_bind. change (Z.of_nat 8) with 8.
  destruct (slice 8 s) as [[b s0]| | |] eqn:E; try done.
  apply slice_Ok in E as [-> Hb]; [|lia].
  rewrite halves_u64_unle by (unfold blen in Hb; lia). done.
Qed.

Lemma repeatM_Ok {A} (m : rd A) (enc : A → bytes) (P : A → Prop) n s l s' :
  (∀ s a s', m s = Ok (a, s') ↔ s = enc a ++ s' ∧ P a) →
  repeatM n m s = Ok (l, s') ↔ s = concat (map enc l) ++ s' ∧ length l = n ∧ Forall P l.
Proof.
  intros Hm. revert s l s'; induction n as [|n IH]; intros s l s'; cbn [repeatM].
  - rewrite rd_ret_Ok. split.
    + intros [<- ->]. auto.
    + destruct l; simpl; naive_solver.
  - rewrite rd_bind_Ok. split.
    + intros (a & s1 & [-> Ha]%Hm & H).
      apply rd_bind_Ok in H as (l' & s2 & (-> & <- & Hl)%IH & H).
      apply rd_ret_Ok in H as [<- ->]. simpl. rewrite <- app_assoc. auto.
    + intros (-> & Hlen & HP). destruct l as [|a l]; [done|]. cbn [length] in Hlen.
      injection Hlen as Hlen. inversion_clear HP.
      exists a, (concat (map enc l) ++ s'). split; [apply Hm; simpl; by rewrite <- app_assoc|].
      apply rd_bind_Ok. exists l, s'. rewrite IH, rd_ret_Ok. auto.
Qed.

(** The same for a reader that also wants [k] bytes to be left after it. *)
Lemma repeatM_Ok_room {A} (m : rd A) (enc : A → bytes) (P : A → Prop) k n s l s' :
  (∀ s a s', m s = Ok (a, s') ↔ s = enc a ++ s' ∧ P a ∧ k <= blen s') → k <= blen s' →
  repeatM n m s = Ok (l, s') ↔ s = concat (map enc l) ++ s' ∧ length l = n ∧ Forall P l.
Proof.
  intros Hm Hk. revert s l; induction n as [|n IH]; intros s l; cbn [repeatM].
  - rewrite rd_ret_Ok. split.
    + intros [<- ->]. auto.
    + destruct l; simpl; naive_solver.
  - rewrite rd_bind_Ok. split.
    + intros (a & s1 & (-> & Ha & _)%Hm & H).
      apply rd_bind_Ok in H as (l' & s2 & H2 & H). apply rd_ret_Ok in H as [<- ->].
      apply IH in H2 as (-> & <- & Hl). simpl. rewrite <- app_assoc. auto.
    + intros (-> & Hlen & HP). destruct l as [|a l]; [done|]. cbn [length] in Hlen.
      injection Hlen as Hlen. inversion_clear HP.
      exists a, (concat (map enc l) ++ s'). split.
      * apply Hm. simpl. rewrite <- app_assoc. split; [done|]. split; [done|].
        rewrite (blen_app (concat _)). pose proof (blen_nonneg (concat (map enc l))). lia.
      * apply rd_bind_Ok. exists l, s'. rewrite IH, rd_ret_Ok. auto.
Qed.

Lemma repeatM_left {A} (m : rd A) k n s l s' :
  (∀ s a s', m s = Ok (a, s') → k <= blen s') → (1 <= n)%nat → repeatM n m s = Ok (l, s') → k <= blen s'.
Proof.
  intros Hm. revert s l; induction n as [|n IH]; intros s l Hn; [lia|]. cbn [repeatM].
  intros (a & s1 & H1 & (l' & s2 & H2 & [_ ->]%rd_ret_Ok)%rd_bind_Ok)%rd_bind_Ok.
  destruct n as [|n]; [|eapply IH; [lia|exact H2]].
  cbn [repeatM] in H2. apply rd_ret_Ok in H2 as [_ ->]. by eapply Hm.
Qed.

(** ** Symbolic execution of decoders

    [rd_inv H] turns [H : (decoder body) s = Ok (r, s')] into the equations that say
    what the payload was; [rd_run] goes the other way, running a decoder on a
    payload given as a concatenation. *)
(** Component files extend the two tactics with their own readers. *)
Ltac rd_inv_hook H := idtac.
Ltac rd_step_hook := idtac.

Ltac rd_inv1 H :=
  lazymatch type of H with
  | (_ ≫= _) _ = Ok _ =>
      let a := fresh "a" in let s := fresh "s" in let H1 := fresh "H" in
      apply rd_bind_Ok in H as (a & s & H1 & H); rd_inv1 H1; rd_inv1 H
  | null_if _ _ = Ok _ => apply null_if_Ok in H as [H ->]
  | room _ _ = Ok _ => apply room_Ok in H as [H ->]
  | ends_at _ _ = Ok _ => apply ends_at_Ok in H as [H ->]
  | opcode _ _ = Ok _ => apply opcode_Ok in H; [|done]; subst
  | slice _ _ = Ok _ => apply slice_Ok in H as [-> H]; [|try lia]
  | u8 _ = Ok _ => apply u8_Ok in H as [-> H]
  | u16 _ = Ok _ => apply u16_Ok in H as [-> H]
  | uint _ _ = Ok _ => apply uint_Ok in H as [-> H]
  | u64h _ = Ok _ => apply u64h_Ok in H as [-> H]
  | mret _ _ = Ok _ => apply rd_ret_Ok in H as [H ->]
  | _ => rd_inv_hook H
  end.
Ltac rd_inv H := rd_inv1 H.

(** One step of [rd_run]: the goal is [(m ≫= k) (x ++ y ++ ...) = Ok (r, s)]. *)
Ltac len_lia := bool_to_prop; bool_goal; autorewrite with blen in *; unfold blen in *; lia.

Ltac rd_step :=
  lazymatch goal with
  | |- (_ ≫= _) _ = Ok _ => apply rd_bind_Ok; first [exists tt; eexists | eexists _, _]; split; [rd_step|cbv beta]
  | |- null_if _ _ = Ok _ => apply null_if_Ok; split; [|reflexivity]
  | |- room _ _ = Ok _ => apply room_Ok; split; [|reflexivity]
  | |- ends_at _ _ = Ok _ => apply ends_at_Ok; split; [|reflexivity]
  | |- opcode _ _ = Ok _ => apply opcode_Ok; [done|reflexivity]
  | |- slice _ _ = Ok _ => apply slice_Ok; [try lia|split; [reflexivity|]]
  | |- u8 _ = Ok _ => apply u8_Ok; split; [reflexivity|]
  | |- u16 _ = Ok _ => apply u16_Ok; split; [reflexivity|]
  | |- uint _ _ = Ok _ => apply uint_Ok; split; [reflexivity|]
  | |- u64h _ = Ok _ => apply u64h_Ok; split; [reflexivity|]
  | |- mret _ _ = Ok _ => apply rd_ret_Ok; split; [|reflexivity]
  | _ => rd_step_hook
  end.
Ltac rd_run := repeat rd_step.

(** [ends_at n; slice n] reads to the end of the payload. *)
Lemma ends_slice (x s : bytes) n : blen (x ++ s) = n → blen x = n → s = [].
Proof. rewrite blen_app. intros H1 H2. apply blen_0. lia. Qed.

Lemma ends_slice' (x s : bytes) : blen x = blen (x ++ s) → s = [].
Proof. intros H. by eapply ends_slice. Qed.

Ltac rd_close :=
  repeat match goal with
  | H : blen ?x = blen (?x ++ ?s) |- _ => is_var s; apply ends_slice' in H as ->
  | H1 : blen (?x ++ ?s) = ?n, H2 : blen ?x = ?n |- _ =>
      is_var s; pose proof (ends_slice x s n H1 H2); subst s; clear H1
  | H : blen ?s = 0 |- _ => is_var s; apply blen_0 in H; subst s
  | H : () |- _ => clear H
  end.

(** [![...].includes(n)] *)
Definition includes (l : list Z) (n : Z) : bool := existsb (Z.eqb n) l.

(** [new TextEncoder().encode('...')] of an ASCII literal *)
Definition ascii_bytes (s : string) : bytes := String.list_byte_of_string s.

(** Side goals left by [rd_run] and [enc_run]. *)
Ltac guard_solve :=
  first [ done | assumption | lia | split; [lia|assumption] | split; [lia|split; assumption]
        | len_lia | unfold includes; cbn [existsb]; len_lia ].
Ltac enc_guards := unfold includes in *; cbn [existsb] in *; enc_run ltac:(first [lia|len_lia]).

(** ** Totality of decoders

    A decoder is total on a payload when it answers a value or [null]: it neither
    throws nor reads past the end. *)
Definition total {A} (r : res A) : Prop := r = Null ∨ ∃ a, r = Ok a.

(** [safe m n]: on any suffix of at least [n] bytes the cursor action [m] is total. *)
Definition safe_at {A} (m : rd A) (s : bytes) : Prop := total (m s).

Lemma total_run {A} (m : rd A) p : safe_at m p → total (run m p).
Proof. unfold safe_at, total, run. intros [->|[[a s] ->]]; eauto. Qed.

Section safe_rules.
Context {A B : Type}.
Implicit Types (m : rd A) (k : A → rd B) (s : bytes).

Lemma safe_bind m k s :
  safe_at m s → (∀ a s', m s = Ok (a, s') → safe_at (k a) s') → safe_at (m ≫= k) s.
Proof.
  unfold safe_at, total, mbind, rd_bind. intros [->|[[a s'] E]] H; [by left|].
  rewrite E. eauto.
Qed.
Lemma safe_ret (a : A) s : safe_at (mret a) s.
Proof. right. by eexists. Qed.
Lemma safe_if (b : bool) m1 m2 s :
  (b = true → safe_at m1 s) → (b = false → safe_at m2 s) → safe_at (if b then m1 else m2) s.
Proof. destruct b; auto. Qed.
End safe_rules.

Lemma safe_null_if b s : safe_at (null_if b) s.
Proof. unfold safe_at, null_if, total. destruct b; eauto. Qed.
Lemma safe_room n s : safe_at (room n) s.
Proof. unfold safe_at, room, total. destruct (_ <? _); eauto. Qed.
Lemma safe_ends_at n s : safe_at (ends_at n) s.
Proof. unfold safe_at, ends_at, total. destruct (_ =? _); eauto. Qed.
Lemma safe_opcode t s : safe_at (opcode t) s.
Proof. unfold safe_at, opcode, total. destruct s; [eauto|]. destruct (_ =? _); eauto. Qed.
Lemma safe_slice n s : n <= blen s → safe_at (slice n) s.
Proof.
  intros Hn. unfold safe_at, slice, total. destruct (Z.ltb_spec (blen s) n); [lia|eauto].
Qed.
Lemma safe_u8 s : 1 <= blen s → safe_at u8 s.
Proof. destruct s; [by intros ?|]. right. by eexists. Qed.
Lemma safe_u16 s : 2 <= blen s → safe_at u16 s.
Proof. destruct s as [|? [|? s]]; [by intros ?..|]. right. by eexists. Qed.
Lemma safe_uint n s : Z.of_nat n <= blen s → safe_at (uint n) s.
Proof. intros. apply safe_bind; [by apply safe_slice|]. intros. apply safe_ret. Qed.
Lemma safe_u64h s : 8 <= blen s → safe_at u64h s.
Proof. intros. apply safe_bind; [by apply safe_slice|]. intros. apply safe_ret. Qed.

Lemma safe_repeatM {A} n (m : rd A) s : (∀ s, safe_at m s) → safe_at (repeatM n m) s.
Proof.
  intros Hm. revert s; induction n as [|n IH]; intros s; [apply safe_ret|].
  apply safe_bind; [done|]. intros a s1 _. apply safe_bind; [done|]. intros. apply safe_ret.
Qed.

(** A reader of a fixed number of bytes can be repeated as often as they fit. *)
Lemma safe_repeat_fixed {A} n k (m : rd A) s :
  (∀ s, k <= blen s → safe_at m s) → (∀ s a s', m s = Ok (a, s') → blen s = k + blen s') →
  0 <= k → k * Z.of_nat n <= blen s → safe_at (repeatM n m) s.
Proof.
  intros Hm Hlen Hk. revert s; induction n as [|n IH]; intros s Hs; [apply safe_ret|].
  apply safe_bind; [apply Hm; nia|]. intros a s1 Ha%Hlen.
  apply safe_bind; [apply IH; nia|]. intros. apply safe_ret.
Qed.

Lemma safe_repeat_slice n k s :
  0 <= k → k * Z.of_nat n <= blen s → safe_at (repeatM n (slice k)) s.
Proof.
  intros Hk. apply safe_repeat_fixed; [apply safe_slice| |done].
  intros s0 a s' [-> Ha]%slice_Ok; [|done]. rewrite blen_app. lia.
Qed.

Ltac safe_hook := fail.
(** Steps through a decoder keeping the equation of every read, which carries the
    lengths the later reads need. *)
Ltac safe_step :=
  lazymatch goal with
  | |- safe_at (mret _) _ => apply safe_ret
  | |- safe_at (_ ≫= _) _ =>
      let a := fresh "a" in let s := fresh "s" in let H := fresh "H" in
      apply safe_bind; [safe_step|intros a s H; rd_inv1 H; cbv beta]
  | |- safe_at (null_if _) _ => apply safe_null_if
  | |- safe_at (room _) _ => apply safe_room
  | |- safe_at (ends_at _) _ => apply safe_ends_at
  | |- safe_at (opcode _) _ => apply safe_opcode
  | |- safe_at (slice _) _ => apply safe_slice
  | |- safe_at u8 _ => apply safe_u8
  | |- safe_at u16 _ => apply safe_u16
  | |- safe_at (uint _) _ => apply safe_uint
  | |- safe_at u64h _ => apply safe_u64h
  | |- safe_at (if _ then _ else _) _ => apply safe_if; intros ?
  | |- _ => safe_hook
  end.
Ltac safe_run := apply total_run; repeat safe_step; try len_lia.

(** ** The interface of one wire format

    [enc] and [dec] are the encoder and the decoder of one envelope payload; [sendable]
    is what a caller of the encoder has to respect for the decoder to give the
    message back, [canonical x p] what a message [x] read from [p] must satisfy for the
    encoder to write [p] again. *)
Class WireCodec (A : Type) := {
  wire_op : Z;
  enc : A → res bytes;
  dec : bytes → res A;
  sendable : A → Prop;
  canonical : A → bytes → Prop;
  wire_round : ∀ x p, enc x = Ok p → sendable x → dec p = Ok x;
  wire_canon : ∀ p x, dec p = Ok x → canonical x p → enc x = Ok p;
  wire_total : ∀ p, total (dec p);
  wire_opcode : ∀ x p, enc x = Ok p → ∃ rest, p = u8b wire_op ++ rest;
}.

(** A wire format loses nothing: two sendable messages never share an encoding. *)
Lemma enc_inj `{WireCodec A} x y p :
  sendable x → sendable y → enc x = Ok p → enc y = Ok p → x = y.
Proof.
  intros Hx Hy Ex Ey.
  apply wire_round in Ex; [|done]. apply wire_round in Ey; [|done]. congruence.
Qed.

(** ... and no payload has two readings, nor one message two canonical payloads. *)
Lemma dec_inj `{WireCodec A} p q x :
  canonical x p → canonical x q → dec p = Ok x → dec q = Ok x → p = q.
Proof.
  intros Hp Hq Ep Eq.
  apply wire_canon in Ep; [|done]. apply wire_canon in Eq; [|done]. congruence.
Qed.
