(* ===== verification/Text.v ===== *)
(** * Text: [TextEncoder] and [TextDecoder('utf-8', { fatal: true })]

    A JavaScript string is the list of its code points, lone surrogates included (the
    string iterator's view of it).  [TextEncoder.encode] writes a lone surrogate as
    U+FFFD; the fatal decoder throws on ill-formed input and, since the sources never
    set [ignoreBOM], drops one leading U+FEFF. *)
From S2P Require Import Prelude Bytes.

Abbreviation text := (list Z).

Definition surrogate (c : Z) : bool := (0xD800 <=? c) && (c <=? 0xDFFF).
(** a Unicode scalar value *)
Definition scalar (c : Z) : bool := (0 <=? c) && (c <=? 0x10FFFF) && negb (surrogate c).

Definition utf8_cp (c : Z) : bytes :=
  let c := if surrogate c then 0xFFFD else c in
  if c <? 0x80 then u8b c
  else if c <? 0x800 then u8b (0xC0 + c / 64) ++ u8b (0x80 + c mod 64)
  else if c <? 0x10000 then
    u8b (0xE0 + c / 4096) ++ u8b (0x80 + c / 64 mod 64) ++ u8b (0x80 + c mod 64)
  else u8b (0xF0 + c / 262144) ++ u8b (0x80 + c / 4096 mod 64) ++
       u8b (0x80 + c / 64 mod 64) ++ u8b (0x80 + c mod 64).

(** [new TextEncoder().encode(s)] *)
Definition text_encode (s : text) : bytes := concat (map utf8_cp s).

Definition cont (b : byte) : bool := (0x80 <=? byteZ b) && (byteZ b <=? 0xBF).

Fixpoint utf8_decode (b : bytes) : option text :=
  match b with
  | [] => Some []
  | x :: b =>
      if byteZ x <? 0x80 then cons (byteZ x) <$> utf8_decode b
      else if (0xC2 <=? byteZ x) && (byteZ x <=? 0xDF) then
        match b with
        | y :: b => if cont y then cons ((byteZ x - 0xC0) * 64 + (byteZ y - 0x80)) <$> utf8_decode b
                    else None
        | _ => None
        end
      else if (0xE0 <=? byteZ x) && (byteZ x <=? 0xEF) then
        match b with
        | y :: z :: b =>
            let c := ((byteZ x - 0xE0) * 64 + (byteZ y - 0x80)) * 64 + (byteZ z - 0x80) in
            if cont y && cont z && (0x800 <=? c) && negb (surrogate c)
            then cons c <$> utf8_decode b else None
        | _ => None
        end
      else if (0xF0 <=? byteZ x) && (byteZ x <=? 0xF4) then
        match b with
        | y :: z :: w :: b =>
            let c := (((byteZ x - 0xF0) * 64 + (byteZ y - 0x80)) * 64 + (byteZ z - 0x80)) * 64
                     + (byteZ w - 0x80) in
            if cont y && cont z && cont w && (0x10000 <=? c) && (c <=? 0x10FFFF)
            then cons c <$> utf8_decode b else None
        | _ => None
        end
      else None
  end.

(** [new TextDecoder('utf-8', { fatal: true }).decode(b)]; [None] is the exception *)
Definition text_decode (b : bytes) : option text :=
  match utf8_decode b with
  | Some (c :: l) => Some (if c =? 0xFEFF then l else c :: l)
  | r => r
  end.

(** Strings that survive the trip: Unicode scalar values, no leading U+FEFF. *)
Definition plain (s : text) : Prop :=
  Forall (λ c, scalar c = true) s ∧ head s ≠ Some 0xFEFF.

#[local] Ltac Zify.zify_post_hook ::= Z.div_mod_to_equations.

Lemma utf8_decode_cp c b :
  scalar c = true → utf8_decode (utf8_cp c ++ b) = cons c <$> utf8_decode b.
Proof.
  unfold scalar, utf8_cp. intros H. assert (surrogate c = false) as Hs by (bool_to_prop; done).
  rewrite Hs. bool_to_prop.
  assert (Hb : ∀ v, 0 <= v < 256 → byteZ (byte_of_Z v) = v) by (intros; rewrite byteZ_of_Z; lia).
  destruct (Z.ltb_spec c 0x80); [|destruct (Z.ltb_spec c 0x800); [|destruct (Z.ltb_spec c 0x10000)]];
    unfold u8b; cbn [app utf8_decode].
  - rewrite Hb by lia. destruct (Z.ltb_spec c 0x80); [done|lia].
  - unfold cont. rewrite !Hb by lia.
    zcases. do 2 f_equal. lia.
  - unfold cont. rewrite !Hb by lia.
    set (e := (_ * 64 + _) * 64 + _). assert (e = c) as -> by (subst e; lia). rewrite Hs.
    zcases. done.
  - unfold cont. rewrite !Hb by lia.
    set (e := ((_ * 64 + _) * 64 + _) * 64 + _). assert (e = c) as -> by (subst e; lia).
    zcases. done.
Qed.

Lemma utf8_decode_encode s :
  Forall (λ c, scalar c = true) s → utf8_decode (text_encode s) = Some s.
Proof.
  unfold text_encode. induction 1 as [|c s Hc _ IH]; [done|]. cbn [map concat].
  by rewrite utf8_decode_cp, IH.
Qed.

Lemma text_decode_encode s : plain s → text_decode (text_encode s) = Some s.
Proof.
  intros [Hs Hh]. unfold text_decode. rewrite utf8_decode_encode by done.
  destruct s as [|c s]; [done|]. simpl in Hh.
  destruct (Z.eqb_spec c 0xFEFF); [by subst|done].
Qed.

Lemma byte_eq (b : byte) v : byteZ b = v → byte_of_Z v = b.
Proof. intros <-. apply byte_of_byteZ. Qed.

(** What each branch of the decoder read is what the encoder writes. *)
Lemma utf8_cp_1 x : byteZ x < 0x80 → utf8_cp (byteZ x) = [x] ∧ scalar (byteZ x) = true.
Proof.
  intros. pose proof (byteZ_range x). unfold utf8_cp, scalar, surrogate. zcases; (split; [|done]);
  unfold u8b; by rewrite byte_of_byteZ.
Qed.

Lemma utf8_cp_2 x y c :
  0xC2 <= byteZ x <= 0xDF → cont y = true → c = (byteZ x - 0xC0) * 64 + (byteZ y - 0x80) →
  utf8_cp c = [x; y] ∧ scalar c = true.
Proof.
  unfold cont. intros Hx Hy%andb_true_iff Hc. destruct Hy as [Hy1%Z.leb_le Hy2%Z.leb_le].
  unfold utf8_cp, scalar, surrogate. zcases; (split; [|done]);
  unfold u8b; cbn [app]; f_equal; [|f_equal]; apply byte_eq; lia.
Qed.

Lemma utf8_cp_3 x y z c :
  0xE0 <= byteZ x <= 0xEF → cont y = true → cont z = true →
  c = ((byteZ x - 0xE0) * 64 + (byteZ y - 0x80)) * 64 + (byteZ z - 0x80) →
  0x800 <= c → surrogate c = false →
  utf8_cp c = [x; y; z] ∧ scalar c = true.
Proof.
  unfold cont. rewrite !andb_true_iff, !Z.leb_le. intros Hx Hy Hz Hc Hlo Hs.
  unfold utf8_cp, scalar. rewrite Hs. zcases; (split; [|done]);
  unfold u8b; cbn [app]; f_equal; [|f_equal; [|f_equal]]; apply byte_eq; lia.
Qed.

Lemma utf8_cp_4 x y z w c :
  0xF0 <= byteZ x → cont y = true → cont z = true → cont w = true →
  c = (((byteZ x - 0xF0) * 64 + (byteZ y - 0x80)) * 64 + (byteZ z - 0x80)) * 64 + (byteZ w - 0x80) →
  0x10000 <= c <= 0x10FFFF →
  utf8_cp c = [x; y; z; w] ∧ scalar c = true.
Proof.
  unfold cont. rewrite !andb_true_iff, !Z.leb_le. intros Hx Hy Hz Hw Hc Hlo.
  unfold utf8_cp, scalar, surrogate. zcases; (split; [|done]);
  unfold u8b; cbn [app]; f_equal; [|f_equal; [|f_equal; [|f_equal]]]; apply byte_eq; lia.
Qed.

(** The decoder accepts only shortest-form UTF-8, so encoding gives the bytes back. *)
Lemma utf8_encode_decode_len n b s :
  (length b <= n)%nat → utf8_decode b = Some s →
  text_encode s = b ∧ Forall (λ c, scalar c = true) s.
Proof.
  revert b s; induction n as [|n IH]; intros b s Hle H.
  { destruct b; [|simpl in Hle; lia]. by injection H as <-. }
  assert (Hstep : ∀ c pre b', (length b' <= n)%nat → utf8_cp c = pre ∧ scalar c = true →
    cons c <$> utf8_decode b' = Some s →
    text_encode s = pre ++ b' ∧ Forall (λ c, scalar c = true) s).
  { intros c pre b' Hl [<- Hc] Hs. destruct (utf8_decode b') as [s'|] eqn:E; [|done].
    injection Hs as <-. apply IH in E as [E ?]; [|done]. unfold text_encode in *. cbn [map concat].
    rewrite E. auto. }
  destruct b as [|x b]; [by injection H as <-|]. cbn [utf8_decode] in H. cbn [length] in Hle.
  destruct (Z.ltb_spec (byteZ x) 0x80).
  { apply (Hstep _ [x]) in H; [done|lia|by apply utf8_cp_1]. }
  case_match eqn:E2; [bool_to_prop|].
  { destruct b as [|y b]; [done|]. case_match; [|done]. cbn [length] in Hle.
    eapply (Hstep _ [x; y]); [lia|by eapply utf8_cp_2|done]. }
  clear E2. case_match eqn:E2; [bool_to_prop|].
  { destruct b as [|y [|z b]]; [done..|]. cbv zeta in H. case_match; [|done]. bool_to_prop.
    cbn [length] in Hle. eapply (Hstep _ [x; y; z]); [lia|by eapply utf8_cp_3|done]. }
  clear E2. case_match eqn:E2; [bool_to_prop|done].
  destruct b as [|y [|z [|w b]]]; [done..|]. cbv zeta in H. case_match; [|done]. bool_to_prop.
  cbn [length] in Hle. eapply (Hstep _ [x; y; z; w]); [lia|by eapply utf8_cp_4|done].
Qed.

Lemma utf8_encode_decode b s :
  utf8_decode b = Some s → text_encode s = b ∧ Forall (λ c, scalar c = true) s.
Proof. by apply (utf8_encode_decode_len (length b)). Qed.

Definition BOM : bytes := utf8_cp 0xFEFF.

(** What the fatal decoder returned, encoded again, is the input up to a dropped mark. *)
Lemma text_encode_decode b s :
  text_decode b = Some s →
  (b = text_encode s ∨ b = BOM ++ text_encode s) ∧ Forall (λ c, scalar c = true) s.
Proof.
  unfold text_decode. destruct (utf8_decode b) as [[|c l]|] eqn:E; [..|done].
  - intros [= <-]. apply utf8_encode_decode in E as [<- ?]. auto.
  - apply utf8_encode_decode in E as [<- Hs]. destruct (Z.eqb_spec c 0xFEFF) as [->|]; intros [= <-].
    + apply Forall_cons in Hs as [_ Hs]. split; [by right|done].
    + auto.
Qed.

Lemma text_decode_len b s :
  text_decode b = Some s → blen b = blen (text_encode s) → b = text_encode s.
Proof.
  intros [[->| ->] _]%text_encode_decode; [done|].
  rewrite blen_app. change (blen BOM) with 3. lia.
Qed.

Lemma text_decode_mark s : plain s → text_decode (BOM ++ text_encode s) = Some s.
Proof.
  intros [Hs _]. unfold text_decode. change BOM with (utf8_cp 0xFEFF).
  by rewrite utf8_decode_cp, utf8_decode_encode.
Qed.
