(* ===== verification/Crypto.v ===== *)
(** * The cryptographic libraries the sources call

    None of this code is under [src/]: SHA-256 and secp256k1 come from
    [@noble/hashes] and [@noble/curves].  Each is a class of operations; what the
    sources rely on is a law of a class of its own, assumed only where a theorem says
    so. *)
From S2P Require Import Prelude Bytes.

(** [sha256] of [@noble/hashes] *)
Class Hash := sha256 : bytes → bytes.

(** a digest is 32 bytes *)
Class HashLen `{Hash} : Prop := sha256_len : ∀ m, blen (sha256 m) = 32.

(** No two of the byte strings that satisfy [P] collide. *)
Definition collision_free_on `{Hash} (P : bytes → Prop) : Prop :=
  ∀ m n, P m → P n → sha256 m = sha256 n → m = n.

(** [bytesToPoint] does not throw on this compressed point *)
Class PointParser := is_point : bytes → bool.
