(* ===== verification/Bitmap.v ===== *)
(** * Presence bitmaps

    The slot-split tail marks which outputs carry an encrypted note: bit [i mod 8] of
    byte [i / 8].  [bits] reads a bitmap as a list of booleans; the operations of the
    encoder and the decoder are related to it. *)
From S2P Require Import Prelude Bytes.

(** [bitmap[Math.floor(i / 8)] |= 1 << (i % 8)] *)
Definition set_bit (bm : bytes) (i : nat) : bytes :=
  alter (λ b, byte_of_Z (Z.lor (byteZ b) (Z.shiftl 1 (Z.of_nat (i mod 8))))) (i / 8)%nat bm.

(** [(bitmap[Math.floor(i / 8)] >> (i % 8)) & 1] *)
Definition bit_at (bm : bytes) (i : nat) : bool :=
  negb (Z.land (Z.shiftr (byteZ (nth (i / 8) bm x00)) (Z.of_nat (i mod 8))) 1 =? 0).

(** [while (b) { notesCount += b & 1; b >>>= 1; }]; a byte needs eight rounds. *)
Fixpoint popcount_loop (fuel : nat) (b count : Z) : Z :=
  match fuel with
  | O => count
  | S fuel => if b =? 0 then count else popcount_loop fuel (Z.shiftr b 1) (count + Z.land b 1)
  end.

Definition popcount (bm : bytes) : Z :=
  fold_left (λ count b, popcount_loop 8 (byteZ b) count) bm 0.

(** [Math.ceil(n / 8)] *)
Definition bitmap_len (n : nat) : nat := ((n + 7) / 8)%nat.

(** ** The list of bits *)
Definition byte_bits (b : byte) : list bool := map (λ i, Z.testbit (byteZ b) (Z.of_nat i)) (seq 0 8).
Definition bits (bm : bytes) : list bool := concat (map byte_bits bm).

Definition count_true (l : list bool) : Z := fold_right (λ b n, Z.b2z b + n) 0 l.

Lemma length_bits bm : length (bits bm) = (8 * length bm)%nat.
Proof. induction bm as [|b bm IH]; [done|]. unfold bits in *. cbn [map concat]. rewrite length_app, IH. simpl. lia. Qed.

Lemma byte_bits_inj b c : byte_bits b = byte_bits c → b = c.
Proof.
  intros H. apply byteZ_inj, Z.bits_inj'. intros i Hi.
  destruct (Z.lt_ge_cases i 8) as [Hlt|Hge].
  - assert (Hn : ∀ b, nth (Z.to_nat i) (byte_bits b) false = Z.testbit (byteZ b) i).
    { intros b0. unfold byte_bits. rewrite nth_indep with (d' := Z.testbit (byteZ b0) (Z.of_nat 0)) by (simpl; lia).
      rewrite (map_nth (λ i, Z.testbit (byteZ b0) (Z.of_nat i))), seq_nth by lia. f_equal. lia. }
    by rewrite <- !Hn, H.
  - assert (Hhigh : ∀ b, Z.testbit (byteZ b) i = false); [|by rewrite !Hhigh].
    intros d. rewrite <- (Z.mod_small (byteZ d) (2 ^ 8)) by apply byteZ_range.
    by apply Z.mod_pow2_bits_high.
Qed.

Lemma bits_inj bm bm' : bits bm = bits bm' → bm = bm'.
Proof.
  revert bm'; induction bm as [|b bm IH]; intros [|c bm'] H; try done.
  unfold bits in *. cbn [map concat] in H. apply app_inj_1 in H as [Hb H]; [|done].
  f_equal; [by apply byte_bits_inj|by apply IH].
Qed.

(** Facts about one byte and one bit position, checked on all of them. *)
Definition all_bytes : bytes := map (λ i, byte_of_Z (Z.of_nat i)) (seq 0 256).

Lemma byte_enum (P : byte → nat → bool) :
  forallb (λ b, forallb (P b) (seq 0 8)) all_bytes = true → ∀ b i, (i < 8)%nat → P b i = true.
Proof.
  intros H b i Hi. rewrite forallb_forall in H.
  assert (Hb : In b all_bytes).
  { unfold all_bytes. apply in_map_iff. exists (Z.to_nat (byteZ b)). pose proof (byteZ_range b).
    rewrite Z2Nat.id, byte_of_byteZ by lia. split; [done|]. apply in_seq. lia. }
  specialize (H b Hb). rewrite forallb_forall in H. apply H, in_seq. lia.
Qed.

Lemma byte_set_bit b i : (i < 8)%nat →
  byte_bits (byte_of_Z (Z.lor (byteZ b) (Z.shiftl 1 (Z.of_nat i)))) = <[i:=true]> (byte_bits b).
Proof.
  intros Hi. refine (bool_decide_eq_true_1 _ (byte_enum (λ b i,
    bool_decide (byte_bits (byte_of_Z (Z.lor (byteZ b) (Z.shiftl 1 (Z.of_nat i))))
    = <[i:=true]> (byte_bits b))) _ b i Hi)). by vm_compute.
Qed.

Lemma byte_bit_at b i : (i < 8)%nat →
  negb (Z.land (Z.shiftr (byteZ b) (Z.of_nat i)) 1 =? 0) = nth i (byte_bits b) false.
Proof.
  intros Hi. refine (bool_decide_eq_true_1 _ (byte_enum (λ b i,
    bool_decide (negb (Z.land (Z.shiftr (byteZ b) (Z.of_nat i)) 1 =? 0)
    = nth i (byte_bits b) false)) _ b i Hi)). by vm_compute.
Qed.

Lemma byte_popcount b : popcount_loop 8 (byteZ b) 0 = count_true (byte_bits b).
Proof.
  refine (bool_decide_eq_true_1 _ (byte_enum (λ b _,
    bool_decide (popcount_loop 8 (byteZ b) 0 = count_true (byte_bits b))) _ b 0%nat _)); [|lia].
  by vm_compute.
Qed.

Lemma byte_padding b r : (r < 8)%nat →
  Z.land (byteZ b) (Z.lnot (Z.shiftl 1 (Z.of_nat r) - 1)) = 0 ↔
  drop r (byte_bits b) = replicate (8 - r) false.
Proof.
  intros Hi. rewrite <- Z.eqb_eq, <- (bool_decide_eq_true (drop r (byte_bits b) = replicate (8 - r) false)).
  assert (Hiff : ∀ x y : bool, Bool.eqb x y = true → x = true ↔ y = true) by (by intros [] []).
  apply Hiff.
  refine (byte_enum (λ b r, Bool.eqb (Z.land (byteZ b) (Z.lnot (Z.shiftl 1 (Z.of_nat r) - 1)) =? 0)
    (bool_decide (drop r (byte_bits b) = replicate (8 - r) false))) _ b r Hi). by vm_compute.
Qed.

(** ** Whole bitmaps *)
Lemma popcount_shift fuel b c : popcount_loop fuel b c = c + popcount_loop fuel b 0.
Proof.
  revert b c; induction fuel as [|fuel IH]; intros b c; cbn [popcount_loop]; [lia|].
  destruct (b =? 0); [lia|]. rewrite IH, (IH _ (0 + _)). lia.
Qed.

Lemma count_true_app l k : count_true (l ++ k) = count_true l + count_true k.
Proof.
  unfold count_true. induction l as [|b l IH]; cbn [app fold_right]; [done|]. rewrite IH. lia.
Qed.

Lemma popcount_bits bm : popcount bm = count_true (bits bm).
Proof.
  unfold popcount. rewrite <- (Z.add_0_l (count_true (bits bm))). generalize 0.
  induction bm as [|b bm IH]; intros c; cbn [fold_left]; [unfold bits; cbn; lia|].
  rewrite IH, popcount_shift, byte_popcount. unfold bits. cbn [map concat]. rewrite count_true_app. lia.
Qed.

Lemma bits_cons b bm : bits (b :: bm) = byte_bits b ++ bits bm.
Proof. done. Qed.

Lemma div8_cases i : (i < 8)%nat ∧ (i / 8 = 0)%nat ∧ (i mod 8 = i)%nat ∨
  ∃ j, i = (8 + j)%nat ∧ (i / 8 = S (j / 8))%nat ∧ (i mod 8 = j mod 8)%nat.
Proof.
  destruct (decide (i < 8)%nat).
  - left. split; [done|]. split; [by apply Nat.div_small|by apply Nat.mod_small].
  - right. exists (i - 8)%nat. assert (i = 8 + (i - 8))%nat as Hi by lia. split; [done|].
    rewrite Hi at 1 3. split.
    + replace (8 + (i - 8))%nat with (1 * 8 + (i - 8))%nat by lia. by rewrite Nat.div_add_l.
    + replace (8 + (i - 8))%nat with ((i - 8) + 1 * 8)%nat by lia. by rewrite Nat.Div0.mod_add.
Qed.

Lemma bits_set_bit bm i : (i < 8 * length bm)%nat → bits (set_bit bm i) = <[i:=true]> (bits bm).
Proof.
  revert i; induction bm as [|b bm IH]; intros i Hi; [simpl in Hi; lia|].
  unfold set_bit. destruct (div8_cases i) as [(Hs & -> & ->)|(j & -> & -> & ->)].
  - cbn [alter list_alter]. rewrite !bits_cons, byte_set_bit by done.
    by rewrite insert_app_l.
  - cbn [alter list_alter]. rewrite !bits_cons.
    change (alter _ (j / 8)%nat bm) with (set_bit bm j). rewrite IH by (simpl in Hi; lia).
    rewrite insert_app_r_alt by (simpl; lia). do 2 f_equal. simpl. lia.
Qed.

Lemma bit_at_bits bm i : bit_at bm i = nth i (bits bm) false.
Proof.
  revert i; induction bm as [|b bm IH]; intros i; unfold bit_at.
  - rewrite nth_overflow by (simpl; lia). cbn [bits map concat]. rewrite nth_overflow by (simpl; lia).
    change (byteZ x00) with 0. by rewrite Z.shiftr_0_l.
  - rewrite bits_cons. destruct (div8_cases i) as [(Hs & -> & ->)|(j & -> & -> & ->)].
    + cbn [nth]. rewrite byte_bit_at by done. rewrite app_nth1; [done|done].
    + cbn [nth]. rewrite app_nth2 by (simpl; lia). replace (8 + j - length (byte_bits b))%nat with j by (simpl; lia).
      apply IH.
Qed.

(** ** Optional notes behind a bitmap *)
Abbreviation NOTE_LEN := 122.

(** the encoder's loop: [i] counts the notes seen, [bm] is the bitmap so far *)
Fixpoint push_notes (i : nat) (notes : list (option bytes)) (bm : bytes) : res (bytes * bytes) :=
  match notes with
  | [] => mret (bm, [])
  | None :: notes => push_notes (S i) notes bm
  | Some n :: notes =>
      throw_if (negb (blen n =? NOTE_LEN)) "encryptedNotes[i] must be null or a 122-byte Uint8Array";;
      '(bm, rest) ← push_notes (S i) notes (set_bit bm i);
      mret (bm, n ++ rest)
  end.

Definition encode_notes (notes : list (option bytes)) : res bytes :=
  '(bm, ns) ← push_notes 0 notes (zeros (bitmap_len (length notes)));
  mret (bm ++ ns).

Fixpoint read_flagged (bm : bytes) (idx : list nat) : rd (list (option bytes)) :=
  match idx with
  | [] => mret []
  | i :: idx =>
      o ← if bit_at bm i then n ← slice NOTE_LEN; mret (Some n) else mret None;
      rest ← read_flagged bm idx;
      mret (o :: rest)
  end.

Definition read_notes (n : nat) : rd (list (option bytes)) :=
  let bl := bitmap_len n in
  room (Z.of_nat bl);;
  bm ← slice (Z.of_nat bl);
  null_if (negb (n mod 8 =? 0)%nat &&
           negb (Z.land (byteZ (nth (bl - 1) bm x00)) (Z.lnot (Z.shiftl 1 (Z.of_nat (n mod 8)) - 1)) =? 0));;
  ends_at (popcount bm * NOTE_LEN);;
  read_flagged bm (seq 0 n).

Definition present (o : option bytes) : bool := match o with Some _ => true | None => false end.
Definition note_ok (o : option bytes) : Prop := match o with Some b => blen b = NOTE_LEN | None => True end.
Definition notes_bytes (l : list (option bytes)) : bytes := concat (map (default []) l).

Lemma blen_notes l : Forall note_ok l → blen (notes_bytes l) = NOTE_LEN * count_true (map present l).
Proof.
  induction 1 as [|o l Ho _ IH]; [done|]. unfold notes_bytes, count_true in *. cbn [map concat fold_right].
  rewrite blen_app, IH. destruct o as [b|]; cbn [default present Z.b2z] in *; unfold id; [rewrite Ho; lia|].
  rewrite blen_nil. lia.
Qed.

Lemma push_notes_Ok i l bm pre pad r :
  bits bm = pre ++ replicate (length l + pad) false → length pre = i →
  push_notes i l bm = Ok r ↔
  Forall note_ok l ∧ r.2 = notes_bytes l ∧ bits r.1 = pre ++ map present l ++ replicate pad false.
Proof.
  revert i bm pre r; induction l as [|[n|] l IH]; intros i bm pre [bm' ns] Hbm Hi; cbn [push_notes length] in *.
  - cbn [fst snd map app]. split.
    + by intros [= <- <-].
    + intros (_ & -> & Hb). change (0 + pad)%nat with pad in Hbm. rewrite <- Hbm in Hb. by apply bits_inj in Hb as ->.
  - assert (Hset : bits (set_bit bm i) = (pre ++ [true]) ++ replicate (length l + pad) false).
    { rewrite bits_set_bit.
      - rewrite Hbm. cbn [Nat.add replicate]. rewrite <- Hi, insert_app_r_alt, Nat.sub_diag by lia.
        by rewrite <- app_assoc.
      - rewrite <- length_bits, Hbm, length_app, length_replicate. lia. }
    assert (Hlen : length (pre ++ [true]) = S i) by (rewrite length_app; simpl; lia).
    assert (IH' := λ r, IH (S i) _ _ r Hset Hlen). clear IH. rewrite <- app_assoc in IH'.
    cbn [fst snd map present app] in *. rewrite Forall_cons. cbn [note_ok]. split.
    + intros H. enc_inv H. apply res_bind_Ok in H as ([bm2 rest] & H & [= <- <-]).
      apply IH' in H as (Hl & Hr & Hb). cbn [fst snd] in *. rewrite Hb, Hr.
      split; [split; [lia|done]|]. done.
    + intros ([Hn Hl] & -> & Hb). enc_run lia. apply res_bind_Ok. exists (bm', notes_bytes l).
      split; [|done]. by apply IH'.
  - assert (Hset : bits bm = (pre ++ [false]) ++ replicate (length l + pad) false)
      by (rewrite Hbm, <- app_assoc; done).
    assert (Hlen : length (pre ++ [false]) = S i) by (rewrite length_app; simpl; lia).
    assert (IH' := λ r, IH (S i) _ _ r Hset Hlen). clear IH. rewrite <- app_assoc in IH'.
    cbn [fst snd map present app] in *. rewrite IH', Forall_cons. cbn [fst snd].
    unfold notes_bytes. cbn [map concat default note_ok]. naive_solver.
Qed.

Lemma bits_zeros n : bits (zeros n) = replicate (8 * n) false.
Proof.
  induction n as [|n IH]; [done|]. unfold zeros in *. cbn [replicate]. rewrite bits_cons, IH.
  replace (8 * S n)%nat with (8 + 8 * n)%nat by lia. done.
Qed.

Lemma bitmap_len_bound n : (n <= 8 * bitmap_len n < n + 8)%nat.
Proof.
  unfold bitmap_len. pose proof (Nat.div_mod (n + 7) 8). pose proof (Nat.mod_upper_bound (n + 7) 8). lia.
Qed.

(** What the encoder writes: a bitmap of the right length whose bits say which notes
    are present, its padding clear, and then the notes. *)
Lemma encode_notes_Ok l b :
  encode_notes l = Ok b ↔
  Forall note_ok l ∧ ∃ bm, b = bm ++ notes_bytes l ∧
    bits bm = map present l ++ replicate (8 * bitmap_len (length l) - length l) false.
Proof.
  pose proof (bitmap_len_bound (length l)).
  assert (Hz : bits (zeros (bitmap_len (length l))) =
    [] ++ replicate (length l + (8 * bitmap_len (length l) - length l)) false).
  { rewrite bits_zeros. cbn [app]. f_equal. lia. }
  unfold encode_notes. rewrite res_bind_Ok. split.
  - intros ([bm ns] & Hp & [= <-]). apply (push_notes_Ok _ _ _ _ _ _ Hz) in Hp as (Hl & Hn & Hb); [|done].
    cbn [fst snd app] in *. subst. split; [done|]. by eexists.
  - intros (Hl & bm & -> & Hb). exists (bm, notes_bytes l). split; [|done].
    by apply (push_notes_Ok _ _ _ _ _ _ Hz).
Qed.

(** The decoder reads one note per set bit. *)
Lemma read_flagged_Ok bm idx s l s' :
  read_flagged bm idx s = Ok (l, s') ↔
  s = notes_bytes l ++ s' ∧ map present l = map (bit_at bm) idx ∧ Forall note_ok l.
Proof.
  revert s l s'; induction idx as [|i idx IH]; intros s l s'; cbn [read_flagged map].
  - rewrite rd_ret_Ok. split; [intros [<- ->]; done|]. destruct l; naive_solver.
  - destruct (bit_at bm i) eqn:Ei; split.
    + intros H. rd_inv H.
      match goal with H : read_flagged _ _ _ = _ |- _ => apply IH in H as (-> & Hp & Hl) end.
      subst. unfold notes_bytes. cbn [map concat default present]. unfold id.
      rewrite <- app_assoc. split; [done|]. split; [by rewrite Hp|]. by constructor.
    + intros (-> & Hp & Hl). destruct l as [|[n|] l]; [done| |done]. injection Hp as Hp.
      apply Forall_cons in Hl as [Hn Hl]. unfold notes_bytes. cbn [map concat default]. unfold id.
      rewrite <- app_assoc. rd_run; [exact Hn|done|by apply IH|done].
    + intros H. rd_inv H.
      match goal with H : read_flagged _ _ _ = _ |- _ => apply IH in H as (-> & Hp & Hl) end.
      subst. split; [done|]. split; [by cbn [map present]; rewrite Hp|]. by constructor.
    + intros (-> & Hp & Hl). destruct l as [|[n|] l]; [done|done|]. injection Hp as Hp.
      apply Forall_cons in Hl as [_ Hl]. change (notes_bytes (None :: l)) with (notes_bytes l). rd_run; [done|by apply IH|done].
Qed.

Lemma bit_at_take bm n : (n <= 8 * length bm)%nat → map (bit_at bm) (seq 0 n) = take n (bits bm).
Proof.
  intros Hn. apply (nth_ext _ _ false false).
  - rewrite length_map, length_seq, length_take, length_bits. lia.
  - intros i Hi. rewrite length_map, length_seq in Hi.
    rewrite (nth_indep _ false (bit_at bm 0)) by (rewrite length_map, length_seq; lia).
    rewrite map_nth, seq_nth, bit_at_bits by lia. cbn [Nat.add].
    rewrite <- (take_drop n (bits bm)) at 1. rewrite app_nth1; [done|].
    rewrite length_take, length_bits. lia.
Qed.

(** The decoder's check of the unused high bits of the last byte. *)
Definition padding_bad (n : nat) (bm : bytes) : bool :=
  negb (n mod 8 =? 0)%nat &&
  negb (Z.land (byteZ (nth (bitmap_len n - 1) bm x00)) (Z.lnot (Z.shiftl 1 (Z.of_nat (n mod 8)) - 1)) =? 0).

Lemma padding_ok n bm :
  (1 <= n)%nat → length bm = bitmap_len n →
  padding_bad n bm = false ↔ bits bm = take n (bits bm) ++ replicate (8 * bitmap_len n - n) false.
Proof.
  intros Hn Hl. unfold padding_bad. pose proof (bitmap_len_bound n) as Hb.
  assert (Hmod := Nat.div_mod n 8 ltac:(done)). pose proof (Nat.mod_upper_bound n 8 ltac:(done)) as Hr.
  assert (Hiff : bits bm = take n (bits bm) ++ replicate (8 * bitmap_len n - n) false ↔
                 drop n (bits bm) = replicate (8 * bitmap_len n - n) false).
  { rewrite <- (take_drop n (bits bm)) at 1. split; [by intros ?%app_inv_head|by intros ->]. }
  rewrite Hiff. clear Hiff.
  destruct (Nat.eqb_spec (n mod 8) 0) as [E|E]; cbn [negb andb].
  - split; [intros _|done]. assert (n = 8 * bitmap_len n)%nat as Hn8 by lia.
    rewrite drop_ge by (rewrite length_bits, Hl; lia). replace (8 * bitmap_len n - n)%nat with 0%nat by lia. done.
  - assert (Hlast : ∃ init b, bm = init ++ [b] ∧ length init = (bitmap_len n - 1)%nat).
    { destruct (exists_last (l := bm)) as (init & b & ->); [by intros ->; simpl in Hl; lia|].
      rewrite length_app in Hl. simpl in Hl. exists init, b. split; [done|lia]. }
    destruct Hlast as (init & b & -> & Hi).
    rewrite app_nth2 by lia. rewrite Hi, Nat.sub_diag. cbn [nth].
    rewrite negb_false_iff, Z.eqb_eq, byte_padding by done.
    assert (Hd : drop n (bits (init ++ [b])) = drop (n mod 8) (byte_bits b)).
    { unfold bits. rewrite map_app, concat_app. cbn [map concat]. rewrite app_nil_r.
      rewrite drop_app_ge; fold (bits init); rewrite length_bits, Hi; [f_equal; lia|lia]. }
    rewrite Hd. replace (8 * bitmap_len n - n)%nat with (8 - n mod 8)%nat by lia. done.
Qed.

Lemma count_true_replicate n : count_true (replicate n false) = 0.
Proof. induction n as [|n IH]; [done|]. unfold count_true in *. cbn [replicate fold_right]. rewrite IH. done. Qed.

(** The note tail: what the decoder accepts is exactly what the encoder writes. *)
Theorem notes_codec n s l s' :
  (1 <= n)%nat →
  read_notes n s = Ok (l, s') ↔ s' = [] ∧ length l = n ∧ encode_notes l = Ok s.
Proof.
  intros Hn. unfold read_notes. pose proof (bitmap_len_bound n) as Hbl. rewrite encode_notes_Ok. split.
  - intros H. rd_inv H.
    match goal with Hs : blen ?bm = Z.of_nat _, Hf : read_flagged ?bm _ _ = _, Hp : _ && _ = false |- _ =>
      change (padding_bad n bm = false) in Hp; assert (length bm = bitmap_len n) as Hbm by (unfold blen in Hs; lia);
      apply read_flagged_Ok in Hf as (-> & Hpres & Hl); apply padding_ok in Hp; [|done..];
      rewrite bit_at_take in Hpres by lia
    end.
    assert (length l = n) as Hlen.
    { rewrite <- (length_map present), Hpres, length_take, length_bits. lia. }
    match goal with He : blen (_ ++ _) = popcount _ * _, Hp : bits _ = take _ _ ++ _ |- _ =>
      rewrite popcount_bits, Hp, count_true_app, <- Hpres, count_true_replicate, blen_app,
        blen_notes in He by done;
      assert (blen s' = 0) as ->%blen_0 by (pose proof (blen_nonneg s'); lia)
    end.
    split; [done|]. split; [done|]. split; [done|]. eexists. rewrite app_nil_r. split; [reflexivity|].
    by rewrite Hpres, Hlen.
  - intros (-> & <- & Hl & bm & -> & Hb).
    assert (Hbm : length bm = bitmap_len (length l)).
    { apply (f_equal length) in Hb. rewrite length_bits, length_app, length_map, length_replicate in Hb. lia. }
    assert (Htake : take (length l) (bits bm) = map present l).
    { rewrite Hb. apply take_app_length'. by rewrite length_map. }
    rewrite <- (app_nil_r (notes_bytes l)). rd_run.
    + rewrite blen_app. pose proof (blen_nonneg (notes_bytes l ++ [])). unfold blen in *. lia.
    + unfold blen. lia.
    + change (padding_bad (length l) bm = false). apply padding_ok; [done..|]. by rewrite Htake, Hb.
    + rewrite app_nil_r, blen_notes, popcount_bits, Hb, count_true_app, count_true_replicate by done. lia.
    + apply read_flagged_Ok. split; [reflexivity|]. split; [|done].
      by rewrite bit_at_take, Htake by lia.
Qed.

Lemma count_flags bm idx s :
  NOTE_LEN * count_true (map (bit_at bm) idx) <= blen s → safe_at (read_flagged bm idx) s.
Proof.
  revert s; induction idx as [|i idx IH]; intros s Hs; cbn [read_flagged]; [apply safe_ret|].
  unfold count_true in *. cbn [map fold_right] in Hs.
  assert (0 <= fold_right (λ b n, Z.b2z b + n) 0 (map (bit_at bm) idx)).
  { clear. induction idx; cbn [map fold_right]; [done|]. destruct (bit_at bm a); simpl Z.b2z; lia. }
  destruct (bit_at bm i); cbn [Z.b2z] in Hs.
  - apply safe_bind; [apply safe_bind; [apply safe_slice; lia|intros; apply safe_ret]|].
    intros o s1 H1. rd_inv H1. apply safe_bind; [apply IH; len_lia|]. intros. apply safe_ret.
  - apply safe_bind; [apply safe_ret|]. intros o s1 H1. rd_inv H1.
    apply safe_bind; [apply IH; lia|]. intros. apply safe_ret.
Qed.

Lemma count_true_nonneg l : 0 <= count_true l.
Proof. unfold count_true. induction l as [|[] l IH]; cbn [fold_right Z.b2z]; lia. Qed.

Lemma safe_read_notes n s : (1 <= n)%nat → safe_at (read_notes n) s.
Proof.
  intros Hn. unfold read_notes. repeat safe_step; try len_lia. apply count_flags.
  match goal with Hs : blen ?bm = Z.of_nat _, He : blen _ = popcount ?bm * _ |- _ =>
    rewrite bit_at_take by (unfold blen in Hs; pose proof (bitmap_len_bound n); lia);
    rewrite He, popcount_bits; rewrite <- (take_drop n (bits bm)) at 2; rewrite count_true_app;
    pose proof (count_true_nonneg (drop n (bits bm))); lia
  end.
Qed.
