(* ===== verification/EnvelopeScript.v ===== *)
(** * The Taproot envelope script ([encodeEnvelopeScript], [decodeEnvelopeScript])

    A payload travels as the data pushes of
    [<pubkey> OP_CHECKSIG OP_FALSE OP_IF "TACIT" <version> <chunk>... OP_ENDIF].
    The decoder's [while] loop is [read_pushes], bounded by the length of the script. *)
From S2P Require Import Prelude Bytes.

Definition ENVELOPE_MAGIC : bytes := ascii_bytes "TACIT".
Definition ENVELOPE_VERSION : Z := 0x01.
Definition MAX_SCRIPT_PUSH : Z := 520.
Definition OP_FALSE : Z := 0x00.
Definition OP_PUSHDATA1 : Z := 0x4c.
Definition OP_PUSHDATA2 : Z := 0x4d.
Definition OP_IF : Z := 0x63.
Definition OP_ENDIF : Z := 0x68.
Definition OP_CHECKSIG : Z := 0xac.

Record envelope := Envelope { signingPubXonly : bytes; env_opcode : Z; env_payload : bytes }.

Definition encodePush (data : bytes) : res bytes :=
  if blen data =? 0 then mret (u8b OP_FALSE)
  else if blen data <=? 75 then mret (concatBytes [u8b (blen data); data])
  else if blen data <=? 255 then mret (concatBytes [u8b OP_PUSHDATA1; u8b (blen data); data])
  else if blen data <=? 65535 then mret (concatBytes [u8b OP_PUSHDATA2; le 2 (blen data); data])
  else Throw "push data too large".

(** [for (let i = 0; i < payload.length; i += MAX_SCRIPT_PUSH) chunks.push(payload.slice(...))] *)
Fixpoint split_chunks (fuel : nat) (payload : bytes) : list bytes :=
  match fuel, payload with
  | S fuel, _ :: _ =>
      take (Z.to_nat MAX_SCRIPT_PUSH) payload ::
      split_chunks fuel (drop (Z.to_nat MAX_SCRIPT_PUSH) payload)
  | _, _ => []
  end.

Definition payload_chunks (payload : bytes) : list bytes := split_chunks (length payload) payload.

Fixpoint push_all (l : list bytes) : res bytes :=
  match l with
  | [] => mret []
  | c :: l => x ← encodePush c; rest ← push_all l; mret (x ++ rest)
  end.

Definition encodeEnvelopeScript (signingPubXonly payload : bytes) : res bytes :=
  throw_if (negb (blen signingPubXonly =? 32)) "signing pubkey must be 32 bytes (x-only)";;
  pk ← encodePush signingPubXonly;
  pushes ← push_all ([ENVELOPE_MAGIC; u8b ENVELOPE_VERSION] ++ payload_chunks payload);
  mret (concatBytes [pk; u8b OP_CHECKSIG; u8b OP_FALSE; u8b OP_IF; pushes; u8b OP_ENDIF]).

(** The data of one push, its opcode already read. *)
Definition read_push (op : Z) : rd bytes :=
  if (1 <=? op) && (op <=? 75) then room op;; slice op
  else if op =? OP_PUSHDATA1 then room 1;; ln ← u8; room ln;; slice ln
  else if op =? OP_PUSHDATA2 then room 2;; ln ← u16; room ln;; slice ln
  else if op =? OP_FALSE then mret []
  else null_if true;; mret [].

(** The loop: the pushes up to [OP_ENDIF]; a script that ends first is rejected
    ([sawEndif] is false). *)
Fixpoint read_pushes (fuel : nat) : rd (list bytes) := λ s,
  match fuel, s with
  | O, _ => Oob
  | S _, [] => Null
  | S fuel, op :: s =>
      if byteZ op =? OP_ENDIF then Ok ([], s)
      else (data ← read_push (byteZ op); rest ← read_pushes fuel; mret (data :: rest)) s
  end.

Definition decodeEnvelopeScript (script : bytes) : res envelope :=
  run (
    null_if (blen script <? 36);;
    op ← u8;
    null_if (negb (op =? 32));;
    room 32;;
    signingPubXonly ← slice 32;
    room 1;;
    checksig ← u8;
    null_if (negb (checksig =? OP_CHECKSIG));;
    room 2;;
    op_false ← u8;
    op_if ← u8;
    null_if (negb (op_false =? OP_FALSE) || negb (op_if =? OP_IF));;
    pushes ← read_pushes (S (length script));
    ends_at 0;;
    null_if (Z.of_nat (length pushes) <? 3);;
    null_if (negb (bool_decide (nth 0 pushes [] = ENVELOPE_MAGIC)));;
    null_if (negb (bool_decide (nth 1 pushes [] = u8b ENVELOPE_VERSION)));;
    let payload := concatBytes (drop 2 pushes) in
    null_if (blen payload <? 1);;
    mret (Envelope signingPubXonly (byteZ (nth 0 payload x00)) payload)) script.

(** ** Chunking *)
Lemma split_chunks_concat fuel p :
  (length p <= fuel)%nat → concat (split_chunks fuel p) = p.
Proof.
  revert p; induction fuel as [|fuel IH]; intros [|x p] Hl; cbn [split_chunks concat length] in *;
    [done|lia|done|].
  rewrite IH by (rewrite length_drop; unfold MAX_SCRIPT_PUSH; cbn [length]; lia).
  by rewrite take_drop.
Qed.

Lemma payload_chunks_concat p : concat (payload_chunks p) = p.
Proof. by apply split_chunks_concat. Qed.

Lemma split_chunks_bound fuel p : Forall (λ c, 1 <= blen c <= MAX_SCRIPT_PUSH) (split_chunks fuel p).
Proof.
  revert p; induction fuel as [|fuel IH]; intros [|x p]; cbn [split_chunks]; try done.
  constructor; [|apply IH]. unfold blen. rewrite length_take. unfold MAX_SCRIPT_PUSH.
  cbn [length]. lia.
Qed.

(** ** Pushes *)
(** An encoded push starts with an opcode that is not [OP_ENDIF], and the decoder reads
    the data back from what follows. *)
Lemma encodePush_read data b s :
  encodePush data = Ok b →
  ∃ op rest, b = op :: rest ∧ byteZ op ≠ OP_ENDIF ∧ read_push (byteZ op) (rest ++ s) = Ok (data, s).
Proof.
  assert (Hone : ∀ v, 0 <= v < 256 → byteZ (byte_of_Z v) = v) by (intros; by rewrite byteZ_of_Z, Z.mod_small).
  pose proof (blen_nonneg data). unfold encodePush, OP_ENDIF, OP_FALSE, OP_PUSHDATA1, OP_PUSHDATA2.
  destruct (Z.eqb_spec (blen data) 0) as [H0|]; [|destruct (Z.leb_spec (blen data) 75);
    [|destruct (Z.leb_spec (blen data) 255); [|destruct (Z.leb_spec (blen data) 65535); [|done]]]];
    intros [= <-]; unfold u8b, concatBytes; cbn [concat app]; rewrite ?app_nil_r; eexists _, _;
    (split; [reflexivity|]); rewrite !Hone by lia; (split; [lia|]); unfold read_push;
    unfold OP_PUSHDATA1, OP_PUSHDATA2, OP_FALSE.
  - apply blen_0 in H0 as ->. done.
  - zcases. rd_run; len_lia.
  - change ((1 <=? 76) && (76 <=? 75)) with false. cbv iota. rewrite <- ?app_assoc.
    change (76 =? 76) with true. cbv iota.
    apply rd_bind_Ok. exists tt. eexists. split; [rd_step; len_lia|].
    apply rd_bind_Ok. exists (blen data), (data ++ s). split; [|rd_run; len_lia].
    apply u8_Ok. split; [done|lia].
  - change ((1 <=? 77) && (77 <=? 75)) with false. change (77 =? 76) with false.
    change (77 =? 77) with true. cbv iota. rewrite <- app_assoc. rd_run; len_lia.
Qed.

Lemma push_all_read l b s fuel :
  push_all l = Ok b → (length l < fuel)%nat →
  read_pushes fuel (b ++ u8b OP_ENDIF ++ s) = Ok (l, s).
Proof.
  revert b fuel; induction l as [|c l IH]; intros b [|fuel] Hp Hf; cbn [length] in Hf; try lia.
  - injection Hp as <-. done.
  - cbn [push_all] in Hp. apply res_bind_Ok in Hp as (x & Hx & Hp).
    apply res_bind_Ok in Hp as (rest & Hr & [= <-]).
    destruct (encodePush_read _ _ (rest ++ u8b OP_ENDIF ++ s) Hx) as (op & r & -> & Hop & Hread).
    rewrite <- app_assoc. cbn [app read_pushes]. apply Z.eqb_neq in Hop. rewrite Hop.
    apply rd_bind_Ok. eexists _, _. split; [exact Hread|].
    apply rd_bind_Ok. eexists _, _. split; [apply IH; [done|lia]|]. done.
Qed.

Lemma push_all_len l b : push_all l = Ok b → Z.of_nat (length l) <= blen b.
Proof.
  revert b; induction l as [|c l IH]; intros b; cbn [push_all length]; [intros [= <-]; done|].
  intros (x & Hx & (rest & Hr & [= <-])%res_bind_Ok)%res_bind_Ok.
  destruct (encodePush_read _ _ [] Hx) as (op & r & -> & _). specialize (IH _ Hr). len_lia.
Qed.

Lemma push_all_Ok l : Forall (λ c, blen c <= 65535) l → ∃ b, push_all l = Ok b.
Proof.
  induction 1 as [|c l Hc _ [b IH]]; [by eexists|]. cbn [push_all].
  assert (∃ x, encodePush c = Ok x) as [x ->].
  { unfold encodePush. zcases; by eexists. }
  rewrite IH. by eexists.
Qed.

(** The encoder never refuses a payload: its chunks are at most 520 bytes. *)
Lemma encodeEnvelopeScript_Ok pk p : blen pk = 32 → ∃ s, encodeEnvelopeScript pk p = Ok s.
Proof.
  intros Hpk. unfold encodeEnvelopeScript. rewrite Hpk. cbn [negb Z.eqb throw_if].
  unfold encodePush at 1. rewrite Hpk. cbn.
  destruct (push_all_Ok (payload_chunks p)) as [b ->]; [|by eexists].
  eapply Forall_impl; [apply split_chunks_bound|]. unfold MAX_SCRIPT_PUSH. simpl. lia.
Qed.

(** The envelope round trip. *)
Lemma envelope_round pk x p s :
  encodeEnvelopeScript pk (x :: p) = Ok s →
  decodeEnvelopeScript s = Ok (Envelope pk (byteZ x) (x :: p)).
Proof.
  unfold encodeEnvelopeScript. intros H. enc_inv H. bool_to_prop.
  assert (encodePush pk = Ok (u8b 32 ++ pk)) as Hpk.
  { unfold encodePush. rewrite H0. unfold concatBytes. cbn. by rewrite app_nil_r. }
  rewrite Hpk in H. apply res_bind_Ok in H as (? & [= <-] & H).
  apply res_bind_Ok in H as (b & Hb & [= <-]).
  assert (Hlen := push_all_len _ _ Hb). cbn [length app] in Hlen.
  assert (Hne : payload_chunks (x :: p) ≠ []) by done.
  assert (1 <= Z.of_nat (length (payload_chunks (x :: p))))
    by (destruct (payload_chunks (x :: p)); [done|cbn [length]; lia]).
  apply run_Ok. rewrite !concatBytes_cons, concatBytes_nil.
  change (byte_of_Z 32 :: pk) with (u8b 32 ++ pk). rewrite <- app_assoc, app_nil_r.
  unfold OP_CHECKSIG, OP_FALSE, OP_IF.
  eexists. rd_run; try guard_solve.
  - apply (push_all_read _ _ []); [exact Hb|]. rewrite !length_app. cbn [length app]. len_lia.
  - done.
  - cbn [app length]. bool_goal. len_lia.
  - done.
  - done.
  - cbn [app drop]. unfold concatBytes. rewrite drop_0, payload_chunks_concat. len_lia.
  - cbn [app drop]. unfold concatBytes. by rewrite drop_0, payload_chunks_concat.
Qed.

(** An empty payload is written but never read back: the decoder wants a third push. *)
Lemma envelope_empty pk s : encodeEnvelopeScript pk [] = Ok s → decodeEnvelopeScript s = Null.
Proof.
  unfold encodeEnvelopeScript. intros H. enc_inv H. bool_to_prop.
  assert (encodePush pk = Ok (u8b 32 ++ pk)) as Hpk.
  { unfold encodePush. rewrite H0. unfold concatBytes. cbn. by rewrite app_nil_r. }
  rewrite Hpk in H. apply res_bind_Ok in H as (? & [= <-] & H).
  apply res_bind_Ok in H as (b & Hb & [= <-]).
  destruct pk as [|? pk]; [done|]. do 31 (destruct pk as [|? pk]; [done|]).
  destruct pk as [|? pk]; [|repeat rewrite blen_cons in H0; pose proof (blen_nonneg pk); lia].
  injection Hb as <-. reflexivity.
Qed.

(** ** Totality *)
Lemma safe_read_push op s : safe_at (read_push op) s.
Proof.
  unfold read_push. repeat safe_step; try len_lia.
  all: try (match goal with H : null_if true _ = _ |- _ => discriminate H end).
Qed.

Lemma read_push_shrinks op s d s' : read_push op s = Ok (d, s') → blen s' <= blen s.
Proof.
  unfold read_push. intros H. pose proof (blen_nonneg s').
  destruct (_ && _) eqn:E; [bool_to_prop; rd_inv H; len_lia|].
  destruct (_ =? OP_PUSHDATA1); [rd_inv H; len_lia|].
  destruct (_ =? OP_PUSHDATA2); [rd_inv H; len_lia|].
  destruct (_ =? OP_FALSE); rd_inv H; [lia|done].
Qed.

(** The loop needs no more iterations than there are bytes. *)
Lemma safe_read_pushes fuel s : (length s < fuel)%nat → safe_at (read_pushes fuel) s.
Proof.
  unfold safe_at. revert s; induction fuel as [|fuel IH]; intros s Hf; [lia|].
  destruct s as [|op s]; [by left|]. cbn [read_pushes length] in *.
  destruct (_ =? _); [right; by eexists|].
  change (safe_at (data ← read_push (byteZ op); rest ← read_pushes fuel; mret (data :: rest)) s).
  apply safe_bind; [apply safe_read_push|]. intros d s' Hd%read_push_shrinks.
  apply safe_bind; [apply IH; len_lia|]. intros. apply safe_ret.
Qed.

Ltac safe_hook ::= apply safe_read_pushes.

Lemma decodeEnvelopeScript_total s : total (decodeEnvelopeScript s).
Proof. unfold decodeEnvelopeScript. safe_run. rewrite !length_app. lia. Qed.

(** What an accepted script looks like. *)
Lemma decodeEnvelopeScript_shape s e :
  decodeEnvelopeScript s = Ok e →
  blen (signingPubXonly e) = 32 ∧ ∃ x rest, env_payload e = x :: rest ∧ env_opcode e = byteZ x.
Proof.
  unfold decodeEnvelopeScript. rewrite run_Ok. intros [s' H]. rd_inv H. subst e.
  cbn [signingPubXonly env_payload env_opcode]. split; [done|].
  destruct (concatBytes _) as [|x r]; [done|]. by eexists _, _.
Qed.

(** ** The client's view: messages in transactions

    Sending a message wraps its encoding in an envelope; receiving dispatches on the
    envelope's opcode.  Proved against the [WireCodec] interface, so it holds of every
    format that implements it. *)
Section client.
Context `{WireCodec A}.

Definition send (pk : bytes) (x : A) : res bytes := p ← enc x; encodeEnvelopeScript pk p.

Definition receive (script : bytes) : res A :=
  env ← decodeEnvelopeScript script;
  null_when (negb (env_opcode env =? wire_op));;
  dec (env_payload env).

Lemma send_receive pk x s : 0 <= wire_op < 256 → sendable x → send pk x = Ok s → receive s = Ok x.
Proof.
  intros Hop Hx. unfold send, receive. intros (p & Hp & Hs)%res_bind_Ok.
  destruct (wire_opcode _ _ Hp) as [rest Hrest]. unfold u8b in Hrest. cbn [app] in Hrest.
  pose proof (wire_round _ _ Hp Hx) as Hd. rewrite Hrest in *.
  apply envelope_round in Hs as ->. cbn [mbind res_bind env_opcode env_payload].
  rewrite byteZ_of_Z, Z.mod_small, Z.eqb_refl by done. done.
Qed.

Lemma receive_total s : total (receive s).
Proof.
  unfold receive, total. destruct (decodeEnvelopeScript_total s) as [->|[e ->]]; [by left|].
  cbn [mbind res_bind]. unfold null_when. case_match; [by left|]. apply wire_total.
Qed.
End client.
