(* ===== verification/CodecTransfer.v ===== *)
(** * Transfer and atomic-trade envelopes ([dapp/tacit.js])

    One module per payload format: [Cxfer] (CXFER and CXFER_BPP), [CxferBound],
    [Axfer] (AXFER, AXFER_BPP), [AxferVar] (AXFER_VAR, AXFER_VAR_BPP),
    [PreauthBid] and [PreauthBidVar].  Each has the record the decoder builds, the
    encoder, the decoder, and the [WireCodec] instance that ties them. *)
From S2P Require Import Prelude Bytes.

Definition T_CXFER : Z := 0x23.
Definition T_CXFER_BPP : Z := 0x22.
Definition T_CXFER_BOUND : Z := 0x39.
Definition T_AXFER : Z := 0x26.
Definition T_AXFER_BPP : Z := 0x3C.
Definition T_AXFER_VAR : Z := 0x37.
Definition T_AXFER_VAR_BPP : Z := 0x3D.
Definition T_PREAUTH_BID : Z := 0x5B.
Definition T_PREAUTH_BID_VAR : Z := 0x5C.

Record output := Output { commitment : bytes; encryptedAmount : bytes }.

Definition output_bytes (o : output) : bytes := commitment o ++ encryptedAmount o.
Definition output_wf (o : output) : Prop := blen (commitment o) = 33 ∧ blen (encryptedAmount o) = 8.

Definition read_output : rd output :=
  room (33 + 8);;
  c ← slice 33;
  e ← slice 8;
  mret (Output c e).

Lemma read_output_Ok s o s' : read_output s = Ok (o, s') ↔ s = output_bytes o ++ s' ∧ output_wf o.
Proof.
  unfold read_output, output_bytes, output_wf. split.
  - intros H. rd_inv H. subst o. simpl. rewrite <- app_assoc. auto.
  - destruct o as [c e]; simpl. intros [-> [Hc He]]. rewrite <- app_assoc.
    rd_run; try done. len_lia.
Qed.

Definition outputs_bytes (l : list output) : bytes := concat (map output_bytes l).

Lemma blen_outputs l : Forall output_wf l → blen (outputs_bytes l) = 41 * Z.of_nat (length l).
Proof.
  unfold outputs_bytes. induction 1 as [|o l [Hc He] _ IH]; [done|]. simpl.
  unfold output_bytes at 1. len_lia.
Qed.

(** [for (const o of outputs) { ...checks...; parts.push(o.commitment, o.encryptedAmount); }] *)
Fixpoint push_outputs (l : list output) : res bytes :=
  match l with
  | [] => mret []
  | o :: l =>
      throw_if (negb (blen (commitment o) =? 33)) "commitment 33 bytes";;
      throw_if (negb (blen (encryptedAmount o) =? 8)) "encrypted_amount must be 8 bytes";;
      rest ← push_outputs l;
      mret (commitment o ++ encryptedAmount o ++ rest)
  end.

Lemma outputs_bytes_cons o l :
  outputs_bytes (o :: l) = commitment o ++ encryptedAmount o ++ outputs_bytes l.
Proof. unfold outputs_bytes, output_bytes. simpl. by rewrite <- app_assoc. Qed.

Lemma push_outputs_Ok l b : push_outputs l = Ok b ↔ b = outputs_bytes l ∧ Forall output_wf l.
Proof.
  revert b; induction l as [|o l IH]; intros b; cbn [push_outputs].
  - split; [intros [= <-]; auto|by intros [-> _]].
  - rewrite outputs_bytes_cons, Forall_cons. split.
    + intros H. enc_inv H. apply res_bind_Ok in H as (r & [-> Hl]%IH & [= <-]).
      unfold output_wf. repeat split; auto; lia.
    + intros [-> [[Hc He] Hl]]. enc_run ltac:(lia).
      apply res_bind_Ok. eexists. split; [by apply IH|done].
Qed.

Lemma repeat_output_Ok n s l s' :
  repeatM n read_output s = Ok (l, s') ↔ s = outputs_bytes l ++ s' ∧ length l = n ∧ Forall output_wf l.
Proof. apply repeatM_Ok, read_output_Ok. Qed.

Ltac rd_inv_hook H ::=
  lazymatch type of H with
  | repeatM _ read_output _ = Ok _ =>
      let Hn := fresh "Hn" in let Hwf := fresh "Hwf" in
      apply repeat_output_Ok in H as (-> & Hn & Hwf)
  | _ => idtac
  end.
Ltac rd_step_hook ::=
  lazymatch goal with
  | |- repeatM _ read_output _ = Ok _ => apply repeat_output_Ok; split; [reflexivity|]
  | _ => idtac
  end.

Lemma safe_read_outputs n s : safe_at (repeatM n read_output) s.
Proof. apply safe_repeatM. intros s0. unfold read_output. repeat safe_step; len_lia. Qed.
Ltac safe_hook ::= apply safe_read_outputs.

Module Cxfer.
Record t := Mk { assetId : bytes; kernelSig : bytes; outputs : list output; rangeproof : bytes }.

Definition decode_with (op : Z) (payload : bytes) : res t :=
  run (
    null_if (blen payload <? 1 + 32 + 64 + 1 + (33 + 8) + 2);;
    opcode op;;
    assetId ← slice 32;
    kernelSig ← slice 64;
    n ← u8;
    null_if (negb (includes [1; 2; 4; 8] n));;
    outputs ← repeatM (Z.to_nat n) read_output;
    room 2;;
    rpLen ← u16;
    ends_at rpLen;;
    rangeproof ← slice rpLen;
    mret (Mk assetId kernelSig outputs rangeproof)) payload.

Definition encode_with (op : Z) (x : t) : res bytes :=
  throw_if (negb (blen (assetId x) =? 32)) "asset_id 32 bytes";;
  throw_if (negb (blen (kernelSig x) =? 64)) "kernel_sig must be 64 bytes";;
  throw_if (negb (includes [1; 2; 4; 8] (Z.of_nat (length (outputs x))))) "outputs must be in {1,2,4,8}";;
  throw_if (blen (rangeproof x) >? 0xffff) "rangeproof too large";;
  outs ← push_outputs (outputs x);
  mret (concatBytes [u8b op; assetId x; kernelSig x; u8b (Z.of_nat (length (outputs x))); outs;
                     le 2 (blen (rangeproof x)); rangeproof x]).

Ltac fields := cbn [assetId kernelSig outputs rangeproof] in *.

Lemma cxfer_codec op p x : 0 <= op < 256 → decode_with op p = Ok x ↔ encode_with op x = Ok p.
Proof.
  intros Hop. unfold decode_with, encode_with. rewrite run_Ok. split.
  - intros [s H]. rd_inv H. rd_close. subst x. fields. enc_guards.
    apply res_bind_Ok. eexists. split; [by apply push_outputs_Ok|].
    rewrite Hn, Z2Nat.id by lia. by subst a7.
  - destruct x as [a k o r]; fields. unfold includes in *; cbn [existsb] in *.
    intros H. enc_inv H. apply res_bind_Ok in H as (? & [-> Hwf]%push_outputs_Ok & [= <-]).
    pose proof (blen_outputs _ Hwf). rewrite !concatBytes_cons, concatBytes_nil.
    eexists. rd_run. all: guard_solve.
Qed.

Lemma cxfer_decode_total op p : 0 <= op < 256 → total (decode_with op p).
Proof. intros. unfold decode_with. safe_run. Qed.

Lemma encode_opcode op x p : encode_with op x = Ok p → ∃ rest, p = u8b op ++ rest.
Proof.
  unfold encode_with. intros H. enc_inv H. apply res_bind_Ok in H as (? & _ & [= <-]).
  rewrite concatBytes_cons. eauto.
Qed.

Definition wire (op : Z) (Hop : 0 <= op < 256) : WireCodec t.
Proof.
  refine {| wire_op := op; enc := encode_with op; dec := decode_with op;
            sendable _ := True; canonical _ _ := True |}.
  - intros x p H _. by apply cxfer_codec.
  - intros p x H _. by apply cxfer_codec in H.
  - intros p. by apply cxfer_decode_total.
  - apply encode_opcode.
Defined.
End Cxfer.

Definition encodeCXferPayload := Cxfer.encode_with T_CXFER.
Definition decodeCXferPayload := Cxfer.decode_with T_CXFER.
Definition encodeCXferBppPayload := Cxfer.encode_with T_CXFER_BPP.
Definition decodeCXferBppPayload := Cxfer.decode_with T_CXFER_BPP.

Lemma cxfer_op : 0 <= T_CXFER < 256. Proof. done. Qed.
Definition cxfer_wire : WireCodec Cxfer.t := Cxfer.wire T_CXFER cxfer_op.

(** The bound transfer: the same body after a 32-byte chain binding. *)
Module CxferBound.
Record t := Mk { targetChainBinding : bytes; assetId : bytes; kernelSig : bytes;
                 outputs : list output; rangeproof : bytes }.

Definition decodeCXferBoundPayload (payload : bytes) : res t :=
  run (
    null_if (blen payload <? 1 + 32 + 32 + 64 + 1 + (33 + 8) + 2);;
    opcode T_CXFER_BOUND;;
    targetChainBinding ← slice 32;
    assetId ← slice 32;
    kernelSig ← slice 64;
    n ← u8;
    null_if (negb (includes [1; 2; 4; 8] n));;
    outputs ← repeatM (Z.to_nat n) read_output;
    room 2;;
    rpLen ← u16;
    ends_at rpLen;;
    rangeproof ← slice rpLen;
    mret (Mk targetChainBinding assetId kernelSig outputs rangeproof)) payload.

Lemma cxferBound_decode_total p : total (decodeCXferBoundPayload p).
Proof. unfold decodeCXferBoundPayload. safe_run. Qed.

(** A bound transfer is accepted exactly when dropping its chain binding leaves an
    accepted plain transfer with the same fields. *)
Lemma bound_is_cxfer p x :
  decodeCXferBoundPayload p = Ok x ↔
  blen (targetChainBinding x) = 32 ∧
  ∃ body, p = u8b T_CXFER_BOUND ++ targetChainBinding x ++ body ∧
    decodeCXferPayload (u8b T_CXFER ++ body) =
      Ok (Cxfer.Mk (assetId x) (kernelSig x) (outputs x) (rangeproof x)).
Proof.
  unfold decodeCXferBoundPayload, decodeCXferPayload, Cxfer.decode_with. rewrite !run_Ok. split.
  - intros [s H]. rd_inv H. rd_close. subst x. cbn. split; [done|].
    eexists; split; [reflexivity|]. pose proof (blen_outputs _ Hwf).
    apply run_Ok. unfold includes in *; cbn [existsb] in *.
    eexists. rd_run; guard_solve.
  - intros (Hb & body & -> & H). apply run_Ok in H as [s H]. rd_inv H.
    match goal with E : u8b _ ++ body = _ |- _ => apply app_inv_head in E; subst body end.
    destruct x; cbn in *. simplify_eq.
    rd_close. unfold includes in *; cbn [existsb] in *. pose proof (blen_outputs _ Hwf).
    eexists. rd_run; guard_solve.
Qed.
End CxferBound.

(** ** Atomic transfers *)
Ltac outs_goal := unfold includes in *; cbn [existsb] in *.

Module Axfer.
Record t := Mk { assetId : bytes; assetInputCount : Z; kernelSig : bytes;
                 outputs : list output; rangeproof : bytes }.

Definition decode_with (op : Z) (payload : bytes) : res t :=
  run (
    null_if (blen payload <? 1 + 32 + 1 + 64 + 1 + (33 + 8) + 2);;
    opcode op;;
    assetId ← slice 32;
    assetInputCount ← u8;
    null_if (assetInputCount <? 1);;
    kernelSig ← slice 64;
    n ← u8;
    null_if (negb (includes [1; 2; 4; 8] n));;
    outputs ← repeatM (Z.to_nat n) read_output;
    room 2;;
    rpLen ← u16;
    ends_at rpLen;;
    rangeproof ← slice rpLen;
    mret (Mk assetId assetInputCount kernelSig outputs rangeproof)) payload.

Definition encode_with (op : Z) (x : t) : res bytes :=
  throw_if (negb (blen (assetId x) =? 32)) "asset_id 32 bytes";;
  throw_if ((assetInputCount x <? 1) || (assetInputCount x >? 255))
    "asset_input_count must be integer in [1, 255]";;
  throw_if (negb (blen (kernelSig x) =? 64)) "kernel_sig must be 64 bytes";;
  throw_if (negb (includes [1; 2; 4; 8] (Z.of_nat (length (outputs x))))) "outputs must be in {1,2,4,8}";;
  throw_if (blen (rangeproof x) >? 0xffff) "rangeproof too large";;
  outs ← push_outputs (outputs x);
  mret (concatBytes [u8b op; assetId x; u8b (assetInputCount x); kernelSig x;
                     u8b (Z.of_nat (length (outputs x))); outs;
                     le 2 (blen (rangeproof x)); rangeproof x]).

Ltac fields := cbn [assetId assetInputCount kernelSig outputs rangeproof] in *.

Lemma axfer_codec op p x : 0 <= op < 256 → decode_with op p = Ok x ↔ encode_with op x = Ok p.
Proof.
  intros Hop. unfold decode_with, encode_with. rewrite run_Ok. split.
  - intros [s H]. rd_inv H. rd_close. subst x. fields. enc_guards.
    apply res_bind_Ok. eexists. split; [by apply push_outputs_Ok|].
    rewrite Hn, Z2Nat.id by lia. by subst.
  - destruct x as [a i k o r]; fields. outs_goal.
    intros H. enc_inv H. apply res_bind_Ok in H as (? & [-> Hwf]%push_outputs_Ok & [= <-]).
    pose proof (blen_outputs _ Hwf). rewrite !concatBytes_cons, concatBytes_nil.
    eexists. rd_run. all: guard_solve.
Qed.

Lemma axfer_decode_total op p : 0 <= op < 256 → total (decode_with op p).
Proof. intros. unfold decode_with. safe_run. Qed.

Definition wire (op : Z) (Hop : 0 <= op < 256) : WireCodec t.
Proof.
  refine {| wire_op := op; enc := encode_with op; dec := decode_with op;
            sendable _ := True; canonical _ _ := True |}.
  - intros x p H _. by apply axfer_codec.
  - intros p x H _. by apply axfer_codec in H.
  - intros p. by apply axfer_decode_total.
  - unfold encode_with. intros x p H. enc_inv H.
    apply res_bind_Ok in H as (? & _ & [= <-]). rewrite concatBytes_cons. eauto.
Defined.
End Axfer.

Definition encodeAxferPayload := Axfer.encode_with T_AXFER.
Definition decodeAxferPayload := Axfer.decode_with T_AXFER.
Definition encodeAxferBppPayload := Axfer.encode_with T_AXFER_BPP.
Definition decodeAxferBppPayload := Axfer.decode_with T_AXFER_BPP.

(** Variable-amount atomic transfer: one asset input, exactly two outputs. *)
Module AxferVar.
Definition decode_with (op : Z) (payload : bytes) : res Axfer.t :=
  run (
    opcode op;;
    null_if (blen payload <? 1 + 32 + 1 + 64 + 1 + 2 * (33 + 8) + 2);;
    assetId ← slice 32;
    assetInputCount ← u8;
    null_if (negb (assetInputCount =? 1));;
    kernelSig ← slice 64;
    n ← u8;
    null_if (negb (n =? 2));;
    outputs ← repeatM (Z.to_nat n) read_output;
    room 2;;
    rpLen ← u16;
    ends_at rpLen;;
    rangeproof ← slice rpLen;
    mret (Axfer.Mk assetId assetInputCount kernelSig outputs rangeproof)) payload.

Definition encode_with (op : Z) (msg : string) (x : Cxfer.t) : res bytes :=
  throw_if (negb (blen (Cxfer.assetId x) =? 32)) "asset_id 32 bytes";;
  throw_if (negb (blen (Cxfer.kernelSig x) =? 64)) "kernel_sig must be 64 bytes";;
  throw_if (negb (Z.of_nat (length (Cxfer.outputs x)) =? 2)) msg;;
  throw_if (blen (Cxfer.rangeproof x) >? 0xffff) "rangeproof too large";;
  outs ← push_outputs (Cxfer.outputs x);
  mret (concatBytes [u8b op; Cxfer.assetId x; u8b 1; Cxfer.kernelSig x; u8b 2; outs;
                     le 2 (blen (Cxfer.rangeproof x)); Cxfer.rangeproof x]).

Definition of_cxfer (x : Cxfer.t) : Axfer.t :=
  Axfer.Mk (Cxfer.assetId x) 1 (Cxfer.kernelSig x) (Cxfer.outputs x) (Cxfer.rangeproof x).

Lemma axferVar_codec op msg p x :
  0 <= op < 256 → decode_with op p = Ok (of_cxfer x) ↔ encode_with op msg x = Ok p.
Proof.
  intros Hop. unfold decode_with, encode_with, of_cxfer. rewrite run_Ok.
  destruct x as [a k o r]. cbn [Cxfer.assetId Cxfer.kernelSig Cxfer.outputs Cxfer.rangeproof].
  split.
  - intros [s H]. rd_inv H. rd_close. simplify_eq.
    enc_guards. apply res_bind_Ok. eexists. split; [by apply push_outputs_Ok|].
    match goal with E : negb (?n =? 2) = false |- _ => assert (n = 2) as -> by lia end.
    by subst.
  - intros H. enc_inv H. apply res_bind_Ok in H as (? & [-> Hwf]%push_outputs_Ok & [= <-]).
    pose proof (blen_outputs _ Hwf). rewrite !concatBytes_cons, concatBytes_nil.
    eexists. rd_run. all: guard_solve.
Qed.

Lemma decode_one_input op p y :
  0 <= op < 256 → decode_with op p = Ok y → Axfer.assetInputCount y = 1.
Proof.
  intros Hop. unfold decode_with. rewrite run_Ok. intros [s H]. rd_inv H. subst y. simpl. lia.
Qed.

Lemma axferVar_decode_total op p : 0 <= op < 256 → total (decode_with op p).
Proof. intros. unfold decode_with. safe_run. Qed.
End AxferVar.

Definition encodeAxferVarPayload :=
  AxferVar.encode_with T_AXFER_VAR "T_AXFER_VAR outputs MUST be exactly 2 (recipient + maker change)".
Definition decodeAxferVarPayload := AxferVar.decode_with T_AXFER_VAR.
Definition encodeAxferVarBppPayload :=
  AxferVar.encode_with T_AXFER_VAR_BPP
    "T_AXFER_VAR_BPP outputs MUST be exactly 2 (recipient + maker change)".
Definition decodeAxferVarBppPayload := AxferVar.decode_with T_AXFER_VAR_BPP.

(** Output slot of a transaction output: recipient at 0, maker change at 2; output 1 is
    the BTC payment. *)
Definition axferVarOutputIndexForVout (vout : Z) : option Z :=
  if vout =? 0 then Some 0 else if vout =? 2 then Some 1 else None.

(** ** Pre-authorised bids *)
Definition PREAUTH_BID_INLINE_BYTES : Z := 16 + 33 + 8 + 32 + 8.

(** Slot 0 is the buyer's exact-amount output and carries no ciphertext (its
    [encryptedAmount] is absent, here empty); slot 1, when present, is the seller's
    change. *)
Definition read_bid_outputs (n : Z) : rd (list output) :=
  room 33;;
  c0 ← slice 33;
  if n =? 2 then
    room (33 + 8);;
    c1 ← slice 33;
    e1 ← slice 8;
    mret [Output c0 []; Output c1 e1]
  else mret [Output c0 []].

Definition push_bid_outputs (l : list output) : res bytes :=
  match l with
  | [] => Throw "output[0] is undefined"
  | o0 :: rest =>
      throw_if (negb (blen (commitment o0) =? 33)) "output[0].commitment 33 bytes";;
      match rest with
      | [o1] =>
          throw_if (negb (blen (commitment o1) =? 33)) "output[1].commitment 33 bytes";;
          throw_if (negb (blen (encryptedAmount o1) =? 8)) "output[1].encrypted_amount must be 8 bytes";;
          mret (commitment o0 ++ commitment o1 ++ encryptedAmount o1)
      | _ => mret (commitment o0)
      end
  end.

Definition bid_outputs_bytes (l : list output) : bytes :=
  match l with
  | [o0] => commitment o0
  | [o0; o1] => commitment o0 ++ commitment o1 ++ encryptedAmount o1
  | _ => []
  end.
Definition bid_outputs_wf (l : list output) : Prop :=
  match l with
  | [o0] => blen (commitment o0) = 33
  | [o0; o1] => blen (commitment o0) = 33 ∧ output_wf o1
  | _ => False
  end.
(** the buyer's slot has no ciphertext *)
Definition slot0_bare (l : list output) : Prop :=
  match l with o0 :: _ => encryptedAmount o0 = [] | [] => True end.

Lemma read_bid_outputs_Ok n s l s' :
  n = 1 ∨ n = 2 →
  read_bid_outputs n s = Ok (l, s') ↔
  s = bid_outputs_bytes l ++ s' ∧ Z.of_nat (length l) = n ∧ bid_outputs_wf l ∧ slot0_bare l.
Proof.
  intros Hn. unfold read_bid_outputs. split.
  - intros H. rd_inv H. destruct (Z.eqb_spec n 2) as [->|].
    + rd_inv H. subst l. unfold output_wf. simpl. rewrite <- !app_assoc. by repeat split.
    + rd_inv H. subst l. simpl. split; [done|]. split; [lia|done].
  - intros (-> & Hl & Hwf & H0).
    destruct l as [|[c0 e0] [|[c1 e1] [|]]]; try done; unfold output_wf in *; simpl in *; subst.
    + rd_run; try len_lia. change (Z.of_nat 1 =? 2) with false. cbv iota. rd_run; guard_solve.
    + destruct Hwf as (? & ? & ?); cbn [commitment encryptedAmount] in *. rewrite <- !app_assoc. rd_run; try len_lia. change (Z.of_nat 2 =? 2) with true. cbv iota. rd_run; guard_solve.
Qed.

Lemma push_bid_outputs_Ok l b :
  length l = 1%nat ∨ length l = 2%nat →
  push_bid_outputs l = Ok b ↔ b = bid_outputs_bytes l ∧ bid_outputs_wf l.
Proof.
  intros Hl. destruct l as [|o0 [|o1 [|]]]; simpl in Hl; try lia; simpl.
  - split; [intros H; enc_inv H; injection H as <-; split; [done|lia]|].
    intros [-> H]. enc_run lia. done.
  - unfold output_wf. split; [intros H; enc_inv H; injection H as <-; repeat split; lia|].
    intros (-> & ? & ? & ?). enc_run lia. done.
Qed.

Lemma blen_bid_outputs l :
  bid_outputs_wf l → 33 <= blen (bid_outputs_bytes l) ∧ (length l = 1%nat ∨ length l = 2%nat).
Proof.
  destruct l as [|o0 [|o1 [|]]]; try done; simpl; [intros ->; auto with lia|].
  intros [H _]. split; [len_lia|auto].
Qed.

Ltac rd_inv_hook H ::=
  lazymatch type of H with
  | repeatM _ read_output _ = Ok _ =>
      let Hn := fresh "Hn" in let Hwf := fresh "Hwf" in
      apply repeat_output_Ok in H as (-> & Hn & Hwf)
  | read_bid_outputs _ _ = Ok _ =>
      let Hn := fresh "Hn" in let Hwf := fresh "Hwf" in let H0 := fresh "Hbare" in
      apply read_bid_outputs_Ok in H as (-> & Hn & Hwf & H0); [|lia]
  | _ => idtac
  end.
Ltac rd_step_hook ::=
  lazymatch goal with
  | |- repeatM _ read_output _ = Ok _ => apply repeat_output_Ok; split; [reflexivity|]
  | |- read_bid_outputs _ _ = Ok _ => apply read_bid_outputs_Ok; [lia|split; [reflexivity|split; [done|split; done]]]
  | _ => idtac
  end.
Lemma safe_read_bid_outputs n s : safe_at (read_bid_outputs n) s.
Proof. unfold read_bid_outputs. repeat safe_step; len_lia. Qed.
Ltac safe_hook ::= first [apply safe_read_outputs | apply safe_read_bid_outputs].

Module PreauthBid.
Record t := Mk { assetId : bytes; assetInputCount : Z; bidId : bytes; recipientPubkey : bytes;
                 amount : Z; blinding : bytes; priceSats : Z;
                 kernelSig : bytes; outputs : list output; rangeproof : bytes }.

Definition encodePreauthBidPayload (x : t) : res bytes :=
  throw_if (negb (blen (assetId x) =? 32)) "asset_id 32 bytes";;
  throw_if ((assetInputCount x <? 1) || (assetInputCount x >? 255))
    "asset_input_count must be integer in [1, 255]";;
  throw_if (negb (blen (bidId x) =? 16)) "bid_id 16 bytes";;
  throw_if (negb (blen (recipientPubkey x) =? 33)) "recipient_pubkey 33 bytes";;
  throw_if (negb (blen (blinding x) =? 32)) "blinding 32 bytes";;
  throw_if (negb (blen (kernelSig x) =? 64)) "kernel_sig must be 64 bytes";;
  throw_if (negb (includes [1; 2] (Z.of_nat (length (outputs x)))))
    "T_PREAUTH_BID outputs must be 1 (exact-fill) or 2 (seller change)";;
  throw_if (blen (rangeproof x) >? 0xffff) "rangeproof too large";;
  outs ← push_bid_outputs (outputs x);
  mret (concatBytes [u8b T_PREAUTH_BID; assetId x; u8b (assetInputCount x);
                     bidId x; recipientPubkey x; le 8 (amount x); blinding x; le 8 (priceSats x);
                     kernelSig x; u8b (Z.of_nat (length (outputs x))); outs;
                     le 2 (blen (rangeproof x)); rangeproof x]).

Definition decodePreauthBidPayload (payload : bytes) : res t :=
  run (
    null_if (blen payload <? 1 + 32 + 1 + PREAUTH_BID_INLINE_BYTES + 64 + 1 + 33 + 2);;
    opcode T_PREAUTH_BID;;
    assetId ← slice 32;
    assetInputCount ← u8;
    null_if (assetInputCount <? 1);;
    bidId ← slice 16;
    recipientPubkey ← slice 33;
    amount ← uint 8;
    blinding ← slice 32;
    priceSats ← uint 8;
    kernelSig ← slice 64;
    n ← u8;
    null_if (negb (n =? 1) && negb (n =? 2));;
    outputs ← read_bid_outputs n;
    room 2;;
    rpLen ← u16;
    ends_at rpLen;;
    rangeproof ← slice rpLen;
    mret (Mk assetId assetInputCount bidId recipientPubkey amount blinding priceSats
             kernelSig outputs rangeproof)) payload.

Ltac fields := cbn [assetId assetInputCount bidId recipientPubkey amount blinding priceSats
                    kernelSig outputs rangeproof] in *.

(** what [setBigUint64] cannot represent, and the ciphertext slot 0 does not have *)
Definition fits (x : t) : Prop :=
  0 <= amount x < 2 ^ 64 ∧ 0 <= priceSats x < 2 ^ 64 ∧ slot0_bare (outputs x).

Lemma preauthBid_codec p x :
  decodePreauthBidPayload p = Ok x ↔ encodePreauthBidPayload x = Ok p ∧ fits x.
Proof.
  unfold decodePreauthBidPayload, encodePreauthBidPayload, fits, PREAUTH_BID_INLINE_BYTES.
  rewrite run_Ok. split.
  - intros [s H]. rd_inv H. rd_close. subst x. fields. enc_guards.
    destruct (blen_bid_outputs _ Hwf) as [_ ?].
    split; [|done]. apply res_bind_Ok. eexists. split; [by apply push_bid_outputs_Ok|].
    rewrite Hn. by subst.
  - destruct x as [a i b rp am bl pr k o r]; fields. intros [H (? & ? & Hs)].
    outs_goal. enc_inv H. apply res_bind_Ok in H as (? & H' & [= <-]).
    apply push_bid_outputs_Ok in H' as [-> Hwf]; [|lia].
    destruct (blen_bid_outputs _ Hwf). rewrite !concatBytes_cons, concatBytes_nil.
    eexists. rd_run. all: guard_solve.
Qed.

Lemma preauthBid_decode_total p : total (decodePreauthBidPayload p).
Proof. unfold decodePreauthBidPayload, PREAUTH_BID_INLINE_BYTES. safe_run. Qed.

#[export] Instance wire : WireCodec t.
Proof.
  refine {| wire_op := T_PREAUTH_BID; enc := encodePreauthBidPayload; dec := decodePreauthBidPayload;
            sendable := fits; canonical _ _ := True |}.
  - intros x p H Hs. by apply preauthBid_codec.
  - intros p x H _. by apply preauthBid_codec in H as [H _].
  - apply preauthBid_decode_total.
  - unfold encodePreauthBidPayload. intros x p H. enc_inv H.
    apply res_bind_Ok in H as (? & _ & [= <-]). rewrite concatBytes_cons. eauto.
Defined.
End PreauthBid.

(** The partially fillable variant. *)
Module PreauthBidVar.
Definition PREAUTH_BID_VAR_INLINE_BYTES : Z := 16 + 33 + 8 + 8 + 8 + 8 + 32 + 20 + 1.
Definition PREAUTH_BID_VAR_MAX_DECIMALS_SCALE : Z := 32.

Record t := Mk { assetId : bytes; assetInputCount : Z; bidId : bytes; recipientPubkey : bytes;
                 pricePerUnit : Z; maxFill : Z; fillIncrement : Z; fillAmount : Z;
                 recipientBlinding : bytes; refundScriptHash : bytes; decimalsScale : Z;
                 kernelSig : bytes; outputs : list output; rangeproof : bytes }.

Definition encodePreauthBidVarPayload (x : t) : res bytes :=
  throw_if (negb (blen (assetId x) =? 32)) "asset_id 32 bytes";;
  throw_if ((assetInputCount x <? 1) || (assetInputCount x >? 255))
    "asset_input_count must be integer in [1, 255]";;
  throw_if (negb (blen (bidId x) =? 16)) "bid_id 16 bytes";;
  throw_if (negb (blen (recipientPubkey x) =? 33)) "recipient_pubkey 33 bytes";;
  throw_if (negb (blen (recipientBlinding x) =? 32)) "recipient_blinding 32 bytes";;
  throw_if (negb (blen (refundScriptHash x) =? 20)) "refund_script_hash 20 bytes";;
  throw_if (negb (blen (kernelSig x) =? 64)) "kernel_sig must be 64 bytes";;
  throw_if (negb (includes [1; 2] (Z.of_nat (length (outputs x)))))
    "T_PREAUTH_BID_VAR outputs must be 1 (no seller change) or 2 (seller change)";;
  throw_if (blen (rangeproof x) >? 0xffff) "rangeproof too large";;
  throw_if (pricePerUnit x <=? 0) "price_per_unit must be positive";;
  throw_if (maxFill x <=? 0) "max_fill must be positive";;
  throw_if (fillIncrement x <=? 0) "fill_increment must be positive";;
  throw_if (fillAmount x <=? 0) "fill_amount must be positive";;
  throw_if (fillAmount x >? maxFill x) "fill_amount must be <= max_fill";;
  throw_if ((decimalsScale x <? 0) || (decimalsScale x >? PREAUTH_BID_VAR_MAX_DECIMALS_SCALE))
    "decimals_scale must be integer in [0, 32]";;
  outs ← push_bid_outputs (outputs x);
  mret (concatBytes [u8b T_PREAUTH_BID_VAR; assetId x; u8b (assetInputCount x);
                     bidId x; recipientPubkey x;
                     le 8 (pricePerUnit x); le 8 (maxFill x); le 8 (fillIncrement x);
                     le 8 (fillAmount x);
                     recipientBlinding x; refundScriptHash x;
                     u8b (Z.land (decimalsScale x) 0xff);
                     kernelSig x; u8b (Z.of_nat (length (outputs x))); outs;
                     le 2 (blen (rangeproof x)); rangeproof x]).

Definition decodePreauthBidVarPayload (payload : bytes) : res t :=
  run (
    null_if (blen payload <? 1 + 32 + 1 + PREAUTH_BID_VAR_INLINE_BYTES + 64 + 1 + 33 + 2);;
    opcode T_PREAUTH_BID_VAR;;
    assetId ← slice 32;
    assetInputCount ← u8;
    null_if (assetInputCount <? 1);;
    bidId ← slice 16;
    recipientPubkey ← slice 33;
    pricePerUnit ← uint 8;
    maxFill ← uint 8;
    fillIncrement ← uint 8;
    fillAmount ← uint 8;
    recipientBlinding ← slice 32;
    refundScriptHash ← slice 20;
    decimalsScale ← u8;
    null_if (decimalsScale >? PREAUTH_BID_VAR_MAX_DECIMALS_SCALE);;
    kernelSig ← slice 64;
    n ← u8;
    null_if (negb (n =? 1) && negb (n =? 2));;
    outputs ← read_bid_outputs n;
    room 2;;
    rpLen ← u16;
    ends_at rpLen;;
    rangeproof ← slice rpLen;
    null_if ((fillAmount =? 0) || (fillAmount >? maxFill));;
    null_if ((fillIncrement =? 0) || (fillIncrement >? maxFill));;
    null_if (pricePerUnit * maxFill >=? Z.shiftl 1 64);;
    mret (Mk assetId assetInputCount bidId recipientPubkey
             pricePerUnit maxFill fillIncrement fillAmount
             recipientBlinding refundScriptHash decimalsScale
             kernelSig outputs rangeproof)) payload.

Ltac fields := cbn [assetId assetInputCount bidId recipientPubkey pricePerUnit maxFill
                    fillIncrement fillAmount recipientBlinding refundScriptHash decimalsScale
                    kernelSig outputs rangeproof] in *.

(** What the decoder checks and the encoder does not. *)
Definition fits (x : t) : Prop :=
  maxFill x < 2 ^ 64 ∧ fillIncrement x <= maxFill x ∧
  pricePerUnit x * maxFill x < 2 ^ 64 ∧ slot0_bare (outputs x).

Lemma preauthBidVar_decode_encode p x :
  decodePreauthBidVarPayload p = Ok x → fits x ∧
  (0 < pricePerUnit x → encodePreauthBidVarPayload x = Ok p).
Proof.
  unfold decodePreauthBidVarPayload, encodePreauthBidVarPayload, fits,
    PREAUTH_BID_VAR_INLINE_BYTES, PREAUTH_BID_VAR_MAX_DECIMALS_SCALE.
  rewrite run_Ok. intros [s H]. rd_inv H. rd_close. subst x. fields.
  change (Z.shiftl 1 64) with (2 ^ 64) in *. change (256 ^ Z.of_nat 8) with (2 ^ 64) in *.
  split; [repeat split; [lia..|done]|]. intros Hp. enc_guards.
  destruct (blen_bid_outputs _ Hwf) as [_ ?].
  apply res_bind_Ok. eexists. split; [by apply push_bid_outputs_Ok|].
  rewrite Hn. change 0xff with (Z.ones 8). rewrite Z.land_ones, Z.mod_small by lia. by subst.
Qed.

Lemma preauthBidVar_encode_decode p x :
  encodePreauthBidVarPayload x = Ok p → fits x → decodePreauthBidVarPayload p = Ok x.
Proof.
  unfold decodePreauthBidVarPayload, encodePreauthBidVarPayload, fits,
    PREAUTH_BID_VAR_INLINE_BYTES, PREAUTH_BID_VAR_MAX_DECIMALS_SCALE.
  destruct x as [a i b rp pr mf fi fa rb rs ds k o r]; fields. intros H (? & ? & ? & Hs).
  outs_goal. enc_inv H. apply res_bind_Ok in H as (? & H' & [= <-]).
  apply push_bid_outputs_Ok in H' as [-> Hwf]; [|lia].
  destruct (blen_bid_outputs _ Hwf). rewrite !concatBytes_cons, concatBytes_nil.
  change 0xff with (Z.ones 8). rewrite Z.land_ones, Z.mod_small by lia.
  apply run_Ok. eexists. rd_run. all: change (Z.shiftl 1 64) with (2 ^ 64).
  all: try (change (256 ^ Z.of_nat 8) with (2 ^ 64)). all: try guard_solve.
Qed.

Lemma preauthBidVar_price p x : decodePreauthBidVarPayload p = Ok x → 0 <= pricePerUnit x.
Proof.
  unfold decodePreauthBidVarPayload, PREAUTH_BID_VAR_INLINE_BYTES. rewrite run_Ok. intros [s H].
  rd_inv H. subst x. fields. lia.
Qed.

Lemma preauthBidVar_free x q : pricePerUnit x = 0 → encodePreauthBidVarPayload x ≠ Ok q.
Proof. unfold encodePreauthBidVarPayload. intros Hx H. enc_inv H. lia. Qed.

Lemma preauthBidVar_decode_total p : total (decodePreauthBidVarPayload p).
Proof.
  unfold decodePreauthBidVarPayload, PREAUTH_BID_VAR_INLINE_BYTES. safe_run.
Qed.

#[export] Instance wire : WireCodec t.
Proof.
  refine {| wire_op := T_PREAUTH_BID_VAR; enc := encodePreauthBidVarPayload;
            dec := decodePreauthBidVarPayload;
            sendable := fits; canonical x _ := 0 < pricePerUnit x |}.
  - intros x p. apply preauthBidVar_encode_decode.
  - intros p x H Hp. by apply preauthBidVar_decode_encode.
  - apply preauthBidVar_decode_total.
  - unfold encodePreauthBidVarPayload. intros x p H. enc_inv H.
    apply res_bind_Ok in H as (? & _ & [= <-]). rewrite concatBytes_cons. eauto.
Defined.
End PreauthBidVar.
