(* ===== verification/CodecIssue.v ===== *)
(** * Issuance, supply and airdrop envelopes ([dapp/tacit.js])

    [CEtch] (a confidential etch), [CMint], [CBurn], [CPetch] and [CPmint] (the fair
    launch and its mints), [CDrop] (an airdrop pool or its reclaim) and [CDClaim] with
    the claim witness. *)
From S2P Require Import Prelude Bytes Text CodecTransfer.

Definition T_CETCH : Z := 0x21.
Definition T_MINT : Z := 0x24.
Definition T_BURN : Z := 0x25.
Definition T_PETCH : Z := 0x27.
Definition T_PMINT : Z := 0x28.
Definition T_DROP : Z := 0x2B.
Definition T_DCLAIM : Z := 0x2C.
Definition N_BITS : Z := 64.

(** ** Readers and writers shared by the formats *)

(** [try { new TextDecoder(...).decode(b) } catch { return null; }] *)
Definition text_of (b : bytes) : rd text := λ s,
  match text_decode b with Some t => Ok (t, s) | None => Null end.

(** [let t = null; if (n > 0) t = decode(payload.slice(p, p + n)); p += n;] *)
Definition read_opt_text (n : Z) : rd (option text) :=
  if n >? 0 then b ← slice n; t ← text_of b; mret (Some t) else mret None.

(** [s ? new TextEncoder().encode(s) : new Uint8Array(0)] *)
Definition opt_text_encode (o : option text) : bytes :=
  match o with Some t => text_encode t | None => [] end.

(** what [read_opt_text] makes of the [n] bytes it reads *)
Definition opt_text_decode (b : bytes) : option (option text) :=
  match b with [] => Some None | _ => Some <$> text_decode b end.

(** an optional string that the decoder gives back: absent, or plain and not empty *)
Definition plain_opt (o : option text) : Prop :=
  match o with Some t => plain t ∧ t ≠ [] | None => True end.

Lemma text_of_Ok b s t s' : text_of b s = Ok (t, s') ↔ text_decode b = Some t ∧ s' = s.
Proof. unfold text_of. destruct (text_decode b); naive_solver. Qed.

Lemma text_encode_nonempty t : t ≠ [] → 0 < blen (text_encode t).
Proof.
  destruct t as [|c t]; [done|]. intros _. unfold text_encode. cbn [map concat].
  rewrite blen_app. pose proof (blen_nonneg (concat (map utf8_cp t))).
  unfold utf8_cp. repeat case_match; len_lia.
Qed.

Lemma read_opt_text_Ok n s o s' :
  0 <= n →
  read_opt_text n s = Ok (o, s') ↔ ∃ b, s = b ++ s' ∧ blen b = n ∧ opt_text_decode b = Some o.
Proof.
  intros Hn. unfold read_opt_text. rewrite Z.gtb_ltb. destruct (Z.ltb_spec 0 n).
  - rewrite rd_bind_Ok. setoid_rewrite slice_Ok; [|lia]. split.
    + intros (b & s0 & [-> Hb] & H1). apply rd_bind_Ok in H1 as (t & s1 & [Ht ->]%text_of_Ok & H1).
      apply rd_ret_Ok in H1 as [<- ->]. exists b. split; [done|]. split; [done|].
      destruct b; [by rewrite blen_nil in *; lia|]. cbn. by rewrite Ht.
    + intros (b & -> & Hb & Ht). exists b, s'. split; [done|]. apply rd_bind_Ok.
      destruct b; [by rewrite blen_nil in *; lia|]. cbn [opt_text_decode] in Ht.
      apply fmap_Some in Ht as (t & Ht & ->). exists t, s'. rewrite text_of_Ok, rd_ret_Ok. done.
  - assert (n = 0) as -> by lia. rewrite rd_ret_Ok. split.
    + intros [<- ->]. by exists [].
    + intros (b & -> & ->%blen_0 & [= <-]). done.
Qed.

Lemma opt_text_round o : plain_opt o → opt_text_decode (opt_text_encode o) = Some o.
Proof.
  destruct o as [t|]; [|done]. intros [Hp Hne]. cbn [opt_text_encode].
  pose proof (text_encode_nonempty _ Hne). unfold opt_text_decode.
  destruct (text_encode t) eqn:E; [by rewrite blen_nil in *|].
  rewrite <- E, text_decode_encode; done.
Qed.

Lemma text_decode_ge b t : text_decode b = Some t → blen (text_encode t) <= blen b.
Proof. intros [[->| ->] _]%text_encode_decode; len_lia. Qed.

Lemma opt_text_decode_ge b o : opt_text_decode b = Some o → blen (opt_text_encode o) <= blen b.
Proof.
  unfold opt_text_decode. destruct b as [|x b]; [by intros [= <-]|].
  intros (t & Ht & ->)%fmap_Some. by apply text_decode_ge.
Qed.

Lemma opt_text_canon b o :
  opt_text_decode b = Some o → blen b = blen (opt_text_encode o) → b = opt_text_encode o.
Proof.
  unfold opt_text_decode. destruct b as [|x b]; [by intros [= <-]|].
  intros (t & Ht & ->)%fmap_Some. by apply text_decode_len.
Qed.

Lemma safe_text_of b s : safe_at (text_of b) s.
Proof. unfold safe_at, text_of, total. destruct (text_decode b); eauto. Qed.

Lemma safe_read_opt_text n s : n <= blen s → safe_at (read_opt_text n) s.
Proof.
  intros Hn. unfold read_opt_text. destruct (n >? 0) eqn:E; [|apply safe_ret].
  apply safe_bind; [by apply safe_slice|]. intros.
  apply safe_bind; [apply safe_text_of|]. intros. apply safe_ret.
Qed.

(** A decoder run on a byte string of its own. *)
Definition sub {A} (m : rd A) (b : bytes) : rd A := λ s, a ← run m b; mret (a, s).

Lemma sub_Ok {A} (m : rd A) b s a s' : sub m b s = Ok (a, s') ↔ run m b = Ok a ∧ s' = s.
Proof.
  unfold sub. rewrite res_bind_Ok. unfold mret, res_ret. naive_solver.
Qed.

Lemma safe_sub {A} (m : rd A) b s : safe_at m b → safe_at (sub m b) s.
Proof.
  intros [H|[a H]]%total_run; unfold safe_at, sub, total; rewrite H; [by left|right]. by eexists.
Qed.

Ltac rd_inv_hook H ::=
  lazymatch type of H with
  | repeatM _ read_output _ = Ok _ =>
      let Hn := fresh "Hn" in let Hwf := fresh "Hwf" in
      apply repeat_output_Ok in H as (-> & Hn & Hwf)
  | text_of _ _ = Ok _ => apply text_of_Ok in H as [H ->]
  | read_opt_text _ _ = Ok _ =>
      let b := fresh "tb" in let Hb := fresh "Hb" in
      apply read_opt_text_Ok in H as (b & -> & Hb & H); [|lia]
  | sub _ _ _ = Ok _ => apply sub_Ok in H as [H ->]
  | _ => idtac
  end.
Ltac rd_step_hook ::=
  lazymatch goal with
  | |- repeatM _ read_output _ = Ok _ => apply repeat_output_Ok; split; [reflexivity|]
  | |- text_of _ _ = Ok _ => apply text_of_Ok; split; [|reflexivity]
  | |- read_opt_text _ _ = Ok _ =>
      apply read_opt_text_Ok; [try lia|eexists; split; [reflexivity|split]]
  | |- sub _ _ _ = Ok _ => apply sub_Ok; split; [|reflexivity]
  | _ => idtac
  end.
Ltac safe_hook ::=
  first [ apply safe_read_outputs | apply safe_text_of | apply safe_read_opt_text | apply safe_sub ].

#[global] Arguments text_encode : simpl never.
#[global] Arguments opt_text_encode : simpl never.

(** ** Confidential etch *)
Module CEtch.
Definition MINT_AUTH_NONE : bytes := zeros 32.
Definition isZeroAuth (b : bytes) : bool := all_zero (take 32 b).

Record t := Mk { ticker : text; decimals : Z; commitment : bytes; rangeproof : bytes;
                 encryptedAmount : bytes; mintAuthority : option bytes; imageUri : option text }.

Definition encodeCEtchPayload (x : t) : res bytes :=
  let tk := text_encode (ticker x) in
  throw_if ((blen tk =? 0) || (blen tk >? 16)) "ticker 1-16 bytes";;
  throw_if ((decimals x <? 0) || (decimals x >? 8)) "decimals must be an integer 0-8";;
  throw_if (negb (blen (commitment x) =? 33)) "commitment 33 bytes";;
  throw_if (negb (blen (encryptedAmount x) =? 8)) "encrypted_amount must be 8 bytes";;
  throw_if (blen (rangeproof x) >? 0xffff) "rangeproof too large";;
  let auth := default MINT_AUTH_NONE (mintAuthority x) in
  throw_if (negb (blen auth =? 32)) "mint_authority must be 32 bytes (x-only pubkey or zero)";;
  let imgBytes := opt_text_encode (imageUri x) in
  throw_if (blen imgBytes >? 256) "image_uri must be <=256 bytes";;
  mret (concatBytes [u8b T_CETCH; u8b (blen tk); tk; u8b (decimals x); commitment x;
                     encryptedAmount x; le 2 (blen (rangeproof x)); rangeproof x; auth;
                     le 2 (blen imgBytes); imgBytes]).

(** the decoded message and its [mintable] flag *)
Definition decodeCEtchPayload (payload : bytes) : res (t * bool) :=
  run (
    null_if (blen payload <? 1 + 1 + 1 + 1 + 33 + 8 + 2 + 32 + 2);;
    opcode T_CETCH;;
    tlen ← u8;
    null_if ((tlen <? 1) || (tlen >? 16));;
    room tlen;;
    tk ← slice tlen;
    ticker ← text_of tk;
    decimals ← u8;
    null_if (decimals >? 8);;
    room (33 + 8 + 2);;
    commitment ← slice 33;
    encryptedAmount ← slice 8;
    rpLen ← u16;
    room (rpLen + 32 + 2);;
    rangeproof ← slice rpLen;
    mintAuthority ← slice 32;
    imgLen ← u16;
    null_if (imgLen >? 256);;
    ends_at imgLen;;
    imageUri ← read_opt_text imgLen;
    mret (Mk ticker decimals commitment rangeproof encryptedAmount (Some mintAuthority) imageUri,
          negb (isZeroAuth mintAuthority))) payload.

Ltac fields := cbn [ticker decimals commitment rangeproof encryptedAmount mintAuthority imageUri] in *.

Definition fits (x : t) : Prop :=
  plain (ticker x) ∧ plain_opt (imageUri x) ∧ is_Some (mintAuthority x).

(** the length of the payload written for [x]: a payload of this length has no dropped
    byte-order mark *)
Definition wire_len (x : t) : Z :=
  80 + blen (text_encode (ticker x)) + blen (rangeproof x) + blen (opt_text_encode (imageUri x)).

Lemma cEtch_encode_decode p x :
  encodeCEtchPayload x = Ok p → fits x →
  decodeCEtchPayload p = Ok (x, negb (isZeroAuth (default MINT_AUTH_NONE (mintAuthority x)))).
Proof.
  unfold encodeCEtchPayload, decodeCEtchPayload, fits. destruct x as [tk d c rp ea [au|] img]; fields;
    intros H (Ht & Hi & Ha); [|by destruct Ha].
  cbv zeta in H. enc_inv H. injection H as <-. cbn [default] in *. unfold id in *.
  apply run_Ok. rewrite !concatBytes_cons, concatBytes_nil. bool_to_prop.
  eexists. rd_run. all: try guard_solve; auto using text_decode_encode, opt_text_round.
Qed.

(** A byte-order mark before the ticker is dropped. *)
Lemma cEtch_mark p x :
  encodeCEtchPayload x = Ok p → fits x → blen (text_encode (ticker x)) <= 13 →
  ∃ q, blen q = blen p + 3 ∧
    decodeCEtchPayload q = Ok (x, negb (isZeroAuth (default MINT_AUTH_NONE (mintAuthority x)))).
Proof.
  unfold encodeCEtchPayload, decodeCEtchPayload, fits. destruct x as [tk d c rp ea [au|] img]; fields;
    intros H (Ht & Hi & Ha) Hl; [|by destruct Ha].
  cbv zeta in H. enc_inv H. injection H as <-. cbn [default] in *. unfold id in *. bool_to_prop.
  exists (concatBytes [u8b T_CETCH; u8b (blen (BOM ++ text_encode tk)); BOM ++ text_encode tk; u8b d; c;
                     ea; le 2 (blen rp); rp; au; le 2 (blen (opt_text_encode img)); opt_text_encode img]).
  assert (Hb : blen (BOM ++ text_encode tk) = 3 + blen (text_encode tk)) by (rewrite blen_app; by change (blen BOM) with 3).
  rewrite !concatBytes_cons, concatBytes_nil. split; [len_lia|]. apply run_Ok.
  eexists. rd_run. all: try guard_solve; auto using text_decode_mark, opt_text_round.
Qed.

Lemma cEtch_decode_encode p x b :
  decodeCEtchPayload p = Ok (x, b) →
  b = negb (isZeroAuth (default MINT_AUTH_NONE (mintAuthority x))) ∧
  (blen p = wire_len x → encodeCEtchPayload x = Ok p).
Proof.
  unfold encodeCEtchPayload, decodeCEtchPayload, wire_len. rewrite run_Ok. intros [s H].
  rd_inv H. simplify_eq. fields. split; [done|]. intros Hl.
  match goal with Ht : text_decode ?b = Some ?t, Hi : opt_text_decode ?ib = Some ?i |- _ =>
    pose proof (text_decode_ge _ _ Ht); pose proof (opt_text_decode_ge _ _ Hi);
    assert (b = text_encode t) as -> by (apply text_decode_len; [done|len_lia]);
    assert (ib = opt_text_encode i) as -> by (apply opt_text_canon; [done|len_lia])
  end.
  rd_close. rewrite !app_nil_r in *. cbn [default]. unfold id. enc_guards.
  by rewrite !concatBytes_cons, concatBytes_nil, !app_nil_r.
Qed.

Lemma cEtch_decode_total p : total (decodeCEtchPayload p).
Proof. unfold decodeCEtchPayload. safe_run. Qed.

(** The recorded decimals and texts are within the limits the wallet displays. *)
Lemma decode_bounds p x b :
  decodeCEtchPayload p = Ok (x, b) →
  0 <= decimals x <= 8 ∧ blen (text_encode (ticker x)) <= 16 ∧
  blen (opt_text_encode (imageUri x)) <= 256 ∧ blen (rangeproof x) < 65536 ∧
  blen (commitment x) = 33 ∧ blen (encryptedAmount x) = 8.
Proof.
  unfold decodeCEtchPayload. rewrite run_Ok. intros [s H]. rd_inv H. simplify_eq. fields.
  match goal with Ht : text_decode ?b = Some ?t, Hi : opt_text_decode ?ib = Some ?i |- _ =>
    pose proof (text_decode_ge _ _ Ht); pose proof (opt_text_decode_ge _ _ Hi) end.
  repeat split; len_lia.
Qed.

#[export] Instance wire : WireCodec t.
Proof.
  refine {| wire_op := T_CETCH; enc := encodeCEtchPayload;
            dec p := '(x, _) ← decodeCEtchPayload p; mret x;
            sendable := fits; canonical x p := blen p = wire_len x |}.
  - intros x p H Hx. by rewrite (cEtch_encode_decode p x H Hx).
  - intros p x H Hl. apply res_bind_Ok in H as ([y b] & H & [= ->]).
    by apply cEtch_decode_encode in H as [_ H]; auto.
  - intros p. unfold total. destruct (cEtch_decode_total p) as [->|[[y b] ->]]; [by left|right; by eexists].
  - unfold encodeCEtchPayload. intros x p H. cbv zeta in H. enc_inv H. injection H as <-.
    rewrite concatBytes_cons. eauto.
Defined.
End CEtch.

(** ** Confidential mint *)
Module CMint.
Record t := Mk { assetId : bytes; etchTxid : bytes; commitment : bytes; encryptedAmount : bytes;
                 rangeproof : bytes; issuerSig : bytes }.

Definition encodeCMintPayload (x : t) : res bytes :=
  throw_if (negb (blen (assetId x) =? 32)) "asset_id 32 bytes";;
  throw_if (negb (blen (etchTxid x) =? 32)) "etch_txid 32 bytes";;
  throw_if (negb (blen (commitment x) =? 33)) "commitment 33 bytes";;
  throw_if (negb (blen (encryptedAmount x) =? 8)) "encrypted_amount must be 8 bytes";;
  throw_if (blen (rangeproof x) >? 0xffff) "rangeproof too large";;
  throw_if (negb (blen (issuerSig x) =? 64)) "issuer_sig must be 64 bytes";;
  mret (concatBytes [u8b T_MINT; assetId x; etchTxid x; commitment x; encryptedAmount x;
                     le 2 (blen (rangeproof x)); rangeproof x; issuerSig x]).

Definition decodeCMintPayload (payload : bytes) : res t :=
  run (
    null_if (blen payload <? 1 + 32 + 32 + 33 + 8 + 2 + 64);;
    opcode T_MINT;;
    assetId ← slice 32;
    etchTxid ← slice 32;
    commitment ← slice 33;
    encryptedAmount ← slice 8;
    rpLen ← u16;
    room (rpLen + 64);;
    rangeproof ← slice rpLen;
    issuerSig ← slice 64;
    ends_at 0;;
    mret (Mk assetId etchTxid commitment encryptedAmount rangeproof issuerSig)) payload.

Lemma cMint_codec p x : decodeCMintPayload p = Ok x ↔ encodeCMintPayload x = Ok p.
Proof.
  unfold decodeCMintPayload, encodeCMintPayload. rewrite run_Ok. split.
  - intros [s H]. rd_inv H. rd_close. subst x. cbn. enc_guards.
    rewrite !concatBytes_cons, concatBytes_nil. by subst.
  - destruct x; cbn. intros H. enc_inv H. injection H as <-.
    rewrite !concatBytes_cons, concatBytes_nil. bool_to_prop. eexists. rd_run. all: guard_solve.
Qed.

Lemma cMint_decode_total p : total (decodeCMintPayload p).
Proof. unfold decodeCMintPayload. safe_run. Qed.

#[export] Instance wire : WireCodec t.
Proof.
  refine {| wire_op := T_MINT; enc := encodeCMintPayload; dec := decodeCMintPayload;
            sendable _ := True; canonical _ _ := True |}.
  - intros x p H _. by apply cMint_codec.
  - intros p x H _. by apply cMint_codec in H.
  - apply cMint_decode_total.
  - unfold encodeCMintPayload. intros x p H. enc_inv H. injection H as <-.
    rewrite concatBytes_cons. eauto.
Defined.
End CMint.

(** ** Burn: any number of change outputs, a range proof exactly when there are some *)
Module CBurn.
Record t := Mk { assetId : bytes; burnedAmount : Z; kernelSig : bytes;
                 outputs : list output; rangeproof : bytes }.

Definition encodeCBurnPayload (x : t) : res bytes :=
  let n := Z.of_nat (length (outputs x)) in
  throw_if (negb (blen (assetId x) =? 32)) "asset_id 32 bytes";;
  throw_if ((burnedAmount x <? 0) || (burnedAmount x >=? Z.shiftl 1 N_BITS)) "burned_amount out of range";;
  throw_if (negb (blen (kernelSig x) =? 64)) "kernel_sig must be 64 bytes";;
  throw_if (negb (includes [0; 1; 2; 4; 8] n)) "outputs.length must be in {0,1,2,4,8}";;
  throw_if ((n >? 0) && (blen (rangeproof x) >? 0xffff)) "rangeproof too large";;
  throw_if ((n =? 0) && (blen (rangeproof x) >? 0)) "rangeproof must be empty when outputs.length === 0";;
  outs ← push_outputs (outputs x);
  mret (concatBytes ([u8b T_BURN; assetId x; u64_halves (burnedAmount x); kernelSig x; u8b n; outs]
                     ++ if n >? 0 then [le 2 (blen (rangeproof x)); rangeproof x] else [])).

(** the tail after the outputs: a length-prefixed range proof, or nothing *)
Definition read_proof (n : Z) : rd bytes :=
  if n >? 0 then room 2;; rpLen ← u16; ends_at rpLen;; slice rpLen
  else ends_at 0;; mret [].

Definition decodeCBurnPayload (payload : bytes) : res t :=
  run (
    null_if (blen payload <? 1 + 32 + 8 + 64 + 1);;
    opcode T_BURN;;
    assetId ← slice 32;
    burnedAmount ← u64h;
    kernelSig ← slice 64;
    n ← u8;
    null_if (negb (includes [0; 1; 2; 4; 8] n));;
    outputs ← repeatM (Z.to_nat n) read_output;
    rangeproof ← read_proof n;
    mret (Mk assetId burnedAmount kernelSig outputs rangeproof)) payload.

Definition proof_bytes (n : Z) (rp : bytes) : bytes := if n >? 0 then le 2 (blen rp) ++ rp else [].

Lemma read_proof_Ok n s rp s' :
  read_proof n s = Ok (rp, s') ↔
  s = proof_bytes n rp ∧ s' = [] ∧ (if n >? 0 then blen rp < 65536 else rp = []).
Proof.
  unfold read_proof, proof_bytes. destruct (n >? 0).
  - split.
    + intros H. rd_inv H. rd_close. subst. rewrite app_nil_r. repeat split; lia.
    + intros (-> & -> & ?). pose proof (blen_nonneg rp).
      rewrite <- (app_nil_r rp) at 2. rd_run; try len_lia.
  - split.
    + intros H. rd_inv H. rd_close. auto.
    + intros (-> & -> & ->). done.
Qed.

Lemma cBurn_codec p x : decodeCBurnPayload p = Ok x ↔ encodeCBurnPayload x = Ok p.
Proof.
  unfold decodeCBurnPayload, encodeCBurnPayload. rewrite run_Ok. cbv zeta. split.
  - intros [s H]. rd_inv H. subst x. cbn [assetId burnedAmount kernelSig outputs rangeproof].
    match goal with H : read_proof _ _ = _ |- _ => apply read_proof_Ok in H as (-> & -> & Hrp) end.
    change (Z.shiftl 1 N_BITS) with (2 ^ 64).
    unfold includes in *; cbn [existsb] in *. rewrite Hn, Z2Nat.id in * by lia.
    destruct (_ >? 0) eqn:E; [|subst]; enc_run ltac:(first [lia|len_lia]).
    all: apply res_bind_Ok; eexists; (split; [by apply push_outputs_Ok|]).
    all: unfold proof_bytes; rewrite E; cbn [app]; by rewrite !concatBytes_cons, concatBytes_nil, ?app_nil_r.
  - destruct x as [a v k o r]; cbn [assetId burnedAmount kernelSig outputs rangeproof].
    change (Z.shiftl 1 N_BITS) with (2 ^ 64). intros H.
    unfold includes in *; cbn [existsb] in *. enc_inv H.
    apply res_bind_Ok in H as (? & [-> Hwf]%push_outputs_Ok & [= <-]).
    pose proof (blen_outputs _ Hwf).
    match goal with |- context [concatBytes ?l] => assert (concatBytes l =
      u8b T_BURN ++ a ++ u64_halves v ++ k ++ u8b (Z.of_nat (length o)) ++ outputs_bytes o ++
      proof_bytes (Z.of_nat (length o)) r) as -> end.
    { unfold proof_bytes. destruct (_ >? 0); cbn [app];
        by rewrite !concatBytes_cons, concatBytes_nil, ?app_nil_r. }
    exists []. rd_run. all: try guard_solve.
    apply read_proof_Ok. split; [done|]. split; [done|].
    destruct (_ >? 0) eqn:E; [lia|]. apply blen_0. pose proof (blen_nonneg r). lia.
Qed.

Lemma safe_read_proof n s : safe_at (read_proof n) s.
Proof. unfold read_proof. repeat safe_step; len_lia. Qed.

Lemma cBurn_decode_total p : total (decodeCBurnPayload p).
Proof.
  unfold decodeCBurnPayload. safe_run.
  apply safe_bind; [apply safe_read_proof|intros; apply safe_ret].
Qed.

#[export] Instance wire : WireCodec t.
Proof.
  refine {| wire_op := T_BURN; enc := encodeCBurnPayload; dec := decodeCBurnPayload;
            sendable _ := True; canonical _ _ := True |}.
  - intros x p H _. by apply cBurn_codec.
  - intros p x H _. by apply cBurn_codec in H.
  - apply cBurn_decode_total.
  - unfold encodeCBurnPayload. intros x p H. cbv zeta in H. enc_inv H.
    apply res_bind_Ok in H as (? & _ & [= <-]). cbn [app]. rewrite concatBytes_cons. eauto.
Defined.
End CBurn.

(** ** Fair launch: the permissionless etch *)
Module CPetch.
Record t := Mk { ticker : text; decimals : Z; capAmount : Z; mintLimit : Z;
                 mintStartHeight : Z; mintEndHeight : Z; imageUri : option text }.

Definition encodeCPetchPayload (x : t) : res bytes :=
  let tk := text_encode (ticker x) in
  let cap := capAmount x in
  let lim := mintLimit x in
  throw_if ((blen tk <? 1) || (blen tk >? 16)) "ticker length must be 1..16";;
  throw_if ((decimals x <? 0) || (decimals x >? 8)) "decimals must be 0..8";;
  throw_if ((cap <=? 0) || (cap >=? Z.shiftl 1 N_BITS)) "cap_amount out of range";;
  throw_if ((lim <=? 0) || (lim >? cap)) "mint_limit out of range";;
  throw_if (negb (cap mod lim =? 0)) "cap_amount must be evenly divisible by mint_limit";;
  throw_if ((mintStartHeight x <? 0) || (mintStartHeight x >? 0xffffffff)) "mint_start_height out of range";;
  throw_if ((mintEndHeight x <? 0) || (mintEndHeight x >? 0xffffffff)) "mint_end_height out of range";;
  throw_if (negb (mintStartHeight x =? 0) && negb (mintEndHeight x =? 0)
            && (mintEndHeight x <=? mintStartHeight x))
    "mint_end_height must exceed mint_start_height when both nonzero";;
  let img := opt_text_encode (imageUri x) in
  throw_if (blen img >? 256) "image_uri too long";;
  mret (concatBytes [u8b T_PETCH; u8b (blen tk); tk; u8b (decimals x);
                     u64_halves cap; u64_halves lim;
                     le 4 (mintStartHeight x); le 4 (mintEndHeight x);
                     le 2 (blen img); img]).

Definition decodeCPetchPayload (payload : bytes) : res t :=
  run (
    null_if (blen payload <? 1 + 1 + 1 + 1 + 8 + 8 + 4 + 4 + 2);;
    opcode T_PETCH;;
    tlen ← u8;
    null_if ((tlen <? 1) || (tlen >? 16));;
    room tlen;;
    tk ← slice tlen;
    ticker ← text_of tk;
    decimals ← u8;
    null_if (decimals >? 8);;
    room (8 + 8 + 4 + 4 + 2);;
    capAmount ← u64h;
    mintLimit ← u64h;
    null_if (capAmount <=? 0);;
    null_if (mintLimit <=? 0);;
    null_if (mintLimit >? capAmount);;
    null_if (negb (capAmount mod mintLimit =? 0));;
    mintStartHeight ← uint 4;
    mintEndHeight ← uint 4;
    null_if (negb (mintStartHeight =? 0) && negb (mintEndHeight =? 0)
             && (mintEndHeight <=? mintStartHeight));;
    imgLen ← u16;
    null_if (imgLen >? 256);;
    ends_at imgLen;;
    imageUri ← read_opt_text imgLen;
    mret (Mk ticker decimals capAmount mintLimit mintStartHeight mintEndHeight imageUri)) payload.

Ltac fields := cbn [ticker decimals capAmount mintLimit mintStartHeight mintEndHeight imageUri] in *.

Definition fits (x : t) : Prop := plain (ticker x) ∧ plain_opt (imageUri x).
Definition wire_len (x : t) : Z :=
  29 + blen (text_encode (ticker x)) + blen (opt_text_encode (imageUri x)).

(** A launch the indexer may rely on: a positive cap that is a whole number of mints. *)
Definition launch_ok (x : t) : Prop :=
  0 < mintLimit x <= capAmount x ∧ capAmount x < 2 ^ 64 ∧ (mintLimit x | capAmount x) ∧
  0 <= decimals x <= 8 ∧
  (mintStartHeight x ≠ 0 → mintEndHeight x ≠ 0 → mintStartHeight x < mintEndHeight x).

Lemma decode_launch_ok p x : decodeCPetchPayload p = Ok x → launch_ok x.
Proof.
  unfold decodeCPetchPayload, launch_ok. rewrite run_Ok. intros [s H]. rd_inv H. subst x. fields.
  bool_to_prop. repeat split; try lia. apply Z.mod_divide; lia.
Qed.

Lemma cPetch_encode_decode p x : encodeCPetchPayload x = Ok p → fits x → decodeCPetchPayload p = Ok x.
Proof.
  unfold encodeCPetchPayload, decodeCPetchPayload, fits. destruct x as [tk d c l sh eh img]; fields.
  intros H [Ht Hi]. cbv zeta in H. enc_inv H. injection H as <-.
  apply run_Ok. rewrite !concatBytes_cons, concatBytes_nil.
  change (Z.shiftl 1 N_BITS) with (2 ^ 64) in *.
  eexists. rd_run. all: try guard_solve; auto using text_decode_encode, opt_text_round.
Qed.

Lemma cPetch_decode_encode p x :
  decodeCPetchPayload p = Ok x → blen p = wire_len x → encodeCPetchPayload x = Ok p.
Proof.
  unfold encodeCPetchPayload, decodeCPetchPayload, wire_len. rewrite run_Ok. intros [s H].
  rd_inv H. simplify_eq. fields. intros Hl.
  match goal with Ht : text_decode ?b = Some ?t, Hi : opt_text_decode ?ib = Some ?i |- _ =>
    pose proof (text_decode_ge _ _ Ht); pose proof (opt_text_decode_ge _ _ Hi);
    assert (b = text_encode t) as -> by (apply text_decode_len; [done|len_lia]);
    assert (ib = opt_text_encode i) as -> by (apply opt_text_canon; [done|len_lia])
  end.
  rd_close. rewrite !app_nil_r in *. change (Z.shiftl 1 N_BITS) with (2 ^ 64).
  cbv zeta. enc_guards. by rewrite !concatBytes_cons, concatBytes_nil, !app_nil_r.
Qed.

Lemma cPetch_decode_total p : total (decodeCPetchPayload p).
Proof. unfold decodeCPetchPayload. safe_run. Qed.

#[export] Instance wire : WireCodec t.
Proof.
  refine {| wire_op := T_PETCH; enc := encodeCPetchPayload; dec := decodeCPetchPayload;
            sendable := fits; canonical x p := blen p = wire_len x |}.
  - intros x p. apply cPetch_encode_decode.
  - intros p x. apply cPetch_decode_encode.
  - apply cPetch_decode_total.
  - unfold encodeCPetchPayload. intros x p H. cbv zeta in H. enc_inv H. injection H as <-.
    rewrite concatBytes_cons. eauto.
Defined.
End CPetch.

(** ** Fair launch: one mint, its opening in the clear *)
Module CPmint.
Record t := Mk { assetId : bytes; etchTxid : bytes; commitment : bytes; amount : Z; blinding : bytes }.

Definition encodeCPmintPayload (x : t) : res bytes :=
  throw_if (negb (blen (assetId x) =? 32)) "asset_id 32 bytes";;
  throw_if (negb (blen (etchTxid x) =? 32)) "etch_txid 32 bytes";;
  throw_if (negb (blen (commitment x) =? 33)) "commitment 33 bytes";;
  throw_if ((amount x <=? 0) || (amount x >=? Z.shiftl 1 N_BITS)) "amount out of range";;
  throw_if (negb (blen (blinding x) =? 32)) "blinding must be 32 bytes";;
  throw_if (all_zero (blinding x)) "blinding must be non-zero";;
  mret (concatBytes [u8b T_PMINT; assetId x; etchTxid x; commitment x; u64_halves (amount x); blinding x]).

Definition decodeCPmintPayload (payload : bytes) : res t :=
  run (
    null_if (negb (blen payload =? 1 + 32 + 32 + 33 + 8 + 32));;
    opcode T_PMINT;;
    assetId ← slice 32;
    etchTxid ← slice 32;
    commitment ← slice 33;
    amount ← u64h;
    null_if ((amount <=? 0) || (amount >=? Z.shiftl 1 N_BITS));;
    blinding ← slice 32;
    null_if (all_zero blinding);;
    ends_at 0;;
    mret (Mk assetId etchTxid commitment amount blinding)) payload.

Lemma cPmint_codec p x : decodeCPmintPayload p = Ok x ↔ encodeCPmintPayload x = Ok p.
Proof.
  unfold decodeCPmintPayload, encodeCPmintPayload. rewrite run_Ok.
  change (Z.shiftl 1 N_BITS) with (2 ^ 64). split.
  - intros [s H]. rd_inv H. rd_close. subst x. cbn [assetId etchTxid commitment amount blinding].
    enc_run ltac:(first [assumption|lia|len_lia]).
    by rewrite !concatBytes_cons, concatBytes_nil.
  - destruct x as [a e c v b]; cbn [assetId etchTxid commitment amount blinding].
    intros H. enc_inv H. injection H as <-.
    rewrite !concatBytes_cons, concatBytes_nil. bool_to_prop. eexists. rd_run. all: guard_solve.
Qed.

Lemma cPmint_decode_total p : total (decodeCPmintPayload p).
Proof. unfold decodeCPmintPayload. safe_run. Qed.

#[export] Instance wire : WireCodec t.
Proof.
  refine {| wire_op := T_PMINT; enc := encodeCPmintPayload; dec := decodeCPmintPayload;
            sendable _ := True; canonical _ _ := True |}.
  - intros x p H _. by apply cPmint_codec.
  - intros p x H _. by apply cPmint_codec in H.
  - apply cPmint_decode_total.
  - unfold encodeCPmintPayload. intros x p H. enc_inv H. injection H as <-.
    rewrite concatBytes_cons. eauto.
Defined.
End CPmint.

(** ** Airdrop: a drop pool, or the reclaim of one

    Both kinds share the opcode; the reclaim is the form whose [per_claim] is zero. *)
Module CDrop.
Inductive t :=
| Drop (assetId : bytes) (capAmount perClaim : Z) (merkleRoot : bytes) (expiryHeight : Z)
       (ticker : option text) (decimals assetInputCount : Z) (kernelSig : bytes)
| Reclaim (assetId : bytes) (capAmount : Z) (reclaimDropId reclaimSig capBlinding : bytes).

Definition encodeCDropPayload (assetId : bytes) (capAmount perClaim : Z) (merkleRoot : bytes)
    (expiryHeight : Z) (ticker : option text) (decimals assetInputCount : Z) (kernelSig : bytes) : res bytes :=
  throw_if (negb (blen assetId =? 32)) "asset_id must be 32 bytes";;
  throw_if ((capAmount <=? 0) || (capAmount >=? Z.shiftl 1 64)) "cap_amount out of u64 range";;
  throw_if ((perClaim <=? 0) || (perClaim >=? Z.shiftl 1 64)) "per_claim out of u64 range";;
  throw_if (negb (capAmount mod perClaim =? 0)) "cap_amount must be divisible by per_claim";;
  throw_if (negb (blen merkleRoot =? 32)) "merkle_root must be 32 bytes";;
  throw_if ((expiryHeight <? 0) || (expiryHeight >? 0xffffffff)) "expiry_height must be u32";;
  let tk := opt_text_encode ticker in
  throw_if (blen tk >? 16) "ticker too long (max 16 bytes UTF-8)";;
  throw_if ((decimals <? 0) || (decimals >? 8)) "decimals must be 0..8";;
  throw_if ((assetInputCount <? 1) || (assetInputCount >? 16)) "asset_input_count must be 1..16";;
  throw_if (negb (blen kernelSig =? 64)) "kernel_sig must be 64 bytes";;
  mret (concatBytes [u8b T_DROP; assetId; u64_halves capAmount; u64_halves perClaim; merkleRoot;
                     le 4 expiryHeight; u8b (blen tk); tk; u8b decimals; u8b assetInputCount; kernelSig]).

Definition encodeCDropReclaimPayload (assetId : bytes) (capAmount : Z)
    (reclaimDropId reclaimSig capBlinding : bytes) : res bytes :=
  throw_if (negb (blen assetId =? 32)) "asset_id must be 32 bytes";;
  throw_if ((capAmount <=? 0) || (capAmount >=? Z.shiftl 1 64)) "cap_amount out of u64 range";;
  throw_if (negb (blen reclaimDropId =? 32)) "reclaim_drop_id must be 32 bytes";;
  throw_if (negb (blen reclaimSig =? 64)) "reclaim_sig must be 64 bytes";;
  throw_if (negb (blen capBlinding =? 32)) "cap_blinding must be 32 bytes";;
  throw_if (all_zero capBlinding) "cap_blinding must be non-zero";;
  mret (concatBytes [u8b T_DROP; assetId; u64_halves capAmount; zeros 8;
                     reclaimDropId; reclaimSig; capBlinding]).

Definition encode (x : t) : res bytes :=
  match x with
  | Drop a c p m e tk d i k => encodeCDropPayload a c p m e tk d i k
  | Reclaim a c r s b => encodeCDropReclaimPayload a c r s b
  end.

Definition read_reclaim (len : Z) (assetId : bytes) (capAmount : Z) : rd t :=
  null_if (negb (len =? 1 + 32 + 8 + 8 + 32 + 64 + 32));;
  reclaimDropId ← slice 32;
  reclaimSig ← slice 64;
  capBlinding ← slice 32;
  ends_at 0;;
  null_if (all_zero capBlinding);;
  mret (Reclaim assetId capAmount reclaimDropId reclaimSig capBlinding).

Definition read_drop (assetId : bytes) (capAmount perClaim : Z) : rd t :=
  null_if (perClaim >=? Z.shiftl 1 64);;
  null_if (negb (capAmount mod perClaim =? 0));;
  merkleRoot ← slice 32;
  expiryHeight ← uint 4;
  room 1;;
  tlen ← u8;
  null_if (tlen >? 16);;
  room (tlen + 1 + 1 + 64);;
  ticker ← read_opt_text tlen;
  decimals ← u8;
  null_if (decimals >? 8);;
  assetInputCount ← u8;
  null_if ((assetInputCount <? 1) || (assetInputCount >? 16));;
  kernelSig ← slice 64;
  ends_at 0;;
  mret (Drop assetId capAmount perClaim merkleRoot expiryHeight ticker decimals
             assetInputCount kernelSig).

Definition decodeCDropPayload (payload : bytes) : res t :=
  run (
    null_if (blen payload <? 152);;
    opcode T_DROP;;
    assetId ← slice 32;
    capAmount ← u64h;
    perClaim ← u64h;
    null_if (capAmount <=? 0);;
    if perClaim =? 0 then read_reclaim (blen payload) assetId capAmount
    else read_drop assetId capAmount perClaim) payload.

Definition fits (x : t) : Prop :=
  match x with Drop _ _ _ _ _ tk _ _ _ => plain_opt tk | Reclaim _ _ _ _ _ => True end.
Definition wire_len (x : t) : Z :=
  match x with
  | Drop _ _ _ _ _ tk _ _ _ => 152 + blen (opt_text_encode tk)
  | Reclaim _ _ _ _ _ => 177
  end.

Lemma zeros_8 : zeros 8 = u64_halves 0.
Proof. reflexivity. Qed.

Lemma drop_round a c pc m e tk d i k p :
  encodeCDropPayload a c pc m e tk d i k = Ok p → plain_opt tk →
  decodeCDropPayload p = Ok (Drop a c pc m e tk d i k).
Proof.
  unfold encodeCDropPayload, decodeCDropPayload. intros H Ht. cbv zeta in H.
  enc_inv H. injection H as <-. change (Z.shiftl 1 64) with (2 ^ 64) in *.
  apply run_Ok. rewrite !concatBytes_cons, concatBytes_nil.
  eexists. rd_run. all: try guard_solve.
  destruct (Z.eqb_spec pc 0); [lia|]. unfold read_drop. change (Z.shiftl 1 64) with (2 ^ 64).
  rd_run. all: try guard_solve; auto using opt_text_round.
Qed.

Lemma reclaim_round a c r s b p :
  encodeCDropReclaimPayload a c r s b = Ok p → decodeCDropPayload p = Ok (Reclaim a c r s b).
Proof.
  unfold encodeCDropReclaimPayload, decodeCDropPayload. intros H.
  enc_inv H. injection H as <-. change (Z.shiftl 1 64) with (2 ^ 64) in *. bool_to_prop.
  apply run_Ok. rewrite !concatBytes_cons, concatBytes_nil, zeros_8.
  eexists. rd_run. all: try guard_solve.
  change (0 =? 0) with true. cbv iota. unfold read_reclaim. rd_run. all: guard_solve.
Qed.

Lemma cDrop_encode_decode p x : encode x = Ok p → fits x → decodeCDropPayload p = Ok x.
Proof. destruct x; cbn [encode fits]; [apply drop_round|intros ? _; by apply reclaim_round]. Qed.

Lemma cDrop_decode_encode p x : decodeCDropPayload p = Ok x → blen p = wire_len x → encode x = Ok p.
Proof.
  unfold decodeCDropPayload. rewrite run_Ok. intros [s H] Hl. rd_inv H.
  destruct (Z.eqb_spec a3 0) as [->|].
  - unfold read_reclaim in H. rd_inv H. rd_close. subst x. cbn [encode wire_len] in *.
    unfold encodeCDropReclaimPayload. change (Z.shiftl 1 64) with (2 ^ 64).
    enc_run ltac:(first [assumption|lia|len_lia]).
    by rewrite !concatBytes_cons, concatBytes_nil, zeros_8.
  - unfold read_drop in H. rd_inv H. subst x. cbn [encode wire_len] in *.
    match goal with Hi : opt_text_decode ?ib = Some ?i |- _ =>
      pose proof (opt_text_decode_ge _ _ Hi);
      assert (ib = opt_text_encode i) as -> by (apply opt_text_canon; [done|len_lia])
    end.
    rd_close. unfold encodeCDropPayload. cbv zeta. change (Z.shiftl 1 64) with (2 ^ 64) in *.
    enc_guards. by rewrite !concatBytes_cons, concatBytes_nil, Hb.
Qed.

Lemma cDrop_decode_total p : total (decodeCDropPayload p).
Proof. unfold decodeCDropPayload, read_reclaim, read_drop. safe_run. Qed.

#[export] Instance wire : WireCodec t.
Proof.
  refine {| wire_op := T_DROP; enc := encode; dec := decodeCDropPayload;
            sendable := fits; canonical x p := blen p = wire_len x |}.
  - intros x p. apply cDrop_encode_decode.
  - intros p x. apply cDrop_decode_encode.
  - apply cDrop_decode_total.
  - intros x p H. destruct x; cbn [encode] in H;
      unfold encodeCDropPayload, encodeCDropReclaimPayload in H; cbv zeta in H;
      enc_inv H; injection H as <-; rewrite concatBytes_cons; eauto.
Defined.
End CDrop.

(** ** Airdrop claim and its witness *)
Module CDClaim.
Record witness := Witness { recipientPub : bytes; leafIndex : Z; ethAddress : bytes;
                            ethSig : bytes; proofPath : list bytes }.
Record t := Mk { assetId : bytes; dropRevealTxid : bytes; commitment : bytes; amount : Z;
                 blinding : bytes; claim_witness : option witness }.

Definition encodeCDClaimPayload (assetId dropRevealTxid commitment : bytes) (amount : Z)
    (blinding witnessBytes : bytes) : res bytes :=
  throw_if (negb (blen assetId =? 32)) "asset_id must be 32 bytes";;
  throw_if (negb (blen dropRevealTxid =? 32)) "drop_reveal_txid must be 32 bytes";;
  throw_if (negb (blen commitment =? 33)) "commitment must be 33 bytes";;
  throw_if ((amount <=? 0) || (amount >=? Z.shiftl 1 64)) "amount out of u64 range";;
  throw_if (negb (blen blinding =? 32)) "blinding must be 32 bytes";;
  throw_if (all_zero blinding) "blinding must be non-zero";;
  throw_if (blen witnessBytes >? 65535) "witness too large (max 64 KB)";;
  mret (concatBytes [u8b T_DCLAIM; assetId; dropRevealTxid; commitment; u64_halves amount; blinding;
                     le 2 (blen witnessBytes); witnessBytes]).

Definition first_byte (b : bytes) : Z := byteZ (nth 0 b x00).

Definition encodeCDClaimWitness (w : witness) : res bytes :=
  throw_if (negb (blen (recipientPub w) =? 33)) "recipient_pub 33";;
  throw_if (negb (first_byte (recipientPub w) =? 0x02) && negb (first_byte (recipientPub w) =? 0x03))
    "recipient_pub must start with 02 or 03";;
  throw_if ((leafIndex w <? 0) || (leafIndex w >? 0xffffffff)) "leaf_index u32";;
  throw_if (negb (blen (ethAddress w) =? 20)) "eth_address 20";;
  throw_if (negb (blen (ethSig w) =? 65)) "eth_sig 65";;
  throw_if (Z.of_nat (length (proofPath w)) >? 32) "proof_path too deep (max 32)";;
  throw_if (negb (forallb (λ s, blen s =? 32) (proofPath w))) "proof_path entries must be 32-byte";;
  mret (concatBytes [recipientPub w; le 4 (leafIndex w); ethAddress w; ethSig w;
                     u8b (Z.of_nat (length (proofPath w))); concatBytes (proofPath w)]).

(** how the claim path composes the two *)
Definition witness_bytes (w : option witness) : res bytes :=
  match w with Some w => encodeCDClaimWitness w | None => mret [] end.
Definition encode (x : t) : res bytes :=
  wb ← witness_bytes (claim_witness x);
  encodeCDClaimPayload (assetId x) (dropRevealTxid x) (commitment x) (amount x) (blinding x) wb.

Definition read_witness (witnessLen : Z) : rd witness :=
  null_if (witnessLen <? 33 + 4 + 20 + 65 + 1);;
  recipientPub ← slice 33;
  null_if (negb (first_byte recipientPub =? 0x02) && negb (first_byte recipientPub =? 0x03));;
  leafIndex ← uint 4;
  ethAddress ← slice 20;
  ethSig ← slice 65;
  proofLen ← u8;
  null_if (proofLen >? 32);;
  ends_at (proofLen * 32);;
  proofPath ← repeatM (Z.to_nat proofLen) (slice 32);
  mret (Witness recipientPub leafIndex ethAddress ethSig proofPath).

(** [if (witnessLen > 0) witness = ...;] over the witness bytes on their own *)
Definition read_claim_witness (witnessLen : Z) (witnessBytes : bytes) : rd (option witness) :=
  if witnessLen >? 0 then w ← sub (read_witness witnessLen) witnessBytes; mret (Some w)
  else mret None.

Definition decodeCDClaimPayload (payload : bytes) : res t :=
  run (
    null_if (blen payload <? 140);;
    opcode T_DCLAIM;;
    assetId ← slice 32;
    dropRevealTxid ← slice 32;
    commitment ← slice 33;
    amount ← u64h;
    null_if ((amount <=? 0) || (amount >=? Z.shiftl 1 64));;
    blinding ← slice 32;
    null_if (all_zero blinding);;
    witnessLen ← uint 2;
    ends_at witnessLen;;
    witnessBytes ← slice witnessLen;
    witness ← read_claim_witness witnessLen witnessBytes;
    mret (Mk assetId dropRevealTxid commitment amount blinding witness)) payload.

Lemma repeat_slice32_Ok n s l s' :
  repeatM n (slice 32) s = Ok (l, s') ↔
  s = concatBytes l ++ s' ∧ length l = n ∧ Forall (λ b, blen b = 32) l.
Proof.
  unfold concatBytes. rewrite <- (map_id l) at 2.
  apply (repeatM_Ok _ (λ b, b) (λ b, blen b = 32)). intros. by rewrite slice_Ok.
Qed.

Lemma blen_path l : Forall (λ b, blen b = 32) l → blen (concatBytes l) = 32 * Z.of_nat (length l).
Proof.
  induction 1 as [|b l Hb _ IH]; [done|]. rewrite concatBytes_cons, blen_app, IH, Hb.
  cbn [length]. lia.
Qed.

Lemma forallb_path l : forallb (λ s, blen s =? 32) l = true ↔ Forall (λ b, blen b = 32) l.
Proof.
  rewrite forallb_forall, List.Forall_forall.
  split; intros H x Hx; specialize (H x Hx); lia.
Qed.

Lemma witness_codec w b :
  run (read_witness (blen b)) b = Ok w ↔ encodeCDClaimWitness w = Ok b.
Proof.
  unfold read_witness, encodeCDClaimWitness. rewrite run_Ok. split.
  - intros [s H]. rd_inv H.
    match goal with H : repeatM _ _ _ = _ |- _ => apply repeat_slice32_Ok in H as (-> & Hn & Hp) end.
    pose proof (blen_path _ Hp). subst w. cbn [recipientPub leafIndex ethAddress ethSig proofPath].
    match goal with H : blen (concatBytes _ ++ ?r) = _ |- _ =>
      assert (blen r = 0) as ->%blen_0 by len_lia end.
    enc_run ltac:(first [assumption|lia|len_lia|by apply negb_false_iff, forallb_path]).
    rewrite Hn, Z2Nat.id by lia. by rewrite !concatBytes_cons, concatBytes_nil, !app_nil_r.
  - destruct w as [r l a g pp]; cbn [recipientPub leafIndex ethAddress ethSig proofPath].
    intros H. enc_inv H. injection H as <-.
    assert (Hp : Forall (λ b, blen b = 32) pp) by (by apply forallb_path, negb_false_iff).
    pose proof (blen_path _ Hp). rewrite !concatBytes_cons, concatBytes_nil.
    eexists. rd_run. all: try guard_solve.
    rewrite Nat2Z.id. by apply repeat_slice32_Ok.
Qed.

Lemma witness_nonempty w b : encodeCDClaimWitness w = Ok b → 123 <= blen b <= 123 + 32 * 32.
Proof.
  unfold encodeCDClaimWitness. intros H. enc_inv H. injection H as <-.
  rewrite !concatBytes_cons, concatBytes_nil.
  match goal with H : negb (forallb _ _) = false |- _ =>
    apply negb_false_iff, forallb_path, blen_path in H end.
  len_lia.
Qed.

Lemma read_claim_witness_Ok wb w s s' :
  read_claim_witness (blen wb) wb s = Ok (w, s') ↔ witness_bytes w = Ok wb ∧ s' = s.
Proof.
  unfold read_claim_witness, witness_bytes. pose proof (blen_nonneg wb).
  destruct (blen wb >? 0) eqn:E.
  - split.
    + intros H1. rd_inv H1. subst w. rewrite <- witness_codec. auto.
    + destruct w as [w|]; intros [H1 ->].
      * rd_run; [by apply witness_codec|done].
      * injection H1 as <-. done.
  - assert (wb = []) as -> by (apply blen_0; lia). split.
    + intros H1. rd_inv H1. by subst w.
    + destruct w as [w|]; intros [H1 ->]; [|done].
      apply witness_nonempty in H1. rewrite blen_nil in H1. lia.
Qed.

Lemma cDClaim_codec p x : decodeCDClaimPayload p = Ok x ↔ encode x = Ok p.
Proof.
  unfold decodeCDClaimPayload, encode, encodeCDClaimPayload. rewrite run_Ok.
  change (Z.shiftl 1 64) with (2 ^ 64). split.
  - intros [s H]. rd_inv H. subst x. cbn [assetId dropRevealTxid commitment amount blinding claim_witness].
    rd_close. subst.
    match goal with H : read_claim_witness _ _ _ = _ |- _ =>
      apply read_claim_witness_Ok in H as [Hw ->] end.
    apply res_bind_Ok. eexists; split; [exact Hw|].
    enc_run ltac:(first [assumption|lia|len_lia]).
    by rewrite !concatBytes_cons, concatBytes_nil.
  - destruct x as [a d c v b w]; cbn [assetId dropRevealTxid commitment amount blinding claim_witness].
    intros (wb & Hw & H)%res_bind_Ok. enc_inv H. injection H as <-.
    rewrite !concatBytes_cons, concatBytes_nil. bool_to_prop.
    eexists. rd_run. all: try guard_solve.
    apply read_claim_witness_Ok. split; [exact Hw|reflexivity].
Qed.

Lemma safe_read_witness n wb : n = blen wb → safe_at (read_witness n) wb.
Proof.
  intros ->. unfold read_witness. repeat safe_step; try len_lia.
  apply safe_bind; [apply safe_repeat_slice; len_lia|]. intros. apply safe_ret.
Qed.

Lemma safe_read_claim_witness n wb s : n = blen wb → safe_at (read_claim_witness n wb) s.
Proof.
  intros ->. unfold read_claim_witness. destruct (_ >? 0); [|apply safe_ret].
  apply safe_bind; [by apply safe_sub, safe_read_witness|]. intros. apply safe_ret.
Qed.

Lemma cDClaim_decode_total p : total (decodeCDClaimPayload p).
Proof.
  unfold decodeCDClaimPayload. safe_run.
  apply safe_bind; [by apply safe_read_claim_witness|]. intros. apply safe_ret.
Qed.

#[export] Instance wire : WireCodec t.
Proof.
  refine {| wire_op := T_DCLAIM; enc := encode; dec := decodeCDClaimPayload;
            sendable _ := True; canonical _ _ := True |}.
  - intros x p H _. by apply cDClaim_codec.
  - intros p x H _. by apply cDClaim_codec in H.
  - apply cDClaim_decode_total.
  - unfold encode, encodeCDClaimPayload. intros x p (wb & _ & H)%res_bind_Ok. enc_inv H.
    injection H as <-. rewrite concatBytes_cons. eauto.
Defined.
End CDClaim.
