(* ===== verification/CodecPool.v ===== *)
(** * Mixer and slot envelopes ([dapp/tacit.js])

    [TDeposit] (a deposit or a pool initialisation), [TWithdraw], and the slot family:
    [SlotMint], [SlotBurn], [SlotRotate], [SlotSplit], [SlotMerge].  SHA-256 and the
    secp256k1 point parser come from libraries ([Crypto]). *)
From S2P Require Import Prelude Bytes Crypto.

Definition T_DEPOSIT : Z := 0x29.
Definition T_WITHDRAW : Z := 0x2A.
Definition T_SLOT_MINT : Z := 0x43.
Definition T_SLOT_BURN : Z := 0x44.
Definition T_SLOT_ROTATE : Z := 0x45.
Definition T_SLOT_SPLIT : Z := 0x46.
Definition T_SLOT_MERGE : Z := 0x47.
Definition WITHDRAW_BIND_DOMAIN : bytes := ascii_bytes "tacit-withdraw-bind-v1".
Definition CTAC_VARIANT_DOMAIN : bytes := ascii_bytes "tacit-cbtc-tac-variant-v1".

(** A cursor action that runs a computation of its own. *)
Definition lift {A} (m : res A) : rd A := λ s, a ← m; mret (a, s).

Lemma lift_Ok {A} (m : res A) s a s' : lift m s = Ok (a, s') ↔ m = Ok a ∧ s' = s.
Proof. unfold lift. rewrite res_bind_Ok. unfold mret, res_ret. naive_solver. Qed.

(** ** Ranges and optional trailing notes *)

(** [d <= 0n || d >= (1n << BigInt(N_BITS))], with [N_BITS = 64] *)
Definition denom_bad (d : Z) : bool := (d <=? 0) || (d >=? Z.shiftl 1 64).

Lemma denom_bad_false d : denom_bad d = false ↔ 0 < d < 2 ^ 64.
Proof. unfold denom_bad. change (Z.shiftl 1 64) with (2 ^ 64). lia. Qed.

(** The [encryptedNote] argument: absent ([null]), declared empty ([false]) or a
    122-byte note.  Decoders answer [null] for the first two. *)
Inductive note := NoteOmit | NoteNone | Note (b : bytes).

Definition push_note (n : note) : res bytes :=
  match n with
  | NoteOmit => mret []
  | NoteNone => mret (u8b 0)
  | Note b => throw_if (negb (blen b =? 122)) "encryptedNote must be a 122-byte Uint8Array (or null/false)";;
              mret (u8b 1 ++ b)
  end.

Definition note_bytes (n : note) : bytes :=
  match n with NoteOmit => [] | NoteNone => u8b 0 | Note b => u8b 1 ++ b end.
Definition note_wf (n : note) : Prop := match n with Note b => blen b = 122 | _ => True end.

Lemma push_note_Ok n b : push_note n = Ok b ↔ b = note_bytes n ∧ note_wf n.
Proof.
  destruct n as [| |x]; cbn [push_note note_bytes note_wf]; unfold mret, res_ret; [naive_solver..|].
  rewrite res_bind_Ok. setoid_rewrite throw_if_Ok. split.
  - intros (_ & H & [= <-]). split; [done|lia].
  - intros [-> H]. exists tt. split; [lia|done].
Qed.

(** The rotate and merge decoders look at the end of the payload for the note before
    reading the [hostLen] bytes that precede it. *)
Definition peek_note (hostLen : Z) : rd note := λ s,
  if blen s <? hostLen then Null
  else match drop (Z.to_nat hostLen) s with
       | [] => Ok (NoteOmit, s)
       | mark :: rest =>
           if (blen rest =? 0) && (byteZ mark =? 0) then Ok (NoteOmit, s)
           else if (blen rest =? 122) && (byteZ mark =? 1) then Ok (Note rest, s)
           else Null
       end.

(** [tail_reads tail n]: the decoders read the bytes [tail] as the note [n]. *)
Definition tail_reads (tail : bytes) (n : note) : Prop :=
  match n with
  | NoteOmit => tail = [] ∨ tail = u8b 0
  | NoteNone => False
  | Note b => tail = u8b 1 ++ b ∧ blen b = 122
  end.

Lemma note_reads n : note_wf n → n ≠ NoteNone → tail_reads (note_bytes n) n.
Proof. destruct n; cbn; auto. Qed.

Lemma note_len n : note_wf n → n ≠ NoteNone → blen (note_bytes n) = 0 ∨ blen (note_bytes n) = 123.
Proof. destruct n; cbn; [by left|done|]. intros Hb _. right. rewrite blen_app, Hb. done. Qed.

(** Away from the one-byte marker, the tail read is the tail an encoder writes. *)
Lemma tail_reads_bytes tail n :
  tail_reads tail n → n ≠ NoteNone ∧ note_wf n ∧ (blen tail ≠ 1 → tail = note_bytes n).
Proof.
  destruct n as [| |b]; cbn; [|done|].
  - intros [->| ->]; (split; [done|]); (split; [done|]); [done|].
    intros Hne. by destruct Hne.
  - intros [-> Hb]. done.
Qed.

Lemma peek_note_Ok h s n s' :
  0 <= h →
  peek_note h s = Ok (n, s') ↔
  s' = s ∧ ∃ host tail, s = host ++ tail ∧ blen host = h ∧ tail_reads tail n.
Proof.
  intros Hh. unfold peek_note. destruct (Z.ltb_spec (blen s) h) as [Hl|Hl].
  { split; [done|]. intros (_ & host & tail & -> & <- & _). rewrite blen_app in Hl.
    pose proof (blen_nonneg tail). lia. }
  assert (Hcut : s = take (Z.to_nat h) s ++ drop (Z.to_nat h) s ∧ blen (take (Z.to_nat h) s) = h).
  { rewrite take_drop. unfold blen in *. rewrite length_take. split; [done|lia]. }
  split.
  - intros H. assert (s' = s ∧ tail_reads (drop (Z.to_nat h) s) n) as [-> Ht].
    { destruct (drop (Z.to_nat h) s) as [|m rest]; [injection H as <- <-; cbn; auto|].
      case_match eqn:E1; [|case_match eqn:E2; [|done]]; injection H as <- <-; bool_to_prop;
        split; try done; cbn.
      - right. assert (rest = []) as -> by (by apply blen_0). unfold u8b. f_equal. apply byteZ_inj.
        by rewrite byteZ_of_Z.
      - split; [|done]. unfold u8b. cbn [app]. f_equal. apply byteZ_inj. by rewrite byteZ_of_Z. }
    split; [done|]. destruct Hcut. by eexists _, _.
  - intros (-> & host & tail & Hs & Hb & Ht).
    assert (drop (Z.to_nat h) s = tail) as ->.
    { rewrite Hs. unfold blen in Hb. rewrite drop_app_length'; [done|lia]. }
    destruct n as [| |b]; cbn in Ht; [destruct Ht as [->| ->]; done|done|].
    destruct Ht as [-> Hb']. unfold u8b. cbn [app].
    rewrite Hb', byteZ_of_Z. done.
Qed.

Lemma peek_note_inv h s n s' :
  0 <= h → peek_note h s = Ok (n, s') →
  s' = s ∧ h <= blen s ∧ ∃ host tail, s = host ++ tail ∧ blen host = h ∧ tail_reads tail n.
Proof.
  intros Hh H. apply peek_note_Ok in H as (-> & host & tail & -> & Hb & Ht); [|done].
  split; [done|]. split; [|eauto]. rewrite blen_app. pose proof (blen_nonneg tail). lia.
Qed.

Lemma host_all s h :
  blen s = h → ∃ host tail, s = host ++ tail ∧ blen host = h ∧ tail_reads tail NoteOmit.
Proof. intros. exists s, []. rewrite app_nil_r. split; [done|]. split; [done|by left]. Qed.

Lemma safe_peek_note h s : safe_at (peek_note h) s.
Proof.
  unfold safe_at, peek_note, total. repeat (case_match; eauto).
Qed.

(** ** Pool deposits *)
Module TDeposit.
(** One opcode, two messages: a zero denomination marks the pool's initialisation. *)
Inductive t :=
| Deposit (assetId : bytes) (denomination : Z) (leafCommitment kernelSig : bytes)
| PoolInit (assetId : bytes) (poolDenom : Z) (vkCid ceremonyCid initSig : bytes).

Definition encodeTDepositPayload (assetId : bytes) (denomination : Z)
    (leafCommitment kernelSig : bytes) : res bytes :=
  throw_if (negb (blen assetId =? 32)) "asset_id 32 bytes";;
  throw_if (negb (blen leafCommitment =? 32)) "leaf_commitment 32 bytes";;
  throw_if (negb (blen kernelSig =? 64)) "kernel_sig 64 bytes";;
  throw_if (denom_bad denomination) "denomination out of range";;
  mret (concatBytes [u8b T_DEPOSIT; assetId; u64_halves denomination; leafCommitment; kernelSig]).

Definition encodeTPoolInitPayload (assetId : bytes) (poolDenom : Z)
    (vkBytes ceBytes initSig : bytes) : res bytes :=
  throw_if (negb (blen assetId =? 32)) "asset_id 32 bytes";;
  throw_if (negb (blen initSig =? 64)) "init_sig 64 bytes";;
  throw_if (denom_bad poolDenom) "pool_denom out of range";;
  throw_if ((blen vkBytes <? 1) || (blen vkBytes >? 64)) "vk_cid len 1..64";;
  throw_if ((blen ceBytes <? 1) || (blen ceBytes >? 64)) "ceremony_cid len 1..64";;
  mret (concatBytes [u8b T_DEPOSIT; assetId; zeros 8; u64_halves poolDenom;
                     u8b (blen vkBytes); vkBytes; u8b (blen ceBytes); ceBytes; initSig]).

Definition encode (x : t) : res bytes :=
  match x with
  | Deposit a d l k => encodeTDepositPayload a d l k
  | PoolInit a d v c i => encodeTPoolInitPayload a d v c i
  end.

Definition read_pool_init (assetId : bytes) : rd t :=
  room (8 + 1);;
  poolDenom ← u64h;
  null_if (denom_bad poolDenom);;
  room 1;;
  vkLen ← u8;
  null_if ((vkLen <? 1) || (vkLen >? 64));;
  room vkLen;;
  vkCid ← slice vkLen;
  room 1;;
  ceLen ← u8;
  null_if ((ceLen <? 1) || (ceLen >? 64));;
  room ceLen;;
  ceremonyCid ← slice ceLen;
  ends_at 64;;
  initSig ← slice 64;
  mret (PoolInit assetId poolDenom vkCid ceremonyCid initSig).

Definition read_deposit (len : Z) (assetId : bytes) (denomination : Z) : rd t :=
  null_if (negb (len =? 1 + 32 + 8 + 32 + 64));;
  null_if (denomination >=? Z.shiftl 1 64);;
  leafCommitment ← slice 32;
  kernelSig ← slice 64;
  mret (Deposit assetId denomination leafCommitment kernelSig).

Definition decodeTDepositPayload (payload : bytes) : res t :=
  run (
    opcode T_DEPOSIT;;
    null_if (blen payload <? 1 + 32 + 8);;
    assetId ← slice 32;
    denomination ← u64h;
    if denomination =? 0 then read_pool_init assetId
    else read_deposit (blen payload) assetId denomination) payload.

Lemma deposit_round a d l k p :
  encodeTDepositPayload a d l k = Ok p → decodeTDepositPayload p = Ok (Deposit a d l k).
Proof.
  unfold encodeTDepositPayload, decodeTDepositPayload. intros H. enc_inv H. injection H as <-.
  rewrite denom_bad_false in *. bool_to_prop. apply run_Ok. rewrite !concatBytes_cons, concatBytes_nil.
  eexists. rd_run. all: try guard_solve.
  destruct (Z.eqb_spec d 0); [lia|]. unfold read_deposit. change (Z.shiftl 1 64) with (2 ^ 64).
  rd_run. all: guard_solve.
Qed.

Lemma pool_init_round a d v c i p :
  encodeTPoolInitPayload a d v c i = Ok p → decodeTDepositPayload p = Ok (PoolInit a d v c i).
Proof.
  unfold encodeTPoolInitPayload, decodeTDepositPayload. intros H. enc_inv H. injection H as <-.
  rewrite denom_bad_false in *. bool_to_prop. apply run_Ok. rewrite !concatBytes_cons, concatBytes_nil.
  change (zeros 8) with (u64_halves 0). eexists. rd_run. all: try guard_solve.
  change (0 =? 0) with true. cbv iota. unfold read_pool_init. rd_run.
  all: try (apply denom_bad_false); guard_solve.
Qed.

Lemma tDeposit_codec p x : decodeTDepositPayload p = Ok x ↔ encode x = Ok p.
Proof.
  split; [|destruct x; [apply deposit_round|apply pool_init_round]].
  unfold decodeTDepositPayload. rewrite run_Ok. intros [s H]. rd_inv H.
  match type of H with (if ?d =? 0 then _ else _) _ = _ => destruct (Z.eqb_spec d 0) as [->|] end.
  - unfold read_pool_init in H. rd_inv H. rd_close. subst x. cbn [encode].
    unfold encodeTPoolInitPayload. rewrite denom_bad_false in *.
    enc_run ltac:(first [by apply denom_bad_false|lia|len_lia]).
    rewrite !concatBytes_cons, concatBytes_nil. change (zeros 8) with (u64_halves 0). by subst.
  - unfold read_deposit in H. rd_inv H. change (Z.shiftl 1 64) with (2 ^ 64) in *.
    subst x.
    match goal with H : negb (blen (_ ++ _ ++ _ ++ _ ++ _ ++ ?r) =? _) = false |- _ =>
      assert (blen r = 0) as ->%blen_0 by len_lia end.
    cbn [encode]. unfold encodeTDepositPayload.
    enc_run ltac:(first [apply denom_bad_false; lia|lia|len_lia]).
    by rewrite !concatBytes_cons, concatBytes_nil.
Qed.

Lemma tDeposit_decode_total p : total (decodeTDepositPayload p).
Proof. unfold decodeTDepositPayload, read_pool_init, read_deposit. safe_run. Qed.

#[export] Instance wire : WireCodec t.
Proof.
  refine {| wire_op := T_DEPOSIT; enc := encode; dec := decodeTDepositPayload;
            sendable _ := True; canonical _ _ := True |}.
  - intros x p H _. by apply tDeposit_codec.
  - intros p x H _. by apply tDeposit_codec in H.
  - apply tDeposit_decode_total.
  - intros x p H. destruct x; cbn [encode] in H;
      unfold encodeTDepositPayload, encodeTPoolInitPayload in H; enc_inv H; injection H as <-;
      rewrite concatBytes_cons; eauto.
Defined.
End TDeposit.

(** ** Spending a note: the fields the withdraw and every slot spend share *)
Record spend := Spend { assetId : bytes; denomination : Z; merkleRoot : bytes; nullifierHash : bytes;
                        recipientCommitment : bytes; rLeaf : bytes; bindHash : bytes; proof : bytes }.

Definition spend_bytes (sp : spend) : bytes :=
  assetId sp ++ u64_halves (denomination sp) ++ merkleRoot sp ++ nullifierHash sp ++
  recipientCommitment sp ++ rLeaf sp ++ bindHash sp.

Definition spend_wf (sp : spend) : Prop :=
  blen (assetId sp) = 32 ∧ 0 < denomination sp < 2 ^ 64 ∧ blen (merkleRoot sp) = 32 ∧
  blen (nullifierHash sp) = 32 ∧ blen (recipientCommitment sp) = 33 ∧ blen (rLeaf sp) = 32 ∧
  blen (bindHash sp) = 32.

Lemma blen_spend sp : spend_wf sp → blen (spend_bytes sp) = 201.
Proof. unfold spend_wf, spend_bytes. intros (?&?&?&?&?&?&?). len_lia. Qed.

(** The length checks of the encoders, in their order; [pre] is the prefix of the field
    names in the messages. *)
Definition check_spend (pre assetMsg : string) (sp : spend) : res unit :=
  throw_if (negb (blen (assetId sp) =? 32)) assetMsg;;
  throw_if (negb (blen (merkleRoot sp) =? 32)) (pre +:+ "merkle_root 32 bytes");;
  throw_if (negb (blen (nullifierHash sp) =? 32)) (pre +:+ "nullifier_hash 32 bytes");;
  throw_if (negb (blen (recipientCommitment sp) =? 33)) (pre +:+ "recipient_commitment 33 bytes");;
  throw_if (negb (blen (rLeaf sp) =? 32)) (pre +:+ "r_leaf 32 bytes");;
  throw_if (negb (blen (bindHash sp) =? 32)) (pre +:+ "bind_hash 32 bytes");;
  throw_if ((blen (proof sp) =? 0) || (blen (proof sp) >? 0xffff)) (pre +:+ "proof len 1..65535").

Lemma check_spend_Ok pre am sp u :
  0 < denomination sp < 2 ^ 64 →
  check_spend pre am sp = Ok u ↔ spend_wf sp ∧ 1 <= blen (proof sp) < 65536.
Proof.
  intros Hd. unfold check_spend, spend_wf. pose proof (blen_nonneg (proof sp)). split.
  - intros H1. enc_inv H1. apply throw_if_Ok in H1. repeat split; lia.
  - intros ((?&?&?&?&?&?&?)&?). enc_run lia. destruct u. apply throw_if_Ok. lia.
Qed.

Section pool.
Context `{Hash} `{PointParser}.

Definition computeWithdrawBindHash (assetId : bytes) (denomination : Z)
    (nullifierHash recipientCommitment rLeaf : bytes) : res bytes :=
  throw_if (negb (blen assetId =? 32)) "asset_id 32 bytes";;
  throw_if (negb (blen nullifierHash =? 32)) "nullifier_hash 32 bytes";;
  throw_if (negb (blen recipientCommitment =? 33)) "recipient_commitment 33 bytes";;
  throw_if (negb (blen rLeaf =? 32)) "r_leaf 32 bytes";;
  mret (sha256 (concatBytes [WITHDRAW_BIND_DOMAIN; assetId; u64_halves denomination;
                             nullifierHash; recipientCommitment; rLeaf])).

(** [for (let i = 0; i < 32; i++) if (expected[i] !== bindHash[i]) return null;] *)
Definition check_bind (sp : spend) : rd unit :=
  expected ← lift (computeWithdrawBindHash (assetId sp) (denomination sp) (nullifierHash sp)
                                           (recipientCommitment sp) (rLeaf sp));
  null_if (negb (bool_decide (take 32 expected = take 32 (bindHash sp)))).

Definition bound (sp : spend) : Prop :=
  take 32 (sha256 (concatBytes [WITHDRAW_BIND_DOMAIN; assetId sp; u64_halves (denomination sp);
                                nullifierHash sp; recipientCommitment sp; rLeaf sp]))
  = take 32 (bindHash sp).

Lemma computeWithdrawBindHash_Ok sp : spend_wf sp →
  computeWithdrawBindHash (assetId sp) (denomination sp) (nullifierHash sp) (recipientCommitment sp)
    (rLeaf sp) =
  Ok (sha256 (concatBytes [WITHDRAW_BIND_DOMAIN; assetId sp; u64_halves (denomination sp);
                           nullifierHash sp; recipientCommitment sp; rLeaf sp])).
Proof.
  intros (?&?&?&?&?&?&?). unfold computeWithdrawBindHash. enc_run lia. done.
Qed.

Lemma check_bind_Ok sp s u s' :
  spend_wf sp → check_bind sp s = Ok (u, s') ↔ bound sp ∧ s' = s.
Proof.
  intros Hsp. unfold check_bind. rewrite computeWithdrawBindHash_Ok by done.
  rewrite rd_bind_Ok. setoid_rewrite lift_Ok. setoid_rewrite null_if_Ok. unfold bound.
  setoid_rewrite negb_false_iff. setoid_rewrite bool_decide_eq_true. naive_solver.
Qed.

Lemma safe_check_bind sp s : spend_wf sp → safe_at (check_bind sp) s.
Proof.
  intros Hsp. unfold check_bind. rewrite computeWithdrawBindHash_Ok by done.
  apply safe_bind; [right; by eexists|]. intros. apply safe_null_if.
Qed.

(** The fields before the proof; slot spends parse the recipient commitment as a
    point, the withdraw does not. *)
Definition read_spend (pointy : bool) : rd spend :=
  assetId ← slice 32;
  denomination ← u64h;
  null_if (denom_bad denomination);;
  merkleRoot ← slice 32;
  nullifierHash ← slice 32;
  recipientCommitment ← slice 33;
  null_if (pointy && negb (is_point recipientCommitment));;
  rLeaf ← slice 32;
  bindHash ← slice 32;
  mret (Spend assetId denomination merkleRoot nullifierHash recipientCommitment rLeaf bindHash []).

Definition with_proof (sp : spend) (pf : bytes) : spend :=
  Spend (assetId sp) (denomination sp) (merkleRoot sp) (nullifierHash sp) (recipientCommitment sp)
        (rLeaf sp) (bindHash sp) pf.

Definition pointy_ok (pointy : bool) (sp : spend) : Prop :=
  pointy = true → is_point (recipientCommitment sp) = true.

Lemma read_spend_Ok b s sp s' :
  read_spend b s = Ok (sp, s') ↔
  s = spend_bytes sp ++ s' ∧ spend_wf sp ∧ proof sp = [] ∧ pointy_ok b sp.
Proof.
  unfold read_spend, spend_bytes, spend_wf, pointy_ok. split.
  - intros H1. rd_inv H1. simplify_eq. cbn. rewrite <- !app_assoc, denom_bad_false in *.
    repeat split; try lia.
    intros ->. by match goal with H : true && negb ?b = false |- _ => destruct b end.
  - destruct sp as [a d m nh rc rl bh pf]; cbn. intros (-> & (?&?&?&?&?&?&?) & -> & Hp).
    rewrite <- !app_assoc. rd_run; try guard_solve.
    + by apply denom_bad_false.
    + destruct b; [|done]. by rewrite Hp.
Qed.

Lemma safe_read_spend b s : 201 <= blen s → safe_at (read_spend b) s.
Proof. intros. unfold read_spend. repeat safe_step; len_lia. Qed.
End pool.

Ltac rd_inv_hook H ::=
  lazymatch type of H with
  | read_spend _ _ = Ok _ =>
      let Hw := fresh "Hsp" in let Hpf := fresh "Hpf" in let Hp := fresh "Hpoint" in
      let Hl := fresh "Hsplen" in
      apply read_spend_Ok in H as (-> & Hw & Hpf & Hp); pose proof (blen_spend _ Hw) as Hl
  | check_bind ?sp _ = Ok _ =>
      apply check_bind_Ok in H as [H ->]; [|assumption]
  | peek_note _ _ = Ok _ =>
      let Hl := fresh "Hhost" in apply peek_note_inv in H as (-> & Hl & H); [|lia]
  | _ => idtac
  end.
Ltac rd_step_hook ::=
  lazymatch goal with
  | |- read_spend _ _ = Ok _ => apply read_spend_Ok; split; [reflexivity|]
  | |- check_bind _ _ = Ok _ => apply check_bind_Ok; [|split; [|reflexivity]]
  | |- peek_note _ _ = Ok _ => apply peek_note_Ok; [|split; [reflexivity|]]
  | _ => idtac
  end.
Ltac safe_hook ::=
  first [ apply safe_read_spend | apply safe_check_bind; assumption | apply safe_peek_note ].

(** Reading the fields up to the proof, then the proof: the encoders' view. *)
Lemma check_encode {A} pre am msg sp (k : unit → res A) p :
  (check_spend pre am sp;; throw_if (denom_bad (denomination sp)) msg ≫= k) = Ok p ↔
  spend_wf sp ∧ 1 <= blen (proof sp) < 65536 ∧ k tt = Ok p.
Proof.
  split.
  - intros (u & Hc & (v & Hd & Hk)%res_bind_Ok)%res_bind_Ok.
    rewrite throw_if_Ok, denom_bad_false in Hd. apply check_spend_Ok in Hc as [??]; [|done].
    by destruct v.
  - intros (Hw & Hp & Hk). assert (Hd : 0 < denomination sp < 2 ^ 64) by apply Hw.
    apply res_bind_Ok. exists tt. split; [by apply check_spend_Ok|].
    apply res_bind_Ok. exists tt. split; [by apply throw_if_Ok, denom_bad_false|done].
Qed.

Lemma check_spend_inv {A} pre am sp (k : unit → res A) p :
  (check_spend pre am sp ≫= k) = Ok p →
  (0 < denomination sp < 2 ^ 64 → spend_wf sp ∧ 1 <= blen (proof sp) < 65536) ∧ k tt = Ok p.
Proof.
  intros ([] & Hc & Hk)%res_bind_Ok. split; [|done]. intros Hd. by apply check_spend_Ok in Hc.
Qed.

Lemma check_spend_run {A} pre am sp (k : unit → res A) :
  spend_wf sp → 1 <= blen (proof sp) < 65536 → (check_spend pre am sp ≫= k) = k tt.
Proof.
  intros Hw Hp. assert (check_spend pre am sp = Ok tt) as ->; [|done].
  apply check_spend_Ok; [apply Hw|done].
Qed.

(** The flat concatenation of the encoders is the fixed part followed by the rest. *)
Lemma spend_parts sp r :
  assetId sp ++ u64_halves (denomination sp) ++ merkleRoot sp ++ nullifierHash sp ++
  recipientCommitment sp ++ rLeaf sp ++ bindHash sp ++ r = spend_bytes (with_proof sp []) ++ r.
Proof. unfold spend_bytes. cbn. by rewrite <- !app_assoc. Qed.

Lemma with_proof_wf sp pf : spend_wf (with_proof sp pf) ↔ spend_wf sp.
Proof. done. Qed.
Lemma with_proof_id sp pf : proof sp = pf → with_proof sp pf = sp.
Proof. by intros <-; destruct sp. Qed.

Lemma with_proof_proof sp pf : with_proof (with_proof sp pf) (proof sp) = sp.
Proof. by destruct sp. Qed.

Lemma pointy_false `{PointParser} sp : pointy_ok false sp.
Proof. done. Qed.

Lemma land_ff v : 0 <= v < 256 → Z.land v 0xff = v.
Proof. intros. change 0xff with (Z.ones 8). rewrite Z.land_ones by lia. by apply Z.mod_small. Qed.

Ltac pool_solve :=
  try guard_solve;
  try (by apply with_proof_proof);
  try (rewrite with_proof_proof; done);
  try (by apply denom_bad_false);
  try (split; [assumption|split; [reflexivity|intros _; assumption]]);
  try done.

(** ** Withdraw *)
Module TWithdraw.
Section with_crypto.
Context `{Hash} `{PointParser}.

Definition encodeTWithdrawPayload (x : spend) : res bytes :=
  check_spend "" "asset_id 32 bytes" x;;
  throw_if (denom_bad (denomination x)) "denomination out of range";;
  mret (concatBytes [u8b T_WITHDRAW; assetId x; u64_halves (denomination x); merkleRoot x;
                     nullifierHash x; recipientCommitment x; rLeaf x; bindHash x;
                     le 2 (blen (proof x)); proof x]).

Definition decodeTWithdrawPayload (payload : bytes) : res spend :=
  run (
    opcode T_WITHDRAW;;
    null_if (blen payload <? 1 + 32 + 8 + 32 + 32 + 33 + 32 + 32 + 2);;
    sp ← read_spend false;
    proofLen ← uint 2;
    null_if (proofLen =? 0);;
    ends_at proofLen;;
    pf ← slice proofLen;
    check_bind sp;;
    mret (with_proof sp pf)) payload.

Lemma tWithdraw_codec p x : decodeTWithdrawPayload p = Ok x ↔ encodeTWithdrawPayload x = Ok p ∧ bound x.
Proof.
  unfold decodeTWithdrawPayload, encodeTWithdrawPayload. rewrite run_Ok, check_encode. split.
  - intros [s H1]. rd_inv H1. rd_close. subst x. subst. split; [|done].
    split; [done|]. split; [cbn; lia|].
    rewrite !concatBytes_cons, concatBytes_nil. unfold spend_bytes. by rewrite <- !app_assoc.
  - intros [(Hw & Hpf & [= <-]) Hb]. rewrite !concatBytes_cons, concatBytes_nil.
    assert (Hl : blen (spend_bytes (with_proof x [])) = 201) by by apply blen_spend. eexists.
    rewrite spend_parts. rd_run. all: pool_solve.
Qed.

Lemma tWithdraw_decode_total p : total (decodeTWithdrawPayload p).
Proof. unfold decodeTWithdrawPayload. safe_run. Qed.

#[export] Instance wire : WireCodec spend.
Proof.
  refine {| wire_op := T_WITHDRAW; enc := encodeTWithdrawPayload; dec := decodeTWithdrawPayload;
            sendable := bound; canonical _ _ := True |}.
  - intros x p ? ?. by apply tWithdraw_codec.
  - intros p x Hd _. by apply tWithdraw_codec in Hd as [? _].
  - apply tWithdraw_decode_total.
  - unfold encodeTWithdrawPayload. intros x p (_ & _ & [= <-])%check_encode.
    rewrite concatBytes_cons. eauto.
Defined.
End with_crypto.
End TWithdraw.

(** ** Slot burn *)
Module SlotBurn.
Record t := Mk { networkTag : Z; spent : spend }.
Section with_crypto.
Context `{Hash} `{PointParser}.

Definition encodeTSlotBurnPayload (x : t) : res bytes :=
  let sp := spent x in
  throw_if (Z.land (networkTag x) 0xff >? 2) "network_tag must be 0|1|2";;
  check_spend "" "asset_id 32 bytes" sp;;
  throw_if (denom_bad (denomination sp)) "denomination out of range";;
  mret (concatBytes [u8b T_SLOT_BURN; u8b (Z.land (networkTag x) 0xff); assetId sp;
                     u64_halves (denomination sp); merkleRoot sp; nullifierHash sp;
                     recipientCommitment sp; rLeaf sp; bindHash sp;
                     le 2 (blen (proof sp)); proof sp]).

Definition decodeTSlotBurnPayload (payload : bytes) : res t :=
  run (
    opcode T_SLOT_BURN;;
    null_if (blen payload <? 1 + 1 + 32 + 8 + 32 + 32 + 33 + 32 + 32 + 2);;
    networkTag ← u8;
    null_if (networkTag >? 2);;
    sp ← read_spend true;
    proofLen ← uint 2;
    null_if (proofLen =? 0);;
    ends_at proofLen;;
    pf ← slice proofLen;
    check_bind sp;;
    mret (Mk networkTag (with_proof sp pf))) payload.

Definition fits (x : t) : Prop :=
  0 <= networkTag x <= 2 ∧ bound (spent x) ∧ is_point (recipientCommitment (spent x)) = true.

Lemma slotBurn_codec p x : decodeTSlotBurnPayload p = Ok x ↔ encodeTSlotBurnPayload x = Ok p ∧ fits x.
Proof.
  unfold decodeTSlotBurnPayload, encodeTSlotBurnPayload, fits. cbv zeta. rewrite run_Ok. split.
  - intros [s H1]. rd_inv H1. rd_close. subst x. cbn [networkTag spent]. subst.
    rewrite land_ff by lia. split; [|split; [lia|auto]]. enc_run lia.
    apply check_encode. split; [done|]. split; [cbn; lia|].
    rewrite !concatBytes_cons, concatBytes_nil, spend_parts. cbn. by destruct a1; cbn in *; subst.
  - destruct x as [tag x]; cbn [networkTag spent]. intros (H1 & Htag & Hb & Hp).
    rewrite land_ff in H1 by lia. enc_inv H1. apply check_encode in H1 as (Hw & Hpf & [= <-]).
    rewrite !concatBytes_cons, concatBytes_nil, spend_parts.
    assert (Hl : blen (spend_bytes (with_proof x [])) = 201) by by apply blen_spend.
    eexists. rd_run. all: pool_solve.
Qed.

Lemma slotBurn_decode_total p : total (decodeTSlotBurnPayload p).
Proof. unfold decodeTSlotBurnPayload. safe_run. Qed.

#[export] Instance wire : WireCodec t.
Proof.
  refine {| wire_op := T_SLOT_BURN; enc := encodeTSlotBurnPayload; dec := decodeTSlotBurnPayload;
            sendable := fits; canonical _ _ := True |}.
  - intros x p ? ?. by apply slotBurn_codec.
  - intros p x Hd _. by apply slotBurn_codec in Hd as [? _].
  - apply slotBurn_decode_total.
  - unfold encodeTSlotBurnPayload. intros x p He. cbv zeta in He. enc_inv He.
    apply check_encode in He as (_ & _ & [= <-]). rewrite concatBytes_cons. eauto.
Defined.
End with_crypto.
End SlotBurn.

(** ** Slot mint *)
Module SlotMint.
Record t := Mk { networkTag : Z; assetId : bytes; denomination : Z; recipientCommit : bytes;
                 leafHash : bytes; paymentAssetId : bytes; paymentAmount : Z;
                 minterPubkey : bytes; minterSig : bytes; kBtcXOnly : bytes; encryptedNote : note }.
Section with_crypto.
Context `{PointParser}.

Definition encodeTSlotMintPayload (x : t) : res bytes :=
  throw_if (Z.land (networkTag x) 0xff >? 2) "network_tag must be 0|1|2";;
  throw_if (negb (blen (assetId x) =? 32)) "asset_id 32 bytes";;
  throw_if (negb (blen (recipientCommit x) =? 33)) "recipient_commit 33 bytes";;
  throw_if (negb (blen (leafHash x) =? 32)) "leaf_hash 32 bytes";;
  throw_if (negb (blen (paymentAssetId x) =? 32)) "payment_asset_id 32 bytes (zeros if no payment)";;
  throw_if (negb (blen (minterPubkey x) =? 33)) "minter_pubkey 33 bytes";;
  throw_if (negb (blen (minterSig x) =? 64)) "minter_sig 64 bytes";;
  throw_if (negb (blen (kBtcXOnly x) =? 32)) "k_btc_xonly must be 32 bytes";;
  throw_if (denom_bad (denomination x)) "denomination out of range";;
  throw_if ((paymentAmount x <? 0) || (paymentAmount x >=? Z.shiftl 1 64)) "payment_amount out of range";;
  tail ← push_note (encryptedNote x);
  mret (concatBytes [u8b T_SLOT_MINT; u8b (Z.land (networkTag x) 0xff); assetId x;
                     u64_halves (denomination x); recipientCommit x; leafHash x;
                     paymentAssetId x; u64_halves (paymentAmount x); minterPubkey x; minterSig x;
                     kBtcXOnly x; tail]).

(** the tail, told apart by the length of the whole payload *)
Definition read_mint_note (len : Z) : rd note :=
  if len =? 277 then m ← u8; null_if (negb (m =? 0));; mret NoteOmit
  else if len =? 399 then m ← u8; null_if (negb (m =? 1));; n ← slice 122; mret (Note n)
  else mret NoteOmit.

Definition decodeTSlotMintPayload (payload : bytes) : res t :=
  run (
    opcode T_SLOT_MINT;;
    null_if (negb (blen payload =? 276) && negb (blen payload =? 277) && negb (blen payload =? 399));;
    networkTag ← u8;
    null_if (networkTag >? 2);;
    assetId ← slice 32;
    denomination ← u64h;
    null_if (denom_bad denomination);;
    recipientCommit ← slice 33;
    null_if (negb (is_point recipientCommit));;
    leafHash ← slice 32;
    paymentAssetId ← slice 32;
    paymentAmount ← u64h;
    null_if (paymentAmount >=? Z.shiftl 1 64);;
    minterPubkey ← slice 33;
    minterSig ← slice 64;
    kBtcXOnly ← slice 32;
    encryptedNote ← read_mint_note (blen payload);
    mret (Mk networkTag assetId denomination recipientCommit leafHash paymentAssetId paymentAmount
             minterPubkey minterSig kBtcXOnly encryptedNote)) payload.

Ltac fields := cbn [networkTag assetId denomination recipientCommit leafHash paymentAssetId
                    paymentAmount minterPubkey minterSig kBtcXOnly encryptedNote] in *.

Lemma read_mint_note_inv s n s' :
  blen s = 0 ∨ blen s = 1 ∨ blen s = 123 → read_mint_note (276 + blen s) s = Ok (n, s') → tail_reads s n.
Proof.
  unfold read_mint_note. intros Hs. destruct (Z.eqb_spec (276 + blen s) 277) as [E|];
    [|destruct (Z.eqb_spec (276 + blen s) 399) as [E|]]; intros H1; rd_inv H1; subst n; cbn.
  - right. assert (a = 0) as -> by lia.
    match type of E with context [u8b _ ++ ?r] => assert (blen r = 0) as ->%blen_0 by len_lia end.
    done.
  - assert (a = 1) as -> by lia.
    match type of E with context [_ ++ ?b ++ ?r] =>
      assert (blen r = 0) as ->%blen_0 by len_lia end.
    by rewrite app_nil_r.
  - left. apply blen_0. lia.
Qed.

Lemma read_mint_note_run tail n :
  tail_reads tail n → ∃ s', read_mint_note (276 + blen tail) tail = Ok (n, s').
Proof.
  unfold read_mint_note. destruct n as [| |b]; cbn [tail_reads]; [intros [->| ->]|done|intros [-> Hb]].
  - by eexists.
  - by eexists.
  - rewrite blen_app, Hb. change (276 + (blen (u8b 1) + 122)) with 399. cbn [Z.eqb Pos.eqb].
    exists []. rewrite <- (app_nil_r b) at 1. rd_run; guard_solve.
Qed.

Lemma safe_read_mint_note s :
  blen s = 0 ∨ blen s = 1 ∨ blen s = 123 → safe_at (read_mint_note (276 + blen s)) s.
Proof.
  unfold read_mint_note. intros Hs. repeat safe_step; len_lia.
Qed.

Definition fits (x : t) : Prop :=
  0 <= networkTag x <= 2 ∧ is_point (recipientCommit x) = true ∧ encryptedNote x ≠ NoteNone.

Lemma slotMint_encode_decode p x : encodeTSlotMintPayload x = Ok p → fits x → decodeTSlotMintPayload p = Ok x.
Proof.
  unfold decodeTSlotMintPayload, encodeTSlotMintPayload, fits.
  destruct x as [tag a d rc lh pa pm mp ms kb nt]; fields. intros H1 (Htag & Hp & Hn).
  rewrite land_ff in H1 by lia. enc_inv H1. apply res_bind_Ok in H1 as (tail & Ht & [= <-]).
  apply push_note_Ok in Ht as [-> Hwf]. pose proof (note_reads _ Hwf Hn) as Hr.
  rewrite denom_bad_false in *. change (Z.shiftl 1 64) with (2 ^ 64) in *. bool_to_prop.
  rewrite !concatBytes_cons, concatBytes_nil, app_nil_r.
  destruct (read_mint_note_run _ _ Hr) as [s' Hs'].
  assert (blen (note_bytes nt) = 0 ∨ blen (note_bytes nt) = 1 ∨ blen (note_bytes nt) = 123).
  { destruct nt; cbn in *; [by left|done|right; right; len_lia]. }
  apply run_Ok. exists s'. rd_run. all: try (pool_solve; rewrite ?Hp; done).
  match goal with |- read_mint_note ?l _ = _ => replace l with (276 + blen (note_bytes nt)) by len_lia end.
  exact Hs'.
Qed.

Lemma slotMint_decode_encode p x :
  decodeTSlotMintPayload p = Ok x → blen p ≠ 277 → encodeTSlotMintPayload x = Ok p ∧ fits x.
Proof.
  unfold decodeTSlotMintPayload, encodeTSlotMintPayload, fits. rewrite run_Ok.
  intros [s H1] Hl. rd_inv H1. subst x. fields. rewrite denom_bad_false in *.
  change (Z.shiftl 1 64) with (2 ^ 64) in *.
  match goal with Hr : read_mint_note ?l ?t = _ |- _ =>
    assert (blen t = 0 ∨ blen t = 1 ∨ blen t = 123) as Ht by len_lia;
    replace l with (276 + blen t) in Hr by len_lia;
    apply read_mint_note_inv in Hr; [|exact Ht]; rename Hr into Htail
  end.
  rewrite land_ff by lia.
  match goal with Hp : negb (is_point _) = false |- _ => apply negb_false_iff in Hp end.
  apply tail_reads_bytes in Htail as (Hn & Hwf & Htail). rewrite Htail by len_lia.
  split; [|split; [lia|done]].
  enc_run ltac:(first [apply denom_bad_false; lia|lia|len_lia]).
  apply res_bind_Ok. eexists. split; [by apply push_note_Ok|].
  by rewrite !concatBytes_cons, concatBytes_nil, !app_nil_r.
Qed.

Lemma slotMint_decode_total p : total (decodeTSlotMintPayload p).
Proof.
  unfold decodeTSlotMintPayload. safe_run.
  match goal with |- safe_at (read_mint_note ?l ≫= _) ?t =>
    assert (blen t = 0 ∨ blen t = 1 ∨ blen t = 123) as Ht by len_lia;
    replace l with (276 + blen t) by len_lia end.
  apply safe_bind; [by apply safe_read_mint_note|]. intros. apply safe_ret.
Qed.

#[export] Instance wire : WireCodec t.
Proof.
  refine {| wire_op := T_SLOT_MINT; enc := encodeTSlotMintPayload; dec := decodeTSlotMintPayload;
            sendable := fits; canonical _ p := blen p ≠ 277 |}.
  - intros x p. apply slotMint_encode_decode.
  - intros p x Hd Hl. by apply slotMint_decode_encode in Hd as [? _].
  - apply slotMint_decode_total.
  - unfold encodeTSlotMintPayload. intros x p He. enc_inv He.
    apply res_bind_Ok in He as (? & _ & [= <-]). rewrite concatBytes_cons. eauto.
Defined.
End with_crypto.
End SlotMint.

(** ** Slot rotate: spend one slot into a new one of the same denomination *)
Module SlotRotate.
Record t := Mk { networkTag : Z; old : spend; newRecipientCommit : bytes; newLeafHash : bytes;
                 newKBtcXOnly : bytes; paymentAssetId : bytes; paymentAmount : Z;
                 oldOwnerPubkey : bytes; oldOwnerSig : bytes; encryptedNote : note }.
Section with_crypto.
Context `{Hash} `{PointParser}.

(** The encoder never writes the optional note. *)
Definition encodeTSlotRotatePayload (x : t) : res bytes :=
  let sp := old x in
  throw_if (Z.land (networkTag x) 0xff >? 2) "network_tag must be 0|1|2";;
  check_spend "old_" "asset_id 32 bytes" sp;;
  throw_if (negb (blen (newRecipientCommit x) =? 33)) "new_recipient_commit 33 bytes";;
  throw_if (negb (blen (newLeafHash x) =? 32)) "new_leaf_hash 32 bytes";;
  throw_if (negb (blen (newKBtcXOnly x) =? 32)) "new_k_btc_xonly must be 32 bytes";;
  throw_if (negb (blen (paymentAssetId x) =? 32)) "payment_asset_id 32 bytes (zeros if no payment)";;
  throw_if (negb (blen (oldOwnerPubkey x) =? 33)) "old_owner_pubkey 33 bytes";;
  throw_if (negb (blen (oldOwnerSig x) =? 64)) "old_owner_sig 64 bytes";;
  throw_if (denom_bad (denomination sp)) "denomination out of range";;
  throw_if ((paymentAmount x <? 0) || (paymentAmount x >=? Z.shiftl 1 64)) "payment_amount out of range";;
  mret (concatBytes [u8b T_SLOT_ROTATE; u8b (Z.land (networkTag x) 0xff); assetId sp;
                     u64_halves (denomination sp); merkleRoot sp; nullifierHash sp;
                     recipientCommitment sp; rLeaf sp; bindHash sp;
                     le 2 (blen (proof sp)); proof sp;
                     newRecipientCommit x; newLeafHash x; newKBtcXOnly x;
                     paymentAssetId x; u64_halves (paymentAmount x);
                     oldOwnerPubkey x; oldOwnerSig x]).

Definition decodeTSlotRotatePayload (payload : bytes) : res t :=
  run (
    opcode T_SLOT_ROTATE;;
    null_if (blen payload <? 1 + 1 + 32 + 8 + 32 + 32 + 33 + 32 + 32 + 2);;
    networkTag ← u8;
    null_if (networkTag >? 2);;
    sp ← read_spend true;
    oldProofLen ← uint 2;
    null_if (oldProofLen =? 0);;
    encryptedNote ← peek_note (oldProofLen + 33 + 32 + 32 + 32 + 8 + 33 + 64);
    oldProof ← slice oldProofLen;
    check_bind sp;;
    newRecipientCommit ← slice 33;
    null_if (negb (is_point newRecipientCommit));;
    newLeafHash ← slice 32;
    newKBtcXOnly ← slice 32;
    paymentAssetId ← slice 32;
    paymentAmount ← u64h;
    null_if (paymentAmount >=? Z.shiftl 1 64);;
    oldOwnerPubkey ← slice 33;
    oldOwnerSig ← slice 64;
    mret (Mk networkTag (with_proof sp oldProof) newRecipientCommit newLeafHash newKBtcXOnly
             paymentAssetId paymentAmount oldOwnerPubkey oldOwnerSig encryptedNote)) payload.

Ltac fields := cbn [networkTag old newRecipientCommit newLeafHash newKBtcXOnly paymentAssetId
                    paymentAmount oldOwnerPubkey oldOwnerSig encryptedNote] in *.

Definition fits (x : t) : Prop :=
  0 <= networkTag x <= 2 ∧ bound (old x) ∧ pointy_ok true (old x) ∧
  is_point (newRecipientCommit x) = true ∧ encryptedNote x = NoteOmit.

Lemma slotRotate_encode_decode p x : encodeTSlotRotatePayload x = Ok p → fits x → decodeTSlotRotatePayload p = Ok x.
Proof.
  unfold decodeTSlotRotatePayload, encodeTSlotRotatePayload, fits. cbv zeta.
  destruct x as [tag sp rc lh kb pa pm op os nt]; fields. intros H1 (Htag & Hb & Hpt & Hp & ->).
  rewrite land_ff in H1 by lia. enc_inv H1. apply check_spend_inv in H1 as [Hsp H1]. enc_inv H1.
  injection H1 as <-. rewrite denom_bad_false in *. change (Z.shiftl 1 64) with (2 ^ 64) in *.
  destruct Hsp as [Hw Hpf]; [done|]. bool_to_prop.
  rewrite !concatBytes_cons, concatBytes_nil, spend_parts.
  assert (Hl : blen (spend_bytes (with_proof sp [])) = 201) by by apply blen_spend.
  apply run_Ok. eexists. rd_run. all: try (rewrite with_proof_proof; reflexivity).
  all: try (apply host_all; len_lia). all: pool_solve. by rewrite Hp.
Qed.

Lemma slotRotate_decode_encode p x :
  decodeTSlotRotatePayload p = Ok x → encryptedNote x = NoteOmit →
  blen p = 439 + blen (proof (old x)) → encodeTSlotRotatePayload x = Ok p ∧ fits x.
Proof.
  unfold decodeTSlotRotatePayload, encodeTSlotRotatePayload, fits. cbv zeta. rewrite run_Ok.
  intros [s H1] Hn Hl. rd_inv H1. subst x. fields. subst. cbn [proof with_proof] in Hl.
  match goal with H : ∃ host tail, _ |- _ => destruct H as (host & tail & Hs & Hh & Ht) end.
  rewrite !app_assoc in Hs. apply app_inj_blen in Hs as [_ <-]; [|len_lia].
  match goal with H : tail_reads ?r _ |- _ => assert (blen r = 0) as ->%blen_0 by len_lia end.
  change (Z.shiftl 1 64) with (2 ^ 64) in *. rewrite land_ff by lia.
  repeat match goal with Hp : negb (is_point _) = false |- _ => apply negb_false_iff in Hp end.
  split; [|repeat split; auto; lia].
  assert (Hd := proj1 (proj2 Hsp)).
  enc_run lia. rewrite check_spend_run; [|done|cbn; lia].
  enc_run ltac:(first [by apply denom_bad_false|lia]).
  by rewrite !concatBytes_cons, concatBytes_nil, spend_parts.
Qed.

Lemma slotRotate_decode_total p : total (decodeTSlotRotatePayload p).
Proof. unfold decodeTSlotRotatePayload. safe_run. Qed.

#[export] Instance wire : WireCodec t.
Proof.
  refine {| wire_op := T_SLOT_ROTATE; enc := encodeTSlotRotatePayload; dec := decodeTSlotRotatePayload;
            sendable := fits;
            canonical x p := encryptedNote x = NoteOmit ∧ blen p = 439 + blen (proof (old x)) |}.
  - intros x p. apply slotRotate_encode_decode.
  - intros p x Hd [Hn Hl]. by apply slotRotate_decode_encode in Hd as [? _].
  - apply slotRotate_decode_total.
  - unfold encodeTSlotRotatePayload. intros x p He. cbv zeta in He. enc_inv He.
    apply check_spend_inv in He as [_ He]. enc_inv He. injection He as <-.
    rewrite concatBytes_cons. eauto.
Defined.
End with_crypto.
End SlotRotate.
