(* ===== verification/CodecSlots.v ===== *)
(** * Slot split and merge envelopes ([dapp/tacit.js])

    [SlotSplit] spends one slot into two to sixteen of smaller denominations,
    [SlotMerge] two to sixteen into one.  Both decoders check that the denominations
    created do not exceed the ones spent. *)
From S2P Require Import Prelude Bytes Crypto CodecPool Bitmap.

(** the asset id of a denomination's variant, as bytes (the sources compare hex) *)
Definition ctacVariantAssetId `{Hash} (denomSats : Z) : bytes :=
  sha256 (concatBytes [CTAC_VARIANT_DOMAIN; u64_halves denomSats]).

Definition sumZ (l : list Z) : Z := fold_left Z.add l 0.

(** ** Split *)
Module SlotSplit.
Record out := Out { assetIdNew : bytes; denomNew : Z; newRecipientCommit : bytes; newLeafHash : bytes }.
Record t := Mk { networkTag : Z; old : spend; outs : list out; oldOwnerPubkey : bytes;
                 oldOwnerSig : bytes; encryptedNotes : option (list (option bytes)) }.

Section with_crypto.
Context `{Hash} `{PointParser}.

Definition out_bytes (o : out) : bytes :=
  assetIdNew o ++ u64_halves (denomNew o) ++ newRecipientCommit o ++ newLeafHash o.

Fixpoint push_outs (l : list out) : res bytes :=
  match l with
  | [] => mret []
  | o :: l =>
      throw_if (negb (blen (assetIdNew o) =? 32)) "output.assetIdNew must be 32 bytes";;
      throw_if (negb (blen (newRecipientCommit o) =? 33)) "output.newRecipientCommit must be 33 bytes";;
      throw_if (negb (blen (newLeafHash o) =? 32)) "output.newLeafHash must be 32 bytes";;
      throw_if (denom_bad (denomNew o)) "output denom_new out of range";;
      rest ← push_outs l;
      mret (assetIdNew o ++ u64_halves (denomNew o) ++ newRecipientCommit o ++ newLeafHash o ++ rest)
  end.

Definition push_tail (n : nat) (notes : option (list (option bytes))) : res bytes :=
  match notes with
  | None => mret []
  | Some l =>
      throw_if (negb (length l =? n)%nat)
        "encryptedNotes must be an array of length === outputs.length (or null to omit tail)";;
      encode_notes l
  end.

Definition encodeTSlotSplitPayload (x : t) : res bytes :=
  let sp := old x in
  let n := Z.of_nat (length (outs x)) in
  throw_if (Z.land (networkTag x) 0xff >? 2) "network_tag must be 0|1|2";;
  check_spend "old_" "asset_id_old 32 bytes" sp;;
  throw_if ((n <? 2) || (n >? 16)) "outputs must be an array of 2..16";;
  throw_if (negb (blen (oldOwnerPubkey x) =? 33)) "old_owner_pubkey 33 bytes";;
  throw_if (negb (blen (oldOwnerSig x) =? 64)) "old_owner_sig 64 bytes";;
  throw_if (denom_bad (denomination sp)) "denom_old out of range";;
  outputs ← push_outs (outs x);
  tail ← push_tail (length (outs x)) (encryptedNotes x);
  mret (concatBytes [u8b T_SLOT_SPLIT; u8b (Z.land (networkTag x) 0xff); assetId sp;
                     u64_halves (denomination sp); merkleRoot sp; nullifierHash sp;
                     recipientCommitment sp; rLeaf sp; bindHash sp;
                     le 2 (blen (proof sp)); proof sp; u8b (Z.land n 0xff); outputs;
                     oldOwnerPubkey x; oldOwnerSig x; tail]).

Definition read_out : rd out :=
  assetIdNew ← slice 32;
  denomNew ← u64h;
  null_if (denom_bad denomNew);;
  null_if (negb (bool_decide (assetIdNew = ctacVariantAssetId denomNew)));;
  newRecipientCommit ← slice 33;
  null_if (negb (is_point newRecipientCommit));;
  newLeafHash ← slice 32;
  mret (Out assetIdNew denomNew newRecipientCommit newLeafHash).

(** [if (payload.length > p) ...] *)
Definition read_tail (n : nat) : rd (option (list (option bytes))) := λ s,
  if blen s >? 0 then (l ← read_notes n; mret (Some l)) s else Ok (None, s).

Definition decodeTSlotSplitPayload (payload : bytes) : res t :=
  run (
    opcode T_SLOT_SPLIT;;
    null_if (blen payload <? 1 + 1 + 32 + 8 + 32 + 32 + 33 + 32 + 32 + 2 + 1 + 1 + 2 * 105 + 33 + 64);;
    networkTag ← u8;
    null_if (networkTag >? 2);;
    sp ← read_spend true;
    oldProofLen ← uint 2;
    null_if (oldProofLen =? 0);;
    room (oldProofLen + 1 + 2 * 105 + 33 + 64);;
    oldProof ← slice oldProofLen;
    check_bind sp;;
    nOutputs ← u8;
    null_if ((nOutputs <? 2) || (nOutputs >? 16));;
    room (nOutputs * 105 + 33 + 64);;
    outputs ← repeatM (Z.to_nat nOutputs) read_out;
    null_if (sumZ (map denomNew outputs) >? denomination sp);;
    oldOwnerPubkey ← slice 33;
    oldOwnerSig ← slice 64;
    encryptedNotes ← read_tail (Z.to_nat nOutputs);
    mret (Mk networkTag (with_proof sp oldProof) outputs oldOwnerPubkey oldOwnerSig encryptedNotes)) payload.

(** ** Lemmas *)
Definition out_wf (o : out) : Prop :=
  blen (assetIdNew o) = 32 ∧ blen (newRecipientCommit o) = 33 ∧ blen (newLeafHash o) = 32 ∧
  0 < denomNew o < 2 ^ 64.
(** what the decoder checks of an output and the encoder does not *)
Definition out_ok (o : out) : Prop :=
  assetIdNew o = ctacVariantAssetId (denomNew o) ∧ is_point (newRecipientCommit o) = true.

Definition outs_bytes (l : list out) : bytes := concat (map out_bytes l).

Lemma blen_outs l : Forall out_wf l → blen (outs_bytes l) = 105 * Z.of_nat (length l).
Proof.
  unfold outs_bytes. induction 1 as [|o l (?&?&?&?) _ IH]; [done|]. cbn [map concat length].
  unfold out_bytes at 1. len_lia.
Qed.

Lemma push_outs_Ok l b : push_outs l = Ok b ↔ b = outs_bytes l ∧ Forall out_wf l.
Proof.
  unfold outs_bytes. revert b; induction l as [|o l IH]; intros b; cbn [push_outs map concat].
  - split; [by intros [= <-]|by intros [-> _]].
  - rewrite Forall_cons. unfold out_bytes at 1, out_wf at 1. rewrite <- !app_assoc. split.
    + intros H1. enc_inv H1. apply res_bind_Ok in H1 as (r & [-> Hl]%IH & [= <-]).
      rewrite denom_bad_false in *. repeat split; auto; lia.
    + intros [-> [(?&?&?&?) Hl]]. enc_run ltac:(first [by apply denom_bad_false|lia]).
      apply res_bind_Ok. eexists. split; [by apply IH|done].
Qed.

Lemma read_out_Ok s o s' : read_out s = Ok (o, s') ↔ s = out_bytes o ++ s' ∧ out_wf o ∧ out_ok o.
Proof.
  unfold read_out, out_bytes, out_wf, out_ok. split.
  - intros H1. rd_inv H1. subst o. cbn. rewrite <- !app_assoc, denom_bad_false in *.
    rewrite negb_false_iff in *. rewrite bool_decide_eq_true in *. auto 10.
  - destruct o as [a d rc lh]; cbn. intros (-> & (?&?&?&?) & Ha & Hp). rewrite <- !app_assoc.
    rd_run; try guard_solve.
    + by apply denom_bad_false.
    + by apply negb_false_iff, bool_decide_eq_true.
    + by rewrite Hp.
Qed.

Lemma read_outs_Ok n s l s' :
  repeatM n read_out s = Ok (l, s') ↔
  s = outs_bytes l ++ s' ∧ length l = n ∧ Forall (λ o, out_wf o ∧ out_ok o) l.
Proof. apply repeatM_Ok, read_out_Ok. Qed.

Lemma safe_read_outs n s : 105 * Z.of_nat n <= blen s → safe_at (repeatM n read_out) s.
Proof.
  apply safe_repeat_fixed; [| |done].
  - intros s0 Hs. unfold read_out. repeat safe_step; len_lia.
  - intros s0 o s1 (-> & Hw & _)%read_out_Ok. destruct Hw as (?&?&?&?). unfold out_bytes. len_lia.
Qed.

Lemma read_tail_Ok n s o s' :
  (1 <= n)%nat → read_tail n s = Ok (o, s') ↔ s' = [] ∧ push_tail n o = Ok s.
Proof.
  intros Hn. unfold read_tail, push_tail. pose proof (blen_nonneg s). split.
  - destruct (blen s >? 0) eqn:E.
    + intros (l & s1 & Hl & [<- ->]%rd_ret_Ok)%rd_bind_Ok.
      apply notes_codec in Hl as (-> & Hlen & He); [|done]. split; [done|].
      rewrite throw_if_run; [done|]. by rewrite Hlen, Nat.eqb_refl.
    + intros [= <- <-]. assert (s = []) as -> by (apply blen_0; lia). done.
  - intros [-> Hp]. destruct o as [l|]; [|by injection Hp as <-].
    enc_inv Hp. match goal with Hl : negb _ = false |- _ =>
      apply negb_false_iff, Nat.eqb_eq in Hl; rename Hl into Hlen end.
    assert ((blen s >? 0) = true) as ->.
    { apply encode_notes_Ok in Hp as (_ & bm & -> & Hb). apply (f_equal length) in Hb.
      rewrite length_bits, length_app, length_map in Hb. rewrite blen_app.
      pose proof (blen_nonneg (notes_bytes l)). unfold blen at 1. lia. }
    apply rd_bind_Ok. exists l, []. split; [by apply notes_codec|done].
Qed.

Lemma safe_read_tail n s : (1 <= n)%nat → safe_at (read_tail n) s.
Proof.
  intros Hn. unfold safe_at, read_tail. destruct (blen s >? 0); [|right; by eexists].
  apply safe_bind; [by apply safe_read_notes|]. intros. apply safe_ret.
Qed.

Ltac rd_inv_hook H ::=
  lazymatch type of H with
  | read_spend _ _ = Ok _ =>
      let Hw := fresh "Hsp" in let Hpf := fresh "Hpf" in let Hp := fresh "Hpoint" in
      let Hl := fresh "Hsplen" in
      apply read_spend_Ok in H as (-> & Hw & Hpf & Hp); pose proof (blen_spend _ Hw) as Hl
  | check_bind ?sp _ = Ok _ => apply check_bind_Ok in H as [H ->]; [|assumption]
  | repeatM _ read_out _ = Ok _ =>
      let Hn := fresh "Hn" in let Hwf := fresh "Hwf" in let Hok := fresh "Hok" in
      let Hl := fresh "Houtlen" in
      apply read_outs_Ok in H as (-> & Hn & [Hwf Hok]%Forall_and);
      pose proof (blen_outs _ Hwf) as Hl
  | read_tail _ _ = Ok _ => apply read_tail_Ok in H as [-> H]; [|lia]
  | _ => idtac
  end.
Ltac rd_step_hook ::=
  lazymatch goal with
  | |- read_spend _ _ = Ok _ => apply read_spend_Ok; split; [reflexivity|]
  | |- check_bind _ _ = Ok _ => apply check_bind_Ok; [|split; [|reflexivity]]
  | |- repeatM _ read_out _ = Ok _ => apply read_outs_Ok; split; [reflexivity|]
  | |- read_tail _ _ = Ok _ => apply read_tail_Ok; [lia|split; [reflexivity|]]
  | _ => idtac
  end.
Ltac safe_hook ::=
  first [ apply safe_read_spend | apply safe_check_bind; assumption | apply safe_read_outs
        | apply safe_read_tail ].

Definition fits (x : t) : Prop :=
  0 <= networkTag x <= 2 ∧ bound (old x) ∧ pointy_ok true (old x) ∧ Forall out_ok (outs x) ∧
  sumZ (map denomNew (outs x)) <= denomination (old x).

Lemma slotSplit_decode_encode p x :
  decodeTSlotSplitPayload p = Ok x → encodeTSlotSplitPayload x = Ok p ∧ fits x.
Proof.
  unfold decodeTSlotSplitPayload, encodeTSlotSplitPayload, fits. cbv zeta. rewrite run_Ok.
  intros [s H1]. rd_inv H1. subst x. cbn [networkTag old outs oldOwnerPubkey oldOwnerSig encryptedNotes].
  subst. rewrite land_ff by lia. rewrite Hn, Z2Nat.id by lia. rewrite land_ff by lia.
  split; [|repeat split; auto; cbn; lia]. assert (Hd := proj1 (proj2 Hsp)).
  enc_run lia. rewrite check_spend_run; [|done|cbn; lia].
  enc_run ltac:(first [by apply denom_bad_false|lia]).
  apply res_bind_Ok. eexists. split; [by apply push_outs_Ok|].
  apply res_bind_Ok. eexists. split; [eassumption|].
  by rewrite !concatBytes_cons, concatBytes_nil, spend_parts, !app_nil_r.
Qed.

Lemma slotSplit_encode_decode p x :
  encodeTSlotSplitPayload x = Ok p → fits x → decodeTSlotSplitPayload p = Ok x.
Proof.
  unfold decodeTSlotSplitPayload, encodeTSlotSplitPayload, fits. cbv zeta.
  destruct x as [tag sp os op sg nt]; cbn [networkTag old outs oldOwnerPubkey oldOwnerSig encryptedNotes].
  intros H1 (Htag & Hb & Hpt & Hok & Hsum). rewrite land_ff in H1 by lia.
  enc_inv H1. apply check_spend_inv in H1 as [Hsp H1]. enc_inv H1.
  apply res_bind_Ok in H1 as (ob & [-> Hwf]%push_outs_Ok & H1).
  apply res_bind_Ok in H1 as (tail & Htail & [= <-]).
  rewrite denom_bad_false in *. destruct Hsp as [Hw Hpf]; [done|].
  pose proof (blen_outs _ Hwf).
  rewrite land_ff by lia. rewrite !concatBytes_cons, concatBytes_nil, spend_parts, app_nil_r.
  assert (Hl : blen (spend_bytes (with_proof sp [])) = 201) by by apply blen_spend.
  apply run_Ok. eexists. rd_run. all: try (rewrite Nat2Z.id).
  all: try (rewrite with_proof_proof; reflexivity). all: try exact Htail.
  all: try (split; [done|by apply Forall_and]). all: pool_solve. cbn. lia.
Qed.

Lemma slotSplit_decode_total p : total (decodeTSlotSplitPayload p).
Proof. unfold decodeTSlotSplitPayload. safe_run. Qed.

#[export] Instance wire : WireCodec t.
Proof.
  refine {| wire_op := T_SLOT_SPLIT; enc := encodeTSlotSplitPayload; dec := decodeTSlotSplitPayload;
            sendable := fits; canonical _ _ := True |}.
  - intros x p. apply slotSplit_encode_decode.
  - intros p x Hd _. by apply slotSplit_decode_encode in Hd as [? _].
  - apply slotSplit_decode_total.
  - unfold encodeTSlotSplitPayload. intros x p He. cbv zeta in He. enc_inv He.
    apply check_spend_inv in He as [_ He]. enc_inv He.
    apply res_bind_Ok in He as (? & _ & He). apply res_bind_Ok in He as (? & _ & [= <-]).
    rewrite concatBytes_cons. eauto.
Defined.
End with_crypto.
End SlotSplit.

(** ** Merge *)
Module SlotMerge.
Record t := Mk { networkTag : Z; inputs : list spend; assetIdNew : bytes; denomNew : Z;
                 newRecipientCommit : bytes; newLeafHash : bytes; newOwnerPubkey : bytes;
                 newOwnerSig : bytes; encryptedNote : note }.

Definition PER_INPUT_FIXED : Z := 32 + 8 + 32 + 32 + 33 + 32 + 32 + 2.
Definition POST_INPUTS : Z := 32 + 8 + 33 + 32 + 33 + 64.

Section with_crypto.
Context `{Hash} `{PointParser}.

Definition input_bytes (sp : spend) : bytes := spend_bytes sp ++ le 2 (blen (proof sp)) ++ proof sp.

Fixpoint push_inputs (l : list spend) : res bytes :=
  match l with
  | [] => mret []
  | i :: l =>
      throw_if (negb (blen (assetId i) =? 32)) "input.assetIdOld must be 32 bytes";;
      throw_if (negb (blen (merkleRoot i) =? 32)) "input.oldMerkleRoot must be 32 bytes";;
      throw_if (negb (blen (nullifierHash i) =? 32)) "input.oldNullifierHash must be 32 bytes";;
      throw_if (negb (blen (recipientCommitment i) =? 33)) "input.oldRecipientCommitment must be 33 bytes";;
      throw_if (negb (blen (rLeaf i) =? 32)) "input.oldRLeaf must be 32 bytes";;
      throw_if (negb (blen (bindHash i) =? 32)) "input.oldBindHash must be 32 bytes";;
      throw_if ((blen (proof i) =? 0) || (blen (proof i) >? 0xffff)) "input.oldProof must be 1..65535 bytes";;
      throw_if (denom_bad (denomination i)) "input denom_old out of range";;
      rest ← push_inputs l;
      mret (assetId i ++ u64_halves (denomination i) ++ merkleRoot i ++ nullifierHash i ++
            recipientCommitment i ++ rLeaf i ++ bindHash i ++ le 2 (blen (proof i)) ++ proof i ++ rest)
  end.

Definition encodeTSlotMergePayload (x : t) : res bytes :=
  let n := Z.of_nat (length (inputs x)) in
  throw_if (Z.land (networkTag x) 0xff >? 2) "network_tag must be 0|1|2";;
  throw_if ((n <? 2) || (n >? 16)) "inputs must be an array of 2..16";;
  throw_if (negb (blen (assetIdNew x) =? 32)) "asset_id_new 32 bytes";;
  throw_if (negb (blen (newRecipientCommit x) =? 33)) "new_recipient_commit 33 bytes";;
  throw_if (negb (blen (newLeafHash x) =? 32)) "new_leaf_hash 32 bytes";;
  throw_if (negb (blen (newOwnerPubkey x) =? 33)) "new_owner_pubkey 33 bytes";;
  throw_if (negb (blen (newOwnerSig x) =? 64)) "new_owner_sig 64 bytes";;
  throw_if (denom_bad (denomNew x)) "denom_new out of range";;
  ins ← push_inputs (inputs x);
  tail ← push_note (encryptedNote x);
  mret (concatBytes [u8b T_SLOT_MERGE; u8b (Z.land (networkTag x) 0xff); u8b (Z.land n 0xff); ins;
                     assetIdNew x; u64_halves (denomNew x); newRecipientCommit x; newLeafHash x;
                     newOwnerPubkey x; newOwnerSig x; tail]).

Definition read_input : rd spend :=
  room (PER_INPUT_FIXED + 1 + POST_INPUTS);;
  sp ← read_spend true;
  proofLen ← uint 2;
  null_if (proofLen =? 0);;
  room (proofLen + POST_INPUTS);;
  oldProof ← slice proofLen;
  check_bind sp;;
  mret (with_proof sp oldProof).

Definition decodeTSlotMergePayload (payload : bytes) : res t :=
  run (
    opcode T_SLOT_MERGE;;
    null_if (blen payload <? 1 + 1 + 1 + 2 * (PER_INPUT_FIXED + 1) + POST_INPUTS);;
    networkTag ← u8;
    null_if (networkTag >? 2);;
    nInputs ← u8;
    null_if ((nInputs <? 2) || (nInputs >? 16));;
    inputs ← repeatM (Z.to_nat nInputs) read_input;
    encryptedNote ← peek_note POST_INPUTS;
    assetIdNew ← slice 32;
    denomNew ← u64h;
    null_if (denom_bad denomNew);;
    null_if (negb (bool_decide (assetIdNew = ctacVariantAssetId denomNew)));;
    newRecipientCommit ← slice 33;
    null_if (negb (is_point newRecipientCommit));;
    newLeafHash ← slice 32;
    null_if (sumZ (map denomination inputs) <? denomNew);;
    newOwnerPubkey ← slice 33;
    newOwnerSig ← slice 64;
    mret (Mk networkTag inputs assetIdNew denomNew newRecipientCommit newLeafHash
             newOwnerPubkey newOwnerSig encryptedNote)) payload.

(** ** Lemmas *)
Definition input_wf (sp : spend) : Prop := spend_wf sp ∧ 1 <= blen (proof sp) < 65536.
Definition input_ok (sp : spend) : Prop := bound sp ∧ pointy_ok true sp.
Definition inputs_bytes (l : list spend) : bytes := concat (map input_bytes l).

Lemma push_inputs_Ok l b : push_inputs l = Ok b ↔ b = inputs_bytes l ∧ Forall input_wf l.
Proof.
  unfold inputs_bytes. revert b; induction l as [|i l IH]; intros b; cbn [push_inputs map concat].
  - split; [by intros [= <-]|by intros [-> _]].
  - rewrite Forall_cons. unfold input_bytes at 1, input_wf at 1, spend_bytes, spend_wf.
    rewrite <- !app_assoc. pose proof (blen_nonneg (proof i)). split.
    + intros H2. enc_inv H2. apply res_bind_Ok in H2 as (r & [-> Hl]%IH & [= <-]).
      rewrite denom_bad_false in *. repeat split; auto; lia.
    + intros [-> [((?&?&?&?&?&?&?)&?) Hl]]. enc_run ltac:(first [by apply denom_bad_false|lia]).
      apply res_bind_Ok. eexists. split; [by apply IH|done].
Qed.

Lemma blen_inputs l : Forall input_wf l →
  204 * Z.of_nat (length l) <= blen (inputs_bytes l).
Proof.
  unfold inputs_bytes. induction 1 as [|i l [Hw ?] _ IH]; [done|]. cbn [map concat length].
  unfold input_bytes at 1. pose proof (blen_spend _ Hw). len_lia.
Qed.

Lemma read_input_Ok s sp s' :
  read_input s = Ok (sp, s') ↔
  s = input_bytes sp ++ s' ∧ (input_wf sp ∧ input_ok sp) ∧ POST_INPUTS <= blen s'.
Proof.
  unfold read_input, input_bytes, input_wf, input_ok, PER_INPUT_FIXED, POST_INPUTS. split.
  - intros H1. rd_inv H1. subst sp. subst. rewrite <- !app_assoc. split; [done|].
    split; [split; [split; [done|cbn; lia]|done]|len_lia].
  - intros (-> & ((Hw & Hpf) & Hb & Hpt) & Hroom). rewrite <- !app_assoc.
    change (spend_bytes sp) with (spend_bytes (with_proof sp [])).
    assert (Hl : blen (spend_bytes (with_proof sp [])) = 201) by by apply blen_spend.
    rd_run. all: pool_solve.
Qed.

Lemma read_inputs_Ok n s l s' :
  POST_INPUTS <= blen s' →
  repeatM n read_input s = Ok (l, s') ↔
  s = inputs_bytes l ++ s' ∧ length l = n ∧ Forall (λ i, input_wf i ∧ input_ok i) l.
Proof. apply repeatM_Ok_room, read_input_Ok. Qed.

Lemma read_inputs_inv n s l s' :
  (1 <= n)%nat → repeatM n read_input s = Ok (l, s') →
  s = inputs_bytes l ++ s' ∧ length l = n ∧ Forall input_wf l ∧ Forall input_ok l ∧ POST_INPUTS <= blen s'.
Proof.
  intros Hn Hr. assert (Hl : POST_INPUTS <= blen s').
  { eapply repeatM_left; [|exact Hn|exact Hr]. by intros ? ? ? (_ & _ & ?)%read_input_Ok. }
  apply read_inputs_Ok in Hr as (-> & Hlen & [??]%Forall_and); auto.
Qed.

Lemma safe_read_inputs n s : safe_at (repeatM n read_input) s.
Proof.
  apply safe_repeatM. intros s0. unfold read_input, PER_INPUT_FIXED, POST_INPUTS.
  repeat safe_step; len_lia.
Qed.

Ltac rd_inv_hook H ::=
  lazymatch type of H with
  | read_spend _ _ = Ok _ =>
      let Hw := fresh "Hsp" in let Hpf := fresh "Hpf" in let Hp := fresh "Hpoint" in
      let Hl := fresh "Hsplen" in
      apply read_spend_Ok in H as (-> & Hw & Hpf & Hp); pose proof (blen_spend _ Hw) as Hl
  | check_bind ?sp _ = Ok _ => apply check_bind_Ok in H as [H ->]; [|assumption]
  | repeatM _ read_input _ = Ok _ =>
      let Hn := fresh "Hn" in let Hwf := fresh "Hwf" in let Hok := fresh "Hok" in
      let Hpost := fresh "Hpost" in let Hl := fresh "Hinlen" in
      apply read_inputs_inv in H as (-> & Hn & Hwf & Hok & Hpost); [|lia];
      pose proof (blen_inputs _ Hwf) as Hl
  | peek_note _ _ = Ok _ =>
      let Hl := fresh "Hhost" in apply peek_note_inv in H as (-> & Hl & H); [|done]
  | _ => idtac
  end.
Ltac rd_step_hook ::=
  lazymatch goal with
  | |- repeatM _ read_input _ = Ok _ => apply read_inputs_Ok; [|split; [reflexivity|]]
  | |- peek_note _ _ = Ok _ => apply peek_note_Ok; [|split; [reflexivity|]]
  | _ => idtac
  end.
Ltac safe_hook ::=
  first [ apply safe_read_spend | apply safe_check_bind; assumption | apply safe_read_inputs
        | apply safe_peek_note ].

Definition fits (x : t) : Prop :=
  0 <= networkTag x <= 2 ∧ Forall input_ok (inputs x) ∧
  assetIdNew x = ctacVariantAssetId (denomNew x) ∧ is_point (newRecipientCommit x) = true ∧
  denomNew x <= sumZ (map denomination (inputs x)) ∧ encryptedNote x ≠ NoteNone.

Definition wire_len (x : t) : Z :=
  3 + blen (inputs_bytes (inputs x)) + POST_INPUTS + blen (note_bytes (encryptedNote x)).

Lemma slotMerge_decode_encode p x :
  decodeTSlotMergePayload p = Ok x → fits x ∧ (blen p = wire_len x → encodeTSlotMergePayload x = Ok p).
Proof.
  unfold decodeTSlotMergePayload, encodeTSlotMergePayload, fits, wire_len. cbv zeta. rewrite run_Ok.
  intros [s H1]. rd_inv H1. subst x.
  cbn [networkTag inputs assetIdNew denomNew newRecipientCommit newLeafHash newOwnerPubkey newOwnerSig
       encryptedNote].
  match goal with H : ∃ host tail, _ |- _ => destruct H as (host & tail & Hs & Hh & Ht) end.
  unfold POST_INPUTS in *. rewrite !app_assoc in Hs. apply app_inj_blen in Hs as [_ <-]; [|len_lia].
  apply tail_reads_bytes in Ht as (Hnn & Hnwf & Hnb).
  rewrite denom_bad_false, negb_false_iff, bool_decide_eq_true in *.
  split; [repeat split; auto; lia|]. intros Hl.
  pose proof (note_len _ Hnwf Hnn). rewrite Hnb by len_lia.
  rewrite Hn, Z2Nat.id by lia. rewrite !land_ff by lia.
  enc_run ltac:(first [by apply denom_bad_false|lia]).
  apply res_bind_Ok. eexists. split; [by apply push_inputs_Ok|].
  apply res_bind_Ok. eexists. split; [by apply push_note_Ok|].
  by rewrite !concatBytes_cons, concatBytes_nil, !app_nil_r.
Qed.

Lemma slotMerge_encode_decode p x :
  encodeTSlotMergePayload x = Ok p → fits x → decodeTSlotMergePayload p = Ok x.
Proof.
  unfold decodeTSlotMergePayload, encodeTSlotMergePayload, fits. cbv zeta.
  destruct x as [tag l a d rc lh op sg nt].
  cbn [networkTag inputs assetIdNew denomNew newRecipientCommit newLeafHash newOwnerPubkey newOwnerSig
       encryptedNote]. intros H1 (Htag & Hok & Ha & Hpt & Hsum & Hnn). rewrite land_ff in H1 by lia.
  enc_inv H1. apply res_bind_Ok in H1 as (ib & [-> Hwf]%push_inputs_Ok & H1).
  apply res_bind_Ok in H1 as (tail & [-> Hnwf]%push_note_Ok & [= <-]).
  pose proof (note_reads _ Hnwf Hnn) as Hr. pose proof (blen_inputs _ Hwf).
  rewrite denom_bad_false in *. rewrite land_ff by lia. unfold POST_INPUTS in *.
  rewrite !concatBytes_cons, concatBytes_nil, app_nil_r.
  apply run_Ok. eexists. rd_run. all: try (by apply denom_bad_false). all: try (rewrite Nat2Z.id).
  all: try (split; [done|by apply Forall_and]).
  all: try (by apply negb_false_iff; first [done|by apply bool_decide_eq_true]).
  all: try match goal with |- ∃ host tail, _ =>
    exists (a ++ u64_halves d ++ rc ++ lh ++ op ++ sg), (note_bytes nt); rewrite <- !app_assoc;
    split; [done|]; split; [len_lia|exact Hr] end.
  all: try reflexivity. all: unfold PER_INPUT_FIXED, POST_INPUTS in *; guard_solve.
Qed.

Lemma slotMerge_decode_total p : total (decodeTSlotMergePayload p).
Proof. unfold decodeTSlotMergePayload, PER_INPUT_FIXED, POST_INPUTS. safe_run. Qed.

#[export] Instance wire : WireCodec t.
Proof.
  refine {| wire_op := T_SLOT_MERGE; enc := encodeTSlotMergePayload; dec := decodeTSlotMergePayload;
            sendable := fits; canonical x p := blen p = wire_len x |}.
  - intros x p. apply slotMerge_encode_decode.
  - intros p x Hd Hl. apply slotMerge_decode_encode in Hd as [_ Hd]. by apply Hd.
  - apply slotMerge_decode_total.
  - unfold encodeTSlotMergePayload. intros x p He. cbv zeta in He. enc_inv He.
    apply res_bind_Ok in He as (? & _ & He). apply res_bind_Ok in He as (? & _ & [= <-]).
    rewrite concatBytes_cons. eauto.
Defined.
End with_crypto.
End SlotMerge.
