(* ===== verification/CodecAmm.v ===== *)
(** * AMM and farm envelopes

    The payloads of the AMM: swaps ([SwapVar], [SwapRoute]), liquidity ([LpAdd] with its
    pool-initialisation variant, [LpRemove]), the protocol-fee claim ([FeeClaim]) and the
    farms ([FarmInit], [LpBond], [LpUnbond], [LpHarvest], [FarmRefund]).  The encoders
    are the dapp's ([dapp/tacit.js], [dapp/amm-envelope.js]); the decoders are the
    worker's ([worker/src/index.js]), whose results drive its state.  A decoder is
    characterised by the exact set of payloads it accepts ([decode_Ok]), an encoder by
    the messages it accepts and what it writes ([encode_Ok]). *)
From S2P Require Import Prelude Bytes Crypto Text CodecPool.

Definition T_LP_ADD : Z := 0x2D.
Definition T_LP_REMOVE : Z := 0x2E.
Definition T_PROTOCOL_FEE_CLAIM : Z := 0x31.
Definition T_SWAP_VAR : Z := 0x32.
Definition T_SWAP_ROUTE : Z := 0x33.
Definition T_FARM_INIT : Z := 0x34.
Definition T_LP_BOND : Z := 0x35.
Definition T_LP_UNBOND : Z := 0x36.
Definition T_LP_HARVEST : Z := 0x3B.
Definition T_FARM_REFUND : Z := 0x3E.
Abbreviation XCURVE_PROOF_LEN := 169.

(** ** The encoders' parts

    [asBytes], [u64LE], [u128LE] throw on values out of range; [concatBytes] joins the
    parts in order. *)
Definition asBytes (b : bytes) (n : Z) (name : string) : res bytes :=
  throw_if (negb (blen b =? n)) name;; mret b.
Definition u64LE (v : Z) : res bytes :=
  throw_if ((v <? 0) || (v >=? Z.shiftl 1 64)) "u64 overflow";; mret (le 8 v).
Definition u128LE (v : Z) : res bytes :=
  throw_if ((v <? 0) || (v >=? Z.shiftl 1 128)) "u128 overflow";; mret (le 16 v).

(** [if (proof.length > 0xffff) throw ...; parts.push(u16LE(proof.length))] *)
Definition too_large (b : bytes) (msg : string) : res bytes :=
  throw_if (blen b >? 0xffff) msg;; mret (le 2 (blen b)).
Lemma too_large_Ok b msg r : too_large b msg = Ok r ↔ blen b < 65536 ∧ r = le 2 (blen b).
Proof.
  unfold too_large. split.
  - intros H. enc_inv H. injection H as <-. bool_to_prop. split; [lia|done].
  - intros [Hb ->]. enc_run ltac:(bool_goal; lia). done.
Qed.

Fixpoint concatParts (l : list (res bytes)) : res bytes :=
  match l with
  | [] => mret []
  | m :: l => b ← m; rest ← concatParts l; mret (b ++ rest)
  end.

Lemma asBytes_Ok b n name r : asBytes b n name = Ok r ↔ blen b = n ∧ r = b.
Proof.
  unfold asBytes. split.
  - intros H. enc_inv H. injection H as <-. bool_to_prop. done.
  - intros [Hb ->]. enc_run ltac:(bool_goal; lia). done.
Qed.

Lemma u64LE_Ok v r : u64LE v = Ok r ↔ 0 <= v < 2 ^ 64 ∧ r = le 8 v.
Proof.
  unfold u64LE. change (Z.shiftl 1 64) with (2 ^ 64). split.
  - intros H. enc_inv H. injection H as <-. bool_to_prop. done.
  - intros [Hb ->]. enc_run ltac:(bool_goal; lia). done.
Qed.

Lemma u128LE_Ok v r : u128LE v = Ok r ↔ 0 <= v < 2 ^ 128 ∧ r = le 16 v.
Proof.
  unfold u128LE. change (Z.shiftl 1 128) with (2 ^ 128). split.
  - intros H. enc_inv H. injection H as <-. bool_to_prop. done.
  - intros [Hb ->]. enc_run ltac:(bool_goal; lia). done.
Qed.

Lemma concatParts_nil p : concatParts [] = Ok p ↔ p = [].
Proof. cbn. unfold mret, res_ret. naive_solver. Qed.

Lemma concatParts_cons m l p :
  concatParts (m :: l) = Ok p ↔ ∃ b q, m = Ok b ∧ concatParts l = Ok q ∧ p = b ++ q.
Proof.
  cbn. rewrite res_bind_Ok. split.
  - intros (b & Hb & (q & Hq & [= <-])%res_bind_Ok). eauto.
  - intros (b & q & Hb & Hq & ->). exists b. split; [done|]. apply res_bind_Ok. eauto.
Qed.

(** [c_change_or_sentinel]: a point, or 33 zero bytes. *)
Definition point_or_zero `{PointParser} (b : bytes) : bool := all_zero b || is_point b.

Lemma point_or_zero_guard `{PointParser} b :
  negb (all_zero b) && negb (is_point b) = false ↔ point_or_zero b = true.
Proof. unfold point_or_zero. destruct (all_zero b), (is_point b); naive_solver. Qed.

(** An equation between byte strings: the encoder writes 64-bit fields byte by byte, the
    decoders read them in two halves. *)
Ltac flat := rewrite ?concatBytes_cons, ?concatBytes_nil.
Ltac layout_eq := cbn; flat; rewrite ?u64_halves_le; rewrite <- ?app_assoc; cbn [app]; rewrite ?app_nil_r; reflexivity.

(** Takes [concatParts l = Ok p] apart, part by part. *)
Ltac parts_inv1 H :=
  lazymatch type of H with
  | asBytes _ _ _ = Ok _ => apply asBytes_Ok in H as [H ->]
  | u64LE _ = Ok _ => apply u64LE_Ok in H as [H ->]
  | u128LE _ = Ok _ => apply u128LE_Ok in H as [H ->]
  | too_large _ _ = Ok _ => apply too_large_Ok in H as [H ->]
  | mret _ = Ok _ => injection H as <-
  | concatParts [] = Ok _ => apply concatParts_nil in H; subst
  | concatParts (_ :: _) = Ok _ =>
      let b := fresh "b" in let q := fresh "q" in let H1 := fresh "H" in
      apply concatParts_cons in H as (b & q & H1 & H & ->); parts_inv1 H1; parts_inv1 H
  | _ => idtac
  end.
Ltac parts_inv H := parts_inv1 H.

(** A chain [b <- asBytes ...; ...] *)
Ltac parts_chain H :=
  repeat lazymatch type of H with
  | (asBytes _ _ _ ≫= _) = Ok _ =>
      let b := fresh "b" in let H1 := fresh "H" in
      apply res_bind_Ok in H as (b & H1 & H); apply asBytes_Ok in H1 as [H1 ->]
  end.
Lemma asBytes_run {A} b n name (k : bytes → res A) : blen b = n → (asBytes b n name ≫= k) = k b.
Proof. intros Hb. by rewrite (proj2 (asBytes_Ok b n name b)). Qed.
Ltac parts_go := repeat (rewrite asBytes_run by first [assumption|lia]).

(** Runs [concatParts] on parts that are in range; a component adds its own parts. *)
Ltac parts_hook := fail.
Ltac parts_run1 :=
  lazymatch goal with
  | |- asBytes _ _ _ = Ok _ => apply asBytes_Ok; split; [|reflexivity]
  | |- u64LE _ = Ok _ => apply u64LE_Ok; split; [|reflexivity]
  | |- u128LE _ = Ok _ => apply u128LE_Ok; split; [|reflexivity]
  | |- too_large _ _ = Ok _ => apply too_large_Ok; split; [|reflexivity]
  | |- mret _ = Ok _ => reflexivity
  | |- concatParts [] = Ok _ => apply concatParts_nil; reflexivity
  | |- concatParts (_ :: _) = Ok _ =>
      apply concatParts_cons; eexists _, _; split; [parts_run1|split; [parts_run1|reflexivity]]
  | |- _ => parts_hook
  end.
(** [concatParts l = Ok p] for a given [p]: run the parts, then compare. *)
Ltac parts_run :=
  lazymatch goal with
  | |- concatParts ?l = Ok ?p =>
      let q := fresh "q" in let E := fresh "E" in
      enough (∃ q, concatParts l = Ok q ∧ q = p) as (q & E & <-) by exact E;
      eexists; split; [parts_run1|try layout_eq]
  end.

(** Nothing is left unread when the lengths add up. *)
Ltac tail_nil :=
  try match goal with
  | s : list byte |- _ => assert (s = []) as -> by (apply blen_0; autorewrite with blen in *; lia)
  end.

(** [decode p = Ok x -> p = layout x /\ decodable x] *)
Ltac decode_fwd :=
  let s := fresh "s" in let H := fresh "Hdec" in
  intros [s H]; rd_inv H; subst; bool_to_prop; cbn; rd_close; tail_nil;
  flat; rewrite ?app_nil_r in *; repeat split; try lia; try done; try (by apply point_or_zero_guard);
  try (unfold blen in *; lia).

(** ... and back *)
Ltac decode_bwd :=
  eexists; flat; rd_run;
  first [ apply negb_false_iff; assumption | apply point_or_zero_guard; assumption | guard_solve | idtac ].

Ltac encode_fwd :=
  let H := fresh "Henc" in
  intros H; parts_inv H; split; [layout_eq|]; repeat split; done || lia.
Ltac encode_bwd := parts_run; done || lia.

(** [b[0] !== 0x02 && b[0] !== 0x03] *)
Definition bad_prefix (b : bytes) : bool :=
  negb (byteZ (nth 0 b x00) =? 0x02) && negb (byteZ (nth 0 b x00) =? 0x03).

(** ** Protocol-fee claim *)
Module FeeClaim.
Record t := Mk { poolId : bytes; claimerPubkey : bytes; feeBps : Z; claimAmount : Z;
                 claimCSecp : bytes; claimBlinding : bytes; claimSig : bytes }.
Definition layout (x : t) : bytes :=
  concatBytes [u8b T_PROTOCOL_FEE_CLAIM; poolId x; claimerPubkey x; le 4 (feeBps x);
               u64_halves (claimAmount x); claimCSecp x; claimBlinding x; claimSig x].
Definition sized (x : t) : Prop :=
  blen (poolId x) = 32 ∧ blen (claimerPubkey x) = 33 ∧ blen (claimCSecp x) = 33 ∧
  blen (claimBlinding x) = 32 ∧ blen (claimSig x) = 64.

Definition encodeProtocolFeeClaim (x : t) : res bytes :=
  poolId ← asBytes (poolId x) 32 "poolId must be 32 bytes";
  claimerPubkey ← asBytes (claimerPubkey x) 33 "claimerPubkey must be 33 bytes";
  claimCSecp ← asBytes (claimCSecp x) 33 "claimCSecp must be 33 bytes";
  claimBlinding ← asBytes (claimBlinding x) 32 "claimBlinding must be 32 bytes";
  claimSig ← asBytes (claimSig x) 64 "claimSig must be 64 bytes";
  throw_if ((claimAmount x <=? 0) || (claimAmount x >=? Z.shiftl 1 64)) "claim_amount out of u64+ range";;
  concatParts [mret (u8b T_PROTOCOL_FEE_CLAIM); mret poolId; mret claimerPubkey; mret (le 4 (feeBps x));
               u64LE (claimAmount x); mret claimCSecp; mret claimBlinding; mret claimSig].

Section with_points.
Context `{PointParser}.

Definition decodeTProtocolFeeClaimPayload (payload : bytes) : res t :=
  run (
    null_if (negb (blen payload =? 207));;
    opcode T_PROTOCOL_FEE_CLAIM;;
    poolId ← slice 32;
    claimerPubkey ← slice 33;
    null_if (negb (is_point claimerPubkey));;
    feeBps ← uint 4;
    claimAmount ← u64h;
    claimCSecp ← slice 33;
    null_if (negb (is_point claimCSecp));;
    claimBlinding ← slice 32;
    claimSig ← slice 64;
    mret (Mk poolId claimerPubkey feeBps claimAmount claimCSecp claimBlinding claimSig)) payload.

Definition decodable (x : t) : Prop :=
  sized x ∧ is_point (claimerPubkey x) = true ∧ is_point (claimCSecp x) = true ∧
  0 <= feeBps x < 2 ^ 32 ∧ 0 <= claimAmount x < 2 ^ 64.

Lemma feeClaim_decode_Ok p x : decodeTProtocolFeeClaimPayload p = Ok x ↔ p = layout x ∧ decodable x.
Proof.
  unfold decodeTProtocolFeeClaimPayload. rewrite run_Ok. unfold layout, decodable, sized. split.
  - decode_fwd.
  - destruct x. cbn. intros (-> & (?&?&?&?&?) & ? & ? & ? & ?). decode_bwd.
Qed.

Lemma feeClaim_decode_total p : total (decodeTProtocolFeeClaimPayload p).
Proof. unfold decodeTProtocolFeeClaimPayload. safe_run. Qed.
End with_points.

Lemma feeClaim_encode_Ok x p :
  encodeProtocolFeeClaim x = Ok p ↔ p = layout x ∧ sized x ∧ 0 < claimAmount x < 2 ^ 64.
Proof.
  unfold encodeProtocolFeeClaim, layout, sized. change (Z.shiftl 1 64) with (2 ^ 64). split.
  - intros H. parts_chain H. enc_inv H. bool_to_prop. parts_inv H. split; [layout_eq|repeat split; done || lia].
  - intros (-> & (?&?&?&?&?) & ?). parts_go. enc_run lia. rewrite u64_halves_le. parts_run; done || lia.
Qed.
End FeeClaim.

(** ** Farm initialisation *)
Module FarmInit.
Record t := Mk { poolId : bytes; farmNonce : bytes; launcherPubkey : bytes; rewardAssetId : bytes;
    rewardTotal : Z; rewardPerBlock : Z; startHeight : Z; endHeight : Z; cChangeOrSentinel : bytes;
    rangeProof : bytes; kernelSig : bytes; launcherSig : bytes; refundExpiry : Z; refundDestXonly : bytes;
    refundBlinding : bytes }.
Definition layout (x : t) : bytes :=
  concatBytes [u8b T_FARM_INIT; poolId x; farmNonce x; launcherPubkey x; rewardAssetId x;
      u64_halves (rewardTotal x); u64_halves (rewardPerBlock x); le 4 (startHeight x); le 4 (endHeight x);
      cChangeOrSentinel x; le 2 (blen (rangeProof x)); rangeProof x; kernelSig x; launcherSig x;
      le 4 (refundExpiry x); refundDestXonly x; refundBlinding x].
Definition sized (x : t) : Prop :=
  blen (poolId x) = 32 ∧ blen (farmNonce x) = 32 ∧ blen (launcherPubkey x) = 33 ∧
      blen (rewardAssetId x) = 32 ∧ blen (cChangeOrSentinel x) = 33 ∧ blen (rangeProof x) < 65536 ∧
      blen (kernelSig x) = 64 ∧ blen (launcherSig x) = 64 ∧ blen (refundDestXonly x) = 32 ∧
      blen (refundBlinding x) = 32.
Definition encodeFarmInit (x : t) : res bytes :=
  concatParts [mret (u8b T_FARM_INIT);
    asBytes (poolId x) 32 "poolId must be 32 bytes";
    asBytes (farmNonce x) 32 "farmNonce must be 32 bytes";
    asBytes (launcherPubkey x) 33 "launcherPubkey must be 33 bytes";
    asBytes (rewardAssetId x) 32 "rewardAssetId must be 32 bytes";
    u64LE (rewardTotal x);
    u64LE (rewardPerBlock x);
    mret (le 4 (startHeight x));
    mret (le 4 (endHeight x));
    asBytes (cChangeOrSentinel x) 33 "cChangeOrSentinel must be 33 bytes";
    too_large (rangeProof x) "rangeProof too large";
    mret (rangeProof x);
    asBytes (kernelSig x) 64 "kernelSig must be 64 bytes";
    asBytes (launcherSig x) 64 "launcherSig must be 64 bytes";
    mret (le 4 (refundExpiry x));
    asBytes (refundDestXonly x) 32 "refundDestXonly must be 32 bytes";
    asBytes (refundBlinding x) 32 "refundBlinding must be 32 bytes"].

Section with_points.
Context `{PointParser}.

Definition decodeTFarmInitPayload (payload : bytes) : res t :=
  run (
    null_if (blen payload <? 315 + 2);;
    opcode T_FARM_INIT;;
    poolId ← slice 32;
    farmNonce ← slice 32;
    launcherPubkey ← slice 33;
    null_if (bad_prefix launcherPubkey);;
    null_if (negb (is_point launcherPubkey));;
    rewardAssetId ← slice 32;
    rewardTotal ← u64h;
    rewardPerBlock ← u64h;
    startHeight ← uint 4;
    endHeight ← uint 4;
    cChangeOrSentinel ← slice 33;
    null_if (negb (all_zero cChangeOrSentinel) && negb (is_point cChangeOrSentinel));;
    room 2;;
    rpLen ← uint 2;
    room (rpLen + 64 + 64 + 68);;
    rangeProof ← slice rpLen;
    kernelSig ← slice 64;
    launcherSig ← slice 64;
    refundExpiry ← uint 4;
    refundDestXonly ← slice 32;
    refundBlinding ← slice 32;
    ends_at 0;;
    mret (Mk poolId farmNonce launcherPubkey rewardAssetId rewardTotal rewardPerBlock startHeight endHeight
        cChangeOrSentinel rangeProof kernelSig launcherSig refundExpiry refundDestXonly refundBlinding))
        payload.
Definition decodable (x : t) : Prop :=
  sized x ∧ bad_prefix (launcherPubkey x) = false ∧ is_point (launcherPubkey x) = true ∧
      0 <= rewardTotal x < 2 ^ 64 ∧ 0 <= rewardPerBlock x < 2 ^ 64 ∧ 0 <= startHeight x < 2 ^ 32 ∧
      0 <= endHeight x < 2 ^ 32 ∧ point_or_zero (cChangeOrSentinel x) = true ∧ 0 <= refundExpiry x < 2 ^ 32.

Lemma farmInit_decode_Ok p x : decodeTFarmInitPayload p = Ok x ↔ p = layout x ∧ decodable x.
Proof.
  unfold decodeTFarmInitPayload. rewrite run_Ok. unfold layout, decodable, sized. split.
  - decode_fwd.
  - destruct x. cbn. intros (-> & (?&?&?&?&?&?&?&?&?&?) & ? & ? & ? & ? & ? & ? & ? & ?). decode_bwd.
Qed.

Lemma farmInit_decode_total p : total (decodeTFarmInitPayload p).
Proof. unfold decodeTFarmInitPayload. safe_run. Qed.
End with_points.

Lemma farmInit_encode_Ok x p :
  encodeFarmInit x = Ok p ↔ p = layout x ∧ sized x ∧ 0 <= rewardTotal x < 2 ^ 64 ∧
      0 <= rewardPerBlock x < 2 ^ 64.
Proof.
  unfold encodeFarmInit, layout, sized. split.
  - encode_fwd.
  - intros (-> & (?&?&?&?&?&?&?&?&?&?) & ? & ?). encode_bwd.
Qed.
End FarmInit.


(** ** Bonding *)
Module LpBond.
Record t := Mk { farmId : bytes; bonderPubkey : bytes; bondAmount : Z; entryAccPerShare : Z;
    bondViewHeight : Z; ownerCommit : bytes; nonce : bytes; cChangeOrSentinel : bytes; rangeProof : bytes;
    kernelSig : bytes; bonderSig : bytes; refundExpiry : Z; refundDestXonly : bytes; refundBlinding : bytes }.
Definition layout (x : t) : bytes :=
  concatBytes [u8b T_LP_BOND; farmId x; bonderPubkey x; u64_halves (bondAmount x);
      le 16 (entryAccPerShare x); le 4 (bondViewHeight x); ownerCommit x; nonce x; cChangeOrSentinel x;
      le 2 (blen (rangeProof x)); rangeProof x; kernelSig x; bonderSig x; le 4 (refundExpiry x);
      refundDestXonly x; refundBlinding x].
Definition sized (x : t) : Prop :=
  blen (farmId x) = 32 ∧ blen (bonderPubkey x) = 33 ∧ blen (ownerCommit x) = 32 ∧ blen (nonce x) = 32 ∧
      blen (cChangeOrSentinel x) = 33 ∧ blen (rangeProof x) < 65536 ∧ blen (kernelSig x) = 64 ∧
      blen (bonderSig x) = 64 ∧ blen (refundDestXonly x) = 32 ∧ blen (refundBlinding x) = 32.
Definition encodeLpBond (x : t) : res bytes :=
  concatParts [mret (u8b T_LP_BOND);
    asBytes (farmId x) 32 "farmId must be 32 bytes";
    asBytes (bonderPubkey x) 33 "bonderPubkey must be 33 bytes";
    u64LE (bondAmount x);
    u128LE (entryAccPerShare x);
    mret (le 4 (bondViewHeight x));
    asBytes (ownerCommit x) 32 "ownerCommit must be 32 bytes";
    asBytes (nonce x) 32 "nonce must be 32 bytes";
    asBytes (cChangeOrSentinel x) 33 "cChangeOrSentinel must be 33 bytes";
    too_large (rangeProof x) "rangeProof too large";
    mret (rangeProof x);
    asBytes (kernelSig x) 64 "kernelSig must be 64 bytes";
    asBytes (bonderSig x) 64 "bonderSig must be 64 bytes";
    mret (le 4 (refundExpiry x));
    asBytes (refundDestXonly x) 32 "refundDestXonly must be 32 bytes";
    asBytes (refundBlinding x) 32 "refundBlinding must be 32 bytes"].

Section with_points.
Context `{PointParser}.

Definition decodeTLpBondPayload (payload : bytes) : res t :=
  run (
    null_if (blen payload <? 319 + 2);;
    opcode T_LP_BOND;;
    farmId ← slice 32;
    bonderPubkey ← slice 33;
    null_if (bad_prefix bonderPubkey);;
    null_if (negb (is_point bonderPubkey));;
    bondAmount ← u64h;
    entryAccPerShare ← uint 16;
    bondViewHeight ← uint 4;
    ownerCommit ← slice 32;
    nonce ← slice 32;
    cChangeOrSentinel ← slice 33;
    null_if (negb (all_zero cChangeOrSentinel) && negb (is_point cChangeOrSentinel));;
    room 2;;
    rpLen ← uint 2;
    room (rpLen + 64 + 64 + 68);;
    rangeProof ← slice rpLen;
    kernelSig ← slice 64;
    bonderSig ← slice 64;
    refundExpiry ← uint 4;
    refundDestXonly ← slice 32;
    refundBlinding ← slice 32;
    ends_at 0;;
    mret (Mk farmId bonderPubkey bondAmount entryAccPerShare bondViewHeight ownerCommit nonce
        cChangeOrSentinel rangeProof kernelSig bonderSig refundExpiry refundDestXonly refundBlinding)) payload.
Definition decodable (x : t) : Prop :=
  sized x ∧ bad_prefix (bonderPubkey x) = false ∧ is_point (bonderPubkey x) = true ∧
      0 <= bondAmount x < 2 ^ 64 ∧ 0 <= entryAccPerShare x < 2 ^ 128 ∧ 0 <= bondViewHeight x < 2 ^ 32 ∧
      point_or_zero (cChangeOrSentinel x) = true ∧ 0 <= refundExpiry x < 2 ^ 32.

Lemma lpBond_decode_Ok p x : decodeTLpBondPayload p = Ok x ↔ p = layout x ∧ decodable x.
Proof.
  unfold decodeTLpBondPayload. rewrite run_Ok. unfold layout, decodable, sized. split.
  - decode_fwd.
  - destruct x. cbn. intros (-> & (?&?&?&?&?&?&?&?&?&?) & ? & ? & ? & ? & ? & ? & ?). decode_bwd.
Qed.

Lemma lpBond_decode_total p : total (decodeTLpBondPayload p).
Proof. unfold decodeTLpBondPayload. safe_run. Qed.
End with_points.

Lemma lpBond_encode_Ok x p :
  encodeLpBond x = Ok p ↔ p = layout x ∧ sized x ∧ 0 <= bondAmount x < 2 ^ 64 ∧
      0 <= entryAccPerShare x < 2 ^ 128.
Proof.
  unfold encodeLpBond, layout, sized. split.
  - encode_fwd.
  - intros (-> & (?&?&?&?&?&?&?&?&?&?) & ? & ?). encode_bwd.
Qed.
End LpBond.


(** ** Unbonding *)
Module LpUnbond.
Record t := Mk { farmId : bytes; ownerCommit : bytes; nonce : bytes; shares : Z; rpsEntry : Z;
    lpReturnR : bytes; unbonderSig : bytes }.
Definition layout (x : t) : bytes :=
  concatBytes [u8b T_LP_UNBOND; farmId x; ownerCommit x; nonce x; u64_halves (shares x);
      le 16 (rpsEntry x); lpReturnR x; unbonderSig x].
Definition sized (x : t) : Prop :=
  blen (farmId x) = 32 ∧ blen (ownerCommit x) = 32 ∧ blen (nonce x) = 32 ∧ blen (lpReturnR x) = 32 ∧
      blen (unbonderSig x) = 64.
Definition encodeLpUnbond (x : t) : res bytes :=
  concatParts [mret (u8b T_LP_UNBOND);
    asBytes (farmId x) 32 "farmId must be 32 bytes";
    asBytes (ownerCommit x) 32 "ownerCommit must be 32 bytes";
    asBytes (nonce x) 32 "nonce must be 32 bytes";
    u64LE (shares x);
    u128LE (rpsEntry x);
    asBytes (lpReturnR x) 32 "lpReturnR must be 32 bytes";
    asBytes (unbonderSig x) 64 "unbonderSig must be 64 bytes"].

Section with_points.
Context `{PointParser}.

Definition decodeTLpUnbondPayload (payload : bytes) : res t :=
  run (
    null_if (negb (blen payload =? 217));;
    opcode T_LP_UNBOND;;
    farmId ← slice 32;
    ownerCommit ← slice 32;
    nonce ← slice 32;
    shares ← u64h;
    rpsEntry ← uint 16;
    lpReturnR ← slice 32;
    unbonderSig ← slice 64;
    ends_at 0;;
    mret (Mk farmId ownerCommit nonce shares rpsEntry lpReturnR unbonderSig)) payload.
Definition decodable (x : t) : Prop :=
  sized x ∧ 0 <= shares x < 2 ^ 64 ∧ 0 <= rpsEntry x < 2 ^ 128.

Lemma lpUnbond_decode_Ok p x : decodeTLpUnbondPayload p = Ok x ↔ p = layout x ∧ decodable x.
Proof.
  unfold decodeTLpUnbondPayload. rewrite run_Ok. unfold layout, decodable, sized. split.
  - decode_fwd.
  - destruct x. cbn. intros (-> & (?&?&?&?&?) & ? & ?). decode_bwd.
Qed.

Lemma lpUnbond_decode_total p : total (decodeTLpUnbondPayload p).
Proof. unfold decodeTLpUnbondPayload. safe_run. Qed.
End with_points.

Lemma lpUnbond_encode_Ok x p :
  encodeLpUnbond x = Ok p ↔ p = layout x ∧ sized x ∧ 0 <= shares x < 2 ^ 64 ∧ 0 <= rpsEntry x < 2 ^ 128.
Proof.
  unfold encodeLpUnbond, layout, sized. split.
  - encode_fwd.
  - intros (-> & (?&?&?&?&?) & ? & ?). encode_bwd.
Qed.
End LpUnbond.


(** ** Harvest *)
Module LpHarvest.
Record t := Mk { farmId : bytes; bondId : bytes; harvesterPubkey : bytes; exitAccPerShare : Z;
    exitViewHeight : Z; rewardAmount : Z; rewardR : bytes; ownerCommit : bytes; oldNonce : bytes;
    newNonce : bytes; shares : Z; rpsEntry : Z; harvesterSig : bytes }.
Definition layout (x : t) : bytes :=
  concatBytes [u8b T_LP_HARVEST; farmId x; bondId x; harvesterPubkey x; le 16 (exitAccPerShare x);
      le 4 (exitViewHeight x); u64_halves (rewardAmount x); rewardR x; ownerCommit x; oldNonce x;
      newNonce x; u64_halves (shares x); le 16 (rpsEntry x); harvesterSig x].
Definition sized (x : t) : Prop :=
  blen (farmId x) = 32 ∧ blen (bondId x) = 36 ∧ blen (harvesterPubkey x) = 33 ∧ blen (rewardR x) = 32 ∧
      blen (ownerCommit x) = 32 ∧ blen (oldNonce x) = 32 ∧ blen (newNonce x) = 32 ∧ blen (harvesterSig x) = 64.
Definition encodeLpHarvest (x : t) : res bytes :=
  concatParts [mret (u8b T_LP_HARVEST);
    asBytes (farmId x) 32 "farmId must be 32 bytes";
    asBytes (bondId x) 36 "bondId must be 36 bytes";
    asBytes (harvesterPubkey x) 33 "harvesterPubkey must be 33 bytes";
    u128LE (exitAccPerShare x);
    mret (le 4 (exitViewHeight x));
    u64LE (rewardAmount x);
    asBytes (rewardR x) 32 "rewardR must be 32 bytes";
    asBytes (ownerCommit x) 32 "ownerCommit must be 32 bytes";
    asBytes (oldNonce x) 32 "oldNonce must be 32 bytes";
    asBytes (newNonce x) 32 "newNonce must be 32 bytes";
    u64LE (shares x);
    u128LE (rpsEntry x);
    asBytes (harvesterSig x) 64 "harvesterSig must be 64 bytes"].

Section with_points.
Context `{PointParser}.

Definition decodeTLpHarvestPayload (payload : bytes) : res t :=
  run (
    null_if (negb (blen payload =? 346));;
    opcode T_LP_HARVEST;;
    farmId ← slice 32;
    bondId ← slice 36;
    harvesterPubkey ← slice 33;
    null_if (bad_prefix harvesterPubkey);;
    null_if (negb (is_point harvesterPubkey));;
    exitAccPerShare ← uint 16;
    exitViewHeight ← uint 4;
    rewardAmount ← u64h;
    rewardR ← slice 32;
    ownerCommit ← slice 32;
    oldNonce ← slice 32;
    newNonce ← slice 32;
    shares ← u64h;
    rpsEntry ← uint 16;
    harvesterSig ← slice 64;
    ends_at 0;;
    mret (Mk farmId bondId harvesterPubkey exitAccPerShare exitViewHeight rewardAmount rewardR ownerCommit
        oldNonce newNonce shares rpsEntry harvesterSig)) payload.
Definition decodable (x : t) : Prop :=
  sized x ∧ bad_prefix (harvesterPubkey x) = false ∧ is_point (harvesterPubkey x) = true ∧
      0 <= exitAccPerShare x < 2 ^ 128 ∧ 0 <= exitViewHeight x < 2 ^ 32 ∧ 0 <= rewardAmount x < 2 ^ 64 ∧
      0 <= shares x < 2 ^ 64 ∧ 0 <= rpsEntry x < 2 ^ 128.

Lemma lpHarvest_decode_Ok p x : decodeTLpHarvestPayload p = Ok x ↔ p = layout x ∧ decodable x.
Proof.
  unfold decodeTLpHarvestPayload. rewrite run_Ok. unfold layout, decodable, sized. split.
  - decode_fwd.
  - destruct x. cbn. intros (-> & (?&?&?&?&?&?&?&?) & ? & ? & ? & ? & ? & ? & ?). decode_bwd.
Qed.

Lemma lpHarvest_decode_total p : total (decodeTLpHarvestPayload p).
Proof. unfold decodeTLpHarvestPayload. safe_run. Qed.
End with_points.

Lemma lpHarvest_encode_Ok x p :
  encodeLpHarvest x = Ok p ↔ p = layout x ∧ sized x ∧ 0 <= exitAccPerShare x < 2 ^ 128 ∧
      0 <= rewardAmount x < 2 ^ 64 ∧ 0 <= shares x < 2 ^ 64 ∧ 0 <= rpsEntry x < 2 ^ 128.
Proof.
  unfold encodeLpHarvest, layout, sized. split.
  - encode_fwd.
  - intros (-> & (?&?&?&?&?&?&?&?) & ? & ? & ? & ?). encode_bwd.
Qed.
End LpHarvest.


(** ** Farm refund *)
Module FarmRefund.
Record t := Mk { farmId : bytes; launcherPubkey : bytes; refundAmount : Z; refundViewHeight : Z;
    refundR : bytes; launcherSig : bytes }.
Definition layout (x : t) : bytes :=
  concatBytes [u8b T_FARM_REFUND; farmId x; launcherPubkey x; u64_halves (refundAmount x);
      le 4 (refundViewHeight x); refundR x; launcherSig x].
Definition sized (x : t) : Prop :=
  blen (farmId x) = 32 ∧ blen (launcherPubkey x) = 33 ∧ blen (refundR x) = 32 ∧ blen (launcherSig x) = 64.
Definition encodeFarmRefund (x : t) : res bytes :=
  concatParts [mret (u8b T_FARM_REFUND);
    asBytes (farmId x) 32 "farmId must be 32 bytes";
    asBytes (launcherPubkey x) 33 "launcherPubkey must be 33 bytes";
    u64LE (refundAmount x);
    mret (le 4 (refundViewHeight x));
    asBytes (refundR x) 32 "refundR must be 32 bytes";
    asBytes (launcherSig x) 64 "launcherSig must be 64 bytes"].

Section with_points.
Context `{PointParser}.

Definition decodeTFarmRefundPayload (payload : bytes) : res t :=
  run (
    null_if (negb (blen payload =? 174));;
    opcode T_FARM_REFUND;;
    farmId ← slice 32;
    launcherPubkey ← slice 33;
    null_if (bad_prefix launcherPubkey);;
    null_if (negb (is_point launcherPubkey));;
    refundAmount ← u64h;
    refundViewHeight ← uint 4;
    refundR ← slice 32;
    launcherSig ← slice 64;
    ends_at 0;;
    mret (Mk farmId launcherPubkey refundAmount refundViewHeight refundR launcherSig)) payload.
Definition decodable (x : t) : Prop :=
  sized x ∧ bad_prefix (launcherPubkey x) = false ∧ is_point (launcherPubkey x) = true ∧
      0 <= refundAmount x < 2 ^ 64 ∧ 0 <= refundViewHeight x < 2 ^ 32.

Lemma farmRefund_decode_Ok p x : decodeTFarmRefundPayload p = Ok x ↔ p = layout x ∧ decodable x.
Proof.
  unfold decodeTFarmRefundPayload. rewrite run_Ok. unfold layout, decodable, sized. split.
  - decode_fwd.
  - destruct x. cbn. intros (-> & (?&?&?&?) & ? & ? & ? & ?). decode_bwd.
Qed.

Lemma farmRefund_decode_total p : total (decodeTFarmRefundPayload p).
Proof. unfold decodeTFarmRefundPayload. safe_run. Qed.
End with_points.

Lemma farmRefund_encode_Ok x p :
  encodeFarmRefund x = Ok p ↔ p = layout x ∧ sized x ∧ 0 <= refundAmount x < 2 ^ 64.
Proof.
  unfold encodeFarmRefund, layout, sized. split.
  - encode_fwd.
  - intros (-> & (?&?&?&?) & ?). encode_bwd.
Qed.
End FarmRefund.


(** ** Liquidity removal *)
Module LpRemove.
Record t := Mk { assetA : bytes; assetB : bytes; shareAmount : Z; deltaA : Z; deltaB : Z;
                 recvACSecp : bytes; recvACBJJ : bytes; recvAXcurveSigma : bytes;
                 recvBCSecp : bytes; recvBCBJJ : bytes; recvBXcurveSigma : bytes;
                 kernelSigLP : bytes; rRecvA : bytes; rRecvB : bytes; proof : bytes }.
Definition layout (x : t) : bytes :=
  concatBytes [u8b T_LP_REMOVE; assetA x; assetB x; u64_halves (shareAmount x); u64_halves (deltaA x);
               u64_halves (deltaB x); recvACSecp x; recvACBJJ x; recvAXcurveSigma x; recvBCSecp x;
               recvBCBJJ x; recvBXcurveSigma x; kernelSigLP x; rRecvA x; rRecvB x;
               le 2 (blen (proof x)); proof x].
Definition sized (x : t) : Prop :=
  blen (assetA x) = 32 ∧ blen (assetB x) = 32 ∧ blen (recvACSecp x) = 33 ∧ blen (recvACBJJ x) = 32 ∧
  blen (recvAXcurveSigma x) = XCURVE_PROOF_LEN ∧ blen (recvBCSecp x) = 33 ∧ blen (recvBCBJJ x) = 32 ∧
  blen (recvBXcurveSigma x) = XCURVE_PROOF_LEN ∧ blen (kernelSigLP x) = 64 ∧
  blen (rRecvA x) = 32 ∧ blen (rRecvB x) = 32 ∧ blen (proof x) < 65536.
Definition amounts (x : t) : Prop :=
  0 <= shareAmount x < 2 ^ 64 ∧ 0 <= deltaA x < 2 ^ 64 ∧ 0 <= deltaB x < 2 ^ 64.

Definition encodeLpRemove (x : t) : res bytes :=
  concatParts [mret (u8b T_LP_REMOVE); asBytes (assetA x) 32 "assetA must be 32 bytes";
    asBytes (assetB x) 32 "assetB must be 32 bytes"; u64LE (shareAmount x); u64LE (deltaA x); u64LE (deltaB x);
    asBytes (recvACSecp x) 33 "recvACSecp must be 33 bytes"; asBytes (recvACBJJ x) 32 "recvACBJJ must be 32 bytes";
    asBytes (recvAXcurveSigma x) XCURVE_PROOF_LEN "recvAXcurveSigma must be 169 bytes";
    asBytes (recvBCSecp x) 33 "recvBCSecp must be 33 bytes"; asBytes (recvBCBJJ x) 32 "recvBCBJJ must be 32 bytes";
    asBytes (recvBXcurveSigma x) XCURVE_PROOF_LEN "recvBXcurveSigma must be 169 bytes";
    asBytes (kernelSigLP x) 64 "kernelSigLP must be 64 bytes"; asBytes (rRecvA x) 32 "rRecvA must be 32 bytes";
    asBytes (rRecvB x) 32 "rRecvB must be 32 bytes"; too_large (proof x) "proof too large"; mret (proof x)].

Section with_points.
Context `{PointParser}.

Definition decodeTLpRemovePayload (payload : bytes) : res t :=
  run (
    opcode T_LP_REMOVE;;
    null_if (blen payload <? 1 + 32 + 32 + 8 + 8 + 8 + 2 * (33 + 32 + XCURVE_PROOF_LEN) + 64 + 32 + 32 + 2 + 1);;
    assetA ← slice 32;
    assetB ← slice 32;
    shareAmount ← u64h;
    deltaA ← u64h;
    deltaB ← u64h;
    recvACSecp ← slice 33;
    null_if (negb (is_point recvACSecp));;
    recvACBJJ ← slice 32;
    recvAXcurveSigma ← slice XCURVE_PROOF_LEN;
    recvBCSecp ← slice 33;
    null_if (negb (is_point recvBCSecp));;
    recvBCBJJ ← slice 32;
    recvBXcurveSigma ← slice XCURVE_PROOF_LEN;
    kernelSigLP ← slice 64;
    rRecvA ← slice 32;
    rRecvB ← slice 32;
    room 2;;
    proofLen ← uint 2;
    null_if (proofLen =? 0);;
    ends_at proofLen;;
    proof ← slice proofLen;
    mret (Mk assetA assetB shareAmount deltaA deltaB recvACSecp recvACBJJ recvAXcurveSigma
             recvBCSecp recvBCBJJ recvBXcurveSigma kernelSigLP rRecvA rRecvB proof)) payload.

Definition decodable (x : t) : Prop :=
  sized x ∧ is_point (recvACSecp x) = true ∧ is_point (recvBCSecp x) = true ∧ amounts x ∧ 0 < blen (proof x).

Lemma lpRemove_decode_Ok p x : decodeTLpRemovePayload p = Ok x ↔ p = layout x ∧ decodable x.
Proof.
  unfold decodeTLpRemovePayload. rewrite run_Ok. unfold layout, decodable, sized, amounts. split.
  - decode_fwd.
  - destruct x. cbn. intros (-> & (?&?&?&?&?&?&?&?&?&?&?&?) & ? & ? & (?&?&?) & ?). decode_bwd.
Qed.

Lemma lpRemove_decode_total p : total (decodeTLpRemovePayload p).
Proof. unfold decodeTLpRemovePayload. safe_run. Qed.
End with_points.

Lemma lpRemove_encode_Ok x p : encodeLpRemove x = Ok p ↔ p = layout x ∧ sized x ∧ amounts x.
Proof.
  unfold encodeLpRemove, layout, sized, amounts. split.
  - encode_fwd.
  - intros (-> & (?&?&?&?&?&?&?&?&?&?&?&?) & ? & ? & ?). encode_bwd.
Qed.
End LpRemove.

(** ** Single-pool swap *)
Module SwapVar.
Record t := Mk { poolId : bytes; direction : Z; R_A_pre : Z; R_B_pre : Z; deltaIn : Z; deltaInMin : Z;
                 deltaInMax : Z; deltaOut : Z; minOut : Z; tipAmount : Z; tipAsset : Z; expiryHeight : Z;
                 traderPubkey : bytes; cInSecp : bytes; cChangeOrSentinel : bytes; cReceiptSecp : bytes;
                 rReceipt : bytes; rangeProof : bytes; kernelSig : bytes; intentSig : bytes }.
Definition layout (x : t) : bytes :=
  concatBytes [u8b T_SWAP_VAR; poolId x; u8b (direction x); u64_halves (R_A_pre x); u64_halves (R_B_pre x);
               u64_halves (deltaIn x); u64_halves (deltaInMin x); u64_halves (deltaInMax x);
               u64_halves (deltaOut x); u64_halves (minOut x); u64_halves (tipAmount x);
               u8b (tipAsset x); le 4 (expiryHeight x); traderPubkey x; cInSecp x; cChangeOrSentinel x;
               cReceiptSecp x; rReceipt x; le 2 (blen (rangeProof x)); rangeProof x; kernelSig x; intentSig x].
Definition sized (x : t) : Prop :=
  blen (poolId x) = 32 ∧ (direction x = 0 ∨ direction x = 1) ∧ (tipAsset x = 0 ∨ tipAsset x = 1) ∧
  blen (traderPubkey x) = 33 ∧ blen (cInSecp x) = 33 ∧ blen (cChangeOrSentinel x) = 33 ∧
  blen (cReceiptSecp x) = 33 ∧ blen (rReceipt x) = 32 ∧ 0 < blen (rangeProof x) < 65536 ∧
  blen (kernelSig x) = 64 ∧ blen (intentSig x) = 64.
Definition amounts (x : t) : Prop :=
  0 <= R_A_pre x < 2 ^ 64 ∧ 0 <= R_B_pre x < 2 ^ 64 ∧ 0 <= deltaIn x < 2 ^ 64 ∧
  0 <= deltaInMin x < 2 ^ 64 ∧ 0 <= deltaInMax x < 2 ^ 64 ∧ 0 <= deltaOut x < 2 ^ 64 ∧
  0 <= minOut x < 2 ^ 64 ∧ 0 <= tipAmount x < 2 ^ 64.

Definition encodeTSwapVarPayload (x : t) : res bytes :=
  throw_if (negb (blen (poolId x) =? 32)) "pool_id 32 bytes";;
  throw_if (negb (direction x =? 0) && negb (direction x =? 1)) "direction must be 0|1";;
  throw_if (negb (tipAsset x =? 0) && negb (tipAsset x =? 1)) "tip_asset must be 0|1";;
  throw_if (negb (blen (traderPubkey x) =? 33)) "trader_pubkey 33 bytes";;
  throw_if (negb (blen (cInSecp x) =? 33)) "c_in_secp 33 bytes";;
  throw_if (negb (blen (cChangeOrSentinel x) =? 33)) "c_change_or_sentinel 33 bytes";;
  throw_if (negb (blen (cReceiptSecp x) =? 33)) "c_receipt_secp 33 bytes";;
  throw_if (negb (blen (rReceipt x) =? 32)) "r_receipt 32 bytes";;
  throw_if ((blen (rangeProof x) =? 0) || (blen (rangeProof x) >? 0xffff)) "range_proof len 1..65535";;
  throw_if (negb (blen (kernelSig x) =? 64)) "kernel_sig 64 bytes";;
  throw_if (negb (blen (intentSig x) =? 64)) "intent_sig 64 bytes";;
  concatParts [mret (u8b T_SWAP_VAR); mret (poolId x); mret (u8b (direction x));
    u64LE (R_A_pre x); u64LE (R_B_pre x); u64LE (deltaIn x); u64LE (deltaInMin x); u64LE (deltaInMax x);
    u64LE (deltaOut x); u64LE (minOut x); u64LE (tipAmount x); mret (u8b (tipAsset x));
    mret (le 4 (expiryHeight x)); mret (traderPubkey x); mret (cInSecp x); mret (cChangeOrSentinel x);
    mret (cReceiptSecp x); mret (rReceipt x); mret (le 2 (blen (rangeProof x))); mret (rangeProof x);
    mret (kernelSig x); mret (intentSig x)].

Section with_points.
Context `{PointParser}.

(** The two decoders are one text, up to two checks on the declared amounts that only the
    dapp's has ([strict]). *)
Definition decode_with (strict : bool) (payload : bytes) : res t :=
  run (
    null_if (blen payload <? 297);;
    opcode T_SWAP_VAR;;
    poolId ← slice 32;
    direction ← u8;
    null_if (negb (direction =? 0) && negb (direction =? 1));;
    R_A_pre ← u64h;
    R_B_pre ← u64h;
    deltaIn ← u64h;
    deltaInMin ← u64h;
    deltaInMax ← u64h;
    deltaOut ← u64h;
    minOut ← u64h;
    null_if (strict && ((deltaInMin >? deltaIn) || (deltaIn >? deltaInMax)));;
    null_if (strict && (deltaOut <? minOut));;
    tipAmount ← u64h;
    tipAsset ← u8;
    null_if (negb (tipAsset =? 0) && negb (tipAsset =? 1));;
    expiryHeight ← uint 4;
    traderPubkey ← slice 33;
    null_if (negb (is_point traderPubkey));;
    cInSecp ← slice 33;
    null_if (negb (is_point cInSecp));;
    cChangeOrSentinel ← slice 33;
    null_if (negb (all_zero cChangeOrSentinel) && negb (is_point cChangeOrSentinel));;
    cReceiptSecp ← slice 33;
    null_if (negb (is_point cReceiptSecp));;
    rReceipt ← slice 32;
    room 2;;
    rpLen ← uint 2;
    null_if (rpLen =? 0);;
    room (rpLen + 64 + 64);;
    rangeProof ← slice rpLen;
    kernelSig ← slice 64;
    intentSig ← slice 64;
    ends_at 0;;
    mret (Mk poolId direction R_A_pre R_B_pre deltaIn deltaInMin deltaInMax deltaOut minOut tipAmount tipAsset
             expiryHeight traderPubkey cInSecp cChangeOrSentinel cReceiptSecp rReceipt rangeProof
             kernelSig intentSig)) payload.

Definition decodeTSwapVarPayload := decode_with true.
Definition decodeTSwapVarPayloadWorker := decode_with false.

Definition ordered (x : t) : Prop := deltaInMin x <= deltaIn x <= deltaInMax x ∧ minOut x <= deltaOut x.
Definition points_ok (x : t) : Prop :=
  is_point (traderPubkey x) = true ∧ is_point (cInSecp x) = true ∧
  point_or_zero (cChangeOrSentinel x) = true ∧ is_point (cReceiptSecp x) = true.
Definition decodable (strict : bool) (x : t) : Prop :=
  sized x ∧ amounts x ∧ points_ok x ∧ 0 <= expiryHeight x < 2 ^ 32 ∧ (strict = true → ordered x).

Lemma swapVar_decode_Ok strict p x : decode_with strict p = Ok x ↔ p = layout x ∧ decodable strict x.
Proof.
  unfold decode_with. rewrite run_Ok. unfold layout, decodable, sized, amounts, points_ok, ordered. split.
  - decode_fwd; subst; cbn [andb] in *; bool_to_prop; try lia.
  - destruct x. cbn.
    intros (-> & (?&?&?&?&?&?&?&?&?&?&?) & (?&?&?&?&?&?&?&?) & (?&?&?&?) & ? & Hs).
    eexists. flat. rd_run.
    all: first [ apply negb_false_iff; assumption | apply point_or_zero_guard; assumption
               | destruct strict; [specialize (Hs eq_refl); cbn [andb]; lia|done] | guard_solve | idtac ].
Qed.

Lemma swapVar_decode_total strict p : total (decode_with strict p).
Proof. unfold decode_with. safe_run. Qed.
End with_points.

Lemma swapVar_encode_Ok x p : encodeTSwapVarPayload x = Ok p ↔ p = layout x ∧ sized x ∧ amounts x.
Proof.
  unfold encodeTSwapVarPayload, layout, sized, amounts. split.
  - intros Henc. enc_inv Henc. parts_inv Henc. bool_to_prop. split; [layout_eq|]. repeat split; first [lia | unfold blen in *; lia].
  - intros (-> & (?&?&?&?&?&?&?&?&?&?&?) & ?&?&?&?&?&?&?&?). enc_run lia. encode_bwd.
Qed.
End SwapVar.

(** ** Multi-pool route *)
Module SwapRoute.
Definition SWAP_ROUTE_N_HOPS_MAX : Z := 4.
Abbreviation HOP_BYTES := 67.
Record hop := Hop { poolId : bytes; direction : Z; feeBps : Z; R_A_pre : Z; R_B_pre : Z;
                    deltaANetMag : Z; deltaBNetMag : Z }.
Definition hop_bytes (h : hop) : bytes :=
  concatBytes [poolId h; u8b (direction h); le 2 (feeBps h); u64_halves (R_A_pre h); u64_halves (R_B_pre h);
               u64_halves (deltaANetMag h); u64_halves (deltaBNetMag h)].
Definition hop_wf (h : hop) : Prop :=
  blen (poolId h) = 32 ∧ (direction h = 0 ∨ direction h = 1) ∧ 0 <= feeBps h <= 1000 ∧
  0 <= R_A_pre h < 2 ^ 64 ∧ 0 <= R_B_pre h < 2 ^ 64 ∧
  0 <= deltaANetMag h < 2 ^ 64 ∧ 0 <= deltaBNetMag h < 2 ^ 64.

Record t := Mk { traderInputAssetId : bytes; traderOutputAssetId : bytes; minOut : Z; expiryHeight : Z;
                 traderPubkey : bytes; hops : list hop; traderInputTxidBE : bytes; traderInputVout : Z;
                 cInSecp : bytes; cReceiptSecp : bytes; rReceipt : bytes; rangeProof : bytes;
                 kernelSig : bytes; intentSig : bytes }.
Definition layout (x : t) : bytes :=
  concatBytes [u8b T_SWAP_ROUTE; u8b (Z.of_nat (length (hops x))); traderInputAssetId x; traderOutputAssetId x;
               u64_halves (minOut x); le 4 (expiryHeight x); traderPubkey x; concat (map hop_bytes (hops x));
               traderInputTxidBE x; le 4 (traderInputVout x); cInSecp x; cReceiptSecp x; rReceipt x;
               le 2 (blen (rangeProof x)); rangeProof x; kernelSig x; intentSig x].
Definition sized (x : t) : Prop :=
  blen (traderInputAssetId x) = 32 ∧ blen (traderOutputAssetId x) = 32 ∧ blen (traderPubkey x) = 33 ∧
  2 <= Z.of_nat (length (hops x)) <= SWAP_ROUTE_N_HOPS_MAX ∧ Forall hop_wf (hops x) ∧
  blen (traderInputTxidBE x) = 32 ∧ blen (cInSecp x) = 33 ∧ blen (cReceiptSecp x) = 33 ∧
  blen (rReceipt x) = 32 ∧ 0 < blen (rangeProof x) < 65536 ∧ blen (kernelSig x) = 64 ∧
  blen (intentSig x) = 64 ∧ 0 <= minOut x < 2 ^ 64.

Definition _encodeSwapRouteHop (h : hop) : res bytes :=
  throw_if (negb (blen (poolId h) =? 32)) "hop.poolId must be 32 bytes";;
  throw_if (negb (direction h =? 0) && negb (direction h =? 1)) "hop.direction must be 0|1";;
  throw_if ((feeBps h <? 0) || (feeBps h >? 1000)) "hop.feeBps must be 0..1000";;
  concatParts [mret (poolId h); mret (u8b (direction h)); mret (le 2 (feeBps h)); u64LE (R_A_pre h);
               u64LE (R_B_pre h); u64LE (deltaANetMag h); u64LE (deltaBNetMag h)].

(** [hops.map(_encodeSwapRouteHop)], concatenated *)
Definition encode_hops (l : list hop) : res bytes := concatParts (map _encodeSwapRouteHop l).

Definition encodeTSwapRoutePayload (x : t) : res bytes :=
  throw_if ((Z.of_nat (length (hops x)) <? 2) || (Z.of_nat (length (hops x)) >? SWAP_ROUTE_N_HOPS_MAX))
    "hops length must be 2..4";;
  throw_if (negb (blen (traderInputAssetId x) =? 32)) "trader_input_asset_id 32 bytes";;
  throw_if (negb (blen (traderOutputAssetId x) =? 32)) "trader_output_asset_id 32 bytes";;
  throw_if (negb (blen (traderPubkey x) =? 33)) "trader_pubkey 33 bytes";;
  throw_if (negb (blen (traderInputTxidBE x) =? 32)) "trader_input_outpoint_txid_be 32 bytes";;
  throw_if (negb (blen (cInSecp x) =? 33)) "c_in_secp 33 bytes";;
  throw_if (negb (blen (cReceiptSecp x) =? 33)) "c_receipt_secp 33 bytes";;
  throw_if (negb (blen (rReceipt x) =? 32)) "r_receipt 32 bytes";;
  throw_if ((blen (rangeProof x) =? 0) || (blen (rangeProof x) >? 0xffff)) "range_proof len 1..65535";;
  throw_if (negb (blen (kernelSig x) =? 64)) "kernel_sig 64 bytes";;
  throw_if (negb (blen (intentSig x) =? 64)) "intent_sig 64 bytes";;
  concatParts [mret (u8b T_SWAP_ROUTE); mret (u8b (Z.land (Z.of_nat (length (hops x))) 0xff));
    mret (traderInputAssetId x); mret (traderOutputAssetId x); u64LE (minOut x); mret (le 4 (expiryHeight x));
    mret (traderPubkey x); encode_hops (hops x); mret (traderInputTxidBE x); mret (le 4 (traderInputVout x));
    mret (cInSecp x); mret (cReceiptSecp x); mret (rReceipt x); mret (le 2 (blen (rangeProof x)));
    mret (rangeProof x); mret (kernelSig x); mret (intentSig x)].

Definition read_hop : rd hop :=
  poolId ← slice 32;
  direction ← u8;
  null_if (negb (direction =? 0) && negb (direction =? 1));;
  feeBps ← uint 2;
  null_if (feeBps >? 1000);;
  R_A_pre ← u64h;
  R_B_pre ← u64h;
  deltaANetMag ← u64h;
  deltaBNetMag ← u64h;
  mret (Hop poolId direction feeBps R_A_pre R_B_pre deltaANetMag deltaBNetMag).

Lemma read_hop_Ok s h s' : read_hop s = Ok (h, s') ↔ s = hop_bytes h ++ s' ∧ hop_wf h.
Proof.
  unfold read_hop, hop_bytes, hop_wf. split.
  - intros Hdec. rd_inv Hdec. subst h. bool_to_prop. cbn. flat. rewrite <- !app_assoc, app_nil_l.
    split; [done|]. repeat split; lia.
  - destruct h. cbn. intros (-> & ?&?&?&?&?&?&?). flat. rewrite <- !app_assoc, app_nil_l.
    rd_run; guard_solve.
Qed.

Lemma blen_hop h : hop_wf h → blen (hop_bytes h) = HOP_BYTES.
Proof. intros (?&?&?&?&?&?&?). unfold hop_bytes. flat. len_lia. Qed.

Lemma blen_hops l : Forall hop_wf l → blen (concat (map hop_bytes l)) = HOP_BYTES * Z.of_nat (length l).
Proof.
  induction 1 as [|h l Hh _ IH]; [done|]. cbn [map concat]. rewrite blen_app, IH, blen_hop by done.
  cbn [length]. lia.
Qed.

Lemma read_hops_Ok n s l s' :
  repeatM n read_hop s = Ok (l, s') ↔ s = concat (map hop_bytes l) ++ s' ∧ length l = n ∧ Forall hop_wf l.
Proof. apply repeatM_Ok, read_hop_Ok. Qed.

Lemma safe_read_hops n s : HOP_BYTES * Z.of_nat n <= blen s → safe_at (repeatM n read_hop) s.
Proof.
  apply safe_repeat_fixed; [|intros s0 a s' [-> Ha%blen_hop]%read_hop_Ok; rewrite blen_app; lia|done].
  intros s0 Hs0. unfold read_hop. repeat safe_step; try len_lia.
Qed.

Lemma encode_hop_Ok h b : _encodeSwapRouteHop h = Ok b ↔ b = hop_bytes h ∧ hop_wf h.
Proof.
  unfold _encodeSwapRouteHop, hop_bytes, hop_wf. split.
  - intros Henc. enc_inv Henc. parts_inv Henc. bool_to_prop. split; [layout_eq|]. repeat split; lia.
  - intros (-> & ?&?&?&?&?&?&?). enc_run lia. encode_bwd.
Qed.

Lemma encode_hops_Ok l b : encode_hops l = Ok b ↔ b = concat (map hop_bytes l) ∧ Forall hop_wf l.
Proof.
  unfold encode_hops. revert b; induction l as [|h l IH]; intros b; cbn [map].
  - rewrite concatParts_nil. naive_solver.
  - rewrite concatParts_cons. setoid_rewrite encode_hop_Ok. setoid_rewrite IH. cbn [map concat].
    rewrite Forall_cons. split.
    + intros (x & q & [-> ?] & [-> ?] & ->). done.
    + intros (-> & ? & ?). eauto 10.
Qed.

Section with_points.
Context `{PointParser}.

(** The dapp's and the worker's decoder are the same text. *)
Definition decodeTSwapRoutePayload (payload : bytes) : res t :=
  run (
    null_if (blen payload <? 434);;
    opcode T_SWAP_ROUTE;;
    nHops ← u8;
    null_if ((nHops <? 2) || (nHops >? SWAP_ROUTE_N_HOPS_MAX));;
    traderInputAssetId ← slice 32;
    traderOutputAssetId ← slice 32;
    null_if (bool_decide (traderInputAssetId = traderOutputAssetId));;
    minOut ← u64h;
    expiryHeight ← uint 4;
    traderPubkey ← slice 33;
    null_if (negb (is_point traderPubkey));;
    room (nHops * HOP_BYTES);;
    hops ← repeatM (Z.to_nat nHops) read_hop;
    room 36;;
    traderInputTxidBE ← slice 32;
    traderInputVout ← uint 4;
    room (33 + 33 + 32 + 2);;
    cInSecp ← slice 33;
    null_if (negb (is_point cInSecp));;
    cReceiptSecp ← slice 33;
    null_if (negb (is_point cReceiptSecp));;
    rReceipt ← slice 32;
    rpLen ← uint 2;
    null_if (rpLen =? 0);;
    room (rpLen + 64 + 64);;
    rangeProof ← slice rpLen;
    kernelSig ← slice 64;
    intentSig ← slice 64;
    ends_at 0;;
    mret (Mk traderInputAssetId traderOutputAssetId minOut expiryHeight traderPubkey hops
             traderInputTxidBE traderInputVout cInSecp cReceiptSecp rReceipt rangeProof kernelSig intentSig)) payload.

Definition decodable (x : t) : Prop :=
  sized x ∧ traderInputAssetId x ≠ traderOutputAssetId x ∧ is_point (traderPubkey x) = true ∧
  is_point (cInSecp x) = true ∧ is_point (cReceiptSecp x) = true ∧
  0 <= expiryHeight x < 2 ^ 32 ∧ 0 <= traderInputVout x < 2 ^ 32.
End with_points.

Ltac rd_inv_hook H ::=
  lazymatch type of H with
  | repeatM _ read_hop _ = Ok _ =>
      let Hn := fresh "Hn" in let Hwf := fresh "Hwf" in
      apply read_hops_Ok in H as (-> & Hn & Hwf); pose proof (blen_hops _ Hwf)
  | _ => idtac
  end.
Ltac rd_step_hook ::=
  lazymatch goal with
  | |- repeatM _ read_hop _ = Ok _ => apply read_hops_Ok; split; [reflexivity|]
  | _ => idtac
  end.
Ltac safe_hook ::= apply safe_read_hops.

Section codec.
Context `{PointParser}.

Lemma swapRoute_decode_Ok p x : decodeTSwapRoutePayload p = Ok x ↔ p = layout x ∧ decodable x.
Proof.
  unfold decodeTSwapRoutePayload. rewrite run_Ok. unfold layout, decodable, sized. split.
  - intros [s Hdec]. rd_inv Hdec. subst. bool_to_prop. cbn. rd_close. flat. rewrite ?app_nil_r in *.
    match goal with Hn : length _ = Z.to_nat ?n |- _ =>
      assert (Z.of_nat (Z.to_nat n) = n) as Hnn by lia; rewrite Hn, Hnn end.
    repeat split; try lia; try done; unfold blen in *; lia.
  - destruct x. cbn. intros (-> & (?&?&?&?&Hh&?&?&?&?&?&?&?&?) & ? & ? & ? & ? & ? & ?).
    pose proof (blen_hops _ Hh).
    eexists. flat. rd_run.
    all: first [ apply negb_false_iff; assumption | apply bool_decide_eq_false_2; done
               | (rewrite Nat2Z.id; done) | (unfold SWAP_ROUTE_N_HOPS_MAX in *; guard_solve) | idtac ].
Qed.

Lemma swapRoute_decode_total p : total (decodeTSwapRoutePayload p).
Proof. unfold decodeTSwapRoutePayload. safe_run. Qed.
End codec.

Ltac parts_hook ::= apply encode_hops_Ok; split; [reflexivity|].

Lemma swapRoute_encode_Ok x p : encodeTSwapRoutePayload x = Ok p ↔ p = layout x ∧ sized x.
Proof.
  unfold encodeTSwapRoutePayload, layout, sized, SWAP_ROUTE_N_HOPS_MAX. split.
  - intros Henc. enc_inv Henc. parts_inv Henc. bool_to_prop.
    match goal with Hh : encode_hops _ = Ok _ |- _ => apply encode_hops_Ok in Hh as [-> Hh] end.
    split; [rewrite land_ff by lia; layout_eq|]. repeat split; first [done | lia | unfold blen in *; lia].
  - intros (-> & ?&?&?&?&?&?&?&?&?&?&?&?&?). enc_run lia. rewrite land_ff by lia.
    parts_run; done || lia.
Qed.
End SwapRoute.

(** ** Adding liquidity, and creating a pool (variant 1) *)
Module LpAdd.
(** The three strings ([vkCid], [ceremonyCid], [poolMetaUri]) are kept as their UTF-8 bytes:
    both sides convert with [TextEncoder] / [TextDecoder] at the edge. *)
Record init := Init { feeBps : Z; vkCid : bytes; ceremonyCid : bytes; arbiterThresholdM : Z;
                      arbiterPubkeys : list bytes; launcherSigs : list bytes; protocolFeeAddress : bytes;
                      protocolFeeBps : Z; poolMetaUri : bytes; poolCapabilityFlags : Z }.
Record t := Mk { assetA : bytes; assetB : bytes; deltaA : Z; deltaB : Z; shareAmount : Z;
                 shareCSecp : bytes; shareCBJJ : bytes; shareXcurveSigma : bytes;
                 kernelSigA : bytes; kernelSigB : bytes; shareR : bytes; pool_init : option init;
                 expiryHeight : Z; refundABlinding : bytes; refundBBlinding : bytes }.
Definition variant (x : t) : Z := if pool_init x is Some _ then 1 else 0.

Definition init_bytes (i : init) : bytes :=
  concatBytes [le 2 (feeBps i); u8b (blen (vkCid i)); vkCid i; u8b (blen (ceremonyCid i)); ceremonyCid i;
               u8b (Z.of_nat (length (arbiterPubkeys i))); u8b (arbiterThresholdM i);
               concat (arbiterPubkeys i); u8b (Z.of_nat (length (launcherSigs i))); concat (launcherSigs i);
               protocolFeeAddress i; le 2 (protocolFeeBps i); u8b (blen (poolMetaUri i)); poolMetaUri i;
               u8b (poolCapabilityFlags i)].
Definition init_bytes_opt (o : option init) : bytes := match o with Some i => init_bytes i | None => [] end.
Definition layout (x : t) : bytes :=
  concatBytes [u8b T_LP_ADD; u8b (variant x); assetA x; assetB x; u64_halves (deltaA x); u64_halves (deltaB x);
               u64_halves (shareAmount x); shareCSecp x; shareCBJJ x; shareXcurveSigma x; kernelSigA x;
               kernelSigB x; shareR x; init_bytes_opt (pool_init x); le 4 (expiryHeight x);
               refundABlinding x; refundBBlinding x].

(** What the encoder demands of a pool initialisation. *)
Definition init_sized (i : init) : Prop :=
  0 <= feeBps i <= 1000 ∧ 1 <= blen (vkCid i) <= 64 ∧ 1 <= blen (ceremonyCid i) <= 64 ∧
  Z.of_nat (length (arbiterPubkeys i)) <= 16 ∧
  (length (arbiterPubkeys i) = 0%nat → arbiterThresholdM i = 0) ∧
  (length (arbiterPubkeys i) ≠ 0%nat → 1 <= arbiterThresholdM i <= Z.of_nat (length (arbiterPubkeys i))) ∧
  Forall (λ b, blen b = 33) (arbiterPubkeys i) ∧
  Z.of_nat (length (launcherSigs i)) <= 2 ∧ Forall (λ b, blen b = 64) (launcherSigs i) ∧
  blen (protocolFeeAddress i) = 33 ∧ 0 <= protocolFeeBps i <= 1000 ∧
  (all_zero (protocolFeeAddress i) = true ↔ protocolFeeBps i = 0) ∧
  blen (poolMetaUri i) <= 255.
Definition sized (x : t) : Prop :=
  blen (assetA x) = 32 ∧ blen (assetB x) = 32 ∧ blen (shareCSecp x) = 33 ∧ blen (shareCBJJ x) = 32 ∧
  blen (shareXcurveSigma x) = XCURVE_PROOF_LEN ∧ blen (kernelSigA x) = 64 ∧ blen (kernelSigB x) = 64 ∧
  blen (shareR x) = 32 ∧ blen (refundABlinding x) = 32 ∧ blen (refundBBlinding x) = 32.
Definition amounts (x : t) : Prop :=
  0 <= deltaA x < 2 ^ 64 ∧ 0 <= deltaB x < 2 ^ 64 ∧ 0 <= shareAmount x < 2 ^ 64.

Definition asBytes_all (l : list bytes) (n : Z) (name : string) : res bytes :=
  concatParts (map (λ b, asBytes b n name) l).

Lemma asBytes_all_Ok l n name r :
  asBytes_all l n name = Ok r ↔ r = concat l ∧ Forall (λ b, blen b = n) l.
Proof.
  unfold asBytes_all. revert r; induction l as [|b l IH]; intros r; cbn [map].
  - rewrite concatParts_nil. naive_solver.
  - rewrite concatParts_cons. setoid_rewrite asBytes_Ok. setoid_rewrite IH. cbn [concat].
    rewrite Forall_cons. split.
    + intros (x & q & [? ->] & [-> ?] & ->). done.
    + intros (-> & ? & ?). eauto 10.
Qed.

(** [if (c) throw new Error(msg); parts.push(b);] *)
Definition part_if (c : bool) (msg : string) (b : bytes) : res bytes := throw_if c msg;; mret b.

Definition encode_init (o : option init) : res bytes :=
  match o with
  | None => mret []
  | Some i =>
      let n := Z.of_nat (length (arbiterPubkeys i)) in
      concatParts [
        part_if ((feeBps i <? 0) || (feeBps i >? 1000)) "feeBps must be 0..1000" (le 2 (feeBps i));
        part_if ((blen (vkCid i) <? 1) || (blen (vkCid i) >? 64)) "vkCid length 1..64 bytes" (u8b (blen (vkCid i)));
        mret (vkCid i);
        part_if ((blen (ceremonyCid i) <? 1) || (blen (ceremonyCid i) >? 64)) "ceremonyCid length 1..64 bytes"
          (u8b (blen (ceremonyCid i)));
        mret (ceremonyCid i);
        part_if (n >? 16) "arbiterPubkeys count 0..16" [];
        part_if ((n =? 0) && negb (arbiterThresholdM i =? 0))
          "arbiterThresholdM must be 0 when no arbiter pubkeys pinned" (u8b n);
        part_if ((n >? 0) && ((arbiterThresholdM i <? 1) || (arbiterThresholdM i >? n)))
          "arbiterThresholdM must be 1..n" (u8b (arbiterThresholdM i));
        asBytes_all (arbiterPubkeys i) 33 "arbiterPubkey must be 33 bytes";
        part_if (Z.of_nat (length (launcherSigs i)) >? 2) "launcherSigs count 0..2"
          (u8b (Z.of_nat (length (launcherSigs i))));
        asBytes_all (launcherSigs i) 64 "launcherSig must be 64 bytes";
        asBytes (protocolFeeAddress i) 33 "protocolFeeAddress must be 33 bytes";
        part_if ((protocolFeeBps i <? 0) || (protocolFeeBps i >? 1000)) "protocolFeeBps must be 0..1000" [];
        part_if ((protocolFeeBps i >? 0) && all_zero (protocolFeeAddress i))
          "protocolFeeBps > 0 requires non-zero protocolFeeAddress" [];
        part_if (negb (all_zero (protocolFeeAddress i)) && (protocolFeeBps i =? 0))
          "non-zero protocolFeeAddress requires protocolFeeBps > 0" (le 2 (protocolFeeBps i));
        part_if (blen (poolMetaUri i) >? 255) "poolMetaUri length must be 0..255 bytes" (u8b (blen (poolMetaUri i)));
        mret (poolMetaUri i);
        part_if (negb (poolCapabilityFlags i =? 0)) "poolCapabilityFlags must be 0x00 for V1 pools"
          (u8b (poolCapabilityFlags i))]
  end.

Definition encodeLpAdd (x : t) : res bytes :=
  concatParts [mret (u8b T_LP_ADD); mret (u8b (variant x)); asBytes (assetA x) 32 "assetA must be 32 bytes";
    asBytes (assetB x) 32 "assetB must be 32 bytes"; u64LE (deltaA x); u64LE (deltaB x); u64LE (shareAmount x);
    asBytes (shareCSecp x) 33 "shareCSecp must be 33 bytes"; asBytes (shareCBJJ x) 32 "shareCBJJ must be 32 bytes";
    asBytes (shareXcurveSigma x) XCURVE_PROOF_LEN "shareXcurveSigma must be 169 bytes";
    asBytes (kernelSigA x) 64 "kernelSigA must be 64 bytes"; asBytes (kernelSigB x) 64 "kernelSigB must be 64 bytes";
    asBytes (shareR x) 32 "shareR must be 32 bytes"; encode_init (pool_init x); mret (le 4 (expiryHeight x));
    asBytes (refundABlinding x) 32 "refundABlinding must be 32 bytes";
    asBytes (refundBBlinding x) 32 "refundBBlinding must be 32 bytes"].

(** [payload[p]] with no check that [p] is in range: past the end it is [undefined], every
    later offset is [NaN], every later bound check is false, and the decoder ends in
    [null] when the empty protocol-fee address fails to parse as a point. *)
Definition u8_or_null : rd Z := λ s,
  match s with [] => Null | x :: s' => Ok (byteZ x, s') end.

Section with_points.
Context `{PointParser}.

Definition read_init : rd init :=
  room 2;;
  feeBps ← uint 2;
  null_if (feeBps >? 1000);;
  vkLen ← u8_or_null;
  null_if ((vkLen <? 1) || (vkLen >? 64));;
  room vkLen;;
  vkCid ← slice vkLen;
  cerLen ← u8_or_null;
  null_if ((cerLen <? 1) || (cerLen >? 64));;
  room cerLen;;
  ceremonyCid ← slice cerLen;
  room 2;;
  arbCount ← u8;
  null_if (arbCount >? 16);;
  arbM ← u8;
  null_if ((arbCount =? 0) && negb (arbM =? 0));;
  null_if ((arbCount >? 0) && ((arbM <? 1) || (arbM >? arbCount)));;
  room (arbCount * 33);;
  arbiterPubkeys ← repeatM (Z.to_nat arbCount) (slice 33);
  null_if (negb (forallb is_point arbiterPubkeys));;
  room 1;;
  lsigCount ← u8;
  null_if (lsigCount >? 2);;
  room (lsigCount * 64);;
  launcherSigs ← repeatM (Z.to_nat lsigCount) (slice 64);
  room 33;;
  protocolFeeAddress ← slice 33;
  null_if (negb (all_zero protocolFeeAddress) && negb (is_point protocolFeeAddress));;
  room 2;;
  protocolFeeBps ← uint 2;
  null_if (protocolFeeBps >? 1000);;
  null_if ((protocolFeeBps >? 0) && all_zero protocolFeeAddress);;
  null_if (negb (all_zero protocolFeeAddress) && (protocolFeeBps =? 0));;
  room 1;;
  metaLen ← u8;
  room metaLen;;
  poolMetaUri ← slice metaLen;
  room 1;;
  poolCapabilityFlags ← u8;
  null_if (negb (Z.land poolCapabilityFlags 0x04 =? 0));;
  mret (Init feeBps vkCid ceremonyCid arbM arbiterPubkeys launcherSigs protocolFeeAddress protocolFeeBps
             poolMetaUri poolCapabilityFlags).

Definition read_init_opt (variant : Z) : rd (option init) :=
  if variant =? 1 then i ← read_init; mret (Some i) else mret None.

Definition decodeTLpAddPayload (payload : bytes) : res t :=
  run (
    opcode T_LP_ADD;;
    null_if (blen payload <? 1 + 1 + 32 + 32 + 8 + 8 + 8 + 33 + 32 + XCURVE_PROOF_LEN + 64 + 64 + 32);;
    variant ← u8;
    null_if (negb (variant =? 0) && negb (variant =? 1));;
    assetA ← slice 32;
    assetB ← slice 32;
    deltaA ← u64h;
    deltaB ← u64h;
    shareAmount ← u64h;
    shareCSecp ← slice 33;
    null_if (negb (is_point shareCSecp));;
    shareCBJJ ← slice 32;
    shareXcurveSigma ← slice XCURVE_PROOF_LEN;
    kernelSigA ← slice 64;
    kernelSigB ← slice 64;
    shareR ← slice 32;
    pool_init ← read_init_opt variant;
    room (4 + 32 + 32);;
    expiryHeight ← uint 4;
    refundABlinding ← slice 32;
    refundBBlinding ← slice 32;
    ends_at 0;;
    mret (Mk assetA assetB deltaA deltaB shareAmount shareCSecp shareCBJJ shareXcurveSigma
             kernelSigA kernelSigB shareR pool_init expiryHeight refundABlinding refundBBlinding)) payload.

Definition init_ok (i : init) : Prop :=
  init_sized i ∧ Forall (λ b, is_point b = true) (arbiterPubkeys i) ∧
  point_or_zero (protocolFeeAddress i) = true ∧
  0 <= poolCapabilityFlags i < 256 ∧ Z.land (poolCapabilityFlags i) 0x04 = 0.
Definition decodable (x : t) : Prop :=
  sized x ∧ amounts x ∧ is_point (shareCSecp x) = true ∧ 0 <= expiryHeight x < 2 ^ 32 ∧
  match pool_init x with Some i => init_ok i | None => True end.
End with_points.

Lemma u8_or_null_Ok s v s' : u8_or_null s = Ok (v, s') ↔ s = u8b v ++ s' ∧ 0 <= v < 256.
Proof.
  unfold u8_or_null. destruct s as [|x s]; [split; [done|by intros [? _]]|]. rewrite <- (u8_Ok (x :: s)).
  unfold u8. done.
Qed.

Lemma repeat_slice_Ok k n s l s' :
  0 <= k → repeatM n (slice k) s = Ok (l, s') ↔ s = concat l ++ s' ∧ length l = n ∧ Forall (λ b, blen b = k) l.
Proof.
  intros Hk. rewrite <- (map_id l) at 2. apply (repeatM_Ok (slice k) (λ b, b) (λ b, blen b = k)).
  intros. by apply slice_Ok.
Qed.

Lemma blen_concat k l : Forall (λ b, blen b = k) l → blen (concat l) = k * Z.of_nat (length l).
Proof.
  induction 1 as [|b l Hb _ IH]; [unfold blen; cbn; lia|]. cbn [concat]. rewrite blen_app, IH, Hb.
  cbn [length]. lia.
Qed.

Lemma forallb_Forall_true {A} (f : A → bool) l : forallb f l = true ↔ Forall (λ b, f b = true) l.
Proof. rewrite forallb_forall, Forall_forall. by setoid_rewrite list_elem_of_In. Qed.

Ltac rd_inv_hook H ::=
  lazymatch type of H with
  | repeatM _ (slice _) _ = Ok _ =>
      let Hn := fresh "Hn" in let Hwf := fresh "Hwf" in
      apply repeat_slice_Ok in H as (-> & Hn & Hwf); [pose proof (blen_concat _ _ Hwf)|done]
  | u8_or_null _ = Ok _ => apply u8_or_null_Ok in H as [-> H]
  | _ => idtac
  end.
Ltac rd_step_hook ::=
  lazymatch goal with
  | |- repeatM _ (slice _) _ = Ok _ => apply repeat_slice_Ok; [done|split; [reflexivity|]]
  | |- u8_or_null _ = Ok _ => apply u8_or_null_Ok; split; [reflexivity|]
  | _ => idtac
  end.

Section codec.
Context `{PointParser}.

(** The two checks that tie the fee address to the fee rate. *)
Lemma fee_address_guards a bps :
  0 <= bps → (bps >? 0) && all_zero a = false → negb (all_zero a) && (bps =? 0) = false →
  all_zero a = true ↔ bps = 0.
Proof. intros. destruct (all_zero a); cbn [andb negb] in *; lia. Qed.

Lemma read_init_Ok s i s' : read_init s = Ok (i, s') ↔ s = init_bytes i ++ s' ∧ init_ok i.
Proof.
  unfold read_init, init_bytes, init_ok, init_sized. split.
  - intros Hi. rd_inv Hi. subst i. bool_to_prop. cbn. flat. rewrite <- !app_assoc, app_nil_l.
    match goal with Hn : length _ = Z.to_nat ?n, Hn0 : length _ = Z.to_nat ?m |- _ =>
      assert (n = Z.of_nat (Z.to_nat n)) as -> by lia; assert (m = Z.of_nat (Z.to_nat m)) as -> by lia;
      rewrite <- Hn, <- Hn0 in * end.
    subst. split; [done|]. repeat match goal with
      | H : forallb _ _ = true |- _ => apply forallb_Forall_true in H
      | H : negb (all_zero _) && negb (is_point _) = false |- _ => apply point_or_zero_guard in H
      end.
    repeat (split; try done); try lia; apply fee_address_guards; done || lia.
  - destruct i as [f vk cer m arbs sigs addr bps meta cap]. cbn.
    intros (-> & (?&?&?&?&Hm0&Hm1&Ha&?&Hs&?&?&Hz&?) & Hp & Hpz & ? & ?).
    pose proof (blen_concat _ _ Ha). pose proof (blen_concat _ _ Hs). pose proof (blen_nonneg meta).
    flat. rewrite <- !app_assoc, app_nil_l. rd_run.
    all: rewrite ?Nat2Z.id.
    all: first [ done | apply point_or_zero_guard; assumption
               | apply negb_false_iff, forallb_Forall_true; done
               | apply negb_false_iff, Z.eqb_eq; done
               | guard_solve | idtac ].
    all: fold (all_zero addr) in Hz; destruct (all_zero addr); cbn [andb negb]; lia.
Qed.

Lemma read_init_opt_Ok v s o s' :
  v = 0 ∨ v = 1 →
  read_init_opt v s = Ok (o, s') ↔
  s = init_bytes_opt o ++ s' ∧ v = (if o is Some _ then 1 else 0) ∧
  match o with Some i => init_ok i | None => True end.
Proof.
  intros [-> | ->]; unfold read_init_opt; cbn [Z.eqb Pos.eqb].
  - rewrite rd_ret_Ok. destruct o; naive_solver.
  - rewrite rd_bind_Ok. setoid_rewrite read_init_Ok. split.
    + intros (i & s1 & [-> Hi] & [<- ->]%rd_ret_Ok). done.
    + destruct o as [i|]; [|by intros (_ & ? & _)]. intros (-> & _ & Hi). exists i, s'.
      split; [done|]. by apply rd_ret_Ok.
Qed.
End codec.

Ltac rd_inv_hook H ::=
  lazymatch type of H with
  | read_init_opt _ _ = Ok _ =>
      let Hv := fresh "Hv" in let Hi := fresh "Hi" in
      apply read_init_opt_Ok in H as (-> & Hv & Hi); [|lia]
  | _ => idtac
  end.
Ltac rd_step_hook ::=
  lazymatch goal with
  | |- read_init_opt _ _ = Ok _ => apply read_init_opt_Ok; [|split; [reflexivity|]]
  | _ => idtac
  end.

Section codec.
Context `{PointParser}.

Lemma lpAdd_decode_Ok p x : decodeTLpAddPayload p = Ok x ↔ p = layout x ∧ decodable x.
Proof.
  unfold decodeTLpAddPayload. rewrite run_Ok. unfold layout, decodable, sized, amounts, variant. split.
  - intros [s Hdec]. rd_inv Hdec. subst x. cbn. bool_to_prop. flat. rd_close. subst.
    rewrite ?app_nil_r in *. repeat split; try lia; done.
  - destruct x as [? ? ? ? ? ? ? ? ? ? ? o ? ? ?]. cbn.
    intros (-> & (?&?&?&?&?&?&?&?&?&?) & (?&?&?) & ? & ? & Hi). pose proof (blen_nonneg (init_bytes_opt o)).
    eexists. flat. rd_run.
    all: first [ apply negb_false_iff; assumption | by destruct o | (destruct o; lia) | guard_solve | idtac ].
Qed.

Lemma safe_u8_or_null s : safe_at u8_or_null s.
Proof. unfold safe_at, u8_or_null, total. destruct s; eauto. Qed.
End codec.
Ltac safe_hook ::= first [apply safe_u8_or_null | apply safe_repeat_slice; [done|]].
Ltac rd_inv_hook H ::=
  lazymatch type of H with
  | u8_or_null _ = Ok _ => apply u8_or_null_Ok in H as [-> H]
  | repeatM _ (slice _) _ = Ok _ =>
      let Hn := fresh "Hn" in let Hwf := fresh "Hwf" in
      apply repeat_slice_Ok in H as (-> & Hn & Hwf); [pose proof (blen_concat _ _ Hwf)|done]
  | _ => idtac
  end.

Section totality.
Context `{PointParser}.

Lemma safe_read_init s : safe_at read_init s.
Proof. unfold read_init. repeat safe_step; len_lia. Qed.

Lemma safe_read_init_opt v s : safe_at (read_init_opt v) s.
Proof.
  unfold read_init_opt. apply safe_if; intros; [|apply safe_ret].
  apply safe_bind; [apply safe_read_init|intros; apply safe_ret].
Qed.
End totality.
Ltac safe_hook ::= apply safe_read_init_opt.

Lemma lpAdd_decode_total `{PointParser} p : total (decodeTLpAddPayload p).
Proof. unfold decodeTLpAddPayload. safe_run. Qed.

Lemma part_if_Ok c msg b r : part_if c msg b = Ok r ↔ c = false ∧ r = b.
Proof. unfold part_if. destruct c; cbn; unfold mret, res_ret; naive_solver. Qed.

Ltac init_inv H :=
  repeat match type of H with
  | concatParts (_ :: _) = Ok _ =>
      let b := fresh "b" in let q := fresh "q" in let H1 := fresh "Hpart" in
      apply concatParts_cons in H as (b & q & H1 & H & ->);
      first [ apply part_if_Ok in H1 as [H1 ->] | apply asBytes_all_Ok in H1 as [-> H1]
            | apply asBytes_Ok in H1 as [H1 ->] | injection H1 as <- ]
  | concatParts [] = Ok _ => apply concatParts_nil in H; subst
  end.
Ltac parts_hook ::=
  first [ apply part_if_Ok; split; [|reflexivity] | apply asBytes_all_Ok; split; [reflexivity|]
        | eassumption ].

Lemma encode_init_Ok o r :
  encode_init o = Ok r ↔ r = init_bytes_opt o ∧
  match o with Some i => init_sized i ∧ poolCapabilityFlags i = 0 | None => True end.
Proof.
  destruct o as [i|]; cbn [encode_init init_bytes_opt]; [|unfold mret, res_ret; naive_solver].
  unfold init_bytes, init_sized. split.
  - intros Henc. init_inv Henc. split; [layout_eq|]. bool_to_prop.
    repeat (split; try done); try lia; apply fee_address_guards; done || lia.
  - intros (-> & (?&?&?&?&Hm0&Hm1&?&?&?&?&?&Hz&?) & ?). parts_run; try done.
    all: try (destruct (all_zero _); cbn [andb negb]; lia).
    all: bool_goal; lia.
Qed.

Lemma lpAdd_encode_Ok x p :
  encodeLpAdd x = Ok p ↔ p = layout x ∧ sized x ∧ amounts x ∧
  match pool_init x with Some i => init_sized i ∧ poolCapabilityFlags i = 0 | None => True end.
Proof.
  unfold encodeLpAdd, layout, sized, amounts. split.
  - intros Henc. parts_inv Henc.
    match goal with Hi : encode_init _ = Ok _ |- _ => apply encode_init_Ok in Hi as [-> Hi] end.
    split; [layout_eq|]. repeat split; first [done|lia].
  - intros (-> & (?&?&?&?&?&?&?&?&?&?) & (?&?&?) & Hi).
    assert (He : encode_init (pool_init x) = Ok (init_bytes_opt (pool_init x))) by (by apply encode_init_Ok).
    parts_run; first [done|lia].
Qed.
End LpAdd.
