(* ===== verification/CodecBatch.v ===== *)
(** * The batched swap's envelope

    [decodeTSwapBatchPayload] of [worker/src/index.js].  The decoder runs in a [try] that
    answers [null], and checks the length only at the end, so a read past the end is a
    payload refused.  It takes from the caller whether the pool has arbiters, which the
    payload does not say. *)
From S2P Require Import Prelude Bytes Crypto Text CodecPool CodecAmm.

Definition T_SWAP_BATCH : Z := 0x2F.

(** [try { ... } catch { continue; }] or [catch { return null; }] *)
Definition tryc {A} (r : res A) : res A := match r with Ok a => Ok a | _ => Null end.
Lemma tryc_Ok {A} (r : res A) a : tryc r = Ok a ↔ r = Ok a.
Proof. destruct r; cbn; split; congruence. Qed.

Module SwapBatch.
Definition SWAP_BATCH_N_MIN : Z := 1.
Definition SWAP_BATCH_N_MAX : Z := 16.

Record intent := Intent { direction : Z; traderPubkey : bytes; cInSecp : bytes; cInBjj : bytes; inXcurveSigma : bytes;
    minOut : Z; tipAmount : Z; expiryHeight : Z; intentSig : bytes }.
Record receipt := Receipt { cOutSecp : bytes; cOutBjj : bytes; outXcurveSigma : bytes; rangeProof : bytes }.
Record arbiter := Arbiter { expectedHeight : Z; qualifyingSetHash : bytes; signerIndices : list Z; sigs : bytes }.
(** [nIntents] is the length of [intents]; [settlerMetaUri] is kept as its UTF-8 bytes. *)
Record t := Mk { assetA : bytes; assetB : bytes; deltaANetSigned : Z; deltaBNetSigned : Z; rNetA : bytes; rNetB : bytes;
    feeBpsAtSettle : Z; tipAAmount : Z; tipBAmount : Z; tipACSecp : bytes; tipBCSecp : bytes; rTipA : bytes; rTipB : bytes;
    arbiterBlock : option arbiter; intents : list intent; receipts : list receipt; proof : bytes; settlerMetaUri : bytes }.
Definition nIntents (x : t) : Z := Z.of_nat (length (intents x)).
(** [arbiterBlock.m] *)
Definition arbiter_m (a : arbiter) : Z := Z.of_nat (length (signerIndices a)).

(** [if (c) throw new Error(msg);] *)
Definition rd_throw_if (b : bool) (msg : string) : rd unit := λ s, if b then Throw msg else Ok (tt, s).

Definition _signedU64Decode : rd Z :=
  sign ← u8;
  rd_throw_if (negb (sign =? 0) && negb (sign =? 1)) "signed u64: sign byte must be 0 or 1";;
  mag ← uint 8;
  mret (if sign =? 0 then mag else - mag).

(** the signer indices, each above the one before *)
Fixpoint read_indices (n : nat) (prev : option Z) : rd (list Z) :=
  match n with
  | O => mret []
  | S n =>
      idx ← u8;
      null_if (idx >? 15);;
      null_if (match prev with Some p => idx <=? p | None => false end);;
      l ← read_indices n (Some idx);
      mret (idx :: l)
  end.

Definition read_arbiter : rd arbiter :=
  expectedHeight ← uint 4;
  qualifyingSetHash ← slice 32;
  m ← u8;
  null_if ((m <? 1) || (m >? 16));;
  room (m + 64 * m);;
  signerIndices ← read_indices (Z.to_nat m) None;
  sigs ← slice (64 * m);
  mret (Arbiter expectedHeight qualifyingSetHash signerIndices sigs).

Section with_points.
Context `{PointParser}.

Definition read_intent : rd intent :=
  direction ← u8;
  null_if (negb (direction =? 0) && negb (direction =? 1));;
  traderPubkey ← slice 33;
  null_if (negb (is_point traderPubkey));;
  cInSecp ← slice 33;
  null_if (negb (is_point cInSecp));;
  cInBjj ← slice 32;
  inXcurveSigma ← slice XCURVE_PROOF_LEN;
  minOut ← u64h;
  tipAmount ← u64h;
  expiryHeight ← uint 4;
  intentSig ← slice 64;
  mret (Intent direction traderPubkey cInSecp cInBjj inXcurveSigma minOut tipAmount expiryHeight intentSig).

Definition read_receipt : rd receipt :=
  cOutSecp ← slice 33;
  null_if (negb (is_point cOutSecp));;
  cOutBjj ← slice 32;
  outXcurveSigma ← slice XCURVE_PROOF_LEN;
  room 2;;
  rangeProofLen ← uint 2;
  room rangeProofLen;;
  rangeProof ← slice rangeProofLen;
  mret (Receipt cOutSecp cOutBjj outXcurveSigma rangeProof).

Definition decodeTSwapBatchPayload (payload : bytes) (hasArbiter : bool) : res t :=
  tryc (run (
    opcode T_SWAP_BATCH;;
    assetA ← slice 32;
    assetB ← slice 32;
    nIntents ← u8;
    null_if ((nIntents <? SWAP_BATCH_N_MIN) || (nIntents >? SWAP_BATCH_N_MAX));;
    dA ← _signedU64Decode;
    dB ← _signedU64Decode;
    rNetA ← slice 32;
    rNetB ← slice 32;
    feeBpsAtSettle ← uint 2;
    null_if (feeBpsAtSettle >? 1000);;
    tipAAmount ← u64h;
    tipBAmount ← u64h;
    tipACSecp ← slice 33;
    tipBCSecp ← slice 33;
    rTipA ← slice 32;
    rTipB ← slice 32;
    arbiterBlock ← (if hasArbiter then a ← read_arbiter; mret (Some a) else mret None);
    intents ← repeatM (Z.to_nat nIntents) read_intent;
    receipts ← repeatM (Z.to_nat nIntents) read_receipt;
    room 2;;
    proofLen ← uint 2;
    room proofLen;;
    proof ← slice proofLen;
    room 1;;
    settlerLen ← u8;
    room settlerLen;;
    settlerMetaUri ← slice settlerLen;
    ends_at 0;;
    mret (Mk assetA assetB dA dB rNetA rNetB feeBpsAtSettle tipAAmount tipBAmount tipACSecp tipBCSecp rTipA rTipB
             arbiterBlock intents receipts proof settlerMetaUri)) payload).
End with_points.

(** ** What the decoder accepts *)
Lemma rd_throw_if_Ok b msg s r s' : rd_throw_if b msg s = Ok (r, s') ↔ b = false ∧ s = s'.
Proof. unfold rd_throw_if. destruct b, r; naive_solver. Qed.

(** A sign byte and a magnitude; zero has two spellings. *)
Definition sign_of (sg v : Z) : Prop := (sg = 0 ∧ 0 <= v ∨ sg = 1 ∧ v <= 0) ∧ Z.abs v < 2 ^ 64.

Lemma read_signed_Ok s v s' :
  _signedU64Decode s = Ok (v, s') ↔ ∃ sg, s = u8b sg ++ le 8 (Z.abs v) ++ s' ∧ sign_of sg v.
Proof.
  unfold _signedU64Decode, sign_of. split.
  - intros H. apply rd_bind_Ok in H as (sg & s1 & [-> Hsg]%u8_Ok & H).
    apply rd_bind_Ok in H as ([] & s2 & [Hb <-]%rd_throw_if_Ok & H).
    apply rd_bind_Ok in H as (mag & s3 & [-> Hm]%uint_Ok & H). apply rd_ret_Ok in H as [<- ->].
    change (256 ^ Z.of_nat 8) with (2 ^ 64) in Hm. bool_to_prop. exists sg.
    destruct (Z.eqb_spec sg 0); [rewrite Z.abs_eq by lia|rewrite Z.abs_opp, Z.abs_eq by lia];
      (split; [done|lia]).
  - intros (sg & -> & Hs & Ha). apply rd_bind_Ok. exists sg. eexists. split; [apply u8_Ok; split; [done|lia]|].
    apply rd_bind_Ok. exists tt. eexists. split; [apply rd_throw_if_Ok; split; [|done]; bool_goal; lia|].
    apply rd_bind_Ok. exists (Z.abs v). eexists. split; [apply uint_Ok; split; [done|change (256 ^ Z.of_nat 8) with (2 ^ 64); lia]|].
    apply rd_ret_Ok. split; [|done]. destruct (Z.eqb_spec sg 0); lia.
Qed.

Fixpoint ascending (prev : option Z) (l : list Z) : Prop :=
  match l with
  | [] => True
  | x :: l => 0 <= x <= 15 ∧ (∀ p, prev = Some p → p < x) ∧ ascending (Some x) l
  end.

Lemma read_indices_Ok n prev s l s' :
  read_indices n prev s = Ok (l, s') ↔ s = concat (map u8b l) ++ s' ∧ length l = n ∧ ascending prev l.
Proof.
  revert prev s l s'. induction n as [|n IH]; intros prev s l s'; cbn [read_indices].
  - rewrite rd_ret_Ok. split; [intros [<- ->]; done|]. intros (-> & Hl & _). by destruct l.
  - split.
    + intros H. apply rd_bind_Ok in H as (x & s1 & [-> Hx]%u8_Ok & H).
      apply rd_bind_Ok in H as ([] & s2 & [H1 ->]%null_if_Ok & H).
      apply rd_bind_Ok in H as ([] & s3 & [H2 ->]%null_if_Ok & H).
      apply rd_bind_Ok in H as (l' & s4 & (-> & Hl & Ha)%IH & H). apply rd_ret_Ok in H as [<- ->].
      cbn. rewrite <- app_assoc, Hl. split; [done|]. split; [done|]. bool_to_prop. split; [lia|]. split; [|done].
      intros p ->. bool_to_prop. lia.
    + intros (-> & Hl & Ha). destruct l as [|x l]; [done|]. cbn in Hl, Ha. destruct Ha as (Hx & Hp & Ha). cbn.
      rewrite <- app_assoc. apply rd_bind_Ok. exists x. eexists. split; [apply u8_Ok; split; [done|lia]|].
      apply rd_bind_Ok. exists tt. eexists. split; [apply null_if_Ok; split; [bool_goal; lia|done]|].
      apply rd_bind_Ok. exists tt. eexists.
      split; [apply null_if_Ok; split; [|done]; destruct prev as [p|]; [specialize (Hp p eq_refl); bool_goal; lia|done]|].
      apply rd_bind_Ok. exists l. eexists. split; [apply IH; split_and!; [done|lia|done]|]. by apply rd_ret_Ok.
Qed.

Definition arbiter_bytes (a : arbiter) : bytes :=
  le 4 (expectedHeight a) ++ qualifyingSetHash a ++ u8b (arbiter_m a) ++ concat (map u8b (signerIndices a)) ++ sigs a.
Definition arbiter_wf (a : arbiter) : Prop :=
  0 <= expectedHeight a < 2 ^ 32 ∧ blen (qualifyingSetHash a) = 32 ∧ 1 <= arbiter_m a <= 16 ∧
  ascending None (signerIndices a) ∧ blen (sigs a) = 64 * arbiter_m a.
Definition arbiter_opt_bytes (o : option arbiter) : bytes := match o with Some a => arbiter_bytes a | None => [] end.

Lemma blen_u8s l : blen (concat (map u8b l)) = Z.of_nat (length l).
Proof. induction l as [|x l IH]; [done|]. cbn [map concat length]. rewrite blen_app, IH, blen_u8b. lia. Qed.

Ltac rd_inv_hook H ::=
  lazymatch type of H with
  | read_indices _ _ _ = Ok _ =>
      let Hl := fresh "Hl" in let Ha := fresh "Ha" in apply read_indices_Ok in H as (-> & Hl & Ha)
  | _ => idtac
  end.
Ltac rd_step_hook ::=
  lazymatch goal with
  | |- read_indices _ _ _ = Ok _ => apply read_indices_Ok; split; [reflexivity|]
  | _ => idtac
  end.

Lemma read_arbiter_Ok s a s' : read_arbiter s = Ok (a, s') ↔ s = arbiter_bytes a ++ s' ∧ arbiter_wf a.
Proof.
  unfold read_arbiter, arbiter_bytes, arbiter_wf, arbiter_m. split.
  - intros Hd. rd_inv Hd. subst a. bool_to_prop. cbn. rewrite Hl, Z2Nat.id by lia.
    rewrite <- !app_assoc. split; [done|]. repeat split; try done; lia.
  - destruct a as [eh q idx sg]. cbn. intros (-> & He & Hq & Hm & Ha & Hs). rewrite <- !app_assoc.
    rd_run; try guard_solve; rewrite ?Nat2Z.id; try done.
    all: bool_goal; rewrite ?blen_app, ?blen_u8s; pose proof (blen_nonneg s'); lia.
Qed.

Definition intent_bytes (x : intent) : bytes :=
  concatBytes [u8b (direction x); traderPubkey x; cInSecp x; cInBjj x; inXcurveSigma x; u64_halves (minOut x);
    u64_halves (tipAmount x); le 4 (expiryHeight x); intentSig x].
Definition receipt_bytes (r : receipt) : bytes :=
  concatBytes [cOutSecp r; cOutBjj r; outXcurveSigma r; le 2 (blen (rangeProof r)); rangeProof r].

Section exact.
Context `{PointParser}.
Definition intent_wf (x : intent) : Prop :=
  (direction x = 0 ∨ direction x = 1) ∧ blen (traderPubkey x) = 33 ∧ is_point (traderPubkey x) = true ∧
  blen (cInSecp x) = 33 ∧ is_point (cInSecp x) = true ∧ blen (cInBjj x) = 32 ∧ blen (inXcurveSigma x) = XCURVE_PROOF_LEN ∧
  0 <= minOut x < 2 ^ 64 ∧ 0 <= tipAmount x < 2 ^ 64 ∧ 0 <= expiryHeight x < 2 ^ 32 ∧ blen (intentSig x) = 64.
Definition receipt_wf (r : receipt) : Prop :=
  blen (cOutSecp r) = 33 ∧ is_point (cOutSecp r) = true ∧ blen (cOutBjj r) = 32 ∧
  blen (outXcurveSigma r) = XCURVE_PROOF_LEN ∧ blen (rangeProof r) < 65536.

Lemma read_intent_Ok s x s' : read_intent s = Ok (x, s') ↔ s = intent_bytes x ++ s' ∧ intent_wf x.
Proof.
  unfold read_intent, intent_bytes, intent_wf. split.
  - intros Hd. rd_inv Hd. subst x. bool_to_prop. cbn. flat. rewrite <- !app_assoc, app_nil_l.
    split; [done|]. repeat split; try done; lia.
  - destruct x. cbn. intros (-> & [Hd|Hd] &?&?&?&?&?&?&?&?&?&?); subst; flat; rewrite <- !app_assoc, app_nil_l;
      rd_run; first [apply negb_false_iff; assumption | guard_solve].
Qed.

Lemma read_receipt_Ok s r s' : read_receipt s = Ok (r, s') ↔ s = receipt_bytes r ++ s' ∧ receipt_wf r.
Proof.
  unfold read_receipt, receipt_bytes, receipt_wf. split.
  - intros Hd. rd_inv Hd. subst r. bool_to_prop. cbn. flat. rewrite <- !app_assoc, app_nil_l.
    split; [|repeat split; try done; lia]. repeat f_equal. lia.
  - destruct r. cbn. intros (-> & ?&?&?&?&?). flat. rewrite <- !app_assoc, app_nil_l.
    rd_run; first [apply negb_false_iff; assumption | guard_solve].
Qed.

(** [sa] and [sb] are the sign bytes of the two net amounts. *)
Definition layout (sa sb : Z) (x : t) : bytes :=
  concatBytes [u8b T_SWAP_BATCH; assetA x; assetB x; u8b (nIntents x);
    u8b sa; le 8 (Z.abs (deltaANetSigned x)); u8b sb; le 8 (Z.abs (deltaBNetSigned x)); rNetA x; rNetB x;
    le 2 (feeBpsAtSettle x); u64_halves (tipAAmount x); u64_halves (tipBAmount x); tipACSecp x; tipBCSecp x; rTipA x; rTipB x;
    arbiter_opt_bytes (arbiterBlock x); concat (map intent_bytes (intents x)); concat (map receipt_bytes (receipts x));
    le 2 (blen (proof x)); proof x; u8b (blen (settlerMetaUri x)); settlerMetaUri x].
Definition decodable (hasArbiter : bool) (sa sb : Z) (x : t) : Prop :=
  blen (assetA x) = 32 ∧ blen (assetB x) = 32 ∧ SWAP_BATCH_N_MIN <= nIntents x <= SWAP_BATCH_N_MAX ∧
  sign_of sa (deltaANetSigned x) ∧ sign_of sb (deltaBNetSigned x) ∧ blen (rNetA x) = 32 ∧ blen (rNetB x) = 32 ∧
  0 <= feeBpsAtSettle x <= 1000 ∧ 0 <= tipAAmount x < 2 ^ 64 ∧ 0 <= tipBAmount x < 2 ^ 64 ∧
  blen (tipACSecp x) = 33 ∧ blen (tipBCSecp x) = 33 ∧ blen (rTipA x) = 32 ∧ blen (rTipB x) = 32 ∧
  (hasArbiter = true ↔ is_Some (arbiterBlock x)) ∧ (∀ a, arbiterBlock x = Some a → arbiter_wf a) ∧
  Forall intent_wf (intents x) ∧ Forall receipt_wf (receipts x) ∧ length (receipts x) = length (intents x) ∧
  blen (proof x) < 65536 ∧ blen (settlerMetaUri x) < 256.

Lemma read_arbiter_opt_Ok (b : bool) s o s' :
  (if b then a ← read_arbiter; mret (Some a) else mret None) s = Ok (o, s') ↔
  s = arbiter_opt_bytes o ++ s' ∧ (b = true ↔ is_Some o) ∧ ∀ a, o = Some a → arbiter_wf a.
Proof.
  destruct b.
  - rewrite rd_bind_Ok. split.
    + intros (a & s1 & [-> Hwf]%read_arbiter_Ok & [<- ->]%rd_ret_Ok). split; [done|]. split; [by split; [eexists|]|].
      by intros ? [= <-].
    + intros (-> & [Hs _] & Hwf). destruct (Hs eq_refl) as [a ->]. exists a, s'. rewrite read_arbiter_Ok, rd_ret_Ok. auto.
  - rewrite rd_ret_Ok. split.
    + intros [<- ->]. split; [done|]. split; [split; [done|by intros []]|done].
    + intros (-> & [_ Hs] & _). destruct o as [a|]; [discriminate Hs; by eexists|done].
Qed.

Lemma read_intents_Ok n s l s' :
  repeatM n read_intent s = Ok (l, s') ↔ s = concat (map intent_bytes l) ++ s' ∧ length l = n ∧ Forall intent_wf l.
Proof. apply repeatM_Ok, read_intent_Ok. Qed.
Lemma read_receipts_Ok n s l s' :
  repeatM n read_receipt s = Ok (l, s') ↔ s = concat (map receipt_bytes l) ++ s' ∧ length l = n ∧ Forall receipt_wf l.
Proof. apply repeatM_Ok, read_receipt_Ok. Qed.

Ltac rd_inv_hook H ::=
  lazymatch type of H with
  | _signedU64Decode _ = Ok _ =>
      let sg := fresh "sg" in let Hs := fresh "Hs" in apply read_signed_Ok in H as (sg & -> & Hs)
  | (if _ then _ else _) _ = Ok _ =>
      let Ho := fresh "Ho" in let Hw := fresh "Hw" in apply read_arbiter_opt_Ok in H as (-> & Ho & Hw)
  | repeatM _ read_intent _ = Ok _ =>
      let Hn := fresh "Hn" in let Hw := fresh "Hw" in apply read_intents_Ok in H as (-> & Hn & Hw)
  | repeatM _ read_receipt _ = Ok _ =>
      let Hn := fresh "Hn" in let Hw := fresh "Hw" in apply read_receipts_Ok in H as (-> & Hn & Hw)
  | _ => idtac
  end.
Ltac rd_step_hook ::=
  lazymatch goal with
  | |- _signedU64Decode _ = Ok _ => apply read_signed_Ok; eexists; split; [reflexivity|eassumption]
  | |- (if _ then _ else _) _ = Ok _ => apply read_arbiter_opt_Ok; split; [reflexivity|split; eassumption]
  | |- repeatM _ read_intent _ = Ok _ => apply read_intents_Ok; split; [reflexivity|]
  | |- repeatM _ read_receipt _ = Ok _ => apply read_receipts_Ok; split; [reflexivity|]
  | _ => idtac
  end.

(** The decoder accepts exactly the layout, up to the spelling of a zero amount. *)
Lemma swapBatch_decode_Ok p b x :
  decodeTSwapBatchPayload p b = Ok x ↔ ∃ sa sb, p = layout sa sb x ∧ decodable b sa sb x.
Proof.
  unfold decodeTSwapBatchPayload. rewrite tryc_Ok, run_Ok. unfold layout, decodable, nIntents, SWAP_BATCH_N_MIN, SWAP_BATCH_N_MAX. split.
  - intros [s Hdec]. rd_inv Hdec. subst. bool_to_prop. cbn [assetA assetB deltaANetSigned deltaBNetSigned rNetA rNetB feeBpsAtSettle
      tipAAmount tipBAmount tipACSecp tipBCSecp rTipA rTipB arbiterBlock intents receipts proof settlerMetaUri].
    exists sg, sg0. rewrite Hn, Z2Nat.id by lia. flat. rd_close. rewrite ?app_nil_r.
    split; [done|]. split_and!; first [assumption|lia].
  - intros (sa & sb & -> & H1). destruct x as [aA aB dA dB rA rB fb tA tB tAC tBC rtA rtB ar ins rcs pf uri].
    cbn [assetA assetB deltaANetSigned deltaBNetSigned rNetA rNetB feeBpsAtSettle tipAAmount tipBAmount tipACSecp tipBCSecp
      rTipA rTipB arbiterBlock intents receipts proof settlerMetaUri] in *.
    destruct H1 as (?&?&?&?&?&?&?&?&?&?&?&?&?&?&?&?&?&?&?&?&?). eexists. flat.
    rd_run; rewrite ?Nat2Z.id; first [guard_solve | by split].
Qed.
End exact.
Lemma swapBatch_decode_total `{PointParser} p b : total (decodeTSwapBatchPayload p b).
Proof. unfold decodeTSwapBatchPayload, total. destruct (run _ _); cbn; eauto. Qed.
End SwapBatch.
