(* ===== verification/Messages.v ===== *)
(** * Signed and hashed messages

    Every signature of the protocol signs the SHA-256 of a byte string that the signer
    and every validator build separately: the transfer kernel ([computeKernelMsg] of the
    dapp, [ammKernelMsgV1] of the worker), mint, drop and slot messages, the context
    hashes of pre-authorised bids, and the AMM's swap, liquidity and farm messages.
    For each there is the preimage and the hash; the preimages are shown to determine
    every field they bind, and their domains to separate them. *)
From S2P Require Import Prelude Bytes Crypto CodecPool CodecTransfer CodecSlots.

(** [{ txid, vout }]; the txid as the bytes of its display hex *)
Record outpoint := Outpoint { txid : bytes; vout : Z }.

(** [reverseBytes(hexToBytes(op.txid))] and [setUint32(0, op.vout >>> 0, true)] *)
Definition outpoint_bytes (op : outpoint) : bytes := rev (txid op) ++ le 4 (vout op).

Definition outpoint_wf (op : outpoint) : Prop := blen (txid op) = 32 ∧ 0 <= vout op < 2 ^ 32.

(** ** Domains *)
Definition KERNEL_DOMAIN : bytes := ascii_bytes "tacit-kernel-v1".
Definition MINT_DOMAIN : bytes := ascii_bytes "tacit-mint-v1".
Definition DROP_DOMAIN : bytes := ascii_bytes "tacit-drop-v1".
Definition DROP_RECLAIM_DOMAIN : bytes := ascii_bytes "tacit-drop-reclaim-v1".
Definition PREAUTH_BID_DOMAIN : bytes := ascii_bytes "tacit-preauth-bid-context-v1".
Definition PREAUTH_BID_VAR_DOMAIN : bytes := ascii_bytes "tacit-preauth-bid-var-context-v1".
Definition SLOT_MINT_DOMAIN : bytes := ascii_bytes "tacit-slot-mint-v1".
Definition SLOT_ROTATE_DOMAIN : bytes := ascii_bytes "tacit-slot-rotate-v1".
Definition SLOT_SPLIT_DOMAIN : bytes := ascii_bytes "tacit-slot-split-v1".
Definition SLOT_MERGE_DOMAIN : bytes := ascii_bytes "tacit-slot-merge-v1".
Definition SWAP_VAR_INTENT_DOMAIN : bytes := ascii_bytes "tacit-amm-swap-var-v1".
Definition LP_ADD_DOMAIN : bytes := ascii_bytes "tacit-amm-lp-add-v1".
Definition LP_REMOVE_DOMAIN : bytes := ascii_bytes "tacit-amm-lp-remove-v1".
Definition LP_BOND_DOMAIN : bytes := ascii_bytes "tacit-amm-lp-bond-v1".
Definition LAUNCHER_GATE_DOMAIN : bytes := ascii_bytes "tacit-amm-launcher-gate-v1".
Definition AMM_POOL_ID_DOMAIN : bytes := ascii_bytes "tacit-amm-pool-v1".
Definition AMM_LP_ASSET_DOMAIN : bytes := ascii_bytes "tacit-amm-lp-v1".

Definition INTENT_DOMAIN_BATCH : bytes := ascii_bytes "tacit-amm-intent-v1".
Definition QSET_DOMAIN : bytes := ascii_bytes "tacit-amm-qset-v1".
Definition PROTOCOL_FEE_CLAIM_DOMAIN : bytes := ascii_bytes "tacit-amm-protocol-fee-claim-v1".
Definition SWAP_ROUTE_INTENT_DOMAIN : bytes := ascii_bytes "tacit-swap-route-v1".
Definition FARM_INIT_DOMAIN : bytes := ascii_bytes "tacit-amm-farm-init-v1".
Definition FARM_BOND_DOMAIN : bytes := ascii_bytes "tacit-amm-farm-bond-v1".
Definition FARM_REFUND_DOMAIN : bytes := ascii_bytes "tacit-amm-farm-refund-v1".
Definition POOL_INIT_DOMAIN : bytes := ascii_bytes "tacit-pool-init-v1".
Definition DEPOSIT_DOMAIN : bytes := ascii_bytes "tacit-deposit-v1".
Definition domains : list bytes :=
  [KERNEL_DOMAIN; MINT_DOMAIN; DROP_DOMAIN; DROP_RECLAIM_DOMAIN; PREAUTH_BID_DOMAIN;
   PREAUTH_BID_VAR_DOMAIN; SLOT_MINT_DOMAIN; SLOT_ROTATE_DOMAIN; SLOT_SPLIT_DOMAIN;
   SLOT_MERGE_DOMAIN; SWAP_VAR_INTENT_DOMAIN; LP_ADD_DOMAIN; LP_REMOVE_DOMAIN; LP_BOND_DOMAIN;
   LAUNCHER_GATE_DOMAIN; AMM_POOL_ID_DOMAIN; AMM_LP_ASSET_DOMAIN; WITHDRAW_BIND_DOMAIN;
   CTAC_VARIANT_DOMAIN; INTENT_DOMAIN_BATCH; QSET_DOMAIN; PROTOCOL_FEE_CLAIM_DOMAIN; SWAP_ROUTE_INTENT_DOMAIN;
   FARM_INIT_DOMAIN; FARM_BOND_DOMAIN; FARM_REFUND_DOMAIN; POOL_INIT_DOMAIN; DEPOSIT_DOMAIN].

(** ** The transfer kernel *)
Section kernel.
Context `{Hash}.

Definition kernel_preimage (assetId : bytes) (inputs : list outpoint) (outputs : list bytes) (burned : Z) : bytes :=
  concatBytes [KERNEL_DOMAIN; assetId; u8b (Z.of_nat (length inputs));
               concat (map outpoint_bytes inputs);
               u8b (Z.of_nat (length outputs)); concat outputs; u64_halves burned].

(** [computeKernelMsg] (dapp) and [ammKernelMsgV1] (worker) are the same text. *)
Definition computeKernelMsg (assetId : bytes) (inputOutpoints : list outpoint)
    (outputCommitments : list bytes) (burnedAmount : Z) : res bytes :=
  throw_if (negb (blen assetId =? 32)) "asset_id 32 bytes";;
  throw_if (Z.of_nat (length inputOutpoints) >? 255) "kernel msg: input count > 255";;
  throw_if (Z.of_nat (length outputCommitments) >? 255) "kernel msg: output count > 255";;
  mret (sha256 (kernel_preimage assetId inputOutpoints outputCommitments burnedAmount)).

Definition computeMintMsg (assetId commitAnchor commitment encryptedAmount : bytes) : res bytes :=
  throw_if (negb (blen commitAnchor =? 36)) "commit_anchor must be 36 bytes";;
  mret (sha256 (concatBytes [MINT_DOMAIN; assetId; commitAnchor; commitment; encryptedAmount])).

(** ** Drops *)
Definition dropIdFromRevealTxid (revealTxid : bytes) : bytes :=
  sha256 (concatBytes [rev revealTxid; le 4 0]).

Record drop_terms := DropTerms { dk_assetId : bytes; dk_capAmount : Z; dk_perClaim : Z;
                                 dk_merkleRoot : bytes; dk_expiryHeight : Z; dk_inputCount : Z }.

Definition drop_preimage (t : drop_terms) (inputs : bytes) : bytes :=
  concatBytes [DROP_DOMAIN; dk_assetId t; u64_halves (dk_capAmount t); u64_halves (dk_perClaim t);
               dk_merkleRoot t; le 4 (dk_expiryHeight t); u8b (Z.land (dk_inputCount t) 0xff); inputs].

Fixpoint drop_inputs (l : list outpoint) : res bytes :=
  match l with
  | [] => mret []
  | i :: l =>
      throw_if (negb (blen (txid i) =? 32)) "input.txid 64-hex";;
      throw_if ((vout i <? 0) || (vout i >? 0xffffffff)) "input.vout u32";;
      rest ← drop_inputs l;
      mret (outpoint_bytes i ++ rest)
  end.

Definition dropKernelMsg (t : drop_terms) (assetInputs : list outpoint) : res bytes :=
  throw_if (negb (blen (dk_assetId t) =? 32)) "asset_id 32";;
  throw_if (negb (blen (dk_merkleRoot t) =? 32)) "merkle_root 32";;
  throw_if (negb (Z.of_nat (length assetInputs) =? dk_inputCount t)) "assetInputs.length must equal assetInputCount";;
  inputs ← drop_inputs assetInputs;
  mret (sha256 (drop_preimage t inputs)).

Definition dropReclaimMsg (reclaimDropId assetId : bytes) (capAmount : Z) : res bytes :=
  throw_if (negb (blen reclaimDropId =? 32)) "reclaim_drop_id 32";;
  throw_if (negb (blen assetId =? 32)) "asset_id 32";;
  mret (sha256 (concatBytes [DROP_RECLAIM_DOMAIN; reclaimDropId; assetId; u64_halves capAmount])).

(** ** Pre-authorised bids *)
Definition computePreauthBidContextHash (assetId bidId recipientPubkey : bytes) (amount : Z)
    (blinding : bytes) (priceSats : Z) : res bytes :=
  throw_if (negb (blen assetId =? 32)) "asset_id 32 bytes";;
  throw_if (negb (blen bidId =? 16)) "bid_id 16 bytes";;
  throw_if (negb (blen recipientPubkey =? 33)) "recipient_pubkey 33 bytes";;
  throw_if (negb (blen blinding =? 32)) "blinding 32 bytes";;
  mret (sha256 (concatBytes [PREAUTH_BID_DOMAIN; assetId; bidId; recipientPubkey; le 8 amount;
                             blinding; le 8 priceSats])).

Definition computePreauthBidVarContextHash (x : PreauthBidVar.t) : res bytes :=
  throw_if (negb (blen (PreauthBidVar.assetId x) =? 32)) "asset_id 32 bytes";;
  throw_if (negb (blen (PreauthBidVar.bidId x) =? 16)) "bid_id 16 bytes";;
  throw_if (negb (blen (PreauthBidVar.recipientPubkey x) =? 33)) "recipient_pubkey 33 bytes";;
  throw_if (negb (blen (PreauthBidVar.refundScriptHash x) =? 20)) "refund_script_hash 20 bytes";;
  throw_if ((PreauthBidVar.decimalsScale x <? 0) || (PreauthBidVar.decimalsScale x >? 32))
    "decimals_scale must be integer in [0, 32]";;
  mret (sha256 (concatBytes [PREAUTH_BID_VAR_DOMAIN; PreauthBidVar.assetId x; PreauthBidVar.bidId x;
    PreauthBidVar.recipientPubkey x; le 8 (PreauthBidVar.pricePerUnit x); le 8 (PreauthBidVar.maxFill x);
    le 8 (PreauthBidVar.fillIncrement x); le 8 (PreauthBidVar.fillAmount x);
    PreauthBidVar.refundScriptHash x; u8b (Z.land (PreauthBidVar.decimalsScale x) 0xff)])).
End kernel.

(** ** Slots *)
Section slots.
Context `{Hash}.

Definition slot_mint_preimage (networkTag : Z) (assetId : bytes) (denomination : Z)
    (recipientCommit leafHash paymentAssetId : bytes) (paymentAmount : Z) (kBtcXOnly : bytes) : bytes :=
  concatBytes [SLOT_MINT_DOMAIN; u8b (Z.land networkTag 0xff); assetId; u64_halves denomination;
               recipientCommit; leafHash; paymentAssetId; u64_halves paymentAmount; kBtcXOnly].

Definition computeSlotMintMsg networkTag assetId denomination recipientCommit leafHash paymentAssetId
    paymentAmount kBtcXOnly : res bytes :=
  throw_if (negb (blen assetId =? 32)) "asset_id 32 bytes";;
  throw_if (negb (blen recipientCommit =? 33)) "recipient_commit 33 bytes";;
  throw_if (negb (blen leafHash =? 32)) "leaf_hash 32 bytes";;
  throw_if (negb (blen paymentAssetId =? 32)) "payment_asset_id 32 bytes";;
  throw_if (negb (blen kBtcXOnly =? 32)) "k_btc_xonly must be 32 bytes";;
  mret (sha256 (slot_mint_preimage networkTag assetId denomination recipientCommit leafHash
                  paymentAssetId paymentAmount kBtcXOnly)).

Definition computeSlotRotateMsg (networkTag : Z) (assetId : bytes) (denomination : Z)
    (oldNullifierHash newRecipientCommit newLeafHash paymentAssetId : bytes) (paymentAmount : Z)
    (newKBtcXOnly : bytes) : res bytes :=
  throw_if (negb (blen assetId =? 32)) "asset_id 32 bytes";;
  throw_if (negb (blen oldNullifierHash =? 32)) "old_nullifier_hash 32 bytes";;
  throw_if (negb (blen newRecipientCommit =? 33)) "new_recipient_commit 33 bytes";;
  throw_if (negb (blen newLeafHash =? 32)) "new_leaf_hash 32 bytes";;
  throw_if (negb (blen paymentAssetId =? 32)) "payment_asset_id 32 bytes";;
  throw_if (negb (blen newKBtcXOnly =? 32)) "new_k_btc_xonly must be 32 bytes";;
  mret (sha256 (concatBytes [SLOT_ROTATE_DOMAIN; u8b (Z.land networkTag 0xff); assetId;
                             u64_halves denomination; oldNullifierHash; newRecipientCommit; newLeafHash;
                             paymentAssetId; u64_halves paymentAmount; newKBtcXOnly])).

Fixpoint split_outputs (l : list SlotSplit.out) : res bytes :=
  match l with
  | [] => mret []
  | o :: l =>
      throw_if (negb (blen (SlotSplit.assetIdNew o) =? 32)) "each output.assetIdNew must be 32 bytes";;
      throw_if (negb (blen (SlotSplit.newRecipientCommit o) =? 33))
        "each output.newRecipientCommit must be 33 bytes";;
      throw_if (negb (blen (SlotSplit.newLeafHash o) =? 32)) "each output.newLeafHash must be 32 bytes";;
      throw_if (denom_bad (SlotSplit.denomNew o)) "output denom_new out of range";;
      rest ← split_outputs l;
      mret (SlotSplit.assetIdNew o ++ u64_halves (SlotSplit.denomNew o) ++
            SlotSplit.newRecipientCommit o ++ SlotSplit.newLeafHash o ++ rest)
  end.

Definition computeSlotSplitMsg (networkTag : Z) (assetIdOld : bytes) (denomOld : Z)
    (oldNullifierHash : bytes) (outputs : list SlotSplit.out) : res bytes :=
  let n := Z.of_nat (length outputs) in
  throw_if (negb (blen assetIdOld =? 32)) "asset_id_old 32 bytes";;
  throw_if (negb (blen oldNullifierHash =? 32)) "old_nullifier_hash 32 bytes";;
  throw_if ((n <? 2) || (n >? 16)) "outputs must be an array of 2..16";;
  outs ← split_outputs outputs;
  mret (sha256 (concatBytes [SLOT_SPLIT_DOMAIN; u8b (Z.land networkTag 0xff); assetIdOld;
                             u64_halves denomOld; oldNullifierHash; u8b (Z.land n 0xff); outs])).

Fixpoint merge_inputs (l : list spend) : res bytes :=
  match l with
  | [] => mret []
  | i :: l =>
      throw_if (negb (blen (assetId i) =? 32)) "each input.assetIdOld must be 32 bytes";;
      throw_if (negb (blen (nullifierHash i) =? 32)) "each input.oldNullifierHash must be 32 bytes";;
      throw_if (denom_bad (denomination i)) "input denom_old out of range";;
      rest ← merge_inputs l;
      mret (assetId i ++ u64_halves (denomination i) ++ nullifierHash i ++ rest)
  end.

Definition computeSlotMergeMsg (networkTag : Z) (inputs : list spend) (assetIdNew : bytes) (denomNew : Z)
    (newRecipientCommit newLeafHash : bytes) : res bytes :=
  let n := Z.of_nat (length inputs) in
  throw_if ((n <? 2) || (n >? 16)) "inputs must be an array of 2..16";;
  throw_if (negb (blen assetIdNew =? 32)) "asset_id_new 32 bytes";;
  throw_if (negb (blen newRecipientCommit =? 33)) "new_recipient_commit 33 bytes";;
  throw_if (negb (blen newLeafHash =? 32)) "new_leaf_hash 32 bytes";;
  ins ← merge_inputs inputs;
  mret (sha256 (concatBytes [SLOT_MERGE_DOMAIN; u8b (Z.land networkTag 0xff); u8b (Z.land n 0xff); ins;
                             assetIdNew; u64_halves denomNew; newRecipientCommit; newLeafHash])).
End slots.

(** ** Pools of the mixer *)
Section mixer.
Context `{Hash}.

Definition deposit_preimage (assetId : bytes) (denomination : Z) (inputTxidBE : bytes) (inputVout : Z)
    (leafCommitment : bytes) : bytes :=
  concatBytes [DEPOSIT_DOMAIN; assetId; u64_halves denomination; inputTxidBE; le 4 inputVout; leafCommitment].
Definition computeDepositKernelMsg (assetId : bytes) (denomination : Z) (inputTxidBE : bytes) (inputVout : Z)
    (leafCommitment : bytes) : res bytes :=
  throw_if (negb (blen assetId =? 32)) "asset_id 32 bytes";;
  throw_if (negb (blen inputTxidBE =? 32)) "input_txid_BE 32 bytes";;
  throw_if (negb (blen leafCommitment =? 32)) "leaf_commitment 32 bytes";;
  mret (sha256 (deposit_preimage assetId denomination inputTxidBE inputVout leafCommitment)).

(** the two identifiers run into each other *)
Definition computePoolInitMsg (assetId : bytes) (poolDenom : Z) (vkBytes ceBytes : bytes) : res bytes :=
  throw_if (negb (blen assetId =? 32)) "asset_id 32 bytes";;
  mret (sha256 (concatBytes [POOL_INIT_DOMAIN; assetId; u64_halves poolDenom; vkBytes; ceBytes])).
End mixer.

(** ** AMM messages ([worker/src/index.js]) *)
Section amm.
Context `{Hash}.

Record swap_intent := SwapIntent {
  si_poolId : bytes; si_direction : Z; si_deltaIn : Z; si_deltaInMin : Z; si_deltaInMax : Z;
  si_minOut : Z; si_tipAmount : Z; si_tipAsset : Z; si_expiryHeight : Z; si_traderPubkey : bytes;
  si_assetInputOutpoint : bytes; si_receiveScriptPubKey : bytes; si_rReceipt : bytes;
  si_cChangeOrSentinel : bytes; si_changeScriptPubKey : bytes; si_refundScriptPubKey : bytes }.

Definition swap_intent_preimage (i : swap_intent) : bytes :=
  concatBytes [SWAP_VAR_INTENT_DOMAIN; si_poolId i; u8b (si_direction i);
    le 8 (si_deltaIn i); le 8 (si_deltaInMin i); le 8 (si_deltaInMax i);
    le 8 (si_minOut i); le 8 (si_tipAmount i);
    u8b (si_tipAsset i); le 4 (si_expiryHeight i);
    si_traderPubkey i; si_assetInputOutpoint i;
    le 2 (blen (si_receiveScriptPubKey i)); si_receiveScriptPubKey i;
    si_rReceipt i; si_cChangeOrSentinel i;
    le 2 (blen (si_changeScriptPubKey i)); si_changeScriptPubKey i;
    le 2 (blen (si_refundScriptPubKey i)); si_refundScriptPubKey i].

Definition ammSwapVarIntentMsg (i : swap_intent) : res bytes :=
  throw_if (blen (si_refundScriptPubKey i) =? 0) "swap-var intent: refund script required";;
  mret (sha256 (swap_intent_preimage i)).

(** What a trader of a batch signs. *)
Record batch_intent := BatchIntent {
  bi_poolId : bytes; bi_direction : Z; bi_inputUtxos : list outpoint; bi_cInSecp : bytes; bi_cInBjj : bytes;
  bi_xcurveSigma : bytes; bi_receiveScriptPubKey : bytes; bi_minOut : Z; bi_tipAmount : Z; bi_tipAsset : Z;
  bi_expiryHeight : Z; bi_traderPubkey : bytes; bi_refundScriptPubKey : bytes }.

Definition batch_intent_preimage (i : batch_intent) : bytes :=
  concatBytes [INTENT_DOMAIN_BATCH; bi_poolId i; u8b (bi_direction i); u8b (Z.of_nat (length (bi_inputUtxos i)));
    concat (map outpoint_bytes (bi_inputUtxos i)); bi_cInSecp i; bi_cInBjj i; bi_xcurveSigma i;
    le 2 (Z.land (blen (bi_receiveScriptPubKey i)) 0xffff); bi_receiveScriptPubKey i;
    le 8 (bi_minOut i); le 8 (bi_tipAmount i); u8b (bi_tipAsset i); le 4 (bi_expiryHeight i); bi_traderPubkey i;
    le 2 (Z.land (blen (bi_refundScriptPubKey i)) 0xffff); bi_refundScriptPubKey i].

Definition ammBuildIntentMsg (i : batch_intent) : res bytes :=
  throw_if (negb (bi_direction i =? 0) && negb (bi_direction i =? 1)) "direction must be 0 or 1";;
  throw_if (negb (bi_tipAsset i =? bi_direction i)) "tipAsset must equal direction (tip_asset is always the input side)";;
  throw_if ((length (bi_inputUtxos i) =? 0)%nat || (Z.of_nat (length (bi_inputUtxos i)) >? 255)) "inputUtxos: 1..255 entries required";;
  throw_if (blen (bi_refundScriptPubKey i) =? 0) "amm intent: refund script required";;
  mret (sha256 (batch_intent_preimage i)).

(** [_ammOutpointBytes] is [outpoint_bytes]. *)
Definition ammFundingHash (outpoints : list outpoint) (kernelSig : bytes) : bytes :=
  sha256 (concat (map outpoint_bytes outpoints) ++ sha256 kernelSig).

Record lp_add_kernel := LpAddKernel {
  ak_variant : Z; ak_poolId : bytes; ak_assetX : bytes; ak_deltaX : Z; ak_shareAmount : Z;
  ak_shareCSecp : bytes; ak_inputsX : list outpoint;
  ak_expiryHeight : Z; ak_refundDestXonly : bytes; ak_refundBlinding : bytes }.

Definition lp_add_preimage (k : lp_add_kernel) : bytes :=
  concatBytes [LP_ADD_DOMAIN; u8b (ak_variant k); ak_poolId k; ak_assetX k;
    le 8 (ak_deltaX k); le 8 (ak_shareAmount k); ak_shareCSecp k;
    u8b (Z.of_nat (length (ak_inputsX k))); concat (map outpoint_bytes (ak_inputsX k));
    le 4 (ak_expiryHeight k); ak_refundDestXonly k; ak_refundBlinding k].

Definition ammLpAddKernelMsg (k : lp_add_kernel) : res bytes :=
  throw_if (negb (ak_variant k =? 0) && negb (ak_variant k =? 1)) "variant must be 0 or 1";;
  throw_if (length (ak_inputsX k) =? 0)%nat "inputsX must be non-empty";;
  throw_if (Z.of_nat (length (ak_inputsX k)) >? 255) "too many inputs";;
  throw_if (negb (blen (ak_refundDestXonly k) =? 32)) "refundDestXonly must be 32 bytes";;
  throw_if (negb (blen (ak_refundBlinding k) =? 32)) "refundBlinding must be 32 bytes";;
  mret (sha256 (lp_add_preimage k)).

Record lp_remove_kernel := LpRemoveKernel {
  rk_poolId : bytes; rk_shareAmount : Z; rk_deltaA : Z; rk_deltaB : Z;
  rk_recvACSecp : bytes; rk_recvBCSecp : bytes; rk_lpInputs : list outpoint;
  rk_refundDestXonly : bytes }.

Definition lp_remove_preimage (k : lp_remove_kernel) : bytes :=
  concatBytes [LP_REMOVE_DOMAIN; rk_poolId k; le 8 (rk_shareAmount k); le 8 (rk_deltaA k);
    le 8 (rk_deltaB k); rk_recvACSecp k; rk_recvBCSecp k;
    u8b (Z.of_nat (length (rk_lpInputs k))); concat (map outpoint_bytes (rk_lpInputs k));
    rk_refundDestXonly k].

Definition ammLpRemoveKernelMsg (k : lp_remove_kernel) : res bytes :=
  throw_if (length (rk_lpInputs k) =? 0)%nat "lpInputs must be non-empty";;
  throw_if (Z.of_nat (length (rk_lpInputs k)) >? 255) "too many lp inputs";;
  throw_if (negb (blen (rk_refundDestXonly k) =? 32)) "refundDestXonly must be 32 bytes";;
  mret (sha256 (lp_remove_preimage k)).

Definition lp_bond_preimage (farmId lpAsset : bytes) (bondAmount : Z) (lpInputs : list outpoint) : bytes :=
  concatBytes [LP_BOND_DOMAIN; farmId; lpAsset; le 8 bondAmount;
               u8b (Z.of_nat (length lpInputs)); concat (map outpoint_bytes lpInputs)].

Definition ammLpBondKernelMsg (farmId lpAsset : bytes) (bondAmount : Z) (lpInputs : list outpoint) : res bytes :=
  throw_if (length lpInputs =? 0)%nat "lpInputs must be non-empty";;
  throw_if (Z.of_nat (length lpInputs) >? 255) "too many lp inputs";;
  mret (sha256 (lp_bond_preimage farmId lpAsset bondAmount lpInputs)).

(** [vkBytes] is the UTF-8 encoding of the cid string *)
Definition ammLauncherGateMsg (poolId vkBytes : bytes) (feeBps : Z) : bytes :=
  sha256 (concatBytes [LAUNCHER_GATE_DOMAIN; poolId; vkBytes; le 2 (Z.land feeBps 0xffff)]).
End amm.

(** ** Injectivity *)

(** Two concatenations with the same lengths up front agree piece by piece. *)
Ltac split_eq H :=
  repeat match type of H with
  | ?a ++ _ = ?b ++ _ =>
      let H1 := fresh "E" in
      apply app_inj_blen in H as [H1 H]; [|first [done|len_lia]]
  end.

Lemma le_inj' n v w : le n v = le n w → v mod 256 ^ Z.of_nat n = w mod 256 ^ Z.of_nat n.
Proof. intros H%(f_equal unle). by rewrite !unle_le in H. Qed.

Lemma u8b_inj v w : 0 <= v < 256 → 0 <= w < 256 → u8b v = u8b w → v = w.
Proof.
  intros Hv Hw [= H]. apply (f_equal byteZ) in H. by rewrite !byteZ_of_Z, !Z.mod_small in H.
Qed.

Lemma u64_halves_inj v w : 0 <= v < 2 ^ 64 → 0 <= w < 2 ^ 64 → u64_halves v = u64_halves w → v = w.
Proof. rewrite !u64_halves_le. by apply (le_inj 8). Qed.

Lemma blen_rev b : blen (rev b) = blen b.
Proof. unfold blen. by rewrite length_rev. Qed.
#[export] Hint Rewrite blen_rev : blen.

Lemma outpoint_bytes_inj o p : outpoint_wf o → outpoint_wf p → outpoint_bytes o = outpoint_bytes p → o = p.
Proof.
  intros [Ho Hvo] [Hp Hvp] H. unfold outpoint_bytes in H.
  apply app_inj_blen in H as [Ht Hv]; [|len_lia].
  apply (le_inj 4) in Hv; [|done..]. destruct o, p; cbn in *. subst.
  by rewrite <- (rev_involutive txid0), Ht, rev_involutive.
Qed.

(** Concatenations of equally many pieces of one length determine the pieces. *)
Lemma concat_inj {A} (f : A → bytes) (P : A → Prop) k l m r r' :
  (∀ a, P a → blen (f a) = k) → (∀ a b, P a → P b → f a = f b → a = b) →
  length l = length m → Forall P l → Forall P m →
  concat (map f l) ++ r = concat (map f m) ++ r' → l = m ∧ r = r'.
Proof.
  intros Hk Hf. revert m; induction l as [|a l IH]; intros [|b m] Hl HPl HPm H; try done.
  inversion HPl; inversion HPm; subst. cbn [map concat] in H. rewrite <- !app_assoc in H.
  apply app_inj_blen in H as [Hab H]; [|by rewrite !Hk].
  apply Hf in Hab; [|done..]. injection Hl as Hl. subst. apply IH in H as [-> ->]; auto.
Qed.

Lemma outpoints_inj l m r r' :
  length l = length m → Forall outpoint_wf l → Forall outpoint_wf m →
  concat (map outpoint_bytes l) ++ r = concat (map outpoint_bytes m) ++ r' → l = m ∧ r = r'.
Proof.
  apply (concat_inj _ _ 36); [|apply outpoint_bytes_inj].
  intros o [Ht _]. unfold outpoint_bytes. len_lia.
Qed.

Lemma concat_inj_id (P : bytes → Prop) k l m r r' :
  (∀ a, P a → blen a = k) → length l = length m → Forall P l → Forall P m →
  concat l ++ r = concat m ++ r' → l = m ∧ r = r'.
Proof.
  intros Hk Hl HPl HPm. rewrite <- (map_id l) at 1. rewrite <- (map_id m) at 1.
  by apply (concat_inj (λ b, b) P k).
Qed.

(** Strips one fixed-length field off both sides of an equation between preimages. *)
Ltac cut_field H :=
  let E := fresh "E" in
  lazymatch type of H with
  | u8b ?v ++ _ = u8b ?w ++ _ =>
      apply app_inj_blen in H as [E H]; [|done]; apply u8b_inj in E; [subst|lia|lia]
  | le ?n ?v ++ _ = le ?n ?w ++ _ =>
      assert_fails (constr_eq n 2%nat);
      apply app_inj_blen in H as [E H]; [|by rewrite !blen_le]; apply (le_inj n) in E; [subst|done|done]
  | ?x ++ _ = ?y ++ _ => apply app_inj_blen in H as [E H]; [|lia]; subst
  end.

(** What a kernel binds: 32-byte ids, 33-byte commitments, counts that fit a byte. *)
Definition kernel_wf (assetId : bytes) (ins : list outpoint) (outs : list bytes) (burned : Z) : Prop :=
  blen assetId = 32 ∧ Forall outpoint_wf ins ∧ Forall (λ c, blen c = 33) outs ∧
  Z.of_nat (length ins) < 256 ∧ Z.of_nat (length outs) < 256 ∧ 0 <= burned < 2 ^ 64.

Lemma kernel_preimage_inj a ins outs b a' ins' outs' b' :
  kernel_wf a ins outs b → kernel_wf a' ins' outs' b' →
  kernel_preimage a ins outs b = kernel_preimage a' ins' outs' b' →
  a = a' ∧ ins = ins' ∧ outs = outs' ∧ b = b'.
Proof.
  intros (Ha & Hi & Ho & Hni & Hno & Hb) (Ha' & Hi' & Ho' & Hni' & Hno' & Hb').
  unfold kernel_preimage. rewrite !concatBytes_cons, concatBytes_nil. intros Heq.
  apply app_inv_head in Heq. apply app_inj_blen in Heq as [<- Heq]; [|lia].
  cut_field Heq. apply Nat2Z.inj in E.
  apply outpoints_inj in Heq as [<- Heq]; [|lia|done..].
  cut_field Heq.
  apply (concat_inj_id (λ c, blen c = 33) 33) in Heq as [<- Heq]; [|done|lia|done..].
  rewrite !app_nil_r in Heq. apply u64_halves_inj in Heq; [|done..]. done.
Qed.

Definition swap_intent_wf (i : swap_intent) : Prop :=
  blen (si_poolId i) = 32 ∧ 0 <= si_direction i < 256 ∧
  0 <= si_deltaIn i < 2 ^ 64 ∧ 0 <= si_deltaInMin i < 2 ^ 64 ∧ 0 <= si_deltaInMax i < 2 ^ 64 ∧
  0 <= si_minOut i < 2 ^ 64 ∧ 0 <= si_tipAmount i < 2 ^ 64 ∧ 0 <= si_tipAsset i < 256 ∧
  0 <= si_expiryHeight i < 2 ^ 32 ∧ blen (si_traderPubkey i) = 33 ∧
  blen (si_assetInputOutpoint i) = 36 ∧ blen (si_receiveScriptPubKey i) < 65536 ∧
  blen (si_rReceipt i) = 32 ∧ blen (si_cChangeOrSentinel i) = 33 ∧
  blen (si_changeScriptPubKey i) < 65536 ∧ blen (si_refundScriptPubKey i) < 65536.

(** A length-prefixed field is determined by the bytes. *)
Lemma lenpref_inj x y r r' :
  blen x < 65536 → blen y < 65536 → le 2 (blen x) ++ x ++ r = le 2 (blen y) ++ y ++ r' → x = y ∧ r = r'.
Proof.
  intros Hx Hy H. apply app_inj_blen in H as [Hl H]; [|len_lia].
  pose proof (blen_nonneg x). pose proof (blen_nonneg y). apply (le_inj 2) in Hl; [|done..].
  by apply app_inj_blen in H.
Qed.

Lemma swap_intent_preimage_inj i j :
  swap_intent_wf i → swap_intent_wf j → swap_intent_preimage i = swap_intent_preimage j → i = j.
Proof.
  destruct i, j. unfold swap_intent_wf, swap_intent_preimage. cbn -[le u8b concatBytes blen].
  intros (?&?&?&?&?&?&?&?&?&?&?&?&?&?&?&?) (?&?&?&?&?&?&?&?&?&?&?&?&?&?&?&?).
  rewrite !concatBytes_cons, concatBytes_nil, !app_nil_r. intros Heq. apply app_inv_head in Heq.
  repeat cut_field Heq.
  apply lenpref_inj in Heq as [-> Heq]; [|done..]. repeat cut_field Heq.
  apply lenpref_inj in Heq as [-> Heq]; [|done..].
  apply (f_equal (λ b, b ++ [])) in Heq. rewrite <- !app_assoc in Heq.
  apply lenpref_inj in Heq as [-> _]; [|done..]. done.
Qed.

Definition batch_intent_wf (i : batch_intent) : Prop :=
  blen (bi_poolId i) = 32 ∧ 0 <= bi_direction i < 256 ∧ Forall outpoint_wf (bi_inputUtxos i) ∧
  Z.of_nat (length (bi_inputUtxos i)) < 256 ∧ blen (bi_cInSecp i) = 33 ∧ blen (bi_cInBjj i) = 32 ∧
  blen (bi_xcurveSigma i) = 169 ∧ blen (bi_receiveScriptPubKey i) < 65536 ∧ 0 <= bi_minOut i < 2 ^ 64 ∧
  0 <= bi_tipAmount i < 2 ^ 64 ∧ 0 <= bi_tipAsset i < 256 ∧ 0 <= bi_expiryHeight i < 2 ^ 32 ∧
  blen (bi_traderPubkey i) = 33 ∧ blen (bi_refundScriptPubKey i) < 65536.

(** A length below 2^16 survives the mask. *)
Lemma land_u16 x : 0 <= x < 65536 → Z.land x 0xffff = x.
Proof. intros Hx. change 0xffff with (Z.ones 16). rewrite Z.land_ones by lia. by apply Z.mod_small. Qed.

Lemma batch_intent_preimage_inj i j :
  batch_intent_wf i → batch_intent_wf j → batch_intent_preimage i = batch_intent_preimage j → i = j.
Proof.
  destruct i, j. unfold batch_intent_wf, batch_intent_preimage. cbn -[le u8b concatBytes blen outpoint_bytes Z.land].
  intros (?&?&?&?&?&?&?&?&?&?&?&?&?&?) (?&?&?&?&?&?&?&?&?&?&?&?&?&?).
  rewrite !land_u16 by (split; [apply blen_nonneg|done]).
  rewrite !concatBytes_cons, concatBytes_nil, !app_nil_r. intros Heq. apply app_inv_head in Heq.
  repeat cut_field Heq. apply outpoints_inj in Heq as [-> Heq]; [|lia|done..]. repeat cut_field Heq.
  apply lenpref_inj in Heq as [-> Heq]; [|done..]. repeat cut_field Heq.
  apply (f_equal (λ b, b ++ [])) in Heq. rewrite <- !app_assoc in Heq.
  apply lenpref_inj in Heq as [-> _]; [|done..]. by subst.
Qed.

Definition lp_add_wf (k : lp_add_kernel) : Prop :=
  0 <= ak_variant k < 256 ∧ blen (ak_poolId k) = 32 ∧ blen (ak_assetX k) = 32 ∧
  0 <= ak_deltaX k < 2 ^ 64 ∧ 0 <= ak_shareAmount k < 2 ^ 64 ∧ blen (ak_shareCSecp k) = 33 ∧
  Forall outpoint_wf (ak_inputsX k) ∧ Z.of_nat (length (ak_inputsX k)) < 256 ∧
  0 <= ak_expiryHeight k < 2 ^ 32 ∧ blen (ak_refundDestXonly k) = 32 ∧ blen (ak_refundBlinding k) = 32.

Lemma lp_add_preimage_inj k l :
  lp_add_wf k → lp_add_wf l → lp_add_preimage k = lp_add_preimage l → k = l.
Proof.
  destruct k, l. unfold lp_add_wf, lp_add_preimage. cbn -[le u8b concatBytes blen outpoint_bytes].
  intros (?&?&?&?&?&?&?&?&?&?&?) (?&?&?&?&?&?&?&?&?&?&?).
  rewrite !concatBytes_cons, concatBytes_nil, !app_nil_r. intros Heq. apply app_inv_head in Heq.
  repeat cut_field Heq. apply outpoints_inj in Heq as [-> Heq]; [|lia|done..].
  repeat cut_field Heq. by subst.
Qed.

Definition lp_remove_wf (k : lp_remove_kernel) : Prop :=
  blen (rk_poolId k) = 32 ∧ 0 <= rk_shareAmount k < 2 ^ 64 ∧ 0 <= rk_deltaA k < 2 ^ 64 ∧
  0 <= rk_deltaB k < 2 ^ 64 ∧ blen (rk_recvACSecp k) = 33 ∧ blen (rk_recvBCSecp k) = 33 ∧
  Forall outpoint_wf (rk_lpInputs k) ∧ Z.of_nat (length (rk_lpInputs k)) < 256 ∧
  blen (rk_refundDestXonly k) = 32.

Lemma lp_remove_preimage_inj k l :
  lp_remove_wf k → lp_remove_wf l → lp_remove_preimage k = lp_remove_preimage l → k = l.
Proof.
  destruct k, l. unfold lp_remove_wf, lp_remove_preimage. cbn -[le u8b concatBytes blen outpoint_bytes].
  intros (?&?&?&?&?&?&?&?&?) (?&?&?&?&?&?&?&?&?).
  rewrite !concatBytes_cons, concatBytes_nil, !app_nil_r. intros Heq. apply app_inv_head in Heq.
  repeat cut_field Heq. apply outpoints_inj in Heq as [-> Heq]; [|lia|done..]. by subst.
Qed.

(** ** Domain separation *)
Fixpoint prefixb (d m : bytes) : bool :=
  match d, m with
  | [], _ => true
  | x :: d, y :: m => bool_decide (x = y) && prefixb d m
  | _, [] => false
  end.

Lemma prefixb_app d m r r' : d ++ r = m ++ r' → prefixb d m = true ∨ prefixb m d = true.
Proof.
  revert m; induction d as [|x d IH]; intros [|y m] H; cbn; auto.
  injection H as -> H. rewrite !bool_decide_eq_true_2 by done. cbn. by apply IH.
Qed.

Lemma domains_prefix_free :
  forallb (λ d, forallb (λ m, bool_decide (d = m) || negb (prefixb d m)) domains) domains = true.
Proof. vm_compute. reflexivity. Qed.

Definition deposit_wf (a : bytes) (d : Z) (t : bytes) (v : Z) (l : bytes) : Prop :=
  blen a = 32 ∧ 0 <= d < 2 ^ 64 ∧ blen t = 32 ∧ 0 <= v < 2 ^ 32 ∧ blen l = 32.
Lemma deposit_preimage_inj a d t v l a' d' t' v' l' :
  deposit_wf a d t v l → deposit_wf a' d' t' v' l' → deposit_preimage a d t v l = deposit_preimage a' d' t' v' l' →
  a = a' ∧ d = d' ∧ t = t' ∧ v = v' ∧ l = l'.
Proof.
  intros (?&?&?&?&?) (?&?&?&?&?). unfold deposit_preimage. rewrite !concatBytes_cons, concatBytes_nil, !app_nil_r.
  intros Heq. apply app_inv_head in Heq. cut_field Heq.
  apply app_inj_blen in Heq as [E Heq]; [|by rewrite !blen_u64_halves]. apply u64_halves_inj in E; [|done..].
  repeat cut_field Heq. by subst.
Qed.

(** Messages of different kinds are different bytes, whatever they carry. *)
Lemma domain_separation d m r r' : d ∈ domains → m ∈ domains → d ++ r = m ++ r' → d = m ∧ r = r'.
Proof.
  intros Hd Hm H. assert (Hp : ∀ d m, d ∈ domains → m ∈ domains → prefixb d m = true → d = m).
  { intros d0 m0 Hd0 Hm0 Hpre. pose proof domains_prefix_free as Hall. rewrite forallb_forall in Hall.
    specialize (Hall d0 ltac:(by apply list_elem_of_In)). rewrite forallb_forall in Hall.
    specialize (Hall m0 ltac:(by apply list_elem_of_In)). rewrite Hpre, orb_false_r in Hall.
    by apply bool_decide_eq_true in Hall. }
  assert (d = m) as <-; [|split; [done|by apply app_inv_head in H]].
  apply prefixb_app in H as [H|H]; [by apply Hp|symmetry; by apply Hp].
Qed.
