(* ===== verification/AmmMath.v ===== *)
(** * AMM arithmetic ([worker/src/index.js])

    Integer square root, the constant-product curve, LP share minting and burning, and
    the protocol-fee share formula.  [BigInt] is [Z]; [BigInt] division truncates
    towards zero, which on the operands here (proved non-negative where it matters) is
    [Z.div] of non-negative numbers. *)
From S2P Require Import Prelude.

#[local] Ltac Zify.zify_post_hook ::= Z.div_mod_to_equations.

Definition AMM_FEE_BPS_MAX : Z := 1000.
Definition AMM_PROTOCOL_FEE_BPS_MAX : Z := 1000.
Definition AMM_MINIMUM_LIQUIDITY : Z := 1000.
Definition U64 : Z := 2 ^ 64.

(** ** Integer square root

    [while (y < x) { x = y; y = (x + big / x) >> 1n; }]; the result is [None] when the
    rounds run out, which [ammIsqrt]'s bound makes impossible ([ammIsqrt_spec]). *)
Fixpoint isqrt_loop (fuel : nat) (big x y : Z) : option Z :=
  match fuel with
  | O => None
  | S fuel => if y <? x then isqrt_loop fuel big y (Z.shiftr (y + big ÷ y) 1) else Some x
  end.

(** Every round halves the distance to the root, so the number of bits bounds them. *)
Definition isqrt_fuel (big : Z) : nat := Z.to_nat (Z.log2 big + 2).

Definition ammIsqrt (n : Z) : res Z :=
  throw_if (n <? 0) "isqrt of negative";;
  if n <? 2 then mret n
  else match isqrt_loop (isqrt_fuel n) n n (Z.shiftr (n + 1) 1) with
       | Some r => mret r
       | None => Oob
       end.

Record lp_init := LpInit { total_shares : Z; founder_shares : Z; locked_shares : Z }.

Definition ammLpInitShares (deltaA deltaB : Z) : res lp_init :=
  total ← ammIsqrt (deltaA * deltaB);
  throw_if (total <=? AMM_MINIMUM_LIQUIDITY) "initial liquidity below MINIMUM_LIQUIDITY";;
  mret (LpInit total (total - AMM_MINIMUM_LIQUIDITY) AMM_MINIMUM_LIQUIDITY).

(** ** The constant-product curve *)
Record curve := Curve { deltaOut : Z; raPost : Z; rbPost : Z }.

Definition ammCurveDeltaOut (direction ra rb din fbps : Z) : res curve :=
  throw_if ((ra <=? 0) || (rb <=? 0)) "reserves must be > 0";;
  throw_if (din <=? 0) "delta_in must be > 0";;
  throw_if ((fbps <? 0) || (fbps >? AMM_FEE_BPS_MAX)) "fee_bps out of range";;
  throw_if ((ra >=? Z.shiftl 1 64) || (rb >=? Z.shiftl 1 64) || (din >=? Z.shiftl 1 64))
    "values must fit u64";;
  let gNum := 10000 - fbps in
  let gDen := 10000 in
  c ← (if direction =? 0 then
         let out := (rb * gNum * din) ÷ (ra * gDen + gNum * din) in
         mret (Curve out (ra + din) (rb - out))
       else if direction =? 1 then
         let out := (ra * gNum * din) ÷ (rb * gDen + gNum * din) in
         mret (Curve out (ra - out) (rb + din))
       else Throw "direction must be 0 or 1");
  throw_if (deltaOut c >=? Z.shiftl 1 64) "delta_out overflows u64";;
  throw_if ((raPost c <=? 0) || (rbPost c <=? 0)) "post-reserve non-positive";;
  throw_if (raPost c >=? Z.shiftl 1 64) "post-reserve_A overflows u64";;
  throw_if (rbPost c >=? Z.shiftl 1 64) "post-reserve_B overflows u64";;
  mret c.

(** ** LP shares *)
Definition ammLpAddShares (da db ra rb s : Z) : res Z :=
  throw_if (s =? 0) "use ammLpInitShares for POOL_INIT (S == 0)";;
  throw_if ((ra =? 0) || (rb =? 0)) "cannot add to empty pool";;
  let a := (da * s) ÷ ra in
  let b := (db * s) ÷ rb in
  mret (if a <? b then a else b).

Definition ammLpRemoveOutputs (sa ra rb s : Z) : res (Z * Z) :=
  throw_if (s =? 0) "cannot remove from empty pool";;
  throw_if (sa >? s) "shareAmount exceeds total shares";;
  mret ((ra * sa) ÷ s, (rb * sa) ÷ s).

(** ** Protocol fee *)
Definition ammComputeProtocolShares (s kPre kNow bps : Z) : res Z :=
  throw_if ((bps <? 0) || (bps >? AMM_PROTOCOL_FEE_BPS_MAX)) "protocol_fee_bps out of range";;
  if bps =? 0 then mret 0
  else if kNow <=? kPre then mret 0
  else if s =? 0 then mret 0
  else
    rootPre ← ammIsqrt kPre;
    rootNow ← ammIsqrt kNow;
    if rootNow <=? rootPre then mret 0
    else
      let numerator := s * bps * (rootNow - rootPre) in
      let denominator := (10000 - bps) * rootNow + bps * rootPre in
      if denominator =? 0 then mret 0 else mret (numerator ÷ denominator).

(** ** Square root: correctness and termination *)
Definition is_sqrt (n r : Z) : Prop := 0 <= r ∧ r * r <= n < (r + 1) * (r + 1).

Lemma is_sqrt_unique n r s : is_sqrt n r → is_sqrt n s → r = s.
Proof. unfold is_sqrt. intros [? ?] [? ?]. nia. Qed.

Lemma is_sqrt_sqrt n : 0 <= n → is_sqrt n (Z.sqrt n).
Proof.
  intros Hn. unfold is_sqrt. pose proof (Z.sqrt_nonneg n). pose proof (Z.sqrt_spec n Hn).
  unfold Z.succ in *. lia.
Qed.

(** One Newton step from [x >= r] stays at or above the root, and halves the distance. *)
Lemma newton_step n r x :
  is_sqrt n r → 1 <= r → r <= x →
  r <= Z.shiftr (x + n ÷ x) 1 ∧ (r < x → Z.shiftr (x + n ÷ x) 1 <= r + (x - r) / 2).
Proof.
  intros (Hr & Hlo & Hhi) H1 Hx. rewrite Z.shiftr_div_pow2 by done. change (2 ^ 1) with 2.
  rewrite Z.quot_div_nonneg by nia. set (q := n / x).
  assert (Hq : x * q <= n < x * (q + 1)) by (subst q; pose proof (Z.div_mod n x); pose proof (Z.mod_pos_bound n x); nia).
  clearbody q. split.
  - assert (2 * r <= x + q) by nia. lia.
  - intros Hlt. assert (q <= r) by nia. lia.
Qed.

Lemma isqrt_loop_spec k n r x y :
  is_sqrt n r → 1 <= r → r <= x → r <= y → (r < x → y <= r + (x - r) / 2) → (x = r → r <= y) →
  x - r < 2 ^ Z.of_nat k → isqrt_loop (S k) n x y = Some r.
Proof.
  revert x y; induction k as [|k IH]; intros x y Hn H1 Hx Hy Hstep Hroot Hk; cbn [isqrt_loop].
  - change (2 ^ Z.of_nat 0) with 1 in Hk. assert (x = r) as -> by lia.
    destruct (Z.ltb_spec y r); [lia|done].
  - destruct (Z.ltb_spec y x).
    + destruct (newton_step n r y) as [Ha Hb]; [done..|]. apply IH; try done; try lia.
      rewrite Nat2Z.inj_succ, Z.pow_succ_r in Hk by lia.
      assert (r < x) by (destruct (Z.eq_dec x r); [specialize (Hroot e); lia|lia]). specialize (Hstep H0). lia.
    + destruct (Z.eq_dec x r) as [->|]; [done|]. specialize (Hstep ltac:(lia)). lia.
Qed.

(** The root is the floor of the square root, and the loop always finishes within its
    bound of [log2 n + 2] rounds. *)
Lemma ammIsqrt_spec n : 0 <= n → ammIsqrt n = Ok (Z.sqrt n).
Proof.
  intros Hn. unfold ammIsqrt. rewrite (proj2 (Z.ltb_ge n 0)) by lia. cbn [throw_if].
  unfold mbind, res_bind. destruct (Z.ltb_spec n 2) as [H2|H2].
  { f_equal. apply (is_sqrt_unique n); [unfold is_sqrt; nia|by apply is_sqrt_sqrt]. }
  assert (Hs := is_sqrt_sqrt n Hn). set (r := Z.sqrt n) in *.
  assert (1 <= r) by (unfold is_sqrt in Hs; nia).
  assert (r <= n) by (unfold is_sqrt in Hs; nia).
  unfold isqrt_fuel. pose proof (Z.log2_nonneg n). pose proof (Z.log2_spec n ltac:(lia)) as [_ Hlog].
  replace (Z.to_nat (Z.log2 n + 2)) with (S (Z.to_nat (Z.log2 n + 1))) by lia.
  rewrite (isqrt_loop_spec _ n r); [done|done|done|done| | | |].
  - rewrite Z.shiftr_div_pow2 by done. change (2 ^ 1) with 2. unfold is_sqrt in Hs.
    assert (r = 1 ∨ 2 * r <= n) by nia. lia.
  - intros _. rewrite Z.shiftr_div_pow2 by done. change (2 ^ 1) with 2. lia.
  - intros Hnr. rewrite Z.shiftr_div_pow2 by done. change (2 ^ 1) with 2. unfold is_sqrt in Hs.
    clearbody r. subst n. nia.
  - rewrite Z2Nat.id by lia. unfold Z.succ in Hlog. lia.
Qed.

Lemma ammLpInitShares_Ok da db i :
  0 <= da → 0 <= db →
  ammLpInitShares da db = Ok i ↔
  AMM_MINIMUM_LIQUIDITY < Z.sqrt (da * db) ∧
  i = LpInit (Z.sqrt (da * db)) (Z.sqrt (da * db) - AMM_MINIMUM_LIQUIDITY) AMM_MINIMUM_LIQUIDITY.
Proof.
  intros. unfold ammLpInitShares. rewrite ammIsqrt_spec by nia. unfold mbind, res_bind. cbn [throw_if].
  destruct (Z.leb_spec (Z.sqrt (da * db)) AMM_MINIMUM_LIQUIDITY); cbn [throw_if].
  - split; [done|lia].
  - unfold mret, res_ret. split; [intros [= <-]; done|intros [_ ->]; done].
Qed.

(** ** The curve *)
Definition u64_pos (x : Z) : Prop := 0 < x < U64.

(** The output of a trade, as a floor division over the fee-reduced input. *)
Definition curve_out (r_in r_out din fbps : Z) : Z :=
  (r_out * (10000 - fbps) * din) / (r_in * 10000 + (10000 - fbps) * din).

Lemma curve_out_bounds r_in r_out din fbps :
  0 < r_in → 0 < r_out → 0 < din → 0 <= fbps <= AMM_FEE_BPS_MAX →
  0 <= curve_out r_in r_out din fbps < r_out.
Proof.
  unfold AMM_FEE_BPS_MAX, curve_out. intros Hi Ho Hd Hf.
  assert (0 < (10000 - fbps) * din) by nia. split.
  - apply Z.div_pos; nia.
  - apply Z.div_lt_upper_bound; nia.
Qed.

(** The pool never loses: the product of the reserves does not decrease. *)
Lemma curve_out_k r_in r_out din fbps :
  0 < r_in → 0 < r_out → 0 < din → 0 <= fbps <= AMM_FEE_BPS_MAX →
  r_in * r_out <= (r_in + din) * (r_out - curve_out r_in r_out din fbps).
Proof.
  unfold AMM_FEE_BPS_MAX. intros Hi Ho Hd Hf.
  pose proof (curve_out_bounds r_in r_out din fbps Hi Ho Hd Hf) as Hb. unfold curve_out in *.
  set (g := 10000 - fbps) in *. assert (Hg : 9000 <= g <= 10000) by lia. clearbody g.
  set (den := r_in * 10000 + g * din) in *. assert (Hden : 0 < den) by (subst den; nia).
  assert (Hmul : den * (r_out * g * din / den) <= r_out * g * din) by (by apply Z.mul_div_le).
  set (o := r_out * g * din / den) in *. clearbody o.
  assert (10000 * r_in * o + g * din * o <= r_out * g * din) by (subst den; lia).
  assert (r_in * o <= din * (r_out - o)); [|nia].
  assert (10000 * (r_in * o) <= g * (din * (r_out - o))) by nia.
  assert (g * (din * (r_out - o)) <= 10000 * (din * (r_out - o))) by nia. lia.
Qed.

Definition curve_args_ok (ra rb din fbps : Z) : Prop :=
  u64_pos ra ∧ u64_pos rb ∧ u64_pos din ∧ 0 <= fbps <= AMM_FEE_BPS_MAX.

(** The curve throws exactly on arguments out of range or when the input reserve would
    leave the 64-bit range; otherwise it returns the floor formula. *)
Lemma ammCurveDeltaOut_Ok dir ra rb din fbps c :
  ammCurveDeltaOut dir ra rb din fbps = Ok c ↔
  curve_args_ok ra rb din fbps ∧
  ((dir = 0 ∧ ra + din < U64 ∧
    c = Curve (curve_out ra rb din fbps) (ra + din) (rb - curve_out ra rb din fbps)) ∨
   (dir = 1 ∧ rb + din < U64 ∧
    c = Curve (curve_out rb ra din fbps) (ra - curve_out rb ra din fbps) (rb + din))).
Proof.
  unfold ammCurveDeltaOut, curve_args_ok, u64_pos, U64. change (Z.shiftl 1 64) with (2 ^ 64).
  assert (Hquot : ∀ r_in r_out, 0 < r_in → 0 < r_out → 0 < din → 0 <= fbps <= AMM_FEE_BPS_MAX →
    (r_out * (10000 - fbps) * din) ÷ (r_in * 10000 + (10000 - fbps) * din) = curve_out r_in r_out din fbps).
  { unfold AMM_FEE_BPS_MAX, curve_out. intros. apply Z.quot_div_nonneg; nia. }
  split.
  - intros H. enc_inv H. apply res_bind_Ok in H as (c' & Hc & H). enc_inv H. injection H as ->.
    bool_to_prop. split; [repeat split; lia|]. destruct (Z.eqb_spec dir 0) as [->|].
    + injection Hc as <-. cbn [deltaOut raPost rbPost] in *. left.
      specialize (Hquot ra rb ltac:(lia) ltac:(lia) ltac:(lia) ltac:(lia)). rewrite Hquot in *. repeat split; lia.
    + destruct (Z.eqb_spec dir 1) as [->|]; [|done].
      injection Hc as <-. cbn [deltaOut raPost rbPost] in *. right.
      specialize (Hquot rb ra ltac:(lia) ltac:(lia) ltac:(lia) ltac:(lia)). rewrite Hquot in *. repeat split; lia.
  - intros (((?&?)&(?&?)&(?&?)&Hf) & [(-> & ? & ->)|(-> & ? & ->)]).
    + pose proof (curve_out_bounds ra rb din fbps ltac:(lia) ltac:(lia) ltac:(lia) Hf).
      enc_run lia. apply res_bind_Ok. eexists. split; [reflexivity|].
      rewrite Hquot by lia. cbn [deltaOut raPost rbPost]. enc_run lia. done.
    + pose proof (curve_out_bounds rb ra din fbps ltac:(lia) ltac:(lia) ltac:(lia) Hf).
      enc_run lia. apply res_bind_Ok. eexists. split; [reflexivity|].
      rewrite Hquot by lia. cbn [deltaOut raPost rbPost]. enc_run lia. done.
Qed.

(** What a fill guarantees the pool and the trader. *)
Lemma curve_fill dir ra rb din fbps c :
  ammCurveDeltaOut dir ra rb din fbps = Ok c →
  u64_pos (raPost c) ∧ u64_pos (rbPost c) ∧ 0 <= deltaOut c < U64 ∧
  ra * rb <= raPost c * rbPost c ∧
  (dir = 0 ∧ raPost c = ra + din ∧ rbPost c = rb - deltaOut c ∨
   dir = 1 ∧ rbPost c = rb + din ∧ raPost c = ra - deltaOut c).
Proof.
  rewrite ammCurveDeltaOut_Ok. unfold curve_args_ok, u64_pos.
  intros ((Ha & Hb & Hd & Hf) & [(-> & Hs & ->)|(-> & Hs & ->)]); cbn [deltaOut raPost rbPost].
  - pose proof (curve_out_bounds ra rb din fbps ltac:(lia) ltac:(lia) ltac:(lia) Hf).
    pose proof (curve_out_k ra rb din fbps ltac:(lia) ltac:(lia) ltac:(lia) Hf).
    repeat split; lia.
  - pose proof (curve_out_bounds rb ra din fbps ltac:(lia) ltac:(lia) ltac:(lia) Hf).
    pose proof (curve_out_k rb ra din fbps ltac:(lia) ltac:(lia) ltac:(lia) Hf).
    repeat split; lia.
Qed.

(** Trading more never yields less. *)
Lemma curve_out_mono r_in r_out d1 d2 fbps :
  0 < r_in → 0 < r_out → 0 < d1 <= d2 → 0 <= fbps <= AMM_FEE_BPS_MAX →
  curve_out r_in r_out d1 fbps <= curve_out r_in r_out d2 fbps.
Proof.
  unfold AMM_FEE_BPS_MAX, curve_out. intros Hi Ho Hd Hf. set (g := 10000 - fbps) in *.
  assert (9000 <= g <= 10000) by lia. clearbody g.
  apply Z.div_le_lower_bound; [nia|].
  set (q := r_out * g * d1 / (r_in * 10000 + g * d1)).
  assert (Hq : (r_in * 10000 + g * d1) * q <= r_out * g * d1) by (apply Z.mul_div_le; nia).
  assert (0 <= q) by (apply Z.div_pos; nia).
  assert (q <= r_out) by (apply Z.div_le_upper_bound; nia). clearbody q.
  assert (g * (d2 - d1) * q <= g * (d2 - d1) * r_out) by nia. nia.
Qed.

(** Trading there and back never makes a profit. *)
Lemma curve_no_free_lunch ra rb din fbps c c' :
  ammCurveDeltaOut 0 ra rb din fbps = Ok c →
  ammCurveDeltaOut 1 (raPost c) (rbPost c) (deltaOut c) fbps = Ok c' →
  deltaOut c' <= din.
Proof.
  intros H1%curve_fill H2%curve_fill. unfold u64_pos in *.
  destruct H1 as (Ha & Hb & Ho & Hk & [(_ & Hra & Hrb)|[? _]]); [|done].
  destruct H2 as (Ha' & Hb' & Ho' & Hk' & [[? _]|(_ & Hrb' & Hra')]); [done|].
  assert (rbPost c' = rb) as E by lia. rewrite E in *.
  assert (ra * rb <= raPost c' * rb) by lia. assert (ra <= raPost c') by nia. lia.
Qed.

(** ** LP shares never dilute the others *)
Lemma ammLpAddShares_Ok da db ra rb s x :
  0 <= da → 0 <= db → 0 <= ra → 0 <= rb → 0 <= s →
  ammLpAddShares da db ra rb s = Ok x ↔
  0 < s ∧ 0 < ra ∧ 0 < rb ∧ x = Z.min (da * s / ra) (db * s / rb).
Proof.
  intros. unfold ammLpAddShares. split.
  - intros Hx. enc_inv Hx. assert (0 < s ∧ 0 < ra ∧ 0 < rb) as (? & ? & ?) by lia.
    injection Hx as <-. rewrite !Z.quot_div_nonneg by nia.
    repeat split; try done. destruct (Z.ltb_spec (da * s / ra) (db * s / rb)); lia.
  - intros (? & ? & ? & ->). enc_run lia. rewrite !Z.quot_div_nonneg by nia.
    unfold mret, res_ret. f_equal. destruct (Z.ltb_spec (da * s / ra) (db * s / rb)); lia.
Qed.

(** A deposit buys at most its proportional part of each reserve. *)
Lemma lp_add_fair da db ra rb s x :
  0 <= da → 0 <= db → 0 <= ra → 0 <= rb → 0 <= s →
  ammLpAddShares da db ra rb s = Ok x →
  0 <= x ∧ x * ra <= da * s ∧ x * rb <= db * s.
Proof.
  intros ????? (? & ? & ? & ->)%ammLpAddShares_Ok; try done.
  pose proof (Z.mul_div_le (da * s) ra ltac:(done)). pose proof (Z.mul_div_le (db * s) rb ltac:(done)).
  assert (0 <= da * s / ra) by (apply Z.div_pos; nia).
  assert (0 <= db * s / rb) by (apply Z.div_pos; nia).
  pose proof (Z.le_min_l (da * s / ra) (db * s / rb)). pose proof (Z.le_min_r (da * s / ra) (db * s / rb)).
  repeat split; nia.
Qed.

Lemma ammLpRemoveOutputs_Ok sa ra rb s da db :
  0 <= sa → 0 <= ra → 0 <= rb → 0 <= s →
  ammLpRemoveOutputs sa ra rb s = Ok (da, db) ↔
  0 < s ∧ sa <= s ∧ da = ra * sa / s ∧ db = rb * sa / s.
Proof.
  intros. unfold ammLpRemoveOutputs. split.
  - intros Hx. enc_inv Hx. injection Hx as <- <-. rewrite !Z.quot_div_nonneg by nia. lia.
  - intros (? & ? & -> & ->). enc_run lia. by rewrite !Z.quot_div_nonneg by nia.
Qed.

(** A withdrawal takes at most its proportional part, and leaves reserves. *)
Lemma lp_remove_fair sa ra rb s da db :
  0 <= sa → 0 <= ra → 0 <= rb → 0 <= s →
  ammLpRemoveOutputs sa ra rb s = Ok (da, db) →
  0 <= da <= ra ∧ 0 <= db <= rb ∧ da * s <= ra * sa ∧ db * s <= rb * sa.
Proof.
  intros ???? (? & ? & -> & ->)%ammLpRemoveOutputs_Ok; try done.
  pose proof (Z.mul_div_le (ra * sa) s ltac:(done)). pose proof (Z.mul_div_le (rb * sa) s ltac:(done)).
  assert (0 <= ra * sa / s) by (apply Z.div_pos; nia).
  assert (0 <= rb * sa / s) by (apply Z.div_pos; nia).
  repeat split; nia.
Qed.

(** Adding liquidity and removing it again never pays out more than was put in. *)
Lemma lp_add_remove_no_gain da db ra rb s x da' db' :
  0 <= da → 0 <= db → 0 <= ra → 0 <= rb → 0 <= s →
  ammLpAddShares da db ra rb s = Ok x →
  ammLpRemoveOutputs x (ra + da) (rb + db) (s + x) = Ok (da', db') →
  da' <= da ∧ db' <= db.
Proof.
  intros Hda Hdb Hra Hrb Hs Hx Hr.
  pose proof (lp_add_fair _ _ _ _ _ _ Hda Hdb Hra Hrb Hs Hx) as (? & ? & ?).
  apply ammLpAddShares_Ok in Hx as (? & ? & ? & _); try done.
  apply lp_remove_fair in Hr as (? & ? & ? & ?); try lia.
  split; nia.
Qed.

(** ** Protocol fee *)
(** The fee formula never fails on a valid rate, and the protocol's part of the enlarged
    supply is at most [bps / 10000] of the relative growth of the root of [k]. *)
Lemma protocol_shares_bound s kPre kNow bps :
  0 <= s → 0 <= kPre → 0 <= bps <= AMM_PROTOCOL_FEE_BPS_MAX →
  ∃ x, ammComputeProtocolShares s kPre kNow bps = Ok x ∧ 0 <= x ∧
       x * 10000 * Z.sqrt kNow <= (s + x) * bps * Z.max 0 (Z.sqrt kNow - Z.sqrt kPre).
Proof.
  intros Hs Hk Hb. unfold ammComputeProtocolShares. rewrite throw_if_run by lia.
  unfold AMM_PROTOCOL_FEE_BPS_MAX in Hb.
  assert (Hzero : 0 * 10000 * Z.sqrt kNow <= (s + 0) * bps * Z.max 0 (Z.sqrt kNow - Z.sqrt kPre)) by nia.
  destruct (Z.eqb_spec bps 0); [by exists 0|].
  destruct (Z.leb_spec kNow kPre); [by exists 0|].
  destruct (Z.eqb_spec s 0); [by exists 0|].
  rewrite (ammIsqrt_spec kPre) by done. unfold mbind, res_bind. rewrite (ammIsqrt_spec kNow) by lia.
  pose proof (Z.sqrt_nonneg kPre). set (p := Z.sqrt kPre) in *. set (w := Z.sqrt kNow) in *. clearbody p w.
  destruct (Z.leb_spec w p); [by exists 0|].
  destruct (Z.eqb_spec ((10000 - bps) * w + bps * p) 0); [by exists 0|].
  assert (0 <= s * bps * (w - p)) by (repeat apply Z.mul_nonneg_nonneg; lia).
  set (d := (10000 - bps) * w + bps * p) in *. assert (0 < d) by (subst d; nia).
  rewrite Z.quot_div_nonneg by done. assert (Hm := Z.mul_div_le (s * bps * (w - p)) d ltac:(done)).
  assert (0 <= s * bps * (w - p) / d) by (by apply Z.div_pos).
  set (x := s * bps * (w - p) / d) in *. clearbody x. exists x.
  split; [done|]. split; [done|]. rewrite Z.max_r by lia. subst d. nia.
Qed.
