(* ===== verification/Curve.v ===== *)
(** * secp256k1 points, Pedersen commitments and BIP-340 signatures

    The curve is [@noble/secp256k1]: a class of operations on points ([Secp]) with its
    algebra as a class of laws ([SecpLaws]).  Over it, the sources' own code:
    [pedersenCommit], [safeMult], [bytesToPoint], the scalar encodings, the tagged hash
    and [signSchnorr] / [verifySchnorr] in the dapp's and in the worker's version.
    noble's [multiply] throws on a scalar outside [1, N-1]; the model keeps that. *)
From S2P Require Import Prelude Bytes Crypto.

Definition SECP_N : Z := 0xfffffffffffffffffffffffffffffffebaaedce6af48a03bbfd25e8cd0364141.
Definition SECP_P : Z := 0xfffffffffffffffffffffffffffffffffffffffffffffffffffffffefffffc2f.

(** ** The library *)
Class Secp := {
  point : Type;
  point_eq_dec :: EqDecision point;
  ZERO : point;                             (* ProjectivePoint.ZERO *)
  G : point;                                (* ProjectivePoint.BASE *)
  H : point;                                (* deriveH(): the second generator *)
  add : point → point → point;              (* P.add(Q) *)
  negate : point → point;                   (* P.negate() *)
  smul : Z → point → point;                 (* the multiple itself *)
  fromHex : bytes → option point;           (* ProjectivePoint.fromHex; None: it throws *)
  toRawBytes : point → bytes                (* P.toRawBytes(true) *)
}.

(** the x coordinate's bytes: [P.toRawBytes(true).slice(1)] *)
Definition xonly `{Secp} (P : point) : bytes := drop 1 (toRawBytes P).
Definition even_y `{Secp} (P : point) : bool := bool_decide (take 1 (toRawBytes P) = u8b 0x02).

Class SecpLaws `{Secp} : Prop := {
  add_assoc P Q R : add P (add Q R) = add (add P Q) R;
  add_comm P Q : add P Q = add Q P;
  add_zero P : add ZERO P = P;
  add_negate P : add P (negate P) = ZERO;
  smul_1 P : smul 1 P = P;
  smul_add a b P : smul (a + b) P = add (smul a P) (smul b P);
  smul_mul a b P : smul (a * b) P = smul a (smul b P);
  smul_order P : smul SECP_N P = ZERO;
  G_order a : smul a G = ZERO → a mod SECP_N = 0;
  raw_len P : blen (toRawBytes P) = 33;
  raw_prefix P : P ≠ ZERO → ∃ p, toRawBytes P = u8b p ++ xonly P ∧ (p = 2 ∨ p = 3);
  raw_negate P : P ≠ ZERO → even_y (negate P) = negb (even_y P) ∧ xonly (negate P) = xonly P;
  raw_range P : unbe (xonly P) < SECP_P;
  fromHex_raw P : P ≠ ZERO → fromHex (toRawBytes P) = Some P;
  raw_fromHex b P : blen b = 33 → fromHex b = Some P → P ≠ ZERO ∧ toRawBytes P = b
}.

Section curve.
Context {SE : Secp}.

Definition equals (P Q : point) : bool := bool_decide (P = Q).

(** [P.multiply(n)]: "invalid scalar" unless [0 < n < N] *)
Definition multiply (P : point) (n : Z) : res point :=
  throw_if (negb ((0 <? n) && (n <? SECP_N))) "invalid scalar";;
  mret (smul n P).

Definition modN (x : Z) : Z := Z.rem (Z.rem x SECP_N + SECP_N) SECP_N.

(** [x === 0n ? ZERO : P.multiply(x)] *)
Definition multiply_or_zero (P : point) (x : Z) : res point :=
  if x =? 0 then mret ZERO else multiply P x.

Definition safeMult (P : point) (s : Z) : res point := multiply_or_zero P (modN s).

Definition pedersenCommit (amount blinding : Z) : res point :=
  aH ← multiply_or_zero H (modN amount);
  rG ← multiply_or_zero G (modN blinding);
  mret (add aH rG).

(** the dapp's [bytesToPoint] and the worker's [compressedPointFromHex] *)
Definition bytesToPoint (b : bytes) : res point :=
  throw_if (negb (blen b =? 33)) "point must be 33 bytes (compressed)";;
  throw_if (negb (byteZ (nth 0 b x00) =? 0x02) && negb (byteZ (nth 0 b x00) =? 0x03))
    "point prefix must be 0x02/0x03";;
  match fromHex b with Some P => mret P | None => Throw "bad point" end.

Definition is_Ok {A} (r : res A) : bool := match r with Ok _ => true | _ => false end.
#[export] Instance bytesToPoint_parser : PointParser := λ b, is_Ok (bytesToPoint b).

Definition bytes32ToBigint (b : bytes) : Z := unbe b.
Definition bigintToBytes32 (n : Z) : bytes := be 32 (modN n).

(** ** BIP-340 *)
Section schnorr.
Context `{Hash}.

Definition _taggedHash (tag : string) (msgs : list bytes) : bytes :=
  let tagHash := sha256 (ascii_bytes tag) in
  sha256 (concatBytes (tagHash :: tagHash :: msgs)).

Definition byte_xor (a b : byte) : byte := byte_of_Z (Z.lxor (byteZ a) (byteZ b)).
(** [for (i < 32) r[i] = a[i] ^ b[i]] on two 32-byte arrays *)
Definition _xor32 (a b : bytes) : bytes := zip_with byte_xor a b.

(** the challenge, [e] *)
Definition challenge (Rx Px msgHash : bytes) : Z :=
  bytes32ToBigint (_taggedHash "BIP0340/challenge" [Rx; Px; msgHash]) mod SECP_N.

(** [aux] is the 32 random bytes [crypto.getRandomValues] fills in. *)
Definition signSchnorr (aux msgHash priv32 : bytes) : res bytes :=
  let dPrime := bytes32ToBigint priv32 in
  throw_if ((dPrime <=? 0) || (dPrime >=? SECP_N)) "schnorr: invalid private key";;
  P ← multiply G dPrime;
  let Px := xonly P in
  let d := if even_y P then dPrime else SECP_N - dPrime in
  let t := _xor32 (bigintToBytes32 d) (_taggedHash "BIP0340/aux" [aux]) in
  let rand := _taggedHash "BIP0340/nonce" [t; Px; msgHash] in
  let kPrime := bytes32ToBigint rand mod SECP_N in
  throw_if (kPrime =? 0) "schnorr: nonce was zero";;
  R ← multiply G kPrime;
  let Rx := xonly R in
  let k := if even_y R then kPrime else SECP_N - kPrime in
  let e := challenge Rx Px msgHash in
  mret (Rx ++ bigintToBytes32 ((k + e * d) mod SECP_N)).

(** What both verifiers check before any curve operation. *)
Definition sig_parse (sig64 msgHash pubXonly32 : bytes) : option (bytes * Z * point) :=
  if negb (blen sig64 =? 64) || negb (blen pubXonly32 =? 32) || negb (blen msgHash =? 32) then None
  else
    let Rx := take 32 sig64 in
    let sBig := bytes32ToBigint (drop 32 sig64) in
    if sBig >=? SECP_N then None
    else if bytes32ToBigint pubXonly32 >=? SECP_P then None
    else match fromHex (u8b 0x02 ++ pubXonly32) with
         | Some P => Some (Rx, sBig, P)
         | None => None
         end.

(** and after computing [R = sG - eP] *)
Definition sig_check (R : point) (Rx : bytes) : bool :=
  negb (equals R ZERO) && even_y R && bool_decide (xonly R = Rx).

(** The dapp's verifier calls [multiply] on [s] and [e] as they come. *)
Definition verifySchnorr (sig64 msgHash pubXonly32 : bytes) : res bool :=
  match sig_parse sig64 msgHash pubXonly32 with
  | None => mret false
  | Some (Rx, sBig, P) =>
      sG ← multiply G sBig;
      eP ← multiply P (challenge Rx pubXonly32 msgHash);
      mret (sig_check (add sG (negate eP)) Rx)
  end.

(** The worker's verifier treats a zero scalar as the identity. *)
Definition verifySchnorrWorker (sig64 msgHash pubXonly32 : bytes) : res bool :=
  match sig_parse sig64 msgHash pubXonly32 with
  | None => mret false
  | Some (Rx, sBig, P) =>
      sG ← multiply_or_zero G sBig;
      eP ← multiply_or_zero P (challenge Rx pubXonly32 msgHash);
      mret (sig_check (add sG (negate eP)) Rx)
  end.
End schnorr.
End curve.

(** ** The group *)
Section group.
Context {SE : Secp} {SL : SecpLaws}.

Lemma add_zero_r P : add P ZERO = P.
Proof. by rewrite add_comm, add_zero. Qed.

Lemma add_cancel P Q R : add P Q = add P R → Q = R.
Proof.
  intros E%(f_equal (add (negate P))). rewrite !add_assoc, (add_comm (negate P)) in E.
  by rewrite add_negate, !add_zero in E.
Qed.

Lemma negate_unique P Q : add P Q = ZERO → Q = negate P.
Proof. intros HPQ. apply (add_cancel P). by rewrite HPQ, add_negate. Qed.

Lemma smul_0 P : smul 0 P = ZERO.
Proof. apply (add_cancel (smul 0 P)). by rewrite <- smul_add, add_zero_r. Qed.

Lemma smul_opp a P : smul (- a) P = negate (smul a P).
Proof. apply negate_unique. rewrite <- smul_add. by rewrite Z.add_opp_diag_r, smul_0. Qed.

Lemma smul_sub a b P : smul (a - b) P = add (smul a P) (negate (smul b P)).
Proof. by rewrite <- smul_opp, <- smul_add. Qed.

Lemma smul_ZERO a : smul a ZERO = ZERO.
Proof. rewrite <- (smul_0 G), <- smul_mul. by rewrite Z.mul_0_r. Qed.

Lemma smul_mod a P : smul (a mod SECP_N) P = smul a P.
Proof.
  rewrite (Z.div_mod a SECP_N) at 2 by done.
  by rewrite smul_add, (Z.mul_comm SECP_N), smul_mul, smul_order, smul_ZERO, add_zero.
Qed.

Lemma negate_negate P : negate (negate P) = P.
Proof. symmetry. apply negate_unique. by rewrite add_comm, add_negate. Qed.

Lemma negate_ZERO : negate ZERO = ZERO.
Proof. symmetry. apply negate_unique. by rewrite add_zero. Qed.

Lemma negate_add P Q : negate (add P Q) = add (negate P) (negate Q).
Proof.
  symmetry. apply negate_unique.
  rewrite (add_comm (negate P)), add_assoc, <- (add_assoc P Q (negate Q)).
  by rewrite add_negate, add_zero_r, add_negate.
Qed.

(** rearranges four summands *)
Lemma add_swap P Q R S : add (add P Q) (add R S) = add (add P R) (add Q S).
Proof. rewrite <- !add_assoc. f_equal. rewrite !add_assoc. f_equal. apply add_comm. Qed.

Lemma smul_neq a : 0 < a < SECP_N → smul a G ≠ ZERO.
Proof. intros Ha E. apply G_order in E. rewrite (Z.mod_small a SECP_N) in E by lia. lia. Qed.

Lemma smul_G_neq_mod a : a mod SECP_N ≠ 0 → smul a G ≠ ZERO.
Proof. intros Ha E. by apply G_order in E. Qed.

Lemma modN_mod x : modN x = x mod SECP_N.
Proof.
  unfold modN. assert (0 < SECP_N) by done. set (n := SECP_N) in *. clearbody n.
  pose proof (Z.rem_bound_abs x n ltac:(lia)) as Hb. pose proof (Z.quot_rem' x n) as Hq.
  rewrite Z.rem_mod_nonneg by lia. set (r := Z.rem x n) in *. rewrite Hq.
  replace (r + n) with (r + 1 * n) by lia. replace (n * (x ÷ n) + r) with (r + (x ÷ n) * n) by lia.
  by rewrite !Z.mod_add by lia.
Qed.

Lemma modN_range x : 0 <= modN x < SECP_N.
Proof. rewrite modN_mod. by apply Z.mod_pos_bound. Qed.

Lemma multiply_Ok P n Q : multiply P n = Ok Q ↔ 0 < n < SECP_N ∧ Q = smul n P.
Proof.
  unfold multiply. split.
  - intros E. enc_inv E. injection E as <-. bool_to_prop. done.
  - intros [Hn ->]. enc_run ltac:(bool_goal; lia). done.
Qed.

Lemma multiply_or_zero_Ok P x : 0 <= x < SECP_N → multiply_or_zero P x = Ok (smul x P).
Proof.
  intros Hx. unfold multiply_or_zero. destruct (Z.eqb_spec x 0) as [->|].
  - by rewrite smul_0.
  - apply multiply_Ok. split; [lia|done].
Qed.

Lemma safeMult_Ok P s : safeMult P s = Ok (smul s P).
Proof.
  unfold safeMult. rewrite multiply_or_zero_Ok by apply modN_range. by rewrite modN_mod, smul_mod.
Qed.

(** The commitment never throws, whatever the amounts. *)
Definition commit (v r : Z) : point := add (smul v H) (smul r G).

Lemma pedersenCommit_Ok v r : pedersenCommit v r = Ok (commit v r).
Proof.
  unfold pedersenCommit. rewrite !multiply_or_zero_Ok by apply modN_range.
  unfold mbind, res_bind, commit. by rewrite !modN_mod, !smul_mod.
Qed.

(** ** Encodings *)
Lemma bytesToPoint_raw P : P ≠ ZERO → bytesToPoint (toRawBytes P) = Ok P.
Proof.
  intros HP. unfold bytesToPoint. destruct (raw_prefix P HP) as (p & Hraw & Hp).
  rewrite throw_if_run by (rewrite raw_len; done). rewrite throw_if_run; [by rewrite fromHex_raw|].
  rewrite Hraw. by destruct Hp as [-> | ->].
Qed.

Lemma bytesToPoint_Ok b P : bytesToPoint b = Ok P ↔ P ≠ ZERO ∧ toRawBytes P = b.
Proof.
  split.
  - unfold bytesToPoint. intros E. enc_inv E. bool_to_prop. destruct (fromHex b) eqn:Hb; [|done].
    injection E as ->. by apply raw_fromHex.
  - intros [HP <-]. by apply bytesToPoint_raw.
Qed.

Lemma xonly_len P : blen (xonly P) = 32.
Proof. pose proof (raw_len P) as Hl. unfold xonly, blen in *. rewrite length_drop. lia. Qed.

Lemma even_raw P : P ≠ ZERO → toRawBytes P = u8b (if even_y P then 2 else 3) ++ xonly P.
Proof.
  intros HP. destruct (raw_prefix P HP) as (p & Hraw & Hp).
  assert (Ht : take 1 (toRawBytes P) = u8b p) by (by rewrite Hraw).
  rewrite Hraw at 1. do 2 f_equal. unfold even_y. rewrite (bool_decide_ext _ (u8b p = u8b 2)) by (by rewrite Ht).
  by destruct Hp as [-> | ->].
Qed.

(** the point with the x coordinate of [P] and an even y *)
Definition lift (P : point) : point := if even_y P then P else negate P.

Lemma negate_neq P : P ≠ ZERO → negate P ≠ ZERO.
Proof. intros HP E. apply HP. by rewrite <- (negate_negate P), E, negate_ZERO. Qed.

Lemma lift_spec P : P ≠ ZERO → lift P ≠ ZERO ∧ even_y (lift P) = true ∧ xonly (lift P) = xonly P.
Proof.
  intros HP. unfold lift. destruct (even_y P) eqn:He; [done|].
  destruct (raw_negate P HP) as [Hn Hx]. rewrite Hn, He. split; [by apply negate_neq|done].
Qed.

Lemma fromHex_xonly P : P ≠ ZERO → fromHex (u8b 2 ++ xonly P) = Some (lift P).
Proof.
  intros HP. destruct (lift_spec P HP) as (Hl & He & Hx). rewrite <- Hx.
  pose proof (even_raw (lift P) Hl) as Hraw. rewrite He in Hraw. rewrite <- Hraw.
  by apply fromHex_raw.
Qed.

Lemma fromHex_xonly_inv x P :
  blen x = 32 → fromHex (u8b 2 ++ x) = Some P → P ≠ ZERO ∧ even_y P = true ∧ xonly P = x.
Proof.
  intros Hx HP. apply raw_fromHex in HP as [HP Hraw]; [|rewrite blen_app, blen_u8b; lia].
  split; [done|]. split; [|unfold xonly; rewrite Hraw; cbn; apply drop_0].
  unfold even_y. apply bool_decide_eq_true. by rewrite Hraw.
Qed.

Lemma lift_smul d : even_y (smul d G) = true ∧ lift (smul d G) = smul d G ∨
  even_y (smul d G) = false ∧ lift (smul d G) = smul (- d) G.
Proof. unfold lift. rewrite smul_opp. destruct (even_y (smul d G)); auto. Qed.
End group.

(** ** Signatures *)
Lemma blen_be n v : blen (be n v) = Z.of_nat n.
Proof. unfold be, blen. by rewrite length_rev, length_le. Qed.

Lemma unbe_be n v : unbe (be n v) = v mod 256 ^ Z.of_nat n.
Proof. unfold be, unbe. by rewrite rev_involutive, unle_le. Qed.

Lemma unbe_nonneg b : 0 <= unbe b.
Proof. unfold unbe. apply unle_range. Qed.

Section signatures.
Context {SE : Secp} {SL : SecpLaws} `{Hash}.

Lemma bigintToBytes32_round n : bytes32ToBigint (bigintToBytes32 n) = modN n.
Proof.
  unfold bytes32ToBigint, bigintToBytes32. rewrite unbe_be, Z.mod_small; [done|].
  pose proof (modN_range n). change (256 ^ Z.of_nat 32) with (2 ^ 256).
  assert (SECP_N < 2 ^ 256) by done. lia.
Qed.

Lemma challenge_range Rx Px m : 0 <= challenge Rx Px m < SECP_N.
Proof. by apply Z.mod_pos_bound. Qed.

Lemma sig_parse_Some sig m pk Rx s P :
  sig_parse sig m pk = Some (Rx, s, P) →
  blen sig = 64 ∧ blen pk = 32 ∧ blen m = 32 ∧ Rx = take 32 sig ∧ s = bytes32ToBigint (drop 32 sig) ∧
  0 <= s < SECP_N ∧ P ≠ ZERO ∧ even_y P = true ∧ xonly P = pk.
Proof.
  unfold sig_parse. destruct (_ || _) eqn:Hlen; [done|]. bool_to_prop.
  destruct (Z.geb_spec (bytes32ToBigint (drop 32 sig)) SECP_N); [done|].
  destruct (_ >=? SECP_P); [done|]. destruct (fromHex _) eqn:HP; [|done].
  intros [= <- <- <-]. apply fromHex_xonly_inv in HP as (? & ? & ?); [|done].
  pose proof (unbe_nonneg (drop 32 sig)). unfold bytes32ToBigint in *. by repeat split.
Qed.

(** The worker's verifier never throws; the dapp's does exactly on a zero scalar. *)
Lemma verifyWorker_Ok sig m pk Rx s P :
  sig_parse sig m pk = Some (Rx, s, P) →
  verifySchnorrWorker sig m pk =
    Ok (sig_check (add (smul s G) (negate (smul (challenge Rx pk m) P))) Rx).
Proof.
  intros Hp. unfold verifySchnorrWorker. rewrite Hp. apply sig_parse_Some in Hp as (_&_&_&_&_&Hs&_).
  rewrite multiply_or_zero_Ok by apply challenge_range. unfold mbind, res_bind.
  by rewrite multiply_or_zero_Ok by exact Hs.
Qed.

Lemma verifyWorker_total sig m pk : ∃ b, verifySchnorrWorker sig m pk = Ok b.
Proof.
  destruct (sig_parse sig m pk) as [[[Rx s] P]|] eqn:Hp.
  - eexists. by apply verifyWorker_Ok.
  - exists false. unfold verifySchnorrWorker. by rewrite Hp.
Qed.

Lemma verify_dapp_worker sig m pk :
  verifySchnorr sig m pk =
    match sig_parse sig m pk with
    | Some (Rx, s, P) => if (s =? 0) || (challenge Rx pk m =? 0) then Throw "invalid scalar"
                         else verifySchnorrWorker sig m pk
    | None => Ok false
    end.
Proof.
  destruct (sig_parse sig m pk) as [[[Rx s] P]|] eqn:Hp; [|unfold verifySchnorr; by rewrite Hp].
  rewrite (verifyWorker_Ok _ _ _ _ _ _ Hp). unfold verifySchnorr. rewrite Hp.
  apply sig_parse_Some in Hp as (_&_&_&_&_&Hs&_). pose proof (challenge_range Rx pk m) as He.
  destruct (Z.eqb_spec s 0) as [->|]; [done|].
  rewrite (proj2 (multiply_Ok G s (smul s G))) by (split; [lia|done]).
  destruct (Z.eqb_spec (challenge Rx pk m) 0) as [->|]; [done|].
  by rewrite (proj2 (multiply_Ok P _ (smul (challenge Rx pk m) P))) by (split; [lia|done]).
Qed.

Lemma verify_dapp_Ok sig m pk b : verifySchnorr sig m pk = Ok b → verifySchnorrWorker sig m pk = Ok b.
Proof.
  rewrite verify_dapp_worker. unfold verifySchnorrWorker.
  destruct (sig_parse sig m pk) as [[[Rx s] P]|]; [|done]. by destruct (_ || _).
Qed.

(** An accepted signature satisfies the verification equation with an even nonce point. *)
Lemma verify_equation sig m pk :
  verifySchnorrWorker sig m pk = Ok true →
  ∃ Rx s P R, sig_parse sig m pk = Some (Rx, s, P) ∧ R ≠ ZERO ∧ even_y R = true ∧ xonly R = Rx ∧
    smul s G = add R (smul (challenge Rx pk m) P).
Proof.
  destruct (sig_parse sig m pk) as [[[Rx s] P]|] eqn:Hp.
  - rewrite (verifyWorker_Ok _ _ _ _ _ _ Hp). intros [= Hc]. unfold sig_check, equals in Hc.
    bool_to_prop. eexists _, _, _, _. split; [done|]. do 3 (split; [eassumption|]).
    by rewrite <- add_assoc, (add_comm (negate _)), add_negate, add_zero_r.
  - unfold verifySchnorrWorker. by rewrite Hp.
Qed.

(** What the signer signs, the worker's verifier accepts. *)
Lemma sign_verify aux m priv sig :
  blen m = 32 → signSchnorr aux m priv = Ok sig →
  verifySchnorrWorker sig m (xonly (smul (bytes32ToBigint priv) G)) = Ok true.
Proof.
  intros Hm Hs. unfold signSchnorr in Hs. set (d := bytes32ToBigint priv) in *.
  enc_inv Hs. apply res_bind_Ok in Hs as (P & HP & Hs). apply multiply_Ok in HP as [Hd ->].
  enc_inv Hs. apply res_bind_Ok in Hs as (R & HR & Hs). apply multiply_Ok in HR as [Hk ->].
  set (k := bytes32ToBigint _ mod SECP_N) in *. clearbody k.
  set (e := challenge _ _ _) in *. injection Hs as <-.
  assert (HdG : smul d G ≠ ZERO) by (by apply smul_neq). assert (HkG : smul k G ≠ ZERO) by (by apply smul_neq).
  destruct (lift_spec _ HdG) as (HP0 & HPe & HPx). destruct (lift_spec _ HkG) as (HR0 & HRe & HRx).
  set (k' := if even_y (smul k G) then k else SECP_N - k).
  set (d' := if even_y (smul d G) then d else SECP_N - d).
  assert (Hlift : ∀ a, smul (if even_y (smul a G) then a else SECP_N - a) G = lift (smul a G)).
  { intros a. unfold lift. destruct (even_y (smul a G)); [done|].
    by rewrite smul_sub, smul_order, add_zero. }
  assert (Hparse : sig_parse (xonly (smul k G) ++ bigintToBytes32 ((k' + e * d') mod SECP_N)) m
            (xonly (smul d G)) = Some (xonly (smul k G), (k' + e * d') mod SECP_N, lift (smul d G))).
  { pose proof (xonly_len (smul k G)) as Hx. pose proof (xonly_len (smul d G)) as Hx'.
    unfold sig_parse. rewrite blen_app. unfold bigintToBytes32 at 1. rewrite blen_be, Hx, Hx', Hm.
    rewrite drop_app_length', take_app_length' by (unfold blen in Hx; lia). cbn [orb negb].
    rewrite bigintToBytes32_round, modN_mod, Z.mod_mod by done.
    pose proof (Z.mod_pos_bound (k' + e * d') SECP_N ltac:(done)).
    destruct (Z.geb_spec ((k' + e * d') mod SECP_N) SECP_N); [lia|].
    pose proof (raw_range (smul d G)). destruct (Z.geb_spec (bytes32ToBigint (xonly (smul d G))) SECP_P).
    { unfold bytes32ToBigint in *. lia. }
    by rewrite fromHex_xonly. }
  rewrite (verifyWorker_Ok _ _ _ _ _ _ Hparse). fold e. f_equal.
  assert (Hpt : add (smul ((k' + e * d') mod SECP_N) G) (negate (smul e (lift (smul d G)))) = lift (smul k G)).
  { rewrite smul_mod, smul_add, smul_mul. unfold k', d'. rewrite !Hlift.
    by rewrite <- add_assoc, add_negate, add_zero_r. }
  rewrite Hpt. unfold sig_check, equals. rewrite HRe, HRx. by rewrite bool_decide_eq_false_2, bool_decide_eq_true_2.
Qed.

(** Two accepting signatures on one nonce with different challenges give the key. *)
Lemma special_soundness R P s1 e1 s2 e2 :
  smul s1 G = add R (smul e1 P) → smul s2 G = add R (smul e2 P) →
  smul (s1 - s2) G = smul (e1 - e2) P.
Proof.
  intros H1 H2. rewrite !smul_sub, H1, H2, negate_add, add_swap, add_negate. by rewrite add_zero.
Qed.
End signatures.
