(* ===== verification/Hex.v ===== *)
(** * Hexadecimal and decimal strings

    [bytesToHex] and [hexToBytes] of the vendored [@noble/hashes], the lower-case
    spelling the sources compare by, and the numbers a string of digits stands for.  A
    JavaScript string is modelled by its characters below 256; the strings the sources
    look into are hexadecimal or decimal. *)
From Stdlib Require Import Ascii.
From stdpp Require Import strings pretty.
From S2P Require Import Prelude Bytes Curve.

(** ** Characters *)
Definition hex_char (n : Z) : ascii := ascii_of_N (Z.to_N (if n <? 10 then 48 + n else 87 + n)).
Definition hex_value (c : ascii) : option Z :=
  let n := Z.of_N (N_of_ascii c) in
  if (48 <=? n) && (n <=? 57) then Some (n - 48)
  else if (65 <=? n) && (n <=? 70) then Some (n - 55)
  else if (97 <=? n) && (n <=? 102) then Some (n - 87)
  else None.
Definition dec_value (c : ascii) : option Z :=
  let n := Z.of_N (N_of_ascii c) in if (48 <=? n) && (n <=? 57) then Some (n - 48) else None.
Definition lower_char (c : ascii) : ascii :=
  let n := Z.of_N (N_of_ascii c) in if (65 <=? n) && (n <=? 90) then ascii_of_N (Z.to_N (n + 32)) else c.

Fixpoint string_all (f : ascii → bool) (s : string) : bool :=
  match s with "" => true | String c s => f c && string_all f s end%string.
(** [s.toLowerCase()] *)
Fixpoint toLowerCase (s : string) : string :=
  match s with "" => "" | String c s => String (lower_char c) (toLowerCase s) end%string.

(** ** Bytes *)
Fixpoint bytesToHex (b : bytes) : string :=
  match b with
  | [] => ""
  | x :: b => String (hex_char (byteZ x / 16)) (String (hex_char (byteZ x mod 16)) (bytesToHex b))
  end%string.
Fixpoint hexToBytes (s : string) : res bytes :=
  match s with
  | "" => mret []
  | String a (String b s) =>
      match hex_value a, hex_value b with
      | Some hi, Some lo => rest ← hexToBytes s; mret (byte_of_Z (hi * 16 + lo) :: rest)
      | _, _ => Throw "hex string expected, got non-hex character"
      end
  | _ => Throw "padded hex string expected, got unpadded hex"
  end%string.

(** [/^[0-9a-fA-F]{64}$/.test(s)] *)
Definition is_hex64 (s : string) : bool :=
  (String.length s =? 64)%nat && string_all (λ c, if hex_value c is Some _ then true else false) s.
(** [/^[0-9]+$/.test(s)] *)
Definition is_decimal (s : string) : bool :=
  negb (String.length s =? 0)%nat && string_all (λ c, if dec_value c is Some _ then true else false) s.

(** the number a string of digits is read as *)
Fixpoint digits (value : ascii → option Z) (base acc : Z) (s : string) : option Z :=
  match s with
  | "" => Some acc
  | String c s => v ← value c; digits value base (acc * base + v) s
  end%string.
Definition dec_number : string → option Z := digits dec_value 10 0.
Definition hex_number : string → option Z := digits hex_value 16 0.
(** [BigInt('0x' + s)] and [BigInt(s)] *)
Definition BigInt_hex (s : string) : res Z :=
  if (String.length s =? 0)%nat then Throw "Cannot convert to a BigInt" else
  match hex_number s with Some v => mret v | None => Throw "Cannot convert to a BigInt" end.

(** ** Laws *)
Lemma hex_char_value n : 0 <= n < 16 → hex_value (hex_char n) = Some n.
Proof.
  intros Hn. assert (n = 0 ∨ n = 1 ∨ n = 2 ∨ n = 3 ∨ n = 4 ∨ n = 5 ∨ n = 6 ∨ n = 7 ∨ n = 8 ∨ n = 9 ∨ n = 10 ∨
    n = 11 ∨ n = 12 ∨ n = 13 ∨ n = 14 ∨ n = 15) as Hc by lia.
  by repeat destruct Hc as [->|Hc]; subst.
Qed.
Lemma hex_char_lower n : 0 <= n < 16 → lower_char (hex_char n) = hex_char n.
Proof.
  intros Hn. assert (n = 0 ∨ n = 1 ∨ n = 2 ∨ n = 3 ∨ n = 4 ∨ n = 5 ∨ n = 6 ∨ n = 7 ∨ n = 8 ∨ n = 9 ∨ n = 10 ∨
    n = 11 ∨ n = 12 ∨ n = 13 ∨ n = 14 ∨ n = 15) as Hc by lia.
  by repeat destruct Hc as [->|Hc]; subst.
Qed.
Lemma hex_char_dec n : 0 <= n < 10 → dec_value (hex_char n) = Some n.
Proof.
  intros Hn. assert (n = 0 ∨ n = 1 ∨ n = 2 ∨ n = 3 ∨ n = 4 ∨ n = 5 ∨ n = 6 ∨ n = 7 ∨ n = 8 ∨ n = 9) as Hc by lia.
  by repeat destruct Hc as [->|Hc]; subst.
Qed.

Lemma nibbles (x : byte) : 0 <= byteZ x / 16 < 16 ∧ 0 <= byteZ x mod 16 < 16 ∧ byteZ x = byteZ x / 16 * 16 + byteZ x mod 16.
Proof.
  pose proof (byteZ_range x). pose proof (Z.div_mod (byteZ x) 16 ltac:(lia)). pose proof (Z.mod_pos_bound (byteZ x) 16 ltac:(lia)).
  split; [split; [apply Z.div_pos|apply Z.div_lt_upper_bound]; lia|lia].
Qed.

Lemma hexToBytes_bytesToHex b : hexToBytes (bytesToHex b) = Ok b.
Proof.
  induction b as [|x b IH]; [done|]. cbn [bytesToHex hexToBytes]. destruct (nibbles x) as (Hh & Hl & E).
  rewrite !hex_char_value, IH by done. cbn [mbind res_bind mret res_ret]. by rewrite <- E, byte_of_byteZ.
Qed.
#[export] Instance bytesToHex_inj : Inj (=) (=) bytesToHex.
Proof. intros a b E%(f_equal hexToBytes). rewrite !hexToBytes_bytesToHex in E. congruence. Qed.
Lemma bytesToHex_length b : String.length (bytesToHex b) = (2 * length b)%nat.
Proof. induction b as [|x b IH]; [done|]. cbn [bytesToHex String.length length]. lia. Qed.
Lemma bytesToHex_lower b : toLowerCase (bytesToHex b) = bytesToHex b.
Proof.
  induction b as [|x b IH]; [done|]. cbn [bytesToHex toLowerCase]. destruct (nibbles x) as (Hh & Hl & _).
  by rewrite !hex_char_lower, IH.
Qed.
Lemma bytesToHex_hex64 b : blen b = 32 → is_hex64 (bytesToHex b) = true.
Proof.
  intros Hb. unfold is_hex64. rewrite bytesToHex_length. unfold blen in Hb. assert (length b = 32%nat) as -> by lia.
  cbn [Nat.mul Nat.add Nat.eqb andb]. clear Hb. induction b as [|x b IH]; [done|]. cbn [bytesToHex string_all].
  destruct (nibbles x) as (Hh & Hl & _). by rewrite !hex_char_value.
Qed.

Lemma unbe_cons x b : unbe (x :: b) = byteZ x * 256 ^ blen b + unbe b.
Proof. unfold unbe. cbn [rev]. rewrite unle_app. unfold blen. rewrite length_rev. cbn [unle]. ring. Qed.

Lemma digits_hex b acc : digits hex_value 16 acc (bytesToHex b) = Some (acc * 256 ^ blen b + unbe b).
Proof.
  revert acc. induction b as [|x b IH]; intros acc; [cbn [bytesToHex digits]; f_equal; change (256 ^ blen []) with 1; change (unbe []) with 0; lia|].
  cbn [bytesToHex digits]. destruct (nibbles x) as (Hh & Hl & E). rewrite !hex_char_value by done. cbn [mbind option_bind].
  rewrite IH. f_equal. rewrite blen_cons. rewrite unbe_cons. rewrite Z.pow_add_r by (pose proof (blen_nonneg b); lia). nia.
Qed.
Lemma hex_number_bytes b : hex_number (bytesToHex b) = Some (unbe b).
Proof. unfold hex_number. by rewrite digits_hex. Qed.

Lemma bytesToHex_app a b : bytesToHex (a ++ b) = (bytesToHex a +:+ bytesToHex b)%string.
Proof. induction a as [|x a IH]; [done|]. cbn [bytesToHex app String.append]. by rewrite IH. Qed.
Lemma string_all_app f a b : string_all f (a +:+ b)%string = string_all f a && string_all f b.
Proof. induction a as [|c a IH]; [done|]. simpl. by rewrite IH, andb_assoc. Qed.
Lemma digits_app value base acc a b :
  digits value base acc (a +:+ b)%string = (v ← digits value base acc a; digits value base v b).
Proof.
  revert acc. induction a as [|c a IH]; intros acc; [done|]. simpl.
  destruct (value c); [|done]. cbn [mbind option_bind]. apply IH.
Qed.

(** ** Decimal numbers *)
Lemma pretty_N_char_value n : (n < 10)%N → dec_value (pretty_N_char n) = Some (Z.of_N n).
Proof.
  intros Hn. assert (n = 0 ∨ n = 1 ∨ n = 2 ∨ n = 3 ∨ n = 4 ∨ n = 5 ∨ n = 6 ∨ n = 7 ∨ n = 8 ∨ n = 9)%N as Hc by lia.
  by repeat destruct Hc as [->|Hc]; subst.
Qed.
Lemma digits_pretty_go x s : digits dec_value 10 0 (pretty_N_go x s) = digits dec_value 10 (Z.of_N x) s.
Proof.
  revert s. induction (N.lt_wf_0 x) as [x _ IH]. intros s. destruct (decide (0 < x)%N) as [Hx|Hx].
  - rewrite pretty_N_go_step by done. rewrite IH by (apply N.div_lt; lia). cbn [digits].
    rewrite pretty_N_char_value by (apply N.mod_lt; lia). cbn [mbind option_bind]. f_equal.
    pose proof (N.div_mod x 10 ltac:(lia)). lia.
  - assert (x = 0%N) as -> by lia. by rewrite pretty_N_go_0.
Qed.
Lemma dec_number_pretty v : 0 <= v → dec_number (pretty v) = Some v.
Proof.
  intros Hv. unfold dec_number. destruct v as [|p|p]; [done| |lia].
  change (pretty (Z.pos p)) with (pretty (N.pos p)). unfold pretty, pretty_N.
  case_decide; [done|]. by rewrite digits_pretty_go.
Qed.

(** the number written in two decimal digits to the byte, in [n] bytes *)
Fixpoint bcd (n : nat) (v : Z) : bytes :=
  match n with O => [] | S n => bcd n (v / 100) ++ u8b (v / 10 mod 10 * 16 + v mod 10) end.
Lemma blen_bcd n v : blen (bcd n v) = Z.of_nat n.
Proof. revert v. induction n as [|n IH]; intros v; [done|]. cbn [bcd]. rewrite blen_app, IH, blen_u8b. lia. Qed.

Lemma bcd_pair v : ∃ c d,
  bytesToHex (u8b (v / 10 mod 10 * 16 + v mod 10)) = String c (String d "")%string ∧
  dec_value c = Some (v / 10 mod 10) ∧ dec_value d = Some (v mod 10).
Proof.
  pose proof (Z.mod_pos_bound (v / 10) 10 ltac:(lia)). pose proof (Z.mod_pos_bound v 10 ltac:(lia)).
  exists (hex_char (v / 10 mod 10)), (hex_char (v mod 10)). unfold u8b. cbn [bytesToHex].
  rewrite byteZ_of_Z, Z.mod_small by lia. rewrite Z.div_add_l, (Z.div_small (v mod 10)), Z.add_0_r by lia.
  rewrite Z.add_comm, Z.mod_add, (Z.mod_small (v mod 10)) by lia. by rewrite !hex_char_dec.
Qed.
Lemma bcd_decimal n v : string_all (λ c, if dec_value c is Some _ then true else false) (bytesToHex (bcd n v)) = true.
Proof.
  revert v. induction n as [|n IH]; intros v; [done|]. cbn [bcd]. rewrite bytesToHex_app, string_all_app, IH.
  destruct (bcd_pair v) as (c & d & -> & Hc & Hd). cbn [string_all]. by rewrite Hc, Hd.
Qed.
Lemma bcd_number n v acc :
  0 <= v < 100 ^ Z.of_nat n → digits dec_value 10 acc (bytesToHex (bcd n v)) = Some (acc * 100 ^ Z.of_nat n + v).
Proof.
  revert v acc. induction n as [|n IH]; intros v acc Hv.
  - cbn [bcd bytesToHex digits]. change (100 ^ Z.of_nat 0) with 1 in *. f_equal. lia.
  - rewrite Nat2Z.inj_succ, Z.pow_succ_r in * by lia. cbn [bcd]. rewrite bytesToHex_app, digits_app.
    rewrite IH by (split; [apply Z.div_pos|apply Z.div_lt_upper_bound]; lia). cbn [mbind option_bind].
    destruct (bcd_pair v) as (c & d & -> & Hc & Hd). cbn [digits]. rewrite Hc. cbn [mbind option_bind]. rewrite Hd.
    cbn [mbind option_bind]. f_equal. replace (v / 100) with (v / 10 / 10) by (by rewrite Z.div_div).
    pose proof (Z.div_mod v 10 ltac:(lia)). pose proof (Z.div_mod (v / 10) 10 ltac:(lia)). lia.
Qed.
Lemma dec_number_bcd n v : 0 <= v < 100 ^ Z.of_nat n → dec_number (bytesToHex (bcd n v)) = Some v.
Proof. intros Hv. unfold dec_number. by rewrite bcd_number. Qed.

Lemma lower_char_value c : hex_value (lower_char c) = hex_value c.
Proof. by destruct c as [[] [] [] [] [] [] [] []]. Qed.
Lemma toLowerCase_length s : String.length (toLowerCase s) = String.length s.
Proof. induction s as [|c s IH]; [done|]. cbn [toLowerCase String.length]. by rewrite IH. Qed.
Lemma hexToBytes_lower s : hexToBytes (toLowerCase s) = hexToBytes s.
Proof.
  remember (String.length s) as n eqn:Hn. revert s Hn. induction (lt_wf n) as [n _ IH]. intros [|a [|b s]] Hn; [done..|].
  cbn [toLowerCase hexToBytes]. rewrite !lower_char_value. by rewrite (IH (String.length s)) by (subst; cbn; lia).
Qed.
Lemma is_hex64_lower s : is_hex64 (toLowerCase s) = is_hex64 s.
Proof.
  unfold is_hex64. rewrite toLowerCase_length. f_equal. induction s as [|c s IH]; [done|]. cbn [toLowerCase string_all].
  by rewrite lower_char_value, IH.
Qed.
Lemma hexToBytes_length s b : hexToBytes s = Ok b → String.length s = (2 * length b)%nat.
Proof.
  remember (String.length s) as n eqn:Hn. revert s Hn b. induction (lt_wf n) as [n _ IH]. intros [|x [|y s]] Hn b E; cbn in E.
  - injection E as <-. done.
  - done.
  - destruct (hex_value x), (hex_value y); try done. destruct (hexToBytes s) as [r| | |] eqn:Er; try done. injection E as <-.
    specialize (IH (String.length s) ltac:(subst; cbn; lia) s eq_refl r Er). subst n. cbn [String.length length]. lia.
Qed.

(** a decimal digit *)
Definition dec_char (c : ascii) : bool := if dec_value c is Some _ then true else false.
Lemma pretty_go_decimal x s : string_all dec_char (pretty_N_go x s) = string_all dec_char s.
Proof.
  revert s. induction (N.lt_wf_0 x) as [x _ IH]. intros s. destruct (decide (0 < x)%N) as [Hx|Hx].
  - rewrite pretty_N_go_step, IH by (try apply N.div_lt; lia). cbn [string_all]. unfold dec_char at 1.
    by rewrite pretty_N_char_value by (apply N.mod_lt; lia).
  - assert (x = 0%N) as -> by lia. by rewrite pretty_N_go_0.
Qed.
Lemma pretty_decimal v : 0 <= v → is_decimal (pretty v) = true.
Proof.
  intros Hv. unfold is_decimal. destruct v as [|p|p]; [done| |lia].
  change (pretty (Z.pos p)) with (pretty (N.pos p)). unfold pretty, pretty_N. case_decide; [done|].
  change (λ c, if dec_value c is Some _ then true else false) with dec_char. rewrite pretty_go_decimal.
  assert (Hl : ∀ x s, (String.length s <= String.length (pretty_N_go x s))%nat).
  { intros x. induction (N.lt_wf_0 x) as [x _ IH]. intros s. destruct (decide (0 < x)%N) as [Hx|Hx].
    - rewrite pretty_N_go_step by done. etrans; [|apply IH; apply N.div_lt; lia]. cbn [String.length]. lia.
    - assert (x = 0%N) as -> by lia. by rewrite pretty_N_go_0. }
  rewrite pretty_N_go_step by lia. pose proof (Hl (N.pos p / 10)%N (String (pretty_N_char (N.pos p mod 10)) "")) as H1.
  cbn [String.length] in H1. by destruct (Nat.eqb_spec (String.length (pretty_N_go (N.pos p / 10) (String (pretty_N_char (N.pos p mod 10)) ""))) 0); [lia|].
Qed.
(** no digit, decimal or hexadecimal, is an [x] *)
Lemma digits_no_0x (f : ascii → bool) s : f "x"%char = false → string_all f s = true → String.substring 0 2 s ≠ "0x"%string.
Proof.
  intros Hx Hs. destruct s as [|a [|b s]]; [done..|]. cbn [String.substring string_all] in *. intros E.
  assert (b = "x"%char) as -> by congruence. rewrite Hx, andb_false_r in Hs. done.
Qed.
Lemma bytesToHex_digits b : string_all (λ c, if hex_value c is Some _ then true else false) (bytesToHex b) = true.
Proof. induction b as [|x b IH]; [done|]. cbn [bytesToHex string_all]. destruct (nibbles x) as (Hh & Hl & _). by rewrite !hex_char_value. Qed.
