(* ===== verification/Merkle.v ===== *)
(** * The Merkle tree of a mixer pool

    [poseidonHash], [computePoolRoot] and the path of [buildMixerMerkleProof] of
    [dapp/tacit.js], over the Poseidon functions of the vendored library; and the tree
    they stand for: a perfect binary tree of field elements, padded with zero. *)
From S2P Require Import Prelude Bytes Crypto Curve.

(** [poseidon1], [poseidon2], [poseidon3] of the vendored [poseidon-lite] *)
Class Poseidon := { poseidon1 : Z → Z; poseidon2 : Z → Z → Z; poseidon3 : Z → Z → Z → Z }.

Definition BN254_FIELD_SIZE : Z := 21888242871839275222246405745257275088548364400416034343698204186575808495617.

(** their results are field elements *)
Class PoseidonLaws `{Poseidon} : Prop := {
  poseidon1_range a : 0 <= poseidon1 a < BN254_FIELD_SIZE;
  poseidon2_range a b : 0 <= poseidon2 a b < BN254_FIELD_SIZE;
  poseidon3_range a b c : 0 <= poseidon3 a b c < BN254_FIELD_SIZE }.

Section merkle.
Context `{PO : Poseidon}.

(** ** Hashing *)
Inductive poseidon_input := InBytes (b : bytes) | InBig (v : Z).
Definition poseidonInputToBigInt (i : poseidon_input) : res Z :=
  match i with
  | InBig v => mret v
  | InBytes b => throw_if (negb (blen b =? 32)) "poseidon input bytes must be length 32";; mret (unbe b)
  end.
Definition poseidonBigIntToBytes32 (v : Z) : bytes := be 32 v.

Fixpoint poseidon_args (l : list poseidon_input) : res (list Z) :=
  match l with
  | [] => mret []
  | i :: l => v ← poseidonInputToBigInt i; vs ← poseidon_args l; mret (v :: vs)
  end.
Definition poseidonHash (inputs : list poseidon_input) : res bytes :=
  args ← poseidon_args inputs;
  match args with
  | [a] => mret (poseidonBigIntToBytes32 (poseidon1 a))
  | [a; b] => mret (poseidonBigIntToBytes32 (poseidon2 a b))
  | [a; b; c] => mret (poseidonBigIntToBytes32 (poseidon3 a b c))
  | _ => Throw "poseidonHash: unsupported arity"
  end.

Definition computePoolLeafCommitment (secret nullifierPreimage : bytes) (denomination : Z) : res bytes :=
  throw_if (negb (blen secret =? 32)) "secret 32 bytes";;
  throw_if (negb (blen nullifierPreimage =? 32)) "nullifier_preimage 32 bytes";;
  poseidonHash [InBytes secret; InBytes nullifierPreimage; InBig denomination].
Definition computeNullifierHash (nullifierPreimage : bytes) : res bytes :=
  throw_if (negb (blen nullifierPreimage =? 32)) "nullifier_preimage 32 bytes";;
  poseidonHash [InBytes nullifierPreimage].

(** ** The root *)
Definition poolEmptyLeaf : bytes := zeros 32.
Definition POOL_TREE_DEPTH : nat := 20.

(** the roots of the empty trees: [z], then [n] levels up *)
Fixpoint zeros_from (n : nat) (z : bytes) : res (list bytes) :=
  match n with
  | O => mret [z]
  | S n => up ← poseidonHash [InBytes z; InBytes z]; l ← zeros_from n up; mret (z :: l)
  end.

(** one level up: neighbours hashed together, the last one with [zero] *)
Fixpoint pair_layer (zero : bytes) (layer : list bytes) : res (list bytes) :=
  match layer with
  | [] => mret []
  | [l] => h ← poseidonHash [InBytes l; InBytes zero]; mret [h]
  | l :: r :: layer => h ← poseidonHash [InBytes l; InBytes r]; next ← pair_layer zero layer; mret (h :: next)
  end.
Definition next_layer (zero zero_up : bytes) (layer : list bytes) : res (list bytes) :=
  next ← pair_layer zero layer;
  mret (match next with [] => [zero_up] | _ => next end).

Fixpoint climb (zs layer : list bytes) : res (list bytes) :=
  match zs with
  | z :: ((z' :: _) as zs) => next ← next_layer z z' layer; climb zs next
  | _ => mret layer
  end.
Definition computePoolRoot (leaves : list bytes) : res bytes :=
  zs ← zeros_from POOL_TREE_DEPTH poolEmptyLeaf;
  top ← climb zs leaves;
  match top with r :: _ => mret r | [] => Oob end.

(** ** A path *)
Fixpoint layers_from (zs layer : list bytes) : res (list (list bytes)) :=
  match zs with
  | z :: ((z' :: _) as zs) => next ← next_layer z z' layer; up ← layers_from zs next; mret (layer :: up)
  | _ => mret [layer]
  end.
(** the sibling at each level, and on which side of it the path comes up *)
Fixpoint path_from (zs : list bytes) (layers : list (list bytes)) (curIdx : nat) : list (Z * Z) :=
  match zs, layers with
  | z :: ((_ :: _) as zs), layer :: layers =>
      let sibling := if Nat.even curIdx then default z (layer !! S curIdx) else default z (layer !! Nat.pred curIdx) in
      (bytes32ToBigint sibling, Z.of_nat (curIdx mod 2)) :: path_from zs layers (curIdx / 2)
  | _, _ => []
  end.
Fixpoint leaf_index (i : nat) (leaf : bytes) (leaves : list bytes) : option nat :=
  match leaves with
  | [] => None
  | l :: leaves => if decide (l = leaf) then Some i else leaf_index (S i) leaf leaves
  end.

Record merkle_proof := MerkleProof { mp_path : list (Z * Z); mp_root : Z; mp_leafIndex : nat }.
(** what [buildMixerMerkleProof] does once it has the pool's tree *)
Definition merkle_proof_of (leaves : list bytes) (leaf : bytes) : res (option merkle_proof) :=
  match leaf_index 0 leaf leaves with
  | None => mret None
  | Some idx =>
      zs ← zeros_from POOL_TREE_DEPTH poolEmptyLeaf;
      layers ← layers_from zs leaves;
      match (layers !! POOL_TREE_DEPTH) ≫= head with
      | Some root => mret (Some (MerkleProof (path_from zs layers idx) (bytes32ToBigint root) idx))
      | None => Oob
      end
  end.

(** ** The tree *)
(** the root of an empty tree of height [k] *)
Fixpoint empty_root (k : nat) : Z :=
  match k with O => 0 | S k => poseidon2 (empty_root k) (empty_root k) end.
(** the root of the tree of height [d] over [layer], whose entries are roots of height [k] *)
Fixpoint tree_root (k d : nat) (layer : list Z) : Z :=
  match d with
  | O => default (empty_root k) (head layer)
  | S d => poseidon2 (tree_root k d (take (2 ^ d) layer)) (tree_root k d (drop (2 ^ d) layer))
  end.
(** the pairs hashed in that tree *)
Fixpoint tree_nodes (k d : nat) (layer : list Z) : list (Z * Z) :=
  match d with
  | O => []
  | S d =>
      let l := take (2 ^ d) layer in
      let r := drop (2 ^ d) layer in
      (tree_root k d l, tree_root k d r) :: tree_nodes k d l ++ tree_nodes k d r
  end.

(** What the withdraw circuit computes from a leaf and a path. *)
Definition path_node (cur : Z) (step : Z * Z) : Z * Z := if step.2 =? 0 then (cur, step.1) else (step.1, cur).
Fixpoint path_root (cur : Z) (path : list (Z * Z)) : Z :=
  match path with
  | [] => cur
  | step :: path => let n := path_node cur step in path_root (poseidon2 n.1 n.2) path
  end.
Fixpoint path_nodes (cur : Z) (path : list (Z * Z)) : list (Z * Z) :=
  match path with
  | [] => []
  | step :: path => let n := path_node cur step in n :: path_nodes (poseidon2 n.1 n.2) path
  end.
(** the index a path speaks of: its sides, lowest first *)
Fixpoint path_index (path : list (Z * Z)) : nat :=
  match path with [] => 0 | step :: path => (if step.2 =? 0 then 0 else 1) + 2 * path_index path end.
End merkle.
