(* ===== verification/MerkleFacts.v ===== *)
(** * The root and its paths

    [computePoolRoot] computes the root of the padded tree; the path built for a leaf
    leads to it; and a path that leads to it names the leaf at its index, or shows two
    pairs with the same hash. *)
From S2P Require Import Prelude Bytes Crypto Curve Merkle.

Section facts.
Context `{PO : Poseidon} {PL : PoseidonLaws}.

(** ** Field elements as bytes *)
Definition is32 (b : bytes) : Prop := blen b = 32.
Definition encodes (b : bytes) (v : Z) : Prop := is32 b ∧ unbe b = v.

Lemma unbe_be32 v : 0 <= v < BN254_FIELD_SIZE → unbe (be 32 v) = v.
Proof.
  intros Hv. rewrite unbe_be. apply Z.mod_small. assert (BN254_FIELD_SIZE < 256 ^ Z.of_nat 32) by done. lia.
Qed.
Lemma poseidon2_bytes a b : unbe (be 32 (poseidon2 a b)) = poseidon2 a b.
Proof. apply unbe_be32, poseidon2_range. Qed.
Lemma is32_be v : is32 (be 32 v).
Proof. apply blen_be. Qed.
Lemma is32_empty : is32 poolEmptyLeaf.
Proof. done. Qed.

Lemma hash_bytes a b :
  is32 a → is32 b → poseidonHash [InBytes a; InBytes b] = Ok (be 32 (poseidon2 (unbe a) (unbe b))).
Proof.
  unfold is32. intros Ha Hb. unfold poseidonHash. cbn [poseidon_args poseidonInputToBigInt].
  rewrite Ha. cbn [Z.eqb Pos.eqb negb throw_if mbind res_bind mret res_ret]. rewrite Hb. done.
Qed.

(** ** Empty trees *)
Definition empty_bytes (k : nat) : bytes := match k with O => poolEmptyLeaf | _ => be 32 (empty_root k) end.
Lemma empty_encodes k : encodes (empty_bytes k) (empty_root k).
Proof.
  destruct k; [split; [done|by vm_compute]|]. split; [apply is32_be|]. apply (poseidon2_bytes (empty_root k) (empty_root k)).
Qed.

Lemma zeros_from_Ok n k : zeros_from n (empty_bytes k) = Ok (map empty_bytes (seq k (S n))).
Proof.
  revert k. induction n as [|n IH]; intros k; cbn [zeros_from]; [done|].
  destruct (empty_encodes k) as [Hk Ek]. rewrite hash_bytes by done. rewrite Ek. cbn [mbind res_bind].
  change (be 32 (poseidon2 (empty_root k) (empty_root k))) with (empty_bytes (S k)). by rewrite IH.
Qed.

(** ** One level *)
Fixpoint pairs (z : Z) (layer : list Z) : list Z :=
  match layer with
  | [] => []
  | [l] => [poseidon2 l z]
  | l :: r :: layer => poseidon2 l r :: pairs z layer
  end.
Lemma pairs_length z layer : length (pairs z layer) = Nat.div2 (S (length layer)).
Proof.
  revert layer. fix IH 1. intros [|l [|r layer]]; [done|done|]. cbn [pairs length Nat.div2]. by rewrite IH.
Qed.
Lemma pairs_take z n layer : pairs z (take (2 * n) layer) = take n (pairs z layer).
Proof.
  revert layer. induction n as [|n IH]; intros layer; [done|]. replace (2 * S n)%nat with (S (S (2 * n))) by lia.
  destruct layer as [|l [|r layer]]; [done|cbn [take pairs]; by rewrite !take_nil|]. cbn [take pairs]. by rewrite IH.
Qed.
Lemma pairs_drop z n layer : pairs z (drop (2 * n) layer) = drop n (pairs z layer).
Proof.
  revert layer. induction n as [|n IH]; intros layer; [done|]. replace (2 * S n)%nat with (S (S (2 * n))) by lia.
  destruct layer as [|l [|r layer]]; [done|cbn [drop pairs]; by rewrite !drop_nil|]. cbn [drop pairs]. by rewrite IH.
Qed.

Lemma tree_root_pairs k d layer : tree_root k (S d) layer = tree_root (S k) d (pairs (empty_root k) layer).
Proof.
  revert layer. induction d as [|d IH]; intros layer.
  - destruct layer as [|l [|r layer]]; done.
  - cbn [tree_root] in *. rewrite <- pairs_take, <- pairs_drop.
    replace (2 * 2 ^ d)%nat with (2 ^ S d)%nat by (cbn; lia). by rewrite <- !IH.
Qed.

Definition encode_all (bs : list bytes) (vs : list Z) : Prop := Forall2 encodes bs vs.
Lemma encode_map bs : Forall is32 bs → encode_all bs (map unbe bs).
Proof. induction 1; constructor; [by split|done]. Qed.

Lemma pair_layer_Ok k bs vs :
  encode_all bs vs → ∃ next, pair_layer (empty_bytes k) bs = Ok next ∧ encode_all next (pairs (empty_root k) vs).
Proof.
  revert bs vs. fix IH 3. intros bs vs [|b1 v1 bs1 vs1 [H1 E1] [|b2 v2 bs2 vs2 [H2 E2] Hf]].
  - exists []. split; [done|constructor].
  - cbn [pair_layer pairs]. destruct (empty_encodes k) as [Hk Ek]. rewrite hash_bytes by done. rewrite E1, Ek.
    eexists. split; [reflexivity|]. constructor; [split; [apply is32_be|apply poseidon2_bytes]|constructor].
  - cbn [pair_layer pairs]. destruct (IH bs2 vs2 Hf) as (next & -> & Hn). rewrite hash_bytes by done. rewrite E1, E2.
    eexists. split; [reflexivity|]. constructor; [split; [apply is32_be|apply poseidon2_bytes]|done].
Qed.

(** the layer above, which is never empty *)
Definition above (k : nat) (vs : list Z) : list Z := match pairs (empty_root k) vs with [] => [empty_root (S k)] | l => l end.
Lemma above_root k d vs : tree_root k (S d) vs = tree_root (S k) d (above k vs).
Proof.
  rewrite tree_root_pairs. unfold above. destruct (pairs (empty_root k) vs) as [|x l] eqn:E; [|by rewrite <- E].
  clear E. revert k. induction d as [|d IH]; intros k; [done|]. cbn [tree_root]. rewrite take_nil, drop_nil.
  pose proof (Nat.pow_nonzero 2 d). rewrite take_ge by (cbn; lia). rewrite (drop_ge [_]) by (cbn; lia). by rewrite <- IH.
Qed.
Lemma above_ne k vs : above k vs ≠ [].
Proof. unfold above. by destruct (pairs _ _). Qed.

Lemma next_layer_Ok k bs vs :
  encode_all bs vs → ∃ next, next_layer (empty_bytes k) (empty_bytes (S k)) bs = Ok next ∧ encode_all next (above k vs).
Proof.
  intros Hf. destruct (pair_layer_Ok k bs vs Hf) as (next & E & Hn). unfold next_layer. rewrite E. cbn [mbind res_bind].
  eexists. split; [reflexivity|]. unfold above. destruct Hn; [|by constructor].
  constructor; [apply (empty_encodes (S k))|constructor].
Qed.

(** ** The root *)
Lemma climb_Ok d k bs vs :
  encode_all bs vs → (d ≠ 0%nat ∨ bs ≠ []) →
  ∃ r rest, climb (map empty_bytes (seq k (S d))) bs = Ok (r :: rest) ∧ encodes r (tree_root k d vs).
Proof.
  revert k bs vs. induction d as [|d IH]; intros k bs vs Hf Hne.
  - destruct Hf as [|b v bs vs Hb Hf]; [by destruct Hne|]. by exists b, bs.
  - cbn [seq map climb]. destruct (next_layer_Ok k bs vs Hf) as (next & En & Hn). rewrite En. cbn [mbind res_bind].
    destruct (IH (S k) next (above k vs) Hn) as (r & rest & Er & Hr).
    { right. intros ->. inversion Hn as [E|]. by apply (above_ne k vs). }
    cbn [seq map] in Er. exists r, rest. by rewrite above_root.
Qed.

Theorem computePoolRoot_Ok leaves :
  Forall is32 leaves →
  ∃ r, computePoolRoot leaves = Ok r ∧ encodes r (tree_root 0 POOL_TREE_DEPTH (map unbe leaves)).
Proof.
  intros Hl. unfold computePoolRoot. change poolEmptyLeaf with (empty_bytes 0). rewrite zeros_from_Ok. cbn [mbind res_bind].
  destruct (climb_Ok POOL_TREE_DEPTH 0 leaves (map unbe leaves) (encode_map _ Hl)) as (r & rest & -> & Hr); [by left|].
  by exists r.
Qed.
(** ** The path of a leaf *)
(** the step the path takes at index [i] of a layer padded with [z] *)
Definition step_at (z : Z) (vs : list Z) (i : nat) : Z * Z :=
  (if Nat.even i then default z (vs !! S i) else default z (vs !! Nat.pred i), Z.of_nat (i mod 2)).

Lemma mod2_SS i : (S (S i) mod 2 = i mod 2)%nat.
Proof. replace (S (S i)) with (i + 1 * 2)%nat by lia. apply Nat.Div0.mod_add. Qed.
Lemma div2_SS i : (S (S i) / 2 = S (i / 2))%nat.
Proof. replace (S (S i)) with (i + 1 * 2)%nat by lia. rewrite Nat.div_add by lia. lia. Qed.

Lemma pairs_lookup z vs i v :
  vs !! i = Some v →
  pairs z vs !! (i / 2)%nat = Some (let n := path_node v (step_at z vs i) in poseidon2 n.1 n.2).
Proof.
  revert vs. induction (lt_wf i) as [i _ IH]. intros vs Hv. destruct i as [|[|i]].
  - destruct vs as [|l [|r vs]]; [done|by injection Hv as ->|by injection Hv as ->].
  - destruct vs as [|l [|r vs]]; [done|done|by injection Hv as ->].
  - destruct vs as [|l [|r vs]]; [done|done|]. cbn [lookup list_lookup] in Hv. rewrite div2_SS. cbn [pairs].
    change (pairs z vs !! (i / 2)%nat = Some (let n := path_node v (step_at z (l :: r :: vs) (S (S i))) in poseidon2 n.1 n.2)).
    rewrite (IH i ltac:(lia) vs Hv). unfold step_at. rewrite mod2_SS. destruct i as [|i]; [done|]. by cbn [Nat.even].
Qed.

(** the layers, bottom to top *)
Fixpoint layers (d k : nat) (vs : list Z) : list (list Z) :=
  match d with O => [vs] | S d => vs :: layers d (S k) (above k vs) end.

Lemma layers_from_cons z z' zs layer :
  layers_from (z :: z' :: zs) layer = (next ← next_layer z z' layer; up ← layers_from (z' :: zs) next; mret (layer :: up)).
Proof. done. Qed.
Lemma path_from_cons z z' zs layer ls i :
  path_from (z :: z' :: zs) (layer :: ls) i =
  (bytes32ToBigint (if Nat.even i then default z (layer !! S i) else default z (layer !! Nat.pred i)), Z.of_nat (i mod 2))
    :: path_from (z' :: zs) ls (i / 2).
Proof. done. Qed.

Lemma layers_from_Ok d k bs vs :
  encode_all bs vs → ∃ ls, layers_from (map empty_bytes (seq k (S d))) bs = Ok ls ∧ Forall2 encode_all ls (layers d k vs).
Proof.
  revert k bs vs. induction d as [|d IH]; intros k bs vs Hf.
  - exists [bs]. split; [done|]. constructor; [done|constructor].
  - destruct (next_layer_Ok k bs vs Hf) as (next & En & Hn). destruct (IH (S k) next _ Hn) as (ls & El & Hl).
    exists (bs :: ls). split; [|by constructor]. cbn [seq map] in *. rewrite layers_from_cons, En. cbn [mbind res_bind].
    by rewrite El.
Qed.

Lemma layers_top d k vs : (d ≠ 0%nat ∨ vs ≠ []) → (layers d k vs !! d) ≫= head = Some (tree_root k d vs).
Proof.
  revert k vs. induction d as [|d IH]; intros k vs Hne.
  - destruct vs; [by destruct Hne|done].
  - cbn [layers lookup list_lookup]. rewrite above_root. apply IH. right. apply above_ne.
Qed.

Lemma path_from_Ok d k ls vs i v :
  Forall2 encode_all ls (layers d k vs) → vs !! i = Some v → (i < 2 ^ d)%nat →
  path_root v (path_from (map empty_bytes (seq k (S d))) ls i) = tree_root k d vs ∧
  path_index (path_from (map empty_bytes (seq k (S d))) ls i) = i ∧
  length (path_from (map empty_bytes (seq k (S d))) ls i) = d.
Proof.
  revert k ls vs i v. induction d as [|d IH]; intros k ls vs i v Hf Hv Hi.
  - cbn in Hi. assert (i = 0%nat) as -> by lia. cbn [seq map path_from path_root path_index tree_root length].
    destruct vs; [done|]. by injection Hv as ->.
  - cbn [layers] in Hf. inversion_clear Hf as [|bs ? ls' ? Hb Hf']. cbn [seq map]. rewrite path_from_cons.
    assert (Hstep : (bytes32ToBigint (if Nat.even i then default (empty_bytes k) (bs !! S i) else default (empty_bytes k) (bs !! Nat.pred i)),
        Z.of_nat (i mod 2)) = step_at (empty_root k) vs i).
    { unfold step_at, bytes32ToBigint. f_equal. assert (Hd : ∀ j, unbe (default (empty_bytes k) (bs !! j)) = default (empty_root k) (vs !! j)).
      { intros j. destruct (bs !! j) as [b|] eqn:Eb.
        - destruct (Forall2_lookup_l _ _ _ _ _ Hb Eb) as (w & -> & _ & <-). done.
        - apply lookup_ge_None in Eb. rewrite lookup_ge_None_2 by (by rewrite <- (Forall2_length _ _ _ Hb)). apply empty_encodes. }
      destruct (Nat.even i); apply Hd. }
    rewrite Hstep. pose proof (pairs_lookup (empty_root k) vs i v Hv) as Hp.
    assert (Ha : above k vs = pairs (empty_root k) vs) by (unfold above; by destruct (pairs (empty_root k) vs)).
    rewrite <- Ha in Hp. cbv zeta in Hp. destruct (IH (S k) ls' (above k vs) (i / 2)%nat _ Hf' Hp) as (Hr & Hx & Hl).
    { apply Nat.Div0.div_lt_upper_bound. cbn in Hi. lia. }
    cbn [seq map] in Hr, Hx, Hl. cbn [path_root path_index length]. rewrite Hl, above_root. split; [exact Hr|]. split; [|done].
    rewrite Hx. unfold step_at. cbn [snd]. pose proof (Nat.div_mod_eq i 2). pose proof (Nat.mod_upper_bound i 2 ltac:(lia)).
    destruct (Z.eqb_spec (Z.of_nat (i mod 2)) 0); lia.
Qed.

Lemma leaf_index_Some j leaf leaves i :
  leaf_index j leaf leaves = Some i → ∃ n, i = (j + n)%nat ∧ leaves !! n = Some leaf ∧ ∀ m, (m < n)%nat → leaves !! m ≠ Some leaf.
Proof.
  revert j. induction leaves as [|l leaves IH]; intros j E; cbn [leaf_index] in E; [done|]. case_decide as Hl.
  - injection E as <-. subst l. exists 0%nat. split; [lia|]. split; [done|lia].
  - apply IH in E as (n & -> & En & Hm). exists (S n). split; [lia|]. split; [done|].
    intros [|m] Hlt; cbn; [congruence|]. apply Hm. lia.
Qed.
Lemma leaf_index_None j leaf leaves : leaf_index j leaf leaves = None ↔ leaf ∉ leaves.
Proof.
  revert j. induction leaves as [|l leaves IH]; intros j; cbn [leaf_index]; [split; [intros _ []%elem_of_nil|done]|].
  rewrite elem_of_cons. case_decide as Hl; [subst; naive_solver|]. rewrite IH. naive_solver.
Qed.

Lemma merkle_proof_complete leaves leaf :
  Forall is32 leaves → (length leaves <= 2 ^ POOL_TREE_DEPTH)%nat → leaf ∈ leaves →
  ∃ p, merkle_proof_of leaves leaf = Ok (Some p) ∧
    leaves !! mp_leafIndex p = Some leaf ∧ (∀ m, (m < mp_leafIndex p)%nat → leaves !! m ≠ Some leaf) ∧
    length (mp_path p) = POOL_TREE_DEPTH ∧ path_index (mp_path p) = mp_leafIndex p ∧
    mp_root p = tree_root 0 POOL_TREE_DEPTH (map unbe leaves) ∧ path_root (unbe leaf) (mp_path p) = mp_root p.
Proof.
  intros Hf Hlen Hin. unfold merkle_proof_of. generalize POOL_TREE_DEPTH as d, Hlen. intros d Hd. clear Hlen.
  destruct (leaf_index 0 leaf leaves) as [i|] eqn:Ei; [|by apply leaf_index_None in Ei].
  apply leaf_index_Some in Ei as (n & -> & En & Hm). change poolEmptyLeaf with (empty_bytes 0). rewrite zeros_from_Ok.
  cbn [mbind res_bind]. destruct (layers_from_Ok d 0 leaves _ (encode_map _ Hf)) as (ls & El & Hl). rewrite El. cbn [mbind res_bind].
  assert (Hne : map unbe leaves ≠ []) by (destruct leaves; done).
  pose proof (layers_top d 0 (map unbe leaves) (or_intror Hne)) as Ht.
  destruct (layers d 0 (map unbe leaves) !! d) as [top|] eqn:Etop; [|done]. cbn [mbind option_bind] in Ht.
  destruct (Forall2_lookup_r _ _ _ _ _ Hl Etop) as (btop & Ebt & Hbt).
  destruct top as [|tv top]; [done|]. injection Ht as Ht. destruct btop as [|rb btop]; [by inversion Hbt|]. apply Forall2_cons in Hbt as [[_ Erb] _].
  rewrite Ebt. cbn [mbind option_bind head]. eexists. split; [reflexivity|]. cbn [mp_leafIndex mp_path mp_root Nat.add].
  pose proof (lookup_lt_Some _ _ _ En) as Hn.
  destruct (path_from_Ok d 0 ls (map unbe leaves) n (unbe leaf) Hl) as (Hr & Hx & Hle); [by rewrite list_lookup_fmap, En|lia|].
  split; [done|]. split; [done|]. split; [exact Hle|]. split; [exact Hx|]. unfold bytes32ToBigint. split; congruence.
Qed.

(** ** What a path shows *)
Definition collision (p q : Z * Z) : Prop := p ≠ q ∧ poseidon2 p.1 p.2 = poseidon2 q.1 q.2.

Lemma path_nodes_app cur p step :
  path_nodes cur (p ++ [step]) = path_nodes cur p ++ [path_node (path_root cur p) step].
Proof. revert cur. induction p as [|s p IH]; intros cur; cbn [app path_nodes path_root]; [done|]. by rewrite IH. Qed.
Lemma path_root_app cur p step :
  path_root cur (p ++ [step]) = (let n := path_node (path_root cur p) step in poseidon2 n.1 n.2).
Proof. revert cur. induction p as [|s p IH]; intros cur; cbn [app path_root]; [done|]. by rewrite IH. Qed.
Lemma path_index_app p step :
  path_index (p ++ [step]) = (path_index p + (if (step.2 =? 0)%Z then 0 else 2 ^ length p))%nat.
Proof.
  induction p as [|s p IH]; cbn [app path_index length]; [destruct (step.2 =? 0); cbn; lia|]. rewrite IH.
  destruct (step.2 =? 0); cbn [Nat.pow]; lia.
Qed.

Lemma path_index_bound p : (path_index p < 2 ^ length p)%nat.
Proof. induction p as [|s p IH]; cbn [path_index length Nat.pow]; [lia|]. destruct (s.2 =? 0); lia. Qed.

(** The leaf at the path's index, or two pairs, one of the tree and one of the path, with
    the same hash. *)
Lemma path_sound d layer cur path :
  length path = d → path_root cur path = tree_root 0 d layer →
  cur = default 0 (layer !! path_index path) ∨ ∃ p q, p ∈ tree_nodes 0 d layer ∧ q ∈ path_nodes cur path ∧ collision p q.
Proof.
  revert layer path. induction d as [|d IH]; intros layer path Hl E.
  - destruct path; [|done]. left. cbn in E. rewrite E. by destruct layer.
  - destruct path as [|step p _] using rev_ind; [done|]. rewrite length_app in Hl. cbn [length] in Hl.
    assert (Hp : length p = d) by lia. rewrite path_root_app in E. cbn [tree_root] in E. cbv zeta in E.
    set (L := tree_root 0 d (take (2 ^ d) layer)) in *. set (R := tree_root 0 d (drop (2 ^ d) layer)) in *.
    rewrite path_nodes_app, path_index_app. rewrite Hp. cbn [tree_nodes].
    destruct (decide ((L, R) = path_node (path_root cur p) step)) as [En|Hne].
    + assert (Hside : path_root cur p = (if step.2 =? 0 then L else R)).
      { unfold path_node in En. destruct (step.2 =? 0); injection En as -> ->; done. }
      pose proof (path_index_bound p) as Hb. rewrite Hp in Hb. destruct (step.2 =? 0).
      * destruct (IH (take (2 ^ d) layer) p Hp Hside) as [->|(a & b & Ha & Hb' & Hc)].
        -- left. rewrite Nat.add_0_r. by rewrite lookup_take_lt by done.
        -- right. exists a, b. split; [|split; [|done]]; [|by apply elem_of_app; left].
           apply elem_of_cons. right. apply elem_of_app. by left.
      * destruct (IH (drop (2 ^ d) layer) p Hp Hside) as [->|(a & b & Ha & Hb' & Hc)].
        -- left. rewrite lookup_drop. by rewrite (Nat.add_comm (2 ^ d)).
        -- right. exists a, b. split; [|split; [|done]]; [|by apply elem_of_app; left].
           apply elem_of_cons. right. apply elem_of_app. by right.
    + right. exists (L, R), (path_node (path_root cur p) step). split; [by left|]. split; [apply elem_of_app; right; by left|].
      split; [done|]. by rewrite E.
Qed.
End facts.
