(* ===== verification/Mixer.v ===== *)
(** * The mixer's pools

    The client's registry of mixer pools, their Merkle trees and spent nullifiers, with
    the [mixer*] operations of [dapp/tacit.js].  A pool is addressed by the string
    [poolKey] makes of its asset, denomination and generation. *)
From Stdlib Require Import Ascii.
From stdpp Require Import strings pretty.
From S2P Require Import Prelude Bytes Text Crypto Curve Hex Merkle.

(** ** State *)
Record pool_info := PoolInfo { vkCid : bytes; ceremonyCid : bytes; initHeight : Z; initTxid : option string }.
Record tree := Tree {
  leaves : list bytes; roots : list bytes; rootHistory : gset string;
  canonicalLeafCount : option Z; pendingLeafCount : option Z; integrityFailed : bool }.
(** the three maps, and [_bridgeProofCache] *)
Record pools := Pools {
  poolRegistry : gmap string pool_info; poolMerkleTrees : gmap string tree;
  poolNullifiers : gmap string (gmap string string); bridgeProofCache : gmap string bool }.
Definition no_pools : pools := Pools ∅ ∅ ∅ ∅.

Definition set_registry (f : gmap string pool_info → gmap string pool_info) (ps : pools) : pools :=
  Pools (f (poolRegistry ps)) (poolMerkleTrees ps) (poolNullifiers ps) (bridgeProofCache ps).
Definition set_trees (f : gmap string tree → gmap string tree) (ps : pools) : pools :=
  Pools (poolRegistry ps) (f (poolMerkleTrees ps)) (poolNullifiers ps) (bridgeProofCache ps).
Definition set_nullifiers (f : gmap string (gmap string string) → gmap string (gmap string string)) (ps : pools) : pools :=
  Pools (poolRegistry ps) (poolMerkleTrees ps) (f (poolNullifiers ps)) (bridgeProofCache ps).
Definition set_proofCache (f : gmap string bool → gmap string bool) (ps : pools) : pools :=
  Pools (poolRegistry ps) (poolMerkleTrees ps) (poolNullifiers ps) (f (bridgeProofCache ps)).

(** ** Keys and the registry *)
Definition poolKey (assetIdHex : string) (denomination : Z) (gen : string) : string :=
  let base := (assetIdHex +:+ ":" +:+ pretty denomination)%string in
  if bool_decide (gen = ""%string) then base else (base +:+ ":" +:+ gen)%string.

Definition mixerRegisterPool (assetIdHex : string) (poolDenom : Z) (vk ceremony : bytes) (height : Z) (txid : option string)
    (gen : string) (ps : pools) : bool * pools :=
  let k := poolKey assetIdHex poolDenom gen in
  if bool_decide (is_Some (poolRegistry ps !! k)) then (false, ps) else
  (true, Pools (<[k := PoolInfo vk ceremony height txid]> (poolRegistry ps))
               (<[k := Tree [] [] ∅ None None false]> (poolMerkleTrees ps))
               (<[k := ∅]> (poolNullifiers ps)) (bridgeProofCache ps)).
Definition mixerIsPoolRegistered (assetIdHex : string) (denomination : Z) (gen : string) (ps : pools) : bool :=
  bool_decide (is_Some (poolRegistry ps !! poolKey assetIdHex denomination gen)).

Definition CANONICAL_CEREMONY_CID : bytes := ascii_bytes "bafybeidq2ahzte4sfiqjsmhqta62ufenpppzpch5ppry55tzxzlvltxy2u".
Definition CANONICAL_VK_CID : bytes := ascii_bytes "bafkreidwbautgstcnl54oszez7yqlc7mr5lrj6ac65h3p5sjw2rgz2jtv4".
(** [new TextDecoder().decode(cid) === canonical]: this decoder replaces ill-formed
    input, which no canonical string contains, and drops a leading U+FEFF *)
Definition decodes_to (cid canonical : bytes) : bool := bool_decide (text_decode cid = Some (map byteZ canonical)).
Definition isPoolCanonical (info : option pool_info) : bool :=
  match info with
  | None => false
  | Some i => decodes_to (vkCid i) CANONICAL_VK_CID && decodes_to (ceremonyCid i) CANONICAL_CEREMONY_CID
  end.
Definition mixerIsPoolCanonical (assetIdHex : string) (denomination : Z) (ps : pools) : bool :=
  isPoolCanonical (poolRegistry ps !! poolKey assetIdHex denomination "").

(** ** Trees *)
Definition POOL_RECENT_ROOTS_WINDOW : nat := 32.
Definition push_root (r : bytes) (rs : list bytes) : list bytes :=
  let rs := rs ++ [r] in if (POOL_RECENT_ROOTS_WINDOW <? length rs)%nat then tail rs else rs.

Section trees.
Context `{PO : Poseidon}.

(** The leaf is in the tree before its root is computed. *)
Definition append_leaf (t : tree) (leaf : bytes) : res unit * tree :=
  let t' := Tree (leaves t ++ [leaf]) (roots t) (rootHistory t) (canonicalLeafCount t) (pendingLeafCount t) (integrityFailed t) in
  match computePoolRoot (leaves t') with
  | Ok newRoot =>
      (Ok tt, Tree (leaves t') (push_root newRoot (roots t)) ({[ bytesToHex newRoot ]} ∪ rootHistory t)
                   (canonicalLeafCount t) (pendingLeafCount t) (integrityFailed t))
  | Throw e => (Throw e, t')
  | Null => (Null, t')
  | Oob => (Oob, t')
  end.
Definition mixerAppendLeaf (assetIdHex : string) (denomination : Z) (leafCommitment : bytes) (gen : string)
    (ps : pools) : res bool * pools :=
  let k := poolKey assetIdHex denomination gen in
  match poolMerkleTrees ps !! k with
  | None => (Ok false, ps)
  | Some t =>
      if Z.of_nat (length (leaves t)) >=? Z.shiftl 1 (Z.of_nat POOL_TREE_DEPTH) then (Ok false, ps) else
      let '(r, t') := append_leaf t leafCommitment in
      (_ ← r; mret true, set_trees <[k := t']> ps)
  end.
End trees.

Definition mixerHasRecentRoot (assetIdHex : string) (denomination : Z) (root : bytes) (gen : string) (ps : pools) : bool :=
  match poolMerkleTrees ps !! poolKey assetIdHex denomination gen with
  | None => false
  | Some t => bool_decide (root ∈ roots t)
  end.
Definition mixerHasHistoricalRoot (assetIdHex : string) (denomination : Z) (root : bytes) (gen : string) (ps : pools) : bool :=
  match poolMerkleTrees ps !! poolKey assetIdHex denomination gen with
  | None => false
  | Some t => bool_decide (bytesToHex root ∈ rootHistory t)
  end.

(** ** Nullifiers *)
Definition nullifier_owner (k : string) (nullifierHash : bytes) (ps : pools) : option string :=
  m ← poolNullifiers ps !! k; m !! bytesToHex nullifierHash.
Definition mixerIsNullifierSpent (assetIdHex : string) (denomination : Z) (nullifierHash : bytes) (gen : string)
    (ps : pools) : bool :=
  bool_decide (is_Some (nullifier_owner (poolKey assetIdHex denomination gen) nullifierHash ps)).
Definition mixerIsNullifierSpentByOther (assetIdHex : string) (denomination : Z) (nullifierHash : bytes)
    (ourTxidHex : string) (gen : string) (ps : pools) : bool :=
  match nullifier_owner (poolKey assetIdHex denomination gen) nullifierHash ps with
  | None => false
  | Some owner => negb (bool_decide (toLowerCase owner = toLowerCase ourTxidHex))
  end.
Definition mixerMarkNullifierSpent (assetIdHex : string) (denomination : Z) (nullifierHash : bytes)
    (ownerTxidHex : string) (gen : string) (ps : pools) : pools :=
  let k := poolKey assetIdHex denomination gen in
  let m := default ∅ (poolNullifiers ps !! k) in
  let key := bytesToHex nullifierHash in
  let m := if bool_decide (is_Some (m !! key)) then m else <[key := toLowerCase ownerTxidHex]> m in
  set_nullifiers <[k := m]> ps.
Definition mixerGetNullifierOwner (assetIdHex : string) (denomination : Z) (nullifierHash : bytes) (gen : string)
    (ps : pools) : option string :=
  nullifier_owner (poolKey assetIdHex denomination gen) nullifierHash ps.
Definition mixerForceNullifierOwner (assetIdHex : string) (denomination : Z) (nullifierHash : bytes)
    (ownerTxidHex : string) (gen : string) (ps : pools) : pools :=
  let k := poolKey assetIdHex denomination gen in
  match poolNullifiers ps !! k with
  | None => ps
  | Some m => set_nullifiers <[k := <[bytesToHex nullifierHash := toLowerCase ownerTxidHex]> m]> ps
  end.

(** ** Counts *)
Record pool_stats := PoolStats { totalLeaves : Z; spentNullifiers : Z; anonymitySet : Z; latestRoot : bytes }.
Definition spent_count (k : string) (ps : pools) : Z :=
  match poolNullifiers ps !! k with Some m => Z.of_nat (size m) | None => 0 end.
Definition mixerGetPoolStats (assetIdHex : string) (denomination : Z) (gen : string) (ps : pools) : option pool_stats :=
  let k := poolKey assetIdHex denomination gen in
  t ← poolMerkleTrees ps !! k;
  let total := Z.of_nat (length (leaves t)) in
  let spent := spent_count k ps in
  Some (PoolStats total spent (total - spent) (default poolEmptyLeaf (last (roots t)))).
(** the larger of the leaves in the tree and the leaves the indexer reported *)
Definition leaf_bound (t : option tree) : Z :=
  match t with
  | None => 0
  | Some t => Z.max (Z.of_nat (length (leaves t))) (default 0 (canonicalLeafCount t))
  end.
Definition mixerReserveWouldBreach (assetIdHex : string) (denomination : Z) (nullifierHashHex : string) (ps : pools) : bool :=
  let k := poolKey assetIdHex denomination "" in
  let nullKey := toLowerCase nullifierHashHex in
  let alreadyCounted := if poolNullifiers ps !! k is Some m then bool_decide (is_Some (m !! nullKey)) else false in
  let projectedSpent := spent_count k ps + (if alreadyCounted then 0 else 1) in
  projectedSpent >? leaf_bound (poolMerkleTrees ps !! k).

(** [buildMixerMerkleProof] *)
Definition buildMixerMerkleProof `{PO : Poseidon} (assetIdHex : string) (denomination : Z) (leafCommitment : bytes)
    (gen : string) (ps : pools) : res (option merkle_proof) :=
  match poolMerkleTrees ps !! poolKey assetIdHex denomination gen with
  | None => mret None
  | Some t => merkle_proof_of (leaves t) leafCommitment
  end.
