(* ===== verification/MixerProof.v ===== *)
(** * The mixer's proof verifier

    [verifyMixerProof] of [dapp/tacit.js]: the public inputs as the decimal strings
    [snarkjs] is given, and the proof as its eight coordinates.  [snarkjs] itself and the
    fetching of the verification key are a parameter. *)
From Stdlib Require Import Ascii.
From stdpp Require Import strings pretty.
From S2P Require Import Prelude Bytes Text Crypto Curve Hex Merkle Mixer.

(** [snarkjs.groth16.verify] with the key [_fetchMixerVk] finds under the identifier;
    it throws when the key cannot be had *)
Class Groth16 := groth16_verify : bytes → list string → list Z → res bool.
(** [snarkjs] reads every input with [BigInt] *)
Class Groth16Laws `{Groth16} : Prop := groth16_reads vk ins ins' coords :
  map dec_number ins = map dec_number ins' → groth16_verify vk ins coords = groth16_verify vk ins' coords.

(** a string of [publicInputs] *)
Definition input_to_decimal (s : string) : res string :=
  if bool_decide (String.substring 0 2 s = "0x"%string) then
    v ← BigInt_hex (String.substring 2 (String.length s - 2) s); mret (pretty v)
  else if is_decimal s then mret s
  else if is_hex64 s then v ← BigInt_hex s; mret (pretty v)
  else mret s.
Fixpoint _publicInputsToDecimal (inputs : list string) : res (list string) :=
  match inputs with
  | [] => mret []
  | s :: inputs => d ← input_to_decimal s; ds ← _publicInputsToDecimal inputs; mret (d :: ds)
  end.

Definition _be32ToDecimal (b : bytes) : Z := unbe b.
Definition _parseGroth16Proof (proof : bytes) : option (list Z) :=
  if negb (blen proof =? 256) then None
  else Some (map (λ i, _be32ToDecimal (take 32 (drop (32 * i) proof))) (seq 0 8)).

Definition verifyMixerProof `{Groth16} (vkCid : option bytes) (publicInputs : list string) (proof : bytes) : res bool :=
  if negb (blen proof =? 256) then mret false
  else if negb (length publicInputs =? 5)%nat then mret false
  else match vkCid with
  | None => mret false
  | Some vk =>
      if bool_decide (text_decode vk = Some []) then mret false else
      match _parseGroth16Proof proof with
      | None => mret false
      | Some coords => decInputs ← _publicInputsToDecimal publicInputs; groth16_verify vk decInputs coords
      end
  end.

(** the five public inputs of a withdrawal, a bridge deposit and a rotation *)
Definition mixer_inputs (root nullifier : bytes) (denomination : Z) (rLeaf bindHash : bytes) : list string :=
  [bytesToHex root; bytesToHex nullifier; pretty denomination; bytesToHex rLeaf;
   pretty (bytes32ToBigint bindHash mod BN254_FIELD_SIZE)].

(** ** Laws *)
(** What 32 bytes become: a string of decimal digits stays as it is. *)
Definition bytes_input (b : bytes) : string :=
  let s := bytesToHex b in if is_decimal s then s else pretty (unbe b).

Lemma bytes_input_Ok b : blen b = 32 → input_to_decimal (bytesToHex b) = Ok (bytes_input b).
Proof.
  intros Hb. unfold input_to_decimal, bytes_input. rewrite bool_decide_eq_false_2 by (eapply digits_no_0x, bytesToHex_digits; done).
  destruct (is_decimal _); [done|]. rewrite bytesToHex_hex64 by done. unfold BigInt_hex. rewrite bytesToHex_length.
  unfold blen in Hb. rewrite hex_number_bytes. by replace (length b) with 32%nat by lia.
Qed.
Lemma decimal_input_Ok v : 0 <= v → input_to_decimal (pretty v) = Ok (pretty v).
Proof.
  intros Hv. pose proof (pretty_decimal v Hv) as Hd. unfold input_to_decimal. rewrite Hd.
  rewrite bool_decide_eq_false_2; [done|]. apply andb_true_iff in Hd as [_ Hd]. by eapply digits_no_0x, Hd.
Qed.

Definition mixer_numbers (root nullifier : bytes) (denomination : Z) (rLeaf bindHash : bytes) : list string :=
  [bytes_input root; bytes_input nullifier; pretty denomination; bytes_input rLeaf;
   pretty (bytes32ToBigint bindHash mod BN254_FIELD_SIZE)].
Lemma mixer_inputs_Ok root n d rl bh :
  blen root = 32 → blen n = 32 → 0 <= d → blen rl = 32 →
  _publicInputsToDecimal (mixer_inputs root n d rl bh) = Ok (mixer_numbers root n d rl bh).
Proof.
  intros Hr Hn Hd Hl. unfold mixer_inputs. cbn [_publicInputsToDecimal]. rewrite !bytes_input_Ok by done.
  rewrite !decimal_input_Ok by (done || by apply Z.mod_pos_bound). done.
Qed.

(** *** One number, two spellings *)
Definition spelled_in_letters (n : Z) : Prop := is_decimal (bytesToHex (be 32 n)) = false.
Lemma bcd_is_decimal n v : n ≠ 0%nat → is_decimal (bytesToHex (bcd n v)) = true.
Proof.
  intros Hn. unfold is_decimal. rewrite bcd_decimal, bytesToHex_length. pose proof (blen_bcd n v) as Hl. unfold blen in Hl.
  replace (length (bcd n v)) with n by lia. by destruct n.
Qed.
Lemma two_spellings v :
  0 <= v < 10 ^ 64 → spelled_in_letters v →
  be 32 v ≠ bcd 32 v ∧ dec_number (bytes_input (be 32 v)) = Some v ∧ dec_number (bytes_input (bcd 32 v)) = Some v.
Proof.
  intros Hv Hs. assert (E : 10 ^ 64 = 100 ^ Z.of_nat 32) by done.
  pose proof (bcd_is_decimal 32 v (Nat.neq_succ_0 31)) as Hd. unfold spelled_in_letters in Hs. split.
  - intros Eq. rewrite <- Eq in Hd. congruence.
  - unfold bytes_input. rewrite Hs, Hd. split; [|apply dec_number_bcd; rewrite <- E; exact Hv].
    rewrite dec_number_pretty by apply unbe_nonneg. f_equal. rewrite unbe_be. apply Z.mod_small.
    change (256 ^ Z.of_nat 32) with (2 ^ 256). assert (10 ^ 64 < 2 ^ 256) by done. lia.
Qed.
(** The verifier sees the number, not its spelling. *)
Lemma same_number_same_verdict `{Groth16Laws} vk root n n' d rl bh proof :
  blen root = 32 → blen rl = 32 → 0 <= d → blen n = 32 → blen n' = 32 →
  dec_number (bytes_input n) = dec_number (bytes_input n') →
  verifyMixerProof vk (mixer_inputs root n d rl bh) proof = verifyMixerProof vk (mixer_inputs root n' d rl bh) proof.
Proof.
  intros Hr Hl Hd Hn Hn' E. unfold verifyMixerProof. rewrite !mixer_inputs_Ok by done. cbn [mbind res_bind].
  destruct (negb _); [done|]. change (length (mixer_inputs root n d rl bh)) with (length (mixer_inputs root n' d rl bh)).
  destruct (negb _); [done|]. destruct vk as [k|]; [|done]. destruct (bool_decide _); [done|].
  destruct (_parseGroth16Proof proof) as [cs|]; [|done]. apply groth16_reads. unfold mixer_numbers. cbn [map]. by rewrite E.
Qed.
