(* ===== verification/CodecBridge.v ===== *)
(** * The payloads of the Ethereum bridge

    The five bridge messages of [dapp/tacit.js]: their encoders, the two decoders the
    client has, and the hashes their proofs bind.  Neither encoder nor decoder checks
    the width of a field. *)
From Stdlib Require Import Ascii.
From stdpp Require Import strings pretty.
From S2P Require Import Prelude Bytes Crypto Curve Hex Merkle.

Definition T_BRIDGE_DEPOSIT : Z := 0x60.
Definition T_BRIDGE_BURN : Z := 0x61.
Definition T_BRIDGE_ROTATE : Z := 0x62.
Definition T_BRIDGE_EXPORT : Z := 0x63.
Definition T_BRIDGE_IMPORT : Z := 0x64.
Definition BRIDGE_DEPOSIT_DOMAIN : bytes := ascii_bytes "tacit-bridge-deposit-v1".
Definition BRIDGE_BURN_DOMAIN : bytes := ascii_bytes "tacit-bridge-burn-v1".
Definition BRIDGE_ROTATE_DOMAIN : bytes := ascii_bytes "tacit-bridge-rotate-v1".
Definition BRIDGE_EXPORT_DOMAIN : bytes := ascii_bytes "tacit-bridge-export-v1".
Definition BRIDGE_IMPORT_DOMAIN : bytes := ascii_bytes "tacit-bridge-import-v1".

(** [proof.length & 0xff, (proof.length >> 8) & 0xff], then the proof *)
Definition low16 (n : Z) : bytes := u8b (Z.land n 0xff) ++ u8b (Z.land (Z.shiftr n 8) 0xff).
Definition with_len (proof : bytes) : bytes := low16 (blen proof) ++ proof.
(** [payload.slice(o, o + n)] at the end of a payload that may be shorter *)
Definition upto (n : Z) : rd bytes := λ s, Ok (take (Z.to_nat n) s, drop (Z.to_nat n) s).

Lemma low16_le n : 0 <= n < 65536 → low16 n = le 2 n.
Proof.
  intros Hn. unfold low16. rewrite !(Z.land_ones _ 8) by lia. rewrite Z.shiftr_div_pow2 by lia.
  change (2 ^ 8) with 256. cbn [le]. unfold u8b. cbn [app].
  assert (Hb : ∀ v, byte_of_Z (v mod 256) = byte_of_Z v); [|by rewrite !Hb].
  intros v. rewrite <- (byte_of_byteZ (byte_of_Z v)). by rewrite byteZ_of_Z.
Qed.

(** ** Deposit: a note burned on Ethereum enters a pool *)
Module BridgeDeposit.
Record t := Mk { networkTag : Z; assetId : bytes; denomWei : bytes; ethRoot : bytes; nullifierHash : bytes;
                 recipientCommit : bytes; leafHash : bytes; rLeaf : bytes; bindHash : bytes; proof : bytes }.

Definition encodeTBridgeDepositPayload (x : t) : bytes :=
  concatBytes [u8b T_BRIDGE_DEPOSIT; u8b (Z.land (networkTag x) 0xff); assetId x; denomWei x; ethRoot x;
               nullifierHash x; recipientCommit x; leafHash x; rLeaf x; bindHash x; with_len (proof x)].
Definition decodeTBridgeDepositPayload (payload : bytes) : res t :=
  run (
    null_if (blen payload <? 261);;
    opcode T_BRIDGE_DEPOSIT;;
    networkTag ← u8;
    assetId ← slice 32;
    denomWei ← slice 32;
    ethRoot ← slice 32;
    nullifierHash ← slice 32;
    recipientCommit ← slice 33;
    leafHash ← slice 32;
    rLeaf ← slice 32;
    bindHash ← slice 32;
    proofLen ← uint 2;
    proof ← upto proofLen;
    mret (Mk networkTag assetId denomWei ethRoot nullifierHash recipientCommit leafHash rLeaf bindHash proof)) payload.

Definition fits (x : t) : Prop :=
  0 <= networkTag x < 256 ∧ blen (assetId x) = 32 ∧ blen (denomWei x) = 32 ∧ blen (ethRoot x) = 32 ∧
  blen (nullifierHash x) = 32 ∧ blen (recipientCommit x) = 33 ∧ blen (leafHash x) = 32 ∧ blen (rLeaf x) = 32 ∧
  blen (bindHash x) = 32 ∧ blen (proof x) < 65536.
End BridgeDeposit.

(** ** Burn: a note leaves a pool for an Ethereum address *)
Module BridgeBurn.
Record t := Mk { networkTag : Z; assetId : bytes; denomWei : bytes; merkleRoot : bytes; nullifierHash : bytes;
                 recipientCommit : bytes; rLeaf : bytes; ethRecipient : bytes; burnNonce : bytes; bindHash : bytes;
                 proof : bytes }.

Definition encodeTBridgeBurnPayload (x : t) : bytes :=
  concatBytes [u8b T_BRIDGE_BURN; u8b (Z.land (networkTag x) 0xff); assetId x; denomWei x; merkleRoot x;
               nullifierHash x; recipientCommit x; rLeaf x; ethRecipient x; burnNonce x; bindHash x; with_len (proof x)].
Definition decodeTBridgeBurnPayload (payload : bytes) : res t :=
  run (
    null_if (blen payload <? 281);;
    opcode T_BRIDGE_BURN;;
    networkTag ← u8;
    assetId ← slice 32;
    denomWei ← slice 32;
    merkleRoot ← slice 32;
    nullifierHash ← slice 32;
    recipientCommit ← slice 33;
    rLeaf ← slice 32;
    ethRecipient ← slice 20;
    burnNonce ← slice 32;
    bindHash ← slice 32;
    proofLen ← uint 2;
    proof ← upto proofLen;
    mret (Mk networkTag assetId denomWei merkleRoot nullifierHash recipientCommit rLeaf ethRecipient burnNonce
             bindHash proof)) payload.

Definition fits (x : t) : Prop :=
  0 <= networkTag x < 256 ∧ blen (assetId x) = 32 ∧ blen (denomWei x) = 32 ∧ blen (merkleRoot x) = 32 ∧
  blen (nullifierHash x) = 32 ∧ blen (recipientCommit x) = 33 ∧ blen (rLeaf x) = 32 ∧ blen (ethRecipient x) = 20 ∧
  blen (burnNonce x) = 32 ∧ blen (bindHash x) = 32 ∧ blen (proof x) < 65536.
End BridgeBurn.

(** ** Rotate, export and import: encoders only; the leaf checks read them by offset *)
Record rotation := Rotation { ro_networkTag : Z; ro_assetId : bytes; ro_denomWei : bytes; ro_merkleRoot : bytes;
  ro_nullifierHash : bytes; ro_commitment : bytes; ro_rLeaf : bytes; ro_bindHash : bytes; ro_proof : bytes }.
Definition encodeTBridgeRotatePayload (x : rotation) : bytes :=
  concatBytes [u8b T_BRIDGE_ROTATE; u8b (Z.land (ro_networkTag x) 0xff); ro_assetId x; ro_denomWei x; ro_merkleRoot x;
               ro_nullifierHash x; ro_commitment x; ro_rLeaf x; ro_bindHash x; with_len (ro_proof x)].
(** its commitment is the recipient's *)
Definition encodeTBridgeExportPayload (x : rotation) : bytes :=
  concatBytes [u8b T_BRIDGE_EXPORT; u8b (Z.land (ro_networkTag x) 0xff); ro_assetId x; ro_denomWei x; ro_merkleRoot x;
               ro_nullifierHash x; ro_commitment x; ro_rLeaf x; ro_bindHash x; with_len (ro_proof x)].
Record import := Import { im_networkTag : Z; im_assetId : bytes; im_denomWei : bytes; im_newCommitment : bytes;
  im_bindHash : bytes; im_prevTxid : bytes; im_prevVout : Z }.
Definition encodeTBridgeImportPayload (x : import) : bytes :=
  concatBytes [u8b T_BRIDGE_IMPORT; u8b (Z.land (im_networkTag x) 0xff); im_assetId x; im_denomWei x;
               im_newCommitment x; im_bindHash x; im_prevTxid x; low16 (im_prevVout x)].

(** [payload.slice(a, b)] *)
Definition cut (a b : nat) (payload : bytes) : bytes := take (b - a) (drop a payload).

(** ** The hashes the proofs bind *)
(** a generation of the bridge contract *)
Record gctx := Gctx { g_gen : string; g_address : string; g_chainId : Z }.

Definition strip0x (s : string) : string :=
  match s with
  | String a (String b s') =>
      if bool_decide (a = "0"%char) && (bool_decide (b = "x"%char) || bool_decide (b = "X"%char)) then s' else s
  | _ => s
  end.
Fixpoint zeros_string (n : nat) : string := match n with O => "" | S n => String "0"%char (zeros_string n) end.
(** [s.padStart(n, '0')] *)
Definition padStart (n : nat) (s : string) : string := (zeros_string (n - String.length s) +:+ s)%string.
Definition bigintToBytes32Strict (n : Z) : res bytes :=
  throw_if ((n <? 0) || (n >=? Z.shiftl 1 256)) "bigintToBytes32Strict: value out of [0, 2^256)";; mret (be 32 n).

Section binds.
Context `{Hash} {SE : Secp}.
Definition _reduceModField (hash32 : bytes) : bytes := bigintToBytes32 (bytes32ToBigint hash32 mod BN254_FIELD_SIZE).
Definition bridge_bind (g : gctx) (domain : bytes) (networkTag : Z) (fields : list bytes) : res bytes :=
  chainId32 ← bigintToBytes32Strict (if g_chainId g =? 0 then 1 else g_chainId g);
  mixerAddr ← hexToBytes (padStart 40 (strip0x (g_address g)));
  mret (_reduceModField (sha256 (concatBytes ([domain; chainId32; mixerAddr; u8b (Z.land networkTag 0xff)] ++ fields)))).

Definition computeBridgeDepositBindHash (g : gctx) (networkTag : Z)
    (assetId denomWei ethRoot nullifierHash recipientCommit leafHash rLeaf : bytes) : res bytes :=
  bridge_bind g BRIDGE_DEPOSIT_DOMAIN networkTag [assetId; denomWei; ethRoot; nullifierHash; recipientCommit; leafHash; rLeaf].
Definition computeBridgeBurnBindHash (g : gctx) (networkTag : Z)
    (assetId denomWei merkleRoot nullifierHash recipientCommit rLeaf ethRecipient burnNonce : bytes) : res bytes :=
  bridge_bind g BRIDGE_BURN_DOMAIN networkTag
    [assetId; denomWei; merkleRoot; nullifierHash; recipientCommit; rLeaf; ethRecipient; burnNonce].
Definition computeBridgeRotateBindHash (g : gctx) (networkTag : Z)
    (assetId denomWei merkleRoot nullifierHash newCommitment rLeaf : bytes) : res bytes :=
  bridge_bind g BRIDGE_ROTATE_DOMAIN networkTag [assetId; denomWei; merkleRoot; nullifierHash; newCommitment; rLeaf].
Definition computeBridgeExportBindHash (g : gctx) (networkTag : Z)
    (assetId denomWei merkleRoot nullifierHash recipientCommit rLeaf : bytes) : res bytes :=
  bridge_bind g BRIDGE_EXPORT_DOMAIN networkTag [assetId; denomWei; merkleRoot; nullifierHash; recipientCommit; rLeaf].
Definition computeBridgeImportBindHash (g : gctx) (networkTag : Z)
    (assetId denomWei newCommitment prevTxid : bytes) (prevVout : Z) : res bytes :=
  bridge_bind g BRIDGE_IMPORT_DOMAIN networkTag [assetId; denomWei; newCommitment; prevTxid; low16 prevVout].
End binds.

(** ** Laws *)
Lemma upto_run n x : blen x = n → upto n x = Ok (x, []).
Proof.
  intros <-. unfold upto, blen. rewrite Nat2Z.id. f_equal. f_equal; [by apply take_ge|by apply drop_ge].
Qed.
Lemma safe_upto n s : safe_at (upto n) s.
Proof. right. by eexists. Qed.
Lemma land_byte v : 0 <= v < 256 → Z.land v 0xff = v.
Proof. intros Hv. change 0xff with (Z.ones 8). rewrite Z.land_ones by lia. by apply Z.mod_small. Qed.

Ltac bridge_run := repeat first [rd_step | by apply upto_run].
Ltac bridge_safe := apply total_run; repeat safe_step; try len_lia;
  (apply safe_bind; [apply safe_upto|intros; apply safe_ret]).

Lemma bridgeDeposit_round x :
  BridgeDeposit.fits x → BridgeDeposit.decodeTBridgeDepositPayload (BridgeDeposit.encodeTBridgeDepositPayload x) = Ok x.
Proof.
  destruct x as [tag a d r n c l rl bh pf]. unfold BridgeDeposit.fits, BridgeDeposit.decodeTBridgeDepositPayload,
    BridgeDeposit.encodeTBridgeDepositPayload. cbn [BridgeDeposit.networkTag BridgeDeposit.assetId BridgeDeposit.denomWei
    BridgeDeposit.ethRoot BridgeDeposit.nullifierHash BridgeDeposit.recipientCommit BridgeDeposit.leafHash BridgeDeposit.rLeaf
    BridgeDeposit.bindHash BridgeDeposit.proof].
  intros (Ht & Ha & Hd & Hr & Hn & Hc & Hl & Hrl & Hb & Hp). pose proof (blen_nonneg pf).
  rewrite land_byte by done. unfold with_len. rewrite low16_le by lia. rewrite !concatBytes_cons, concatBytes_nil, app_nil_r.
  apply run_Ok. eexists. bridge_run. all: try guard_solve. f_equal. apply take_ge. unfold blen. lia.
Qed.
Lemma bridgeDeposit_total p : total (BridgeDeposit.decodeTBridgeDepositPayload p).
Proof. unfold BridgeDeposit.decodeTBridgeDepositPayload. bridge_safe. Qed.

Lemma bridgeBurn_round x : BridgeBurn.fits x → BridgeBurn.decodeTBridgeBurnPayload (BridgeBurn.encodeTBridgeBurnPayload x) = Ok x.
Proof.
  destruct x as [tag a d r n c rl er bn bh pf]. unfold BridgeBurn.fits, BridgeBurn.decodeTBridgeBurnPayload,
    BridgeBurn.encodeTBridgeBurnPayload. cbn [BridgeBurn.networkTag BridgeBurn.assetId BridgeBurn.denomWei
    BridgeBurn.merkleRoot BridgeBurn.nullifierHash BridgeBurn.recipientCommit BridgeBurn.rLeaf BridgeBurn.ethRecipient
    BridgeBurn.burnNonce BridgeBurn.bindHash BridgeBurn.proof].
  intros (Ht & Ha & Hd & Hr & Hn & Hc & Hrl & He & Hbn & Hb & Hp). pose proof (blen_nonneg pf).
  rewrite land_byte by done. unfold with_len. rewrite low16_le by lia. rewrite !concatBytes_cons, concatBytes_nil, app_nil_r.
  apply run_Ok. eexists. bridge_run. all: try guard_solve. f_equal. apply take_ge. unfold blen. lia.
Qed.
Lemma bridgeBurn_total p : total (BridgeBurn.decodeTBridgeBurnPayload p).
Proof. unfold BridgeBurn.decodeTBridgeBurnPayload. bridge_safe. Qed.

(** the field at an offset *)
Lemma cut_field (fs : list bytes) i x a b :
  fs !! i = Some x → a = sum_list_with length (take i fs) → b = (a + length x)%nat → cut a b (concatBytes fs) = x.
Proof.
  intros Hx -> ->. unfold cut. revert i Hx. induction fs as [|f fs IH]; intros i Hx; [done|]. rewrite concatBytes_cons.
  destruct i as [|i].
  - injection Hx as ->. cbn [take sum_list_with]. rewrite drop_0. rewrite Nat.add_0_l, Nat.sub_0_r. apply take_app_length.
  - cbn [take sum_list_with]. specialize (IH i Hx). rewrite drop_app, drop_ge by lia. cbn [app].
    replace (length f + sum_list_with length (take i fs) - length f)%nat with (sum_list_with length (take i fs)) by lia.
    replace (length f + sum_list_with length (take i fs) + length x - (length f + sum_list_with length (take i fs)))%nat
      with (sum_list_with length (take i fs) + length x - sum_list_with length (take i fs))%nat by lia.
    exact IH.
Qed.

Definition rotation_fits (x : rotation) : Prop :=
  0 <= ro_networkTag x < 256 ∧ blen (ro_assetId x) = 32 ∧ blen (ro_denomWei x) = 32 ∧ blen (ro_merkleRoot x) = 32 ∧
  blen (ro_nullifierHash x) = 32 ∧ blen (ro_commitment x) = 32 ∧ blen (ro_rLeaf x) = 32 ∧ blen (ro_bindHash x) = 32 ∧
  blen (ro_proof x) < 65536.
Definition import_fits (x : import) : Prop :=
  0 <= im_networkTag x < 256 ∧ blen (im_assetId x) = 32 ∧ blen (im_denomWei x) = 32 ∧ blen (im_newCommitment x) = 32 ∧
  blen (im_bindHash x) = 32 ∧ blen (im_prevTxid x) = 32 ∧ 0 <= im_prevVout x < 65536.

Lemma length_u8b v : length (u8b v) = 1%nat.
Proof. done. Qed.
Ltac cut_at i :=
  eapply (cut_field _ i);
    [reflexivity|cbn [take sum_list_with]; rewrite ?length_u8b, ?length_le; unfold blen in *; lia
    |rewrite ?length_le; unfold blen in *; lia].
(** the offsets the leaf checks read a rotation and an import at *)
Lemma rotate_layout x (p := encodeTBridgeRotatePayload x) :
  rotation_fits x →
  cut 2 34 p = ro_assetId x ∧ cut 34 66 p = ro_denomWei x ∧ cut 66 98 p = ro_merkleRoot x ∧
  cut 98 130 p = ro_nullifierHash x ∧ cut 130 162 p = ro_commitment x ∧ cut 162 194 p = ro_rLeaf x ∧
  cut 194 226 p = ro_bindHash x ∧ cut 226 228 p = le 2 (blen (ro_proof x)) ∧
  cut 228 (228 + length (ro_proof x)) p = ro_proof x ∧ blen p = 228 + blen (ro_proof x).
Proof.
  destruct x as [tag a d r n c rl bh pf]. unfold rotation_fits, p, encodeTBridgeRotatePayload, with_len.
  cbn [ro_networkTag ro_assetId ro_denomWei ro_merkleRoot ro_nullifierHash ro_commitment ro_rLeaf ro_bindHash ro_proof].
  intros (Ht & Ha & Hd & Hr & Hn & Hc & Hrl & Hb & Hp). pose proof (blen_nonneg pf). rewrite low16_le by lia.
  assert (E : ∀ x y z : bytes, concatBytes [x; y; a; d; r; n; c; rl; bh; z ++ pf] = concatBytes [x; y; a; d; r; n; c; rl; bh; z; pf]).
  { intros. by rewrite !concatBytes_cons, concatBytes_nil, !app_nil_r. }
  rewrite E.
  split; [cut_at 2%nat|]. split; [cut_at 3%nat|]. split; [cut_at 4%nat|]. split; [cut_at 5%nat|]. split; [cut_at 6%nat|].
  split; [cut_at 7%nat|]. split; [cut_at 8%nat|]. split; [cut_at 9%nat|]. split; [cut_at 10%nat|].
  rewrite !concatBytes_cons, concatBytes_nil, app_nil_r. len_lia.
Qed.
Lemma import_layout x (p := encodeTBridgeImportPayload x) :
  import_fits x →
  cut 2 34 p = im_assetId x ∧ cut 34 66 p = im_denomWei x ∧ cut 66 98 p = im_newCommitment x ∧ blen p = 164.
Proof.
  destruct x as [tag a d c bh pt pv]. unfold import_fits, p, encodeTBridgeImportPayload.
  cbn [im_networkTag im_assetId im_denomWei im_newCommitment im_bindHash im_prevTxid im_prevVout].
  intros (Ht & Ha & Hd & Hc & Hb & Hpt & Hpv). rewrite low16_le by lia.
  split; [cut_at 2%nat|]. split; [cut_at 3%nat|]. split; [cut_at 4%nat|].
  rewrite !concatBytes_cons, concatBytes_nil, app_nil_r. len_lia.
Qed.
