(* ===== verification/CurveModel.v ===== *)
(** * A concrete instance of the libraries' laws

    The integers modulo the group order, with a compressed encoding of the same shape
    as secp256k1's, satisfy every law of [SecpLaws]; a length-preserving hash satisfies
    [HashLen].  The witnesses of the theorems that assume the laws are evaluated
    here, so the laws are known to be consistent. *)
From S2P Require Import Prelude Bytes Crypto Curve.

Record zn := Zn { zv : Z; zok : (0 <=? zv) && (zv <? SECP_N) = true }.

Lemma zn_eq a b : zv a = zv b → a = b.
Proof. destruct a as [a Ha], b as [b Hb]. cbn. intros ->. f_equal. apply proof_irrel. Qed.

#[export] Instance zn_dec : EqDecision zn.
Proof.
  intros a b. destruct (decide (zv a = zv b)) as [E|E]; [left; by apply zn_eq|right; congruence].
Defined.

Lemma zn_range a : 0 <= zv a < SECP_N.
Proof. destruct a as [a Ha]. cbn. bool_to_prop. done. Qed.

Lemma zn_mk_ok z : (0 <=? z mod SECP_N) && (z mod SECP_N <? SECP_N) = true.
Proof. pose proof (Z.mod_pos_bound z SECP_N ltac:(done)). bool_goal; lia. Qed.

Definition zn_of (z : Z) : zn := Zn (z mod SECP_N) (zn_mk_ok z).

Definition zn_even (a : zn) : bool := zv a <=? SECP_N - zv a.
Definition zn_x (a : zn) : Z := if zn_even a then zv a else SECP_N - zv a.
Definition zn_raw (a : zn) : bytes := u8b (if zn_even a then 2 else 3) ++ be 32 (zn_x a).
Definition zn_parse (b : bytes) : option zn :=
  let x := unbe (drop 1 b) in
  if negb ((0 <? x) && (x <? SECP_N - x)) then None
  else if bool_decide (take 1 b = u8b 2) then Some (zn_of x)
  else if bool_decide (take 1 b = u8b 3) then Some (zn_of (SECP_N - x))
  else None.

#[export] Instance zn_secp : Secp := {|
  point := zn;
  ZERO := zn_of 0;
  G := zn_of 1;
  H := zn_of 7;
  add a b := zn_of (zv a + zv b);
  negate a := zn_of (- zv a);
  smul k a := zn_of (k * zv a);
  fromHex := zn_parse;
  toRawBytes := zn_raw
|}.

Lemma zn_of_eq a b : a mod SECP_N = b mod SECP_N → zn_of a = zn_of b.
Proof. intros E. by apply zn_eq. Qed.

Lemma zn_of_zv a : zn_of (zv a) = a.
Proof. apply zn_eq. cbn. apply Z.mod_small, zn_range. Qed.

Lemma zn_neq_0 a : a ≠ zn_of 0 → 0 < zv a.
Proof.
  intros Ha. pose proof (zn_range a). destruct (Z.eq_dec (zv a) 0) as [E|]; [|lia].
  destruct Ha. by apply zn_eq.
Qed.

Lemma zn_x_range a : 0 <= zn_x a <= SECP_N - zn_x a.
Proof. unfold zn_x, zn_even. pose proof (zn_range a). destruct (Z.leb_spec (zv a) (SECP_N - zv a)); lia. Qed.

Lemma zn_odd_order z : 2 * z ≠ SECP_N.
Proof. intros E%(f_equal Z.odd). rewrite Z.odd_mul in E. discriminate. Qed.

Lemma zn_negate_zv a : a ≠ zn_of 0 → zv (negate a) = SECP_N - zv a.
Proof.
  intros Ha%zn_neq_0. pose proof (zn_range a). cbn.
  rewrite <- (Z_mod_plus_full _ 1), Z.mod_small; lia.
Qed.

Lemma zn_raw_drop a : drop 1 (zn_raw a) = be 32 (zn_x a).
Proof. unfold zn_raw. by destruct (zn_even a). Qed.

Lemma zn_raw_even a : even_y (a : point) = zn_even a.
Proof. unfold even_y. cbn [toRawBytes zn_secp]. unfold zn_raw. by destruct (zn_even a). Qed.

Lemma zn_parse_raw a : a ≠ zn_of 0 → zn_parse (zn_raw a) = Some a.
Proof.
  intros Ha. pose proof (zn_neq_0 _ Ha). pose proof (zn_range a). pose proof (zn_x_range a).
  unfold zn_parse. rewrite zn_raw_drop, unbe_be.
  assert (Hx : zn_x a mod 256 ^ Z.of_nat 32 = zn_x a).
  { apply Z.mod_small. assert (SECP_N < 256 ^ Z.of_nat 32) by done. lia. }
  rewrite Hx. pose proof (zn_odd_order (zn_x a)).
  assert (0 < zn_x a) by (unfold zn_x; destruct (zn_even a); lia).
  rewrite (proj2 (Z.ltb_lt _ _)), (proj2 (Z.ltb_lt _ _)) by lia. cbn [andb negb].
  unfold zn_raw, zn_x. destruct (zn_even a); cbn [take app u8b].
  - rewrite bool_decide_eq_true_2 by done. by rewrite zn_of_zv.
  - rewrite bool_decide_eq_false_2 by done. rewrite bool_decide_eq_true_2 by done.
    replace (SECP_N - (SECP_N - zv a)) with (zv a) by lia. by rewrite zn_of_zv.
Qed.

Lemma be_unbe b : be (length b) (unbe b) = b.
Proof. unfold be, unbe. rewrite <- length_rev, le_unle by done. apply rev_involutive. Qed.

Lemma zn_raw_parse b a : blen b = 33 → zn_parse b = Some a → a ≠ zn_of 0 ∧ zn_raw a = b.
Proof.
  unfold zn_parse. intros Hb. set (x := unbe (drop 1 b)).
  destruct (negb _) eqn:Hx; [done|]. bool_to_prop.
  assert (Hbe : be 32 x = drop 1 b).
  { unfold x. rewrite <- (be_unbe (drop 1 b)) at 2. f_equal. unfold blen in Hb. rewrite length_drop. lia. }
  assert (Hcat : ∀ c, take 1 b = c → c ++ drop 1 b = b) by (intros c <-; apply take_drop).
  assert (Hzv : ∀ z, 0 < z < SECP_N → zv (zn_of z) = z) by (intros; cbn; apply Z.mod_small; lia).
  assert (Hnz : ∀ z, 0 < z < SECP_N → zn_of z ≠ zn_of 0).
  { intros z Hz E%(f_equal zv). rewrite Hzv in E by done. change (zv (zn_of 0)) with 0 in E. lia. }
  case_bool_decide as H2; [|case_bool_decide as H3; [|done]]; intros [= <-].
  - split; [apply Hnz; lia|]. unfold zn_raw, zn_x, zn_even. rewrite Hzv by lia.
    rewrite (proj2 (Z.leb_le x (SECP_N - x))) by lia. rewrite Hbe. by apply Hcat.
  - split; [apply Hnz; lia|]. unfold zn_raw, zn_x, zn_even. rewrite Hzv by lia.
    rewrite (proj2 (Z.leb_gt (SECP_N - x) (SECP_N - (SECP_N - x)))) by lia.
    replace (SECP_N - (SECP_N - x)) with x by lia. rewrite Hbe. by apply Hcat.
Qed.

#[export] Instance zn_laws : SecpLaws.
Proof.
  split.
  - intros. apply zn_of_eq. cbn. by rewrite Z.add_mod_idemp_l, Z.add_mod_idemp_r, Z.add_assoc by done.
  - intros. apply zn_of_eq. by rewrite Z.add_comm.
  - intros. apply zn_of_zv.
  - intros. apply zn_of_eq. cbn. by rewrite Z.add_mod_idemp_r, Z.add_opp_diag_r by done.
  - intros. cbn -[Z.mul]. rewrite Z.mul_1_l. apply zn_of_zv.
  - intros. apply zn_of_eq. cbn. by rewrite <- Z.add_mod, Z.mul_add_distr_r by done.
  - intros. apply zn_of_eq. cbn. by rewrite Z.mul_mod_idemp_r, Z.mul_assoc by done.
  - intros. apply zn_of_eq. by rewrite Z.mul_comm, Z_mod_mult.
  - intros a E%(f_equal zv). cbn -[SECP_N] in E. rewrite Z.mul_mod_idemp_r, Z.mul_1_r in E by done. done.
  - intros a. cbn [toRawBytes zn_secp]. unfold zn_raw. by rewrite blen_app, blen_be, blen_u8b.
  - intros a _. unfold xonly. cbn [toRawBytes zn_secp]. rewrite zn_raw_drop. unfold zn_raw.
    destruct (zn_even a); eauto.
  - intros a Ha. rewrite !zn_raw_even. unfold xonly. cbn [toRawBytes zn_secp]. rewrite !zn_raw_drop.
    unfold zn_x, zn_even. pose proof (zn_neq_0 _ Ha). pose proof (zn_range a).
    rewrite (zn_negate_zv a) by done. pose proof (zn_odd_order (zv a)).
    destruct (Z.leb_spec (zv a) (SECP_N - zv a)), (Z.leb_spec (SECP_N - zv a) (SECP_N - (SECP_N - zv a)));
      cbn [negb]; split; try done; try lia; f_equal; lia.
  - intros a. unfold xonly. cbn [toRawBytes zn_secp]. rewrite zn_raw_drop, unbe_be.
    pose proof (zn_x_range a). rewrite Z.mod_small.
    + assert (SECP_N < SECP_P) by done. lia.
    + assert (SECP_N < 256 ^ Z.of_nat 32) by done. lia.
  - apply zn_parse_raw.
  - apply zn_raw_parse.
Qed.

(** A toy digest: 32 bytes from the length and the big-endian value of the message. *)
Definition toy_sha256 (m : bytes) : bytes := be 32 (unbe m * 7919 + blen m + 1).
#[export] Instance toy_hash : Hash := toy_sha256.
#[export] Instance toy_hash_len : HashLen.
Proof. intros m. unfold sha256, toy_hash, toy_sha256. by rewrite blen_be. Qed.
