(* ===== verification/Kernel.v ===== *)
(** * Conservation kernels

    A transfer proves that it neither creates nor destroys value by a signature under
    the excess point [E' = sum C_out + burned*H - sum C_in]; the AMM operations use the
    same argument with a public amount in place of the outputs.  This file has the
    sources' computation of the excess points and verification keys, and the
    argument itself: an excess whose discrete logarithm to [G] is known either closes
    the amounts exactly or hands over a relation between [H] and [G]; and an honest
    signer's kernel is accepted. *)
From S2P Require Import Prelude Bytes Crypto CodecPool CodecTransfer CodecSlots Messages Curve.

Section kernel.
Context {SE : Secp} `{Hash}.

(** [for (const c of l) E = E.add(f(bytesToPoint(c)))] *)
Fixpoint add_points (parse : bytes → res point) (f : point → point) (l : list bytes) (E : point) : res point :=
  match l with
  | [] => mret E
  | c :: l => P ← parse c; add_points parse f l (add E (f P))
  end.

(** The validator's [EPrime]: outputs, then the burned amount, then the inputs. *)
Definition EPrime (outputs : list bytes) (burnedAmount : Z) (inputs : list bytes) : res point :=
  E ← add_points bytesToPoint (λ P, P) outputs ZERO;
  E ← (if burnedAmount >? 0 then bH ← safeMult H burnedAmount; mret (add E bH) else mret E);
  add_points bytesToPoint negate inputs E.

(** [secp.ProjectivePoint.fromHex(bytesToHex(C))] *)
Definition parsePoint (b : bytes) : res point :=
  match fromHex b with Some P => mret P | None => Throw "bad point" end.

Definition ammLpAddKernelKey (inputCommitments : list bytes) (deltaX : Z) : res bytes :=
  throw_if (length inputCommitments =? 0)%nat "inputCommitments must be non-empty";;
  sum ← add_points parsePoint (λ P, P) inputCommitments ZERO;
  throw_if ((deltaX <? 0) || (deltaX >=? Z.shiftl 1 64)) "delta out of u64 range";;
  dH ← multiply_or_zero H deltaX;
  let E := add sum (negate dH) in
  throw_if (equals E ZERO) "kernel key collapsed to identity";;
  mret (xonly E).

Definition ammLpRemoveKernelKey (lpInputCommitments : list bytes) (shareAmount : Z) : res bytes :=
  throw_if (length lpInputCommitments =? 0)%nat "lpInputCommitments must be non-empty";;
  sum ← add_points parsePoint (λ P, P) lpInputCommitments ZERO;
  sH ← multiply H shareAmount;
  let E := add sum (negate sH) in
  throw_if (equals E ZERO) "kernel key collapsed to identity";;
  mret (xonly E).

(** [try { key = ...; msg = ... } catch { return false; }] and the signature check *)
Definition ammLpAddKernelVerify (k : lp_add_kernel) (inputCommitments : list bytes) (sig64 : bytes) : res bool :=
  match ammLpAddKernelKey inputCommitments (ak_deltaX k) with
  | Ok key =>
      match ammLpAddKernelMsg k with
      | Ok msg => verifySchnorrWorker sig64 msg key
      | _ => mret false
      end
  | _ => mret false
  end.

(** Here the message is built outside the [try]. *)
Definition ammLpRemoveKernelVerify (k : lp_remove_kernel) (lpInputCommitments : list bytes) (sig64 : bytes) : res bool :=
  match ammLpRemoveKernelKey lpInputCommitments (rk_shareAmount k) with
  | Ok key => msg ← ammLpRemoveKernelMsg k; verifySchnorrWorker sig64 msg key
  | _ => mret false
  end.

Definition ammLpBondKernelVerify (farmId lpAsset : bytes) (bondAmount : Z) (lpInputs : list outpoint)
    (lpInputCommitments : list bytes) (sig64 : bytes) : res bool :=
  match ammLpRemoveKernelKey lpInputCommitments bondAmount with
  | Ok key =>
      match ammLpBondKernelMsg farmId lpAsset bondAmount lpInputs with
      | Ok msg => verifySchnorrWorker sig64 msg key
      | _ => mret false
      end
  | _ => mret false
  end.

(** 33 zero bytes: the whole input is swapped, there is no change note *)
Definition isSentinelChange (b : bytes) : bool := all_zero b.

Definition ammSwapVarKernelVerifyPoint (cChangeOrSentinel cInSecp : bytes) (deltaInTotal : Z) : res point :=
  cChange ← (if all_zero (take 33 cChangeOrSentinel) then mret ZERO else bytesToPoint cChangeOrSentinel);
  cIn ← bytesToPoint cInSecp;
  ditH ← (if deltaInTotal =? 0 then mret ZERO else multiply H (modN deltaInTotal));
  mret (add (add cChange (negate cIn)) ditH).
End kernel.

(** ** Sums of openings *)
Section argument.
Context {SE : Secp} {SL : SecpLaws} `{Hash}.

(** [(v, r)] opens the commitment [C]. *)
Definition opens (C : bytes) (o : Z * Z) : Prop := bytesToPoint C = Ok (commit o.1 o.2).

Definition total_v (os : list (Z * Z)) : Z := foldr (λ o, Z.add o.1) 0 os.
Definition total_r (os : list (Z * Z)) : Z := foldr (λ o, Z.add o.2) 0 os.

Lemma total_v_cons o os : total_v (o :: os) = o.1 + total_v os.
Proof. done. Qed.
Lemma total_r_cons o os : total_r (o :: os) = o.2 + total_r os.
Proof. done. Qed.

(** a discrete-logarithm relation between the two generators *)
Definition relation (a b : Z) : Prop := a mod SECP_N ≠ 0 ∧ smul a H = smul b G.

Lemma commit_add v r w s : add (commit v r) (commit w s) = commit (v + w) (r + s).
Proof. unfold commit. by rewrite add_swap, <- !smul_add. Qed.

Lemma commit_negate v r : negate (commit v r) = commit (- v) (- r).
Proof. unfold commit. by rewrite negate_add, !smul_opp. Qed.

Lemma commit_H v : smul v H = commit v 0.
Proof. unfold commit. by rewrite smul_0, add_zero_r. Qed.

Lemma commit_G r : smul r G = commit 0 r.
Proof. unfold commit. by rewrite smul_0, add_zero. Qed.

Lemma commit_ZERO : ZERO = commit 0 0.
Proof. unfold commit. by rewrite !smul_0, add_zero. Qed.

Lemma commit_mod v r : commit (v mod SECP_N) (r mod SECP_N) = commit v r.
Proof. unfold commit. by rewrite !smul_mod. Qed.

(** Equal commitments to different amounts break the binding. *)
Lemma commit_binding v r w s : commit v r = commit w s → v mod SECP_N = w mod SECP_N ∨ relation (v - w) (s - r).
Proof.
  intros E. destruct (decide ((v - w) mod SECP_N = 0)) as [E0|E0].
  - left. apply Z.mod_divide in E0 as [k Hk]; [|done]. replace v with (w + k * SECP_N) by lia.
    by rewrite Z.mod_add.
  - right. split; [done|]. apply (add_cancel (commit w r)).
    rewrite (commit_H (v - w)), (commit_G (s - r)), !commit_add.
    replace (w + (v - w)) with v by lia. replace (r + (s - r)) with s by lia.
    by rewrite !Z.add_0_r.
Qed.

Lemma add_points_opens parse l os v r :
  Forall2 (λ C o, parse C = Ok (commit o.1 o.2)) l os →
  add_points parse (λ P, P) l (commit v r) = Ok (commit (v + total_v os) (r + total_r os)).
Proof.
  intros Hf. revert v r. induction Hf as [|C o l os HC _ IH]; intros v r; cbn [add_points].
  - unfold total_v, total_r. cbn [foldr]. by rewrite !Z.add_0_r.
  - rewrite HC. cbn [mbind res_bind mret res_ret]. rewrite commit_add, IH, total_v_cons, total_r_cons. do 2 f_equal; lia.
Qed.

Lemma sub_points_opens parse l os v r :
  Forall2 (λ C o, parse C = Ok (commit o.1 o.2)) l os →
  add_points parse negate l (commit v r) = Ok (commit (v - total_v os) (r - total_r os)).
Proof.
  intros Hf. revert v r. induction Hf as [|C o l os HC _ IH]; intros v r; cbn [add_points].
  - unfold total_v, total_r. cbn [foldr]. by rewrite !Z.sub_0_r.
  - rewrite HC. cbn [mbind res_bind mret res_ret]. rewrite commit_negate, commit_add, IH, total_v_cons, total_r_cons. do 2 f_equal; lia.
Qed.

(** The excess of a transfer with known openings. *)
Lemma EPrime_opens outs burned ins vos vis :
  0 <= burned → Forall2 opens outs vos → Forall2 opens ins vis →
  EPrime outs burned ins =
    Ok (commit (total_v vos + burned - total_v vis) (total_r vos - total_r vis)).
Proof.
  intros Hb Ho Hi. unfold EPrime. rewrite commit_ZERO.
  rewrite (add_points_opens _ _ vos) by done. cbn [mbind res_bind mret res_ret].
  destruct (Z.gtb_spec burned 0).
  - rewrite safeMult_Ok. cbn [mbind res_bind mret res_ret]. rewrite commit_H, commit_add.
    rewrite (sub_points_opens _ _ vis) by done. do 2 f_equal; lia.
  - assert (burned = 0) as -> by lia. unfold mret, res_ret. cbn [mbind res_bind mret res_ret]. rewrite (sub_points_opens _ _ vis) by done.
    do 2 f_equal; lia.
Qed.

(** If the excess is a known multiple of [G], the amounts balance or the known openings
    and the known multiple are a relation between the generators. *)
Lemma excess_conserves delta rho e :
  commit delta rho = smul e G → - SECP_N < delta < SECP_N → delta = 0 ∨ relation delta (e - rho).
Proof.
  rewrite commit_G. intros E Hd. apply commit_binding in E as [E|E].
  - left. rewrite Z.mod_0_l in E by done. apply Z.mod_divide in E as [k Hk]; [|done].
    assert (0 < SECP_N) by done. set (n := SECP_N) in *. clearbody n. assert (k = 0) by nia. subst k. lia.
  - right. by rewrite Z.sub_0_r in E.
Qed.

(** A balanced excess is the sum of blindings times [G]: the honest signer's key. *)
Lemma excess_balanced rho : commit 0 rho = smul rho G.
Proof. symmetry. apply commit_G. Qed.

(** 64-bit amounts in numbers a transaction can have never reach the group order. *)
Definition amounts_u64 (os : list (Z * Z)) : Prop :=
  Forall (λ o : Z * Z, 0 <= o.1 < 2 ^ 64) os ∧ Z.of_nat (length os) <= 255.

Lemma total_v_bound os : amounts_u64 os → 0 <= total_v os <= 255 * 2 ^ 64.
Proof.
  intros [Hf Hl]. assert (0 <= total_v os <= Z.of_nat (length os) * 2 ^ 64); [|lia].
  clear Hl. induction Hf as [|o os Ho _ IH]; [done|].
  rewrite total_v_cons. cbn [length]. lia.
Qed.

Lemma kernel_delta_range vos vis burned :
  amounts_u64 vos → amounts_u64 vis → 0 <= burned < 2 ^ 64 →
  - SECP_N < total_v vos + burned - total_v vis < SECP_N.
Proof.
  intros ?%total_v_bound ?%total_v_bound ?. assert (1000 * 2 ^ 64 < SECP_N) by done. lia.
Qed.

Lemma transfer_conserves outs burned ins vos vis e :
  amounts_u64 vos → amounts_u64 vis → 0 <= burned < 2 ^ 64 →
  Forall2 opens outs vos → Forall2 opens ins vis → EPrime outs burned ins = Ok (smul e G) →
  total_v vis = total_v vos + burned ∨
  relation (total_v vos + burned - total_v vis) (e - (total_r vos - total_r vis)).
Proof.
  intros Hvo Hvi Hb Ho Hi. rewrite (EPrime_opens _ _ _ vos vis) by (done || lia). intros [= E].
  apply excess_conserves in E as [E|E]; [left; lia|by right|by apply kernel_delta_range].
Qed.

(** *** Kernels against a public amount *)
Lemma opens_parse C o : opens C o → parsePoint C = Ok (commit o.1 o.2).
Proof.
  unfold opens, parsePoint, bytesToPoint. intros E. enc_inv E.
  destruct (fromHex C); [|done]. by injection E as ->.
Qed.

Lemma opens_parse_all ins vis :
  Forall2 opens ins vis → Forall2 (λ C o, parsePoint C = Ok (commit o.1 o.2)) ins vis.
Proof. intros Hf. eapply Forall2_impl; [exact Hf|]. intros C o. apply opens_parse. Qed.

(** the point whose x coordinate is the verification key of a spend of [delta] *)
Definition public_excess (vis : list (Z * Z)) (delta : Z) : point := commit (total_v vis - delta) (total_r vis).

Lemma public_excess_sum ins vis delta :
  Forall2 opens ins vis →
  (sum ← add_points parsePoint (λ P, P) ins ZERO; mret (add sum (negate (smul delta H)))) =
    Ok (public_excess vis delta).
Proof.
  intros Hf%opens_parse_all. rewrite commit_ZERO, (add_points_opens _ _ vis) by done.
  cbn [mbind res_bind mret res_ret]. rewrite commit_H, commit_negate, commit_add.
  unfold public_excess. do 2 f_equal; lia.
Qed.

Lemma add_points_Ok_opens ins vis :
  Forall2 opens ins vis → add_points parsePoint (λ P, P) ins ZERO = Ok (commit (total_v vis) (total_r vis)).
Proof.
  intros Hf%opens_parse_all. by rewrite commit_ZERO, (add_points_opens _ _ vis).
Qed.

Lemma lpAdd_key ins vis delta :
  ins ≠ [] → Forall2 opens ins vis → 0 <= delta < 2 ^ 64 →
  ammLpAddKernelKey ins delta =
    (throw_if (equals (public_excess vis delta) ZERO) "kernel key collapsed to identity";;
     mret (xonly (public_excess vis delta))).
Proof.
  intros Hne Hf Hd. unfold ammLpAddKernelKey. rewrite throw_if_run by (by destruct ins).
  rewrite (add_points_Ok_opens _ vis) by done. cbn [mbind res_bind mret res_ret].
  rewrite throw_if_run by (change (Z.shiftl 1 64) with (2 ^ 64); lia).
  assert (HN : 2 ^ 64 < SECP_N) by done. rewrite multiply_or_zero_Ok by lia.
  cbn [mbind res_bind mret res_ret]. rewrite commit_H, commit_negate, commit_add. unfold public_excess.
  by rewrite Z.add_opp_r, Z.add_0_r.
Qed.

Lemma lpRemove_key ins vis delta :
  ins ≠ [] → Forall2 opens ins vis → 0 < delta < 2 ^ 64 →
  ammLpRemoveKernelKey ins delta =
    (throw_if (equals (public_excess vis delta) ZERO) "kernel key collapsed to identity";;
     mret (xonly (public_excess vis delta))).
Proof.
  intros Hne Hf Hd. unfold ammLpRemoveKernelKey. rewrite throw_if_run by (by destruct ins).
  rewrite (add_points_Ok_opens _ vis) by done. cbn [mbind res_bind mret res_ret].
  assert (HN : 2 ^ 64 < SECP_N) by done. rewrite (proj2 (multiply_Ok H delta (smul delta H))) by (split; [lia|done]).
  cbn [mbind res_bind mret res_ret]. rewrite commit_H, commit_negate, commit_add. unfold public_excess.
  by rewrite Z.add_opp_r, Z.add_0_r.
Qed.

(** A public amount other than the inputs' sum needs a relation between the generators. *)
Lemma public_conserves vis delta e :
  amounts_u64 vis → 0 <= delta < 2 ^ 64 → public_excess vis delta = smul e G →
  total_v vis = delta ∨ relation (total_v vis - delta) (e - total_r vis).
Proof.
  intros Hv Hd E. apply excess_conserves in E as [E|E]; [left; lia|by right|].
  apply total_v_bound in Hv. assert (1000 * 2 ^ 64 < SECP_N) by done. lia.
Qed.

Lemma public_balanced vis : public_excess vis (total_v vis) = smul (total_r vis) G.
Proof. unfold public_excess. rewrite Z.sub_diag. symmetry. apply commit_G. Qed.

(** *** Honest kernels are accepted *)
Definition kernel_secret (vis : list (Z * Z)) : bytes := bigintToBytes32 (total_r vis).

Lemma kernel_secret_point vis : smul (bytes32ToBigint (kernel_secret vis)) G = smul (total_r vis) G.
Proof. unfold kernel_secret. by rewrite bigintToBytes32_round, modN_mod, smul_mod. Qed.

Lemma public_key_ok vis :
  total_r vis mod SECP_N ≠ 0 →
  (throw_if (equals (public_excess vis (total_v vis)) ZERO) "kernel key collapsed to identity";;
   mret (xonly (public_excess vis (total_v vis)))) = Ok (xonly (smul (total_r vis) G)).
Proof.
  intros Hr. rewrite public_balanced. unfold equals.
  rewrite bool_decide_eq_false_2 by (by apply smul_G_neq_mod). done.
Qed.

Lemma lpAdd_complete `{!HashLen} k ins vis aux msg sig :
  ins ≠ [] → Forall2 opens ins vis → 0 <= ak_deltaX k < 2 ^ 64 → total_v vis = ak_deltaX k →
  total_r vis mod SECP_N ≠ 0 →
  ammLpAddKernelMsg k = Ok msg → signSchnorr aux msg (kernel_secret vis) = Ok sig →
  ammLpAddKernelVerify k ins sig = Ok true.
Proof.
  intros Hne Hf Hd Hv Hr Hm Hs. unfold ammLpAddKernelVerify.
  rewrite (lpAdd_key _ vis), <- Hv, public_key_ok by done. rewrite Hm, <- kernel_secret_point.
  apply (sign_verify aux); [|done]. unfold ammLpAddKernelMsg in Hm. enc_inv Hm. injection Hm as <-.
  apply sha256_len.
Qed.

Lemma lpRemove_complete `{!HashLen} k ins vis aux msg sig :
  ins ≠ [] → Forall2 opens ins vis → 0 < rk_shareAmount k < 2 ^ 64 → total_v vis = rk_shareAmount k →
  total_r vis mod SECP_N ≠ 0 →
  ammLpRemoveKernelMsg k = Ok msg → signSchnorr aux msg (kernel_secret vis) = Ok sig →
  ammLpRemoveKernelVerify k ins sig = Ok true.
Proof.
  intros Hne Hf Hd Hv Hr Hm Hs. unfold ammLpRemoveKernelVerify.
  rewrite (lpRemove_key _ vis), <- Hv, public_key_ok by done. rewrite Hm, <- kernel_secret_point.
  apply (sign_verify aux); [|done]. unfold ammLpRemoveKernelMsg in Hm. enc_inv Hm. injection Hm as <-.
  apply sha256_len.
Qed.

(** The add and the bond verifiers answer; the remove verifier throws on more than 255
    inputs or a refund key of the wrong length (when its key can be computed). *)
Lemma lpAdd_verify_total k ins sig : ∃ b, ammLpAddKernelVerify k ins sig = Ok b.
Proof.
  unfold ammLpAddKernelVerify. destruct (ammLpAddKernelKey _ _); eauto.
  destruct (ammLpAddKernelMsg k); eauto using verifyWorker_total.
Qed.

Lemma lpBond_verify_total fid a n ops ins sig : ∃ b, ammLpBondKernelVerify fid a n ops ins sig = Ok b.
Proof.
  unfold ammLpBondKernelVerify. destruct (ammLpRemoveKernelKey _ _); eauto.
  destruct (ammLpBondKernelMsg _ _ _ _); eauto using verifyWorker_total.
Qed.

Lemma lpRemove_verify_throws k ins sig key e :
  ammLpRemoveKernelKey ins (rk_shareAmount k) = Ok key → ammLpRemoveKernelMsg k = Throw e →
  ammLpRemoveKernelVerify k ins sig = Throw e.
Proof. intros Hk Hm. unfold ammLpRemoveKernelVerify. by rewrite Hk, Hm. Qed.

(** *** The swap kernel *)
Lemma swap_point_opens change input c i delta :
  0 <= delta < 2 ^ 64 → opens input i →
  (if all_zero (take 33 change) then c = (0, 0) else opens change c) →
  ammSwapVarKernelVerifyPoint change input delta = Ok (commit (c.1 + delta - i.1) (c.2 - i.2)).
Proof.
  intros Hd Hi Hc. unfold ammSwapVarKernelVerifyPoint.
  assert (Hditch : (if delta =? 0 then mret ZERO else multiply H (modN delta)) = Ok (commit delta 0)).
  { destruct (Z.eqb_spec delta 0) as [->|]; [by rewrite commit_ZERO|].
    assert (HN : 2 ^ 64 < SECP_N) by done. rewrite modN_mod, Z.mod_small by lia.
    rewrite (proj2 (multiply_Ok H delta (smul delta H))) by (split; [lia|done]). by rewrite commit_H. }
  assert (Hch : (if all_zero (take 33 change) then mret ZERO else bytesToPoint change) = Ok (commit c.1 c.2)).
  { destruct (all_zero _); [subst c; by rewrite commit_ZERO|done]. }
  rewrite Hch. cbn [mbind res_bind mret res_ret]. rewrite Hi. cbn [mbind res_bind mret res_ret].
  rewrite Hditch. cbn [mbind res_bind mret res_ret]. rewrite commit_negate, !commit_add. do 2 f_equal; lia.
Qed.
End argument.
