(* ===== verification/Notes.v ===== *)
(** * Notes: what the client validator reads and keeps

    The chain as the validator sees it ([Chain]: fetched transactions, the range-proof
    verifiers, the attested note set, Ethereum state), the validator's own maps
    ([vstate]) with the calls that write them, the envelope of a transaction, and the
    asset and commitment of an output ([getParentEnvelopeData]).  Source:
    [dapp/tacit.js]. *)
From S2P Require Import Prelude Bytes Crypto EnvelopeScript CodecTransfer CodecIssue CodecPool CodecSlots CodecAmm.
From S2P Require Import Messages Curve Mixer.

(** ** Data *)
#[export] Instance byte_countable : Countable byte := inj_countable Byte.to_N Byte.of_N Byte.of_to_N.

#[export] Instance outpoint_eq_dec : EqDecision outpoint.
Proof. solve_decision. Defined.
#[export] Instance outpoint_countable : Countable outpoint.
Proof.
  refine (inj_countable' (λ o, (txid o, vout o)) (λ p, Outpoint p.1 p.2) _). by intros [].
Defined.

(** an input: the output it spends, its witness stack, and the type of that output *)
Record txin := TxIn { in_prev : outpoint; in_witness : list bytes; in_prevtype : string }.
(** an output: its script, the explorer's name for the kind of script, its value *)
Record txout := TxOut { out_script : bytes; out_type : string; out_value : Z }.
(** the height and the hash of its block, when it is confirmed *)
Record txn := Txn { tx_vin : list txin; tx_vout : list txout; tx_height : option Z; tx_blockHash : option string }.

Inductive reason := FETCH_FAILED | INVALID.
#[export] Instance reason_eq_dec : EqDecision reason.
Proof. solve_decision. Defined.

Definition T_CROSSOUT_MINT : Z := 0x65.
Definition T_BTC_SPEND : Z := 0x6D.

(** [if (!dec)]: a decoder's [null] *)
Definition decoded {A} (r : res A) : option A := match r with Ok a => Some a | _ => None end.

(** a note of the attested set: [tracked.get(txid, vout)] *)
Record tracked := Tracked { tr_asset : bytes; tr_commitmentHash : bytes; tr_bound : bool }.

(** ** What the validator asks of the outside *)
Class Chain `{Secp} := {
  fetchTx : bytes → option txn;                          (* null when it cannot be fetched *)
  bppEnabled : bool;
  bpRangeAggVerify : list point → bytes → bool;
  bppRangeVerify : list point → bytes → bool;
  trackedNotes : outpoint → option tracked;              (* empty when there is no checked set *)
  getAssetMeta : bytes → bool;                           (* the wallet has a name for the asset *)
  coordsHash : point → bytes;                            (* keccak256 of the affine coordinates *)
  reflectedHeight : option Z;
  poolBinding : option bytes;
  evmNullifierSpent : outpoint → option bool;            (* None: unreadable *)
  serviceParent : envelope → outpoint → option (bytes * bytes);
  strictValidation : bool
}.

(** ** State *)
Record vstate `{Secp} := VState {
  validatedSet : gmap outpoint bool;
  validatedReasons : gmap outpoint reason;
  rpBatch : option (list (list point * bytes));
  boundOutpointKeys : gset outpoint;
  mixer : pools }.
Arguments VState {_} _ _ _ _ _.

Section notes.
Context `{Hash} {SE : Secp} {CH : Chain}.

(** The monad: every call ends in an outcome and leaves a state. *)
Definition V (A : Type) : Type := vstate → res A * vstate.
#[global] Instance V_ret : MRet V := λ A a s, (Ok a, s).
#[global] Instance V_bind : MBind V := λ A B k m s,
  match m s with
  | (Ok a, s') => k a s'
  | (Null, s') => (Null, s')
  | (Throw e, s') => (Throw e, s')
  | (Oob, s') => (Oob, s')
  end.
Definition lift {A} (r : res A) : V A := λ s, (r, s).
Definition get : V vstate := λ s, (Ok s, s).
(** In strict validation an answer that is not available ends the whole run. *)
Definition _strictUnavailable (msg : string) : V unit :=
  if strictValidation then lift (Throw msg) else mret tt.

(** [validatedSet.set(key, ok)] *)
Definition set_valid (k : outpoint) (ok : bool) : V unit := λ s,
  (Ok tt, VState (<[k := ok]> (validatedSet s)) (validatedReasons s) (rpBatch s) (boundOutpointKeys s) (mixer s)).
Definition set_reason (k : outpoint) (r : reason) : V unit := λ s,
  (Ok tt, VState (validatedSet s) (<[k := r]> (validatedReasons s)) (rpBatch s) (boundOutpointKeys s) (mixer s)).
Definition _markInvalid (k : outpoint) (r : reason) : V unit := set_valid k false;; set_reason k r.

Definition reason_of_parent (s : vstate) (parentKey : outpoint) : reason :=
  if decide (validatedReasons s !! parentKey = Some FETCH_FAILED) then FETCH_FAILED else INVALID.
Definition _markInvalidFromParent (k parentKey : outpoint) : V unit :=
  s ← get; _markInvalid k (reason_of_parent s parentKey).

(** [{ validatedSet.set(key, false); return false; }] *)
Definition refuse (k : outpoint) : V bool := set_valid k false;; mret false.
Definition refuse_with (k : outpoint) (r : reason) : V bool := _markInvalid k r;; mret false.

(** One verdict for a list of outputs of a transaction.  A refusal records a reason:
    the given one, or [dflt] when the caller gives none. *)
Fixpoint mark_list (dflt : option reason) (ks : list outpoint) (ok : bool) (r : option reason) : V unit :=
  match ks with
  | [] => mret tt
  | k :: ks =>
      set_valid k ok;;
      match ok, (if r is Some _ then r else dflt) with
      | false, Some r => set_reason k r
      | _, _ => mret tt
      end;;
      mark_list dflt ks ok r
  end.
Definition vouts (txidHex : bytes) (n : nat) : list outpoint :=
  map (λ j, Outpoint txidHex (Z.of_nat j)) (seq 0 n).
(** [markAll(n, ok, reason = _REASON_INVALID)] *)
Definition markAll (txidHex : bytes) (n : nat) : bool → option reason → V unit :=
  mark_list (Some INVALID) (vouts txidHex n).
(** [markBothTacitVouts(verdict, reason = null)] *)
Definition markBothTacitVouts (txidHex : bytes) : bool → option reason → V unit :=
  mark_list None [Outpoint txidHex 0; Outpoint txidHex 2].

(** ** Envelopes of transactions *)
Definition _witnessEnvelope (w : list bytes) : option envelope :=
  if (length w <? 3)%nat then None else decoded (decodeEnvelopeScript (nth 1 w [])).

Fixpoint find_btc_spend (ins : list txin) : option envelope :=
  match ins with
  | [] => None
  | i :: ins =>
      match _witnessEnvelope (in_witness i) with
      | Some e => if env_opcode e =? T_BTC_SPEND then Some e else find_btc_spend ins
      | None => find_btc_spend ins
      end
  end.
Definition _txOutputEnvelope (tx : txn) : option envelope :=
  match tx_vin tx with
  | [] => None
  | i :: ins => match _witnessEnvelope (in_witness i) with Some e => Some e | None => find_btc_spend ins end
  end.

Definition assetIdFor (etchTxidHex : bytes) (etchVout : Z) : bytes :=
  sha256 (outpoint_bytes (Outpoint etchTxidHex etchVout)).

(** [d.outputs[vout]] when [vout < d.outputs.length] *)
Definition output_at (outs : list output) (vout : Z) : option output :=
  if vout >=? Z.of_nat (length outs) then None else outs !! Z.to_nat vout.

Definition note_of (assetId : bytes) (o : option output) : option (bytes * bytes) :=
  o ← o; Some (assetId, commitment o).

(** the change output of a bid: after the recipient, the payment and the refund, if any *)
Definition bid_var_changeVout (d : PreauthBidVar.t) : Z :=
  if PreauthBidVar.fillAmount d <? PreauthBidVar.maxFill d then 4 else 3.
Definition bid_index (vout changeVout : Z) (n : nat) : option nat :=
  if vout =? 0 then Some 0%nat
  else if (vout =? changeVout) && (n =? 2)%nat then Some 1%nat else None.

(** Asset and commitment of the output an input spends, from the envelope of the
    transaction that made it. *)
Definition getParentEnvelopeData (e : envelope) (op : outpoint) : option (bytes * bytes) :=
  let p := env_payload e in
  let t := env_opcode e in
  let v := vout op in
  if t =? T_CETCH then
    if negb (v =? 0) then None
    else d ← decoded (CEtch.decodeCEtchPayload p); Some (assetIdFor (txid op) 0, CEtch.commitment d.1)
  else if t =? T_MINT then
    if negb (v =? 0) then None
    else d ← decoded (CMint.decodeCMintPayload p); Some (CMint.assetId d, CMint.commitment d)
  else if t =? T_CXFER then
    d ← decoded (decodeCXferPayload p); note_of (Cxfer.assetId d) (output_at (Cxfer.outputs d) v)
  else if t =? T_CXFER_BPP then
    d ← decoded (decodeCXferBppPayload p); note_of (Cxfer.assetId d) (output_at (Cxfer.outputs d) v)
  else if t =? T_CXFER_BOUND then
    d ← decoded (CxferBound.decodeCXferBoundPayload p);
    note_of (CxferBound.assetId d) (output_at (CxferBound.outputs d) v)
  else if t =? T_AXFER then
    d ← decoded (decodeAxferPayload p); note_of (Axfer.assetId d) (output_at (Axfer.outputs d) v)
  else if t =? T_AXFER_BPP then
    d ← decoded (decodeAxferBppPayload p); note_of (Axfer.assetId d) (output_at (Axfer.outputs d) v)
  else if t =? T_AXFER_VAR then
    d ← decoded (decodeAxferVarPayload p); i ← axferVarOutputIndexForVout v;
    note_of (Axfer.assetId d) (Axfer.outputs d !! Z.to_nat i)
  else if t =? T_AXFER_VAR_BPP then
    d ← decoded (decodeAxferVarBppPayload p); i ← axferVarOutputIndexForVout v;
    note_of (Axfer.assetId d) (Axfer.outputs d !! Z.to_nat i)
  else if t =? T_PREAUTH_BID then
    d ← decoded (PreauthBid.decodePreauthBidPayload p);
    i ← bid_index v 3 (length (PreauthBid.outputs d));
    note_of (PreauthBid.assetId d) (PreauthBid.outputs d !! i)
  else if t =? T_PREAUTH_BID_VAR then
    d ← decoded (PreauthBidVar.decodePreauthBidVarPayload p);
    i ← bid_index v (bid_var_changeVout d) (length (PreauthBidVar.outputs d));
    note_of (PreauthBidVar.assetId d) (PreauthBidVar.outputs d !! i)
  else if t =? T_BURN then
    d ← decoded (CBurn.decodeCBurnPayload p); note_of (CBurn.assetId d) (output_at (CBurn.outputs d) v)
  else serviceParent e op.


(** ** Notes the attested set vouches for *)
Definition CANONICAL_TAC_ASSET_ID : bytes :=
  be 32 0xf0bbe868af10c6c67652a99709bf32048d1aa7194efe3e9a1ef1bde43f94762b.

(** the part of [_trackedCredit] before its write to [validatedSet] *)
Definition tracked_ok (op : outpoint) (tx : txn) : bool :=
  match trackedNotes op with
  | None => false
  | Some t =>
      if tr_bound t then false else
      match _txOutputEnvelope tx with
      | None => false
      | Some outEnv =>
          if env_opcode outEnv =? T_CXFER_BOUND then false else
          match getParentEnvelopeData outEnv op with
          | None => false
          | Some pd =>
              if negb (bool_decide (pd.1 = tr_asset t)) then false else
              if negb (getAssetMeta pd.1) && negb (bool_decide (tr_asset t = CANONICAL_TAC_ASSET_ID)) then false else
              match bytesToPoint pd.2 with
              | Ok a => bool_decide (coordsHash a = tr_commitmentHash t)
              | _ => false
              end
          end
      end
  end.
Definition _trackedCredit (op : outpoint) (tx : txn) : V bool :=
  if tracked_ok op tx then set_valid op true;; mret true else mret false.
End notes.
