(* ===== verification/MixerLeaf.v ===== *)
(** * Which leaves a client believes

    Before a leaf the indexer reports enters the client's tree, the client looks for the
    transaction that made it: a deposit with its kernel, a slot operation with its
    signature, a bridge deposit or rotation with its proof, a bridge import.  Source:
    the leaf verifiers of [dapp/tacit.js]. *)
From Stdlib Require Import Ascii.
From stdpp Require Import strings pretty.
From S2P Require Import Prelude Bytes Text Crypto EnvelopeScript CodecTransfer CodecIssue CodecPool CodecSlots CodecAmm.
From S2P Require Import Messages Curve Hex Merkle Mixer MixerProof CodecBridge Kernel Notes.

(** ** What the indexer says of a leaf *)
Record leaf_rec := LeafRec {
  lr_leaf_commitment : option string; lr_deposit_txid : option string; lr_kind : option string; lr_source : option string;
  lr_status : option string; lr_deposited_at_height : option Z; lr_tx_index : option Z; lr_split_vout_index : option Z }.

(** ** What the mixer asks of the outside, besides transactions *)
Class MixerChain := {
  _txIsRecentlyNotFound : string → bool;           (* an explorer answered 404 within the hour *)
  blockTxids : string → option (list string);      (* the transactions of a block, by its hash *)
  onSignet : bool;
  tethActiveCtx : option gctx;
  tethGenList : list gctx;
  bridgeAsset : option bytes;                      (* TETH_BRIDGE.assetId; None: no bridge is configured *)
  BRIDGE_UNIT_SCALE : Z;
  keccak_256 : bytes → bytes;
  eth_call : string → string → option string       (* address and data; None: it throws *)
}.

Section leaves.
Context `{Hash} {SE : Secp} {CH : Chain} {GR : Groth16} {MC : MixerChain}.

(** [getTx]: anything but 64 hexadecimal digits has no transaction *)
Definition getTx (rawId : string) : option txn :=
  if is_hex64 rawId then id ← decoded (hexToBytes rawId); fetchTx id else None.

(** the envelope of the first input, when its witness has [n] items *)
Definition first_envelope (n : nat) (tx : txn) : option envelope :=
  i ← head (tx_vin tx);
  if (length (in_witness i) <? n)%nat then None else decoded (decodeEnvelopeScript (nth 1 (in_witness i) [])).

(** [Number.isInteger(expectedHeight)] and the transaction is not confirmed there *)
Definition height_differs (expectedHeight : option Z) (tx : txn) : bool :=
  if expectedHeight is Some h then negb (bool_decide (tx_height tx = Some h)) else false.

(** ** Deposits *)
Definition verifyMixerDepositKernelOnChain (depositTxidHex expectedAssetIdHex : string) (expectedDenom : Z)
    (leafCommitmentBytes : bytes) (expectedHeight : option Z) : res (option bool) :=
  match getTx depositTxidHex with
  | None => mret None
  | Some tx =>
      if height_differs expectedHeight tx then mret (Some false) else
      match tx_vin tx !! 1%nat, first_envelope 3 tx with
      | Some inp, Some env =>
          if negb (env_opcode env =? T_DEPOSIT) then mret (Some false) else
          match decoded (TDeposit.decodeTDepositPayload (env_payload env)) with
          | Some (TDeposit.Deposit assetId denomination leafCommitment kernelSig) =>
              if negb (bool_decide (bytesToHex assetId = toLowerCase expectedAssetIdHex)) then mret (Some false) else
              if negb (denomination =? expectedDenom) then mret (Some false) else
              if negb (bool_decide (leafCommitment = leafCommitmentBytes)) then mret (Some false) else
              match fetchTx (txid (in_prev inp)) with
              | None => mret None
              | Some parent =>
                  match e ← first_envelope 3 parent; getParentEnvelopeData e (in_prev inp) with
                  | None => mret (Some false)
                  | Some pd =>
                      if negb (bool_decide (bytesToHex pd.1 = toLowerCase expectedAssetIdHex)) then mret (Some false) else
                      match bytesToPoint pd.2 with
                      | Ok CinPoint =>
                          denomH ← (if expectedDenom =? 0 then mret ZERO else safeMult H expectedDenom);
                          let EPrime := add CinPoint (negate denomH) in
                          if equals EPrime ZERO then mret (Some false) else
                          msg ← computeDepositKernelMsg assetId expectedDenom (rev (txid (in_prev inp)))
                                  (vout (in_prev inp)) leafCommitment;
                          ok ← verifySchnorr kernelSig msg (xonly EPrime);
                          mret (Some ok)
                      | _ => mret (Some false)
                      end
                  end
              end
          | _ => mret (Some false)
          end
      | _, _ => mret (Some false)
      end
  end.

(** ** Slots *)
Definition _xonlyFromPubkey (pk33 : bytes) : option bytes := xonly <$> decoded (bytesToPoint pk33).
Definition p2trScript (Q_xonly : bytes) : bytes := u8b 0x51 ++ u8b 0x20 ++ Q_xonly.
Definition is_p2tr (script : bytes) : bool := (blen script =? 34) && bool_decide (take 2 script = u8b 0x51 ++ u8b 0x20).
(** the signature under a compressed key, and what must hold besides *)
Definition signed_by (pk33 sig msg : bytes) (rest : bool) : res bool :=
  match _xonlyFromPubkey pk33 with
  | None => mret false
  | Some x => ok ← verifySchnorr sig msg x; mret (ok && rest)
  end.
(** the denomination in satoshi sits in this output *)
Definition locks (tx : txn) (n : Z) (script_ok : bytes → bool) (denom : Z) : bool :=
  match tx_vout tx !! Z.to_nat n with
  | Some o => script_ok (out_script o) && (out_value o =? denom)
  | None => false
  end.

Definition slot_mint_leaf (sm : SlotMint.t) (aid : string) (denom : Z) (leaf : bytes) (tx : txn) : res bool :=
  if negb (bool_decide (bytesToHex (SlotMint.assetId sm) = aid)) then mret false else
  if negb (SlotMint.denomination sm =? denom) then mret false else
  if negb (bool_decide (SlotMint.leafHash sm = leaf)) then mret false else
  msg ← computeSlotMintMsg (SlotMint.networkTag sm) (SlotMint.assetId sm) (SlotMint.denomination sm)
          (SlotMint.recipientCommit sm) (SlotMint.leafHash sm) (SlotMint.paymentAssetId sm) (SlotMint.paymentAmount sm)
          (SlotMint.kBtcXOnly sm);
  signed_by (SlotMint.minterPubkey sm) (SlotMint.minterSig sm) msg
    (locks tx 0 (λ s, bool_decide (s = p2trScript (SlotMint.kBtcXOnly sm))) denom).
Definition slot_rotate_leaf (sr : SlotRotate.t) (aid : string) (denom : Z) (leaf : bytes) (tx : txn) : res bool :=
  let old := SlotRotate.old sr in
  if negb (bool_decide (bytesToHex (assetId old) = aid)) then mret false else
  if negb (denomination old =? denom) then mret false else
  if negb (bool_decide (SlotRotate.newLeafHash sr = leaf)) then mret false else
  msg ← computeSlotRotateMsg (SlotRotate.networkTag sr) (assetId old) (denomination old) (nullifierHash old)
          (SlotRotate.newRecipientCommit sr) (SlotRotate.newLeafHash sr) (SlotRotate.paymentAssetId sr)
          (SlotRotate.paymentAmount sr) (SlotRotate.newKBtcXOnly sr);
  signed_by (SlotRotate.oldOwnerPubkey sr) (SlotRotate.oldOwnerSig sr) msg
    (locks tx 0 (λ s, bool_decide (s = p2trScript (SlotRotate.newKBtcXOnly sr))) denom).
Definition slot_split_leaf (ss : SlotSplit.t) (index : option Z) (aid : string) (denom : Z) (leaf : bytes) (tx : txn) : res bool :=
  match index with
  | None => mret false
  | Some idx =>
      if (idx <? 0) || (idx >=? Z.of_nat (length (SlotSplit.outs ss))) then mret false else
      match SlotSplit.outs ss !! Z.to_nat idx with
      | None => mret false
      | Some out =>
          if negb (bool_decide (bytesToHex (SlotSplit.assetIdNew out) = aid)) then mret false else
          if negb (SlotSplit.denomNew out =? denom) then mret false else
          if negb (bool_decide (SlotSplit.newLeafHash out = leaf)) then mret false else
          let old := SlotSplit.old ss in
          msg ← computeSlotSplitMsg (SlotSplit.networkTag ss) (assetId old) (denomination old) (nullifierHash old)
                  (SlotSplit.outs ss);
          signed_by (SlotSplit.oldOwnerPubkey ss) (SlotSplit.oldOwnerSig ss) msg (locks tx idx is_p2tr denom)
      end
  end.
Definition slot_merge_leaf (smg : SlotMerge.t) (aid : string) (denom : Z) (leaf : bytes) (tx : txn) : res bool :=
  if negb (bool_decide (bytesToHex (SlotMerge.assetIdNew smg) = aid)) then mret false else
  if negb (SlotMerge.denomNew smg =? denom) then mret false else
  if negb (bool_decide (SlotMerge.newLeafHash smg = leaf)) then mret false else
  msg ← computeSlotMergeMsg (SlotMerge.networkTag smg) (SlotMerge.inputs smg) (SlotMerge.assetIdNew smg)
          (SlotMerge.denomNew smg) (SlotMerge.newRecipientCommit smg) (SlotMerge.newLeafHash smg);
  signed_by (SlotMerge.newOwnerPubkey smg) (SlotMerge.newOwnerSig smg) msg (locks tx 0 is_p2tr denom).

Definition verifySlotLeafOnChain (leafRec : leaf_rec) (expectedAssetIdHex : string) (expectedDenom : Z)
    (leafCommitmentBytes : bytes) (expectedHeight : option Z) : res (option bool) :=
  match lr_deposit_txid leafRec with
  | None => mret (Some false)
  | Some id =>
      match getTx id with
      | None => mret None
      | Some tx =>
          if height_differs expectedHeight tx then mret (Some false) else
          match first_envelope 3 tx with
          | None => mret (Some false)
          | Some env =>
              let aid := toLowerCase expectedAssetIdHex in
              let kind k := bool_decide (lr_kind leafRec = Some k) in
              let p := env_payload env in
              let leaf_of {A} (d : res A) (check : A → res bool) : res (option bool) :=
                match decoded d with Some x => ok ← check x; mret (Some ok) | None => mret (Some false) end in
              if kind "slot_mint"%string then
                if negb (env_opcode env =? T_SLOT_MINT) then mret (Some false) else
                leaf_of (SlotMint.decodeTSlotMintPayload p) (λ d, slot_mint_leaf d aid expectedDenom leafCommitmentBytes tx)
              else if kind "slot_rotate_new"%string then
                if negb (env_opcode env =? T_SLOT_ROTATE) then mret (Some false) else
                leaf_of (SlotRotate.decodeTSlotRotatePayload p) (λ d, slot_rotate_leaf d aid expectedDenom leafCommitmentBytes tx)
              else if kind "slot_split_new"%string then
                if negb (env_opcode env =? T_SLOT_SPLIT) then mret (Some false) else
                leaf_of (SlotSplit.decodeTSlotSplitPayload p)
                  (λ d, slot_split_leaf d (lr_split_vout_index leafRec) aid expectedDenom leafCommitmentBytes tx)
              else if kind "slot_merge_new"%string then
                if negb (env_opcode env =? T_SLOT_MERGE) then mret (Some false) else
                leaf_of (SlotMerge.decodeTSlotMergePayload p) (λ d, slot_merge_leaf d aid expectedDenom leafCommitmentBytes tx)
              else mret (Some false)
          end
      end
  end.

(** ** The bridge *)
(** the data an OP_RETURN script pushes, read by the first push opcode *)
Definition push_payload (sp : bytes) : bytes :=
  let b i := byteZ (nth i sp x00) in
  if b 1%nat =? 0x4d then take (Z.to_nat (b 2%nat + 256 * b 3%nat)) (drop 4 sp)
  else if b 1%nat =? 0x4c then take (Z.to_nat (b 2%nat)) (drop 3 sp)
  else take (Z.to_nat (b 1%nat)) (drop 2 sp).
Fixpoint find_op_return (opcode : Z) (outs : list txout) : option bytes :=
  match outs with
  | [] => None
  | o :: outs =>
      let p := push_payload (out_script o) in
      if bool_decide (out_type o = "op_return"%string) && negb (blen (out_script o) <? 6) &&
         negb (blen p <? 2) && (byteZ (nth 0 p x00) =? opcode)
      then Some p else find_op_return opcode outs
  end.
(** the payload with this opcode: in the witness, or in an OP_RETURN output *)
Definition witness_payload (opcode : Z) (tx : txn) : option bytes :=
  match first_envelope 2 tx with
  | Some e => if env_opcode e =? opcode then Some (env_payload e) else None
  | None => None
  end.
Definition bridge_deposit_of (tx : txn) : option BridgeDeposit.t :=
  match p ← witness_payload T_BRIDGE_DEPOSIT tx; decoded (BridgeDeposit.decodeTBridgeDepositPayload p) with
  | Some d => Some d
  | None => p ← find_op_return T_BRIDGE_DEPOSIT (tx_vout tx); decoded (BridgeDeposit.decodeTBridgeDepositPayload p)
  end.

(** [n.toString(16)] *)
Fixpoint to_hex (fuel : nat) (n : Z) (acc : string) : string :=
  match fuel with
  | O => acc
  | S fuel => if n <? 16 then String (hex_char n) acc else to_hex fuel (n / 16) (String (hex_char (n mod 16)) acc)
  end.
Definition toString16 (n : Z) : string := to_hex (S (Z.to_nat (Z.log2 n))) n "".
Definition _pad32 (hex : string) : string := padStart 64 (strip0x hex).

(** The contract knows the Ethereum root; [None] when the question fails. *)
Definition eth_root_known (g : gctx) (asset : bytes) (denomBig : Z) (ethRoot : bytes) : option bool :=
  match hexToBytes (_pad32 (bytesToHex asset)), hexToBytes (_pad32 (toString16 (denomBig * BRIDGE_UNIT_SCALE))) with
  | Ok a, Ok d =>
      let poolId := bytesToHex (keccak_256 (a ++ d)) in
      let calldata := ("0xe5f99a21" +:+ _pad32 poolId +:+ _pad32 (bytesToHex ethRoot))%string in
      result ← eth_call (g_address g) calldata;
      Some (negb (bool_decide (result = ""%string)) && negb (bool_decide (result = "0x" +:+ zeros_string 64)%string))
  | _, _ => None
  end.
(** the key a pool was registered with; [None] for the empty string *)
Definition pool_vk (assetIdHex : string) (denom : Z) (gen : string) (ps : pools) : option bytes :=
  info ← poolRegistry ps !! poolKey assetIdHex denom gen;
  if bool_decide (text_decode (vkCid info) = Some []) then None else Some (vkCid info).

Definition remember (key : string) (ok : bool) (ps : pools) : option bool * pools :=
  (Some ok, set_proofCache <[key := ok]> ps).
Definition _verifyBridgeDepositProof (leaf : leaf_rec) (aidHex : string) (denom : Z) (ctx : option gctx) (ps : pools)
    : option bool * pools :=
  let g := match ctx with Some g => Some g | None => tethActiveCtx end in
  let gen := from_option g_gen ""%string g in
  match lr_deposit_txid leaf with
  | None => (None, ps)
  | Some id =>
      let cacheKey := (id +:+ ":" +:+ default "undefined" (lr_leaf_commitment leaf))%string in
      match bridgeProofCache ps !! cacheKey with
      | Some ok => (Some ok, ps)
      | None =>
          match getTx id with
          | None => (None, ps)
          | Some tx =>
              match bridge_deposit_of tx with
              | None => remember cacheKey false ps
              | Some d =>
                  if negb (blen (BridgeDeposit.proof d) =? 256) then remember cacheKey false ps else
                  let denomBig := unbe (BridgeDeposit.denomWei d) in
                  let publicInputs := mixer_inputs (BridgeDeposit.ethRoot d) (BridgeDeposit.nullifierHash d) denomBig
                                        (BridgeDeposit.rLeaf d) (BridgeDeposit.bindHash d) in
                  match pool_vk aidHex denom gen ps with
                  | None => (None, ps)
                  | Some vk =>
                      match verifyMixerProof (Some vk) publicInputs (BridgeDeposit.proof d) with
                      | Ok false => remember cacheKey false ps
                      | Ok true =>
                          match bridgeAsset, g with
                          | Some asset, Some g =>
                              match eth_root_known g asset denomBig (BridgeDeposit.ethRoot d) with
                              | Some false => (Some false, ps)
                              | _ => remember cacheKey true ps
                              end
                          | _, _ => remember cacheKey true ps
                          end
                      | _ => (None, ps)
                      end
                  end
              end
          end
      end
  end.

(** A rotation or an import, as the leaf's kind says. *)
Definition _verifyBridgeRotateImportLeaf (leaf : leaf_rec) (aidHex : string) (denom : Z) (kind : string)
    (ctx : option gctx) (ps : pools) : res (option bool) :=
  let gen := from_option g_gen ""%string ctx in
  match lr_deposit_txid leaf with
  | None => mret None
  | Some id =>
      match getTx id with
      | None => mret None
      | Some tx =>
          let opcode := if bool_decide (kind = "bridge_rotate"%string) then T_BRIDGE_ROTATE else T_BRIDGE_IMPORT in
          match (match witness_payload opcode tx with Some p => Some p | None => find_op_return opcode (tx_vout tx) end) with
          | None => mret (Some false)
          | Some payload =>
              let field a b := cut a b payload in
              if negb (bool_decide (byteZ <$> payload !! 1%nat = Some (if onSignet then 1 else 0))) then mret (Some false) else
              if negb (bool_decide (bytesToHex (field 2 34)%nat = toLowerCase aidHex)) then mret (Some false) else
              payloadDenom ← BigInt_hex (bytesToHex (field 34 66)%nat);
              if negb (payloadDenom =? denom) then mret (Some false) else
              let leafHex := toLowerCase (default ""%string (lr_leaf_commitment leaf)) in
              if bool_decide (kind = "bridge_import"%string) then
                if blen payload <? 164 then mret (Some false)
                else mret (Some (bool_decide (bytesToHex (field 66 98)%nat = leafHex)))
              else
              if blen payload <? 484 then mret (Some false) else
              if negb (bool_decide (bytesToHex (field 130 162)%nat = leafHex)) then mret (Some false) else
              let proofLen := unle (field 226 228)%nat in
              if negb (proofLen =? 256) || (blen payload <? 228 + proofLen) then mret (Some false) else
              let publicInputs := mixer_inputs (field 66 98)%nat (field 98 130)%nat denom (field 162 194)%nat (field 194 226)%nat in
              match pool_vk aidHex denom gen ps with
              | None => mret None
              | Some vk =>
                  match verifyMixerProof (Some vk) publicInputs (field 228 484)%nat with
                  | Ok ok => mret (Some ok)
                  | _ => mret None
                  end
              end
          end
      end
  end.
End leaves.
