(* ===== verification/Handlers.v ===== *)
(** * The client validator's rules per kind of transaction

    One handler per opcode of [_validateOutpointSingle]: issuance ([cetch_handler],
    [mint_handler]) and every kind of transfer.  The transfers differ in how they read
    their inputs and which outputs they mark; from the parents to the kernel they
    share [transfer_tail]. *)
From S2P Require Import Prelude Bytes Crypto EnvelopeScript CodecTransfer CodecIssue CodecPool CodecSlots CodecAmm.
From S2P Require Import Messages Curve Kernel Notes.

Section handlers.
Context `{Hash} {SE : Secp} {CH : Chain}.

(** ** The checks every transfer shares *)

(** The first asset input that is not a validated note gives the reason to refuse. *)
Fixpoint parentFailure (ins : list outpoint) : V (option reason) :=
  match ins with
  | [] => mret None
  | k :: ins =>
      s ← get;
      if decide (validatedSet s !! k = Some true) then parentFailure ins
      else mret (Some (reason_of_parent s k))
  end.

(** [dec.outputs.map(o => bytesToPoint(o.commitment))], [None] when one throws *)
Fixpoint pointsOf (cs : list bytes) : option (list point) :=
  match cs with
  | [] => Some []
  | c :: cs => P ← decoded (bytesToPoint c); Ps ← pointsOf cs; Some (P :: Ps)
  end.

(** The commitments the inputs carry; every input must be a note of [assetId]. *)
Fixpoint inputCommitments (assetId : bytes) (ins : list outpoint) : reason + list bytes :=
  match ins with
  | [] => inr []
  | k :: ins =>
      match fetchTx (txid k) with
      | None => inl FETCH_FAILED
      | Some parent =>
          match _txOutputEnvelope parent with
          | None => inl INVALID
          | Some parentEnv =>
              match getParentEnvelopeData parentEnv k with
              | None => inl INVALID
              | Some pd =>
                  if negb (bool_decide (pd.1 = assetId)) then inl INVALID
                  else match inputCommitments assetId ins with
                       | inl r => inl r
                       | inr cs => inr (pd.2 :: cs)
                       end
              end
          end
      end
  end.

(** A bulletproof is checked at once, or queued when the caller batches. *)
Definition range_bp (proof : bytes) (Cpts : list point) : V bool := λ s,
  match rpBatch s with
  | Some l => (Ok true, VState (validatedSet s) (validatedReasons s) (Some (l ++ [(Cpts, proof)]))
                               (boundOutpointKeys s) (mixer s))
  | None => (Ok (bpRangeAggVerify Cpts proof), s)
  end.
Definition range_bpp (proof : bytes) (Cpts : list point) : V bool := mret (bppRangeVerify Cpts proof).

(** From the parents to the kernel: the same steps in the same order in all handlers. *)
Definition transfer_tail (markAll : bool → option reason → V unit) (ins : list outpoint) (outs : list bytes)
    (range : list point → V bool) (assetId : bytes) (burned : Z) (kernelSig : bytes) : V bool :=
  pf ← parentFailure ins;
  match pf with
  | Some r => markAll false (Some r);; mret false
  | None =>
      match pointsOf outs with
      | None => markAll false None;; mret false
      | Some Cpts =>
          rangeOk ← range Cpts;
          if negb rangeOk then markAll false None;; mret false else
          match inputCommitments assetId ins with
          | inl r => markAll false (Some r);; mret false
          | inr ics =>
              match EPrime outs burned ics with
              | Ok E =>
                  if equals E ZERO then markAll false None;; mret false else
                  msg ← lift (computeKernelMsg assetId ins outs burned);
                  kernelOk ← lift (verifySchnorr kernelSig msg (xonly E));
                  markAll kernelOk None;; mret kernelOk
              | _ => markAll false None;; mret false
              end
          end
      end
  end.

Definition commitments (outs : list output) : list bytes := map commitment outs.
Definition prevs (ins : list txin) : list outpoint := map in_prev ins.

(** ** The handlers *)

(** the issuer's proof on the one commitment of an etch or a mint *)
Definition issue_range (key : outpoint) (C : bytes) (proof : bytes) : V bool :=
  match bytesToPoint C with
  | Ok Cpt => ok ← range_bp proof [Cpt]; set_valid key ok;; mret ok
  | _ => refuse key
  end.

Definition cetch_handler (key : outpoint) (payload : bytes) : V bool :=
  if negb (vout key =? 0) then refuse key else
  match decoded (CEtch.decodeCEtchPayload payload) with
  | None => refuse key
  | Some (dec, _) => issue_range key (CEtch.commitment dec) (CEtch.rangeproof dec)
  end.

(** the part of a mint after its etch has been found valid: the issuer's signature over
    the commit transaction's first input, then the commitment *)
Definition mint_commit (key : outpoint) (tx : txn) (dec : CMint.t) (mintAuthority : bytes) : V bool :=
  match tx_vin tx with
  | [] => refuse key
  | i0 :: _ =>
      match fetchTx (txid (in_prev i0)) with
      | None => refuse_with key FETCH_FAILED
      | Some mintCommitTx =>
          match tx_vin mintCommitTx with
          | [] => refuse_with key INVALID
          | ci :: _ =>
              msg ← lift (computeMintMsg (CMint.assetId dec) (outpoint_bytes (in_prev ci))
                            (CMint.commitment dec) (CMint.encryptedAmount dec));
              sigOk ← lift (verifySchnorr (CMint.issuerSig dec) msg mintAuthority);
              if negb sigOk then refuse key
              else issue_range key (CMint.commitment dec) (CMint.rangeproof dec)
          end
      end
  end.

Definition mint_handler (key : outpoint) (tx : txn) (payload : bytes) : V bool :=
  if negb (vout key =? 0) then refuse key else
  match decoded (CMint.decodeCMintPayload payload) with
  | None => refuse key
  | Some dec =>
      if negb (bool_decide (take 32 (assetIdFor (CMint.etchTxid dec) 0) = take 32 (CMint.assetId dec)))
      then refuse key else
      match fetchTx (CMint.etchTxid dec) with
      | None => refuse_with key FETCH_FAILED
      | Some etchTx =>
          match tx_vin etchTx with
          | [] => refuse_with key INVALID
          | ei :: _ =>
              if (length (in_witness ei) <? 3)%nat then refuse_with key INVALID else
              match _witnessEnvelope (in_witness ei) with
              | None => refuse key
              | Some etchEnv =>
                  if negb (env_opcode etchEnv =? T_CETCH) then refuse key else
                  match decoded (CEtch.decodeCEtchPayload (env_payload etchEnv)) with
                  | None => refuse key
                  | Some (etchDec, mintable) =>
                      if negb mintable then refuse key else
                      let etchParentKey := Outpoint (CMint.etchTxid dec) 0 in
                      s ← get;
                      if negb (bool_decide (validatedSet s !! etchParentKey = Some true))
                      then _markInvalidFromParent key etchParentKey;; mret false else
                      mint_commit key tx dec (default CEtch.MINT_AUTH_NONE (CEtch.mintAuthority etchDec))
                  end
              end
          end
      end
  end.

(** [T_CXFER] and [T_BURN] (which also publishes an amount it destroys) *)
Definition xfer_handler (key : outpoint) (tx : txn) (assetId : bytes) (outs : list output)
    (burned : Z) (kernelSig rangeproof : bytes) : V bool :=
  let N := length outs in
  let mark := markAll (txid key) (Nat.max N 1) in
  if vout key >=? Z.of_nat N then refuse key else
  if (length (tx_vin tx) <? 2)%nat then mark false None;; mret false else
  if Z.of_nat (length (tx_vin tx)) - 1 >? 255 then mark false None;; mret false else
  transfer_tail mark (prevs (drop 1 (tx_vin tx))) (commitments outs)
    (λ Cpts, if (0 <? N)%nat then range_bp rangeproof Cpts else mret true) assetId burned kernelSig.

Definition cxfer_handler (key : outpoint) (tx : txn) (payload : bytes) : V bool :=
  match decoded (decodeCXferPayload payload) with
  | None => refuse key
  | Some d => xfer_handler key tx (Cxfer.assetId d) (Cxfer.outputs d) 0 (Cxfer.kernelSig d) (Cxfer.rangeproof d)
  end.
Definition burn_handler (key : outpoint) (tx : txn) (payload : bytes) : V bool :=
  match decoded (CBurn.decodeCBurnPayload payload) with
  | None => refuse key
  | Some d => xfer_handler key tx (CBurn.assetId d) (CBurn.outputs d) (CBurn.burnedAmount d)
                (CBurn.kernelSig d) (CBurn.rangeproof d)
  end.

Definition cxfer_bpp_handler (key : outpoint) (tx : txn) (payload : bytes) : V bool :=
  if negb bppEnabled then markAll (txid key) 1 false None;; mret false else
  match decoded (decodeCXferBppPayload payload) with
  | None => refuse key
  | Some d =>
      let N := length (Cxfer.outputs d) in
      let mark := markAll (txid key) (Nat.max N 1) in
      if vout key >=? Z.of_nat N then refuse key else
      if (length (tx_vin tx) <? 2)%nat then mark false None;; mret false else
      if Z.of_nat (length (tx_vin tx)) - 1 >? 255 then mark false None;; mret false else
      transfer_tail mark (prevs (drop 1 (tx_vin tx))) (commitments (Cxfer.outputs d))
        (range_bpp (Cxfer.rangeproof d)) (Cxfer.assetId d) 0 (Cxfer.kernelSig d)
  end.

(** [T_AXFER], [T_AXFER_BPP]: the envelope says how many inputs carry the asset *)
Definition axfer_handler (isBpp : bool) (key : outpoint) (tx : txn) (payload : bytes) : V bool :=
  match decoded (if isBpp then decodeAxferBppPayload payload else decodeAxferPayload payload) with
  | None => refuse key
  | Some d =>
      let N := length (Axfer.outputs d) in
      let mark := markAll (txid key) N in
      let aic := Axfer.assetInputCount d in
      if vout key >=? Z.of_nat N then refuse key else
      if isBpp && negb bppEnabled then mark false None;; mret false else
      if (aic <? 1) || (aic >? 255) then mark false None;; mret false else
      if Z.of_nat (length (tx_vin tx)) <? 1 + aic then mark false None;; mret false else
      transfer_tail mark (prevs (take (Z.to_nat aic) (drop 1 (tx_vin tx)))) (commitments (Axfer.outputs d))
        (if isBpp then range_bpp (Axfer.rangeproof d) else range_bp (Axfer.rangeproof d))
        (Axfer.assetId d) 0 (Axfer.kernelSig d)
  end.

(** [T_AXFER_VAR], [T_AXFER_VAR_BPP]: one asset input, outputs at 0 and 2 *)
Definition axfer_var_handler (isBpp : bool) (key : outpoint) (tx : txn) (payload : bytes) : V bool :=
  match decoded (if isBpp then decodeAxferVarBppPayload payload else decodeAxferVarPayload payload) with
  | None => refuse key
  | Some d =>
      let mark := markBothTacitVouts (txid key) in
      match axferVarOutputIndexForVout (vout key) with
      | None => refuse key
      | Some _ =>
          if isBpp && negb bppEnabled then mark false None;; mret false else
          if negb (Axfer.assetInputCount d =? 1) then mark false None;; mret false else
          if (length (tx_vin tx) <? 2)%nat then mark false None;; mret false else
          transfer_tail mark (prevs (take 1 (drop 1 (tx_vin tx)))) (commitments (Axfer.outputs d))
            (if isBpp then range_bpp (Axfer.rangeproof d) else range_bp (Axfer.rangeproof d))
            (Axfer.assetId d) 0 (Axfer.kernelSig d)
      end
  end.

(** [T_PREAUTH_BID], [T_PREAUTH_BID_VAR] *)
Definition preauth_handler (key : outpoint) (tx : txn) (assetId : bytes) (outs : list output)
    (aic changeVout : Z) (kernelSig rangeproof : bytes) : V bool :=
  let N := length outs in
  let mark := mark_list (Some INVALID)
                (map (Outpoint (txid key)) (if (N =? 2)%nat then [0; changeVout] else [0])) in
  match bid_index (vout key) changeVout N with
  | None => refuse key
  | Some _ =>
      if (aic <? 1) || (aic >? 255) then mark false None;; mret false else
      if Z.of_nat (length (tx_vin tx)) <? 1 + aic then mark false None;; mret false else
      transfer_tail mark (prevs (take (Z.to_nat aic) (drop 1 (tx_vin tx)))) (commitments outs)
        (range_bp rangeproof) assetId 0 kernelSig
  end.
Definition preauth_bid_handler (key : outpoint) (tx : txn) (payload : bytes) : V bool :=
  match decoded (PreauthBid.decodePreauthBidPayload payload) with
  | None => refuse key
  | Some d => preauth_handler key tx (PreauthBid.assetId d) (PreauthBid.outputs d)
                (PreauthBid.assetInputCount d) 3 (PreauthBid.kernelSig d) (PreauthBid.rangeproof d)
  end.
Definition preauth_bid_var_handler (key : outpoint) (tx : txn) (payload : bytes) : V bool :=
  match decoded (PreauthBidVar.decodePreauthBidVarPayload payload) with
  | None => refuse key
  | Some d => preauth_handler key tx (PreauthBidVar.assetId d) (PreauthBidVar.outputs d)
                (PreauthBidVar.assetInputCount d) (bid_var_changeVout d)
                (PreauthBidVar.kernelSig d) (PreauthBidVar.rangeproof d)
  end.

(** ** Notes bound to the Ethereum pool *)
Definition bind_key (k : outpoint) : V unit := λ s,
  (Ok tt, VState (validatedSet s) (validatedReasons s) (rpBatch s) ({[ k ]} ∪ boundOutpointKeys s) (mixer s)).

Definition _boundOutputFailure (targetChainBinding : bytes) (outKey : outpoint) : V (option reason) :=
  match poolBinding with
  | None => mret None
  | Some binding =>
      bind_key outKey;;
      if strictValidation then mret (Some INVALID) else
      if negb (bool_decide (targetChainBinding = binding)) then
        _strictUnavailable "bound to another pool deployment";; mret (Some FETCH_FAILED) else
      match evmNullifierSpent outKey with
      | Some true => mret (Some INVALID)
      | Some false => mret None
      | None => _strictUnavailable "Ethereum nullifier unreadable";; mret (Some FETCH_FAILED)
      end
  end.

Definition _boundSpendPending (tx : txn) : V (option reason) :=
  s ← get;
  let bound := filter (λ k, k ∈ boundOutpointKeys s) (prevs (drop 1 (tx_vin tx))) in
  if (length bound =? 0)%nat || existsb (λ k, bool_decide (validatedSet s !! k = Some false)) bound
  then mret None
  else if (if tx_height tx is Some h then if reflectedHeight is Some reflected then reflected >=? h else false
           else false)
  then mret None
  else _strictUnavailable "spends a bound note the reflection has not passed";; mret (Some FETCH_FAILED).

(** [99 + 96 + Math.log2(64 * N) * 66], the length of a BP+ proof of [N] values *)
Definition bppLen (N : nat) : Z := 99 + 96 + Z.log2 (64 * Z.of_nat N) * 66.

Fixpoint bound_outputs (targetChainBinding : bytes) (ks : list outpoint) : V unit :=
  match ks with
  | [] => mret tt
  | k :: ks =>
      f ← _boundOutputFailure targetChainBinding k;
      match f with Some r => _markInvalid k r | None => mret tt end;;
      bound_outputs targetChainBinding ks
  end.

Definition cxfer_bound_handler (key : outpoint) (tx : txn) (payload : bytes) : V bool :=
  match decoded (CxferBound.decodeCXferBoundPayload payload) with
  | None => refuse key
  | Some d =>
      let N := length (CxferBound.outputs d) in
      let mark := markAll (txid key) N in
      if vout key >=? Z.of_nat N then refuse key else
      if (length (tx_vin tx) <? 2)%nat || (Z.of_nat (length (tx_vin tx)) - 1 >? 255)
      then mark false None;; mret false else
      kernelOk ← transfer_tail mark (prevs (drop 1 (tx_vin tx))) (commitments (CxferBound.outputs d))
        (if blen (CxferBound.rangeproof d) =? bppLen N
         then λ Cpts, mret (bppEnabled && bppRangeVerify Cpts (CxferBound.rangeproof d))
         else range_bp (CxferBound.rangeproof d))
        (CxferBound.assetId d) 0 (CxferBound.kernelSig d);
      if negb kernelOk then mret false else
      bound_outputs (CxferBound.targetChainBinding d) (vouts (txid key) N);;
      s ← get;
      mret (bool_decide (validatedSet s !! key = Some true))
  end.

End handlers.
