(* ===== verification/Validator.v ===== *)
(** * The client validator

    [validateOutpoint] walks the ancestors of an outpoint breadth-first, orders them
    parents first, and runs [_validateOutpointSingle] on each; the verdicts are kept in
    [validatedSet].  Notes whose validity another service decides (fair mints, the
    mixer, drops, the AMM and the farms, the Ethereum pool) go through one interface,
    [Service]. *)
From S2P Require Import Prelude Bytes Crypto EnvelopeScript CodecTransfer CodecIssue CodecPool CodecSlots CodecAmm.
From S2P Require Import Messages Curve Kernel Notes Handlers.

(** The handlers of the notes another service decides. *)
Class Service `{Chain} := service : outpoint → txn → envelope → V bool.

Section validator.
Context `{Hash} {SE : Secp} {CH : Chain} {SV : Service}.

(** ** One outpoint *)
Definition service_opcodes : list Z :=
  [T_PMINT; T_WITHDRAW; T_DROP; T_DCLAIM; T_PROTOCOL_FEE_CLAIM; T_LP_ADD; T_LP_REMOVE; T_SWAP_VAR;
   T_SWAP_ROUTE; T_CROSSOUT_MINT; T_LP_UNBOND; T_LP_HARVEST; T_FARM_REFUND].

Definition dispatch (key : outpoint) (tx : txn) (e : envelope) : V bool :=
  let p := env_payload e in
  let t := env_opcode e in
  if t =? T_CETCH then cetch_handler key p
  else if t =? T_MINT then mint_handler key tx p
  else if t =? T_CXFER then cxfer_handler key tx p
  else if t =? T_BURN then burn_handler key tx p
  else if t =? T_CXFER_BPP then cxfer_bpp_handler key tx p
  else if t =? T_AXFER then axfer_handler false key tx p
  else if t =? T_AXFER_BPP then axfer_handler true key tx p
  else if t =? T_AXFER_VAR then axfer_var_handler false key tx p
  else if t =? T_AXFER_VAR_BPP then axfer_var_handler true key tx p
  else if t =? T_PETCH then refuse key
  else if t =? T_DEPOSIT then refuse key
  else if t =? T_PREAUTH_BID then preauth_bid_handler key tx p
  else if t =? T_PREAUTH_BID_VAR then preauth_bid_var_handler key tx p
  else if t =? T_CXFER_BOUND then cxfer_bound_handler key tx p
  else if bool_decide (t ∈ service_opcodes) then service key tx e
  else refuse key.

Definition validate_witness (key : outpoint) (tx : txn) (i0 : txin) : V bool :=
  if (length (in_witness i0) =? 0)%nat then refuse_with key FETCH_FAILED else
  if (length (in_witness i0) <? 3)%nat then
    refuse_with key (if bool_decide (in_prevtype i0 = "v0_p2wpkh"%string) || bool_decide (in_prevtype i0 = "v0_p2wsh"%string)
                     then INVALID else FETCH_FAILED)
  else
  match _witnessEnvelope (in_witness i0) with
  | None => refuse_with key INVALID
  | Some e =>
      boundPending ← _boundSpendPending tx;
      match boundPending with
      | Some r => refuse_with key r
      | None => dispatch key tx e
      end
  end.

Definition _validateOutpointSingle (key : outpoint) : V bool :=
  s ← get;
  match validatedSet s !! key with
  | Some b => mret b
  | None =>
      match fetchTx (txid key) with
      | None => refuse_with key FETCH_FAILED
      | Some tx =>
          match tx_vin tx with
          | [] => refuse_with key FETCH_FAILED
          | i0 :: _ =>
              match _txOutputEnvelope tx with
              | Some outEnv =>
                  if env_opcode outEnv =? T_BTC_SPEND then service key tx outEnv
                  else validate_witness key tx i0
              | None => validate_witness key tx i0
              end
          end
      end
  end.

(** ** The walk over the ancestors *)

(** the outpoints the walk takes up from a transaction with this envelope *)
Definition parents (tx : txn) (e : envelope) : list outpoint :=
  let p := env_payload e in
  let t := env_opcode e in
  let ins := prevs (drop 1 (tx_vin tx)) in
  let first_of {A} (d : option A) := if d is Some _ then take 1 ins else [] in
  let counted (aic : Z) := take (Z.to_nat aic) ins in
  if t =? T_CXFER then (if decoded (decodeCXferPayload p) is Some _ then ins else [])
  else if t =? T_BURN then (if decoded (CBurn.decodeCBurnPayload p) is Some _ then ins else [])
  else if t =? T_CXFER_BPP then (if decoded (decodeCXferBppPayload p) is Some _ then ins else [])
  else if t =? T_CXFER_BOUND then (if decoded (CxferBound.decodeCXferBoundPayload p) is Some _ then ins else [])
  else if t =? T_AXFER then (if decoded (decodeAxferPayload p) is Some d then counted (Axfer.assetInputCount d) else [])
  else if t =? T_AXFER_BPP then (if decoded (decodeAxferBppPayload p) is Some d then counted (Axfer.assetInputCount d) else [])
  else if t =? T_AXFER_VAR then first_of (decoded (decodeAxferVarPayload p))
  else if t =? T_AXFER_VAR_BPP then first_of (decoded (decodeAxferVarBppPayload p))
  else if t =? T_MINT then (if decoded (CMint.decodeCMintPayload p) is Some d then [Outpoint (CMint.etchTxid d) 0] else [])
  else if t =? T_PREAUTH_BID then
    (if decoded (PreauthBid.decodePreauthBidPayload p) is Some d then counted (PreauthBid.assetInputCount d) else [])
  else if t =? T_PREAUTH_BID_VAR then
    (if decoded (PreauthBidVar.decodePreauthBidVarPayload p) is Some d then counted (PreauthBidVar.assetInputCount d) else [])
  else if t =? T_SWAP_VAR then first_of (decoded (SwapVar.decodeTSwapVarPayload p))
  else if t =? T_SWAP_ROUTE then first_of (decoded (SwapRoute.decodeTSwapRoutePayload p))
  else [].

(** [topoList] (its keys are [enqueued]) and [parentsOf] *)
Record walk := Walk { topoList : list outpoint; parentsOf : gmap outpoint (list outpoint) }.
Definition deps_of (w : walk) (k : outpoint) : list outpoint := default [] (parentsOf w !! k).

Definition enqueue (vs : gmap outpoint bool) (expanding : option outpoint) (w : walk) (k : outpoint) : walk :=
  let po := match expanding with
            | Some e => <[e := deps_of w e ++ [k]]> (parentsOf w)
            | None => parentsOf w
            end in
  if bool_decide (k ∈ topoList w) || bool_decide (is_Some (vs !! k)) then Walk (topoList w) po
  else Walk (topoList w ++ [k]) po.

(** a node's transaction and envelope, [None] when either is missing: [decodedMap] *)
Definition node_env (k : outpoint) : option (txn * envelope) :=
  tx ← fetchTx (txid k);
  e ← (if tx_vin tx is i0 :: _ then _witnessEnvelope (in_witness i0) else None);
  Some (tx, e).

(** One node: a note the attested set credits is not walked further. *)
Definition expand (k : outpoint) (w : walk) : V walk :=
  match node_env k with
  | None => mret w
  | Some (tx, e) =>
      credited ← _trackedCredit k tx;
      if credited : bool then mret w else
      s ← get;
      mret (foldl (enqueue (validatedSet s) (Some k)) w (parents tx e))
  end.

(** [while (cursor < topoList.length)]; [None] when the fuel ends first *)
Fixpoint walk_loop (fuel cursor : nat) (w : walk) (s : vstate) : option (res walk * vstate) :=
  match topoList w !! cursor with
  | None => Some (Ok w, s)
  | Some k =>
      match fuel with
      | O => None
      | S fuel =>
          match expand k w s with
          | (Ok w', s') => walk_loop fuel (S cursor) w' s'
          | (r, s') => Some (r, s')
          end
      end
  end.

(** ** Parents first

    A depth-first traversal with an explicit stack of nodes and the position of the next
    parent to look at. *)
Record dfs := Dfs { stack : list (outpoint * nat); placed : gset outpoint; order : list outpoint }.

Definition dfs_step (w : walk) (d : dfs) : dfs :=
  match stack d with
  | [] => d
  | (k, next) :: st =>
      match deps_of w k !! next with
      | Some parent =>
          let st' := (k, S next) :: st in
          if bool_decide (parent ∈ topoList w) && negb (bool_decide (parent ∈ placed d))
          then Dfs ((parent, 0%nat) :: st') ({[ parent ]} ∪ placed d) (order d)
          else Dfs st' (placed d) (order d)
      | None => Dfs st (placed d) (order d ++ [k])
      end
  end.

(** [while (stack.length)] *)
Fixpoint dfs_loop (fuel : nat) (w : walk) (d : dfs) : option dfs :=
  match stack d with
  | [] => Some d
  | _ => match fuel with
         | O => None
         | S fuel => dfs_loop fuel w (dfs_step w d)
         end
  end.

Definition dfs_start (k : outpoint) (d : dfs) : dfs := Dfs [(k, 0%nat)] ({[ k ]} ∪ placed d) (order d).

(** Enough for one pass: every node is popped once, every parent looked at once. *)
Definition dfs_fuel (w : walk) : nat := sum_list (map (λ k, S (length (deps_of w k))) (topoList w)).

Fixpoint order_from (w : walk) (starts : list outpoint) (d : dfs) : option dfs :=
  match starts with
  | [] => Some d
  | k :: starts =>
      if bool_decide (k ∈ placed d) then order_from w starts d
      else d' ← dfs_loop (dfs_fuel w) w (dfs_start k d); order_from w starts d'
  end.
Definition order_of (w : walk) : option (list outpoint) :=
  d ← order_from w (topoList w) (Dfs [] ∅ []); Some (order d).

(** ** The validator *)
Fixpoint validate_each (ks : list outpoint) : V unit :=
  match ks with
  | [] => mret tt
  | k :: ks =>
      s ← get;
      (if bool_decide (is_Some (validatedSet s !! k)) then mret tt
       else _validateOutpointSingle k;; mret tt);;
      validate_each ks
  end.

Definition validateOutpoint (fuel : nat) (root : outpoint) (s : vstate) : option (res bool * vstate) :=
  match validatedSet s !! root with
  | Some b => Some (Ok b, s)
  | None =>
      o ← walk_loop fuel 0 (enqueue (validatedSet s) None (Walk [] ∅) root) s;
      match o with
      | (Ok w, s') =>
          ks ← order_of w;
          Some ((validate_each ks;; s ← get; mret (default false (validatedSet s !! root))) s')
      | (Null, s') => Some (Null, s')
      | (Throw e, s') => Some (Throw e, s')
      | (Oob, s') => Some (Oob, s')
      end
  end.
End validator.
