(* ===== verification/MixerWithdraw.v ===== *)
(** * Withdrawals

    The [T_WITHDRAW] branch of [_validateOutpointSingle] in [dapp/tacit.js], with the
    checks it makes on a nullifier's recorded owner, and the service it is to the
    validator. *)
From Stdlib Require Import Ascii.
From stdpp Require Import strings pretty.
From S2P Require Import Prelude Bytes Text Crypto EnvelopeScript CodecTransfer CodecIssue CodecPool CodecSlots CodecAmm.
From S2P Require Import Messages Curve Hex Merkle Mixer MixerProof CodecBridge Kernel Notes MixerLeaf Handlers Validator.

Section withdraw.
Context `{Hash} {SE : Secp} {CH : Chain} {GR : Groth16} {MC : MixerChain}.

Definition get_pools : V pools := s ← get; mret (mixer s).
Definition set_pools (ps : pools) : V unit := λ s,
  (Ok tt, VState (validatedSet s) (validatedReasons s) (rpBatch s) (boundOutpointKeys s) ps).

(** the commitment is to the denomination, blinded by the leaf's [r] *)
Definition recipient_opens (d : spend) : bool :=
  match pedersenCommit (denomination d) (bytes32ToBigint (rLeaf d) mod SECP_N), bytesToPoint (recipientCommitment d) with
  | Ok P, Ok Q => equals P Q
  | _, _ => false
  end.

(** ** The owner on record *)
Definition verifyWithdrawOwnerOnChain (ownerTxidHex assetIdHex : string) (denom : Z) (nullifier : bytes) (ps : pools)
    : option bool :=
  if negb (is_hex64 ownerTxidHex) then Some false else
  match getTx ownerTxidHex with
  | None => if _txIsRecentlyNotFound (toLowerCase ownerTxidHex) then Some false else None
  | Some tx =>
      match tx_height tx with
      | None => None
      | Some _ =>
          match first_envelope 3 tx with
          | None => Some false
          | Some env =>
              if negb (env_opcode env =? T_WITHDRAW) then Some false else
              match decoded (TWithdraw.decodeTWithdrawPayload (env_payload env)) with
              | None => Some false
              | Some d =>
                  if negb (bool_decide (bytesToHex (assetId d) = toLowerCase assetIdHex)) then Some false else
                  if negb (denomination d =? denom) then Some false else
                  if negb (bool_decide (nullifierHash d = nullifier)) then Some false else
                  if negb (recipient_opens d) then Some false else
                  Some (isPoolCanonical (poolRegistry ps !! poolKey assetIdHex denom ""))
              end
          end
      end
  end.

(** Another transaction owns the nullifier, and nothing refutes it.  A refuted owner
    loses the nullifier to this transaction. *)
Definition mixerWithdrawConflictBlocks (assetIdHex : string) (denom : Z) (nullifier : bytes) (ourTxidHex : string)
    (ps : pools) : bool * pools :=
  if negb (mixerIsNullifierSpentByOther assetIdHex denom nullifier ourTxidHex "" ps) then (false, ps) else
  let ownerTxid := default ""%string (mixerGetNullifierOwner assetIdHex denom nullifier "" ps) in
  match verifyWithdrawOwnerOnChain ownerTxid assetIdHex denom nullifier ps with
  | Some false => (false, mixerForceNullifierOwner assetIdHex denom nullifier ourTxidHex "" ps)
  | _ => (true, ps)
  end.
Definition conflict (aid : string) (denom : Z) (nullifier : bytes) (us : string) : V bool :=
  ps ← get_pools;
  let '(b, ps') := mixerWithdrawConflictBlocks aid denom nullifier us ps in
  set_pools ps';; mret b.

(** ** The handler *)
Definition withdraw_handler (key : outpoint) (payload : bytes) : V bool :=
  if negb (vout key =? 0) then refuse key else
  match decoded (TWithdraw.decodeTWithdrawPayload payload) with
  | None => refuse key
  | Some d =>
      let aidHex := bytesToHex (assetId d) in
      let denom := denomination d in
      let null := nullifierHash d in
      let us := bytesToHex (txid key) in
      ps ← get_pools;
      if negb (mixerIsPoolRegistered aidHex denom "" ps) then refuse key else
      if negb (mixerIsPoolCanonical aidHex denom ps) then refuse key else
      if negb (mixerHasHistoricalRoot aidHex denom (merkleRoot d) "" ps) then refuse key else
      blocked ← conflict aidHex denom null us;
      if blocked : bool then refuse key else
      if negb (recipient_opens d) then refuse key else
      let pool := poolRegistry ps !! poolKey aidHex denom "" in
      match verifyMixerProof (vkCid <$> pool) (mixer_inputs (merkleRoot d) null denom (rLeaf d) (bindHash d)) (proof d) with
      | Ok false => refuse key
      | Ok true =>
          blocked ← conflict aidHex denom null us;
          if blocked : bool then refuse key else
          ps ← get_pools;
          if mixerIsNullifierSpentByOther aidHex denom null us "" ps then refuse key else
          if mixerReserveWouldBreach aidHex denom (bytesToHex null) ps then refuse key else
          set_pools (mixerMarkNullifierSpent aidHex denom null us "" ps);;
          set_valid key true;;
          mret true
      | _ => _strictUnavailable "T_WITHDRAW: proof verifier unavailable";; refuse_with key FETCH_FAILED
      end
  end.

(** ** The service *)
(** Withdrawals by this handler, every other note another service decides by [rest]. *)
Definition with_withdrawals (rest : Service) : Service := λ key tx e,
  if (env_opcode e =? T_WITHDRAW) then withdraw_handler key (env_payload e) else rest key tx e.
End withdraw.
