(* ===== verification/MixerSync.v ===== *)
(** * Following the indexer

    [processPool] of [scanPools] in [dapp/tacit.js]: the client registers a pool the
    indexer lists, compares its tree with the indexer's leaves, rebuilds it when they
    diverge, takes up new leaves it can verify itself, and records the spent
    nullifiers.  The pages are fetched outside; a pool's entry and its details are the
    arguments. *)
From Stdlib Require Import Ascii.
From stdpp Require Import strings pretty.
From S2P Require Import Prelude Bytes Text Crypto EnvelopeScript CodecTransfer CodecIssue CodecPool CodecSlots CodecAmm.
From S2P Require Import Messages Curve Hex Merkle Mixer MixerProof CodecBridge Kernel Notes MixerLeaf.

Record nullifier_rec := NullifierRec { nr_nullifier_hash : option string; nr_withdraw_txid : option string; nr_status : option string }.
(** an entry of [/pools]; identifiers are strings of code points *)
Record pool_rec := PoolRec {
  pr_asset_id : string; pr_pool_denom : Z; pr_gen : string; pr_source : option string;
  pr_vk_cid : text; pr_ceremony_cid : text; pr_init_height : Z; pr_init_txid : option string;
  pr_leaf_count : Z; pr_nullifier_count : Z }.
(** [/pools/:asset/:denom], all pages *)
Record pool_detail := PoolDetail {
  pd_leaves : list leaf_rec; pd_nullifiers : list nullifier_rec; pd_pending_leaf_count : option Z }.

(** [!('status' in l) || l.status === 'included'] *)
Definition included (status : option string) : bool :=
  match status with None => true | Some s => bool_decide (s = "included"%string) end.
(** [a || b || null] on strings *)
Definition truthy (s : option string) : option string :=
  match s with Some "" => None | s => s end%string.

(** ** The leaves reported *)
(** the overlap of the local leaves with the reported ones *)
Fixpoint prefix_diverged (local : list bytes) (remote : list leaf_rec) : bool :=
  match local, remote with
  | l :: local, r :: remote =>
      match lr_leaf_commitment r with
      | None => prefix_diverged local remote
      | Some remoteHex => if bool_decide (bytesToHex l = toLowerCase remoteHex) then prefix_diverged local remote else true
      end
  | _, _ => false
  end.
Definition diverged (local : list bytes) (remote : list leaf_rec) : bool :=
  match local with
  | [] => false
  | _ => prefix_diverged local remote || (length remote <? length local)%nat
  end.

(** (height, index in the block) increases *)
Definition in_order (a b : leaf_rec) : bool :=
  match lr_deposited_at_height a, lr_deposited_at_height b, lr_tx_index a, lr_tx_index b, lr_deposit_txid a, lr_deposit_txid b with
  | Some ah, Some bh, Some ai, Some bi, Some _, Some _ =>
      if bh <? ah then false else if bh >? ah then true
      else if bi <? ai then false else if bi >? ai then true else false
  | _, _, _, _, _, _ => true
  end.
Fixpoint canonical_order (l : list leaf_rec) : bool :=
  match l with
  | a :: ((b :: _) as l) => in_order a b && canonical_order l
  | _ => true
  end.

Section sync.
Context `{Hash} {SE : Secp} {CH : Chain} {GR : Groth16} {MC : MixerChain} {PO : Poseidon}.

Definition fetchBlockTxids (blockHash : string) : option (list string) :=
  if is_hex64 blockHash then blockTxids (toLowerCase blockHash) else None.
Definition verifyTxIndexInBlock (depositTxidHex blockHash : string) (claimedTxIndex : Z) : option bool :=
  if negb (is_hex64 depositTxidHex) then Some false else
  if claimedTxIndex <? 0 then Some false else
  txids ← fetchBlockTxids blockHash;
  if claimedTxIndex >=? Z.of_nat (length txids) then Some false else
  Some (if txids !! Z.to_nat claimedTxIndex is Some got then bool_decide (toLowerCase got = toLowerCase depositTxidHex) else false).
(** the position the indexer claims, checked against the block *)
Definition position_ok (dtxid : string) (claimedTxIndex : option Z) : bool :=
  match claimedTxIndex with
  | None => true
  | Some i =>
      match tx ← getTx dtxid; tx_blockHash tx with
      | Some blockHash => bool_decide (verifyTxIndexInBlock dtxid blockHash i = Some true)
      | None => false
      end
  end.

Definition leaf_kind (r : leaf_rec) : option string :=
  match truthy (lr_kind r) with Some k => Some k | None => truthy (lr_source r) end.
Definition slot_kinds : list string := ["slot_mint"; "slot_rotate_new"; "slot_split_new"; "slot_merge_new"]%string.
(** [catch { kernelOk = null }] *)
Definition caught (r : res (option bool)) : option bool := match r with Ok v => v | _ => None end.

(** [kernelOk]: a bridge deposit that cannot be checked counts as refuted *)
Definition check_leaf (r : leaf_rec) (aidHex : string) (denom : Z) (leaf : bytes) (dtxid : string) (ctx : option gctx) (ps : pools)
    : option bool * pools :=
  let deposit := verifyMixerDepositKernelOnChain dtxid aidHex denom leaf (lr_deposited_at_height r) in
  match leaf_kind r with
  | Some k =>
      if bool_decide (k = "bridge_deposit") then
        let '(ok, ps') := _verifyBridgeDepositProof r aidHex denom ctx ps in (Some (bool_decide (ok = Some true)), ps')
      else if bool_decide (k = "bridge_rotate") || bool_decide (k = "bridge_import")
      then (caught (_verifyBridgeRotateImportLeaf r aidHex denom k ctx ps), ps)
      else if bool_decide (k ∈ slot_kinds)
      then (caught (verifySlotLeafOnChain r aidHex denom leaf (lr_deposited_at_height r)), ps)
      else (caught deposit, ps)
  | None => (caught deposit, ps)
  end%string.

(** The new leaves, in order, until one is not verified; the answer is [hadHardReject]. *)
Fixpoint sync_leaves (rs : list leaf_rec) (aidHex : string) (denom : Z) (gen : string) (ctx : option gctx) (ps : pools)
    : res bool * pools :=
  match rs with
  | [] => (Ok false, ps)
  | r :: rs =>
      match truthy (lr_leaf_commitment r), truthy (lr_deposit_txid r) with
      | Some lc, Some dtxid =>
          match hexToBytes lc with
          | Ok leaf =>
              match check_leaf r aidHex denom leaf dtxid ctx ps with
              | (Some true, ps) =>
                  if negb (position_ok dtxid (lr_tx_index r)) then (Ok false, ps) else
                  match mixerAppendLeaf aidHex denom leaf gen ps with
                  | (Ok _, ps) => sync_leaves rs aidHex denom gen ctx ps
                  | (e, ps) => (e, ps)
                  end
              | (Some false, ps) => (Ok true, ps)
              | (None, ps) => (Ok false, ps)
              end
          | _ => (Throw "hex string expected", ps)
          end
      | _, _ => (Ok false, ps)
      end
  end.

(** ** The nullifiers reported *)
Fixpoint sync_nullifiers (ns : list nullifier_rec) (aidHex : string) (denom : Z) (gen : string) (ps : pools) : res unit * pools :=
  match ns with
  | [] => (Ok tt, ps)
  | n :: ns =>
      match truthy (nr_nullifier_hash n) with
      | None => sync_nullifiers ns aidHex denom gen ps
      | Some h =>
          match hexToBytes h with
          | Ok b =>
              sync_nullifiers ns aidHex denom gen
                (if mixerIsNullifierSpent aidHex denom b gen ps then ps
                 else mixerMarkNullifierSpent aidHex denom b (default ""%string (nr_withdraw_txid n)) gen ps)
          | _ => (Throw "hex string expected", ps)
          end
      end
  end.

(** ** One pool *)
Definition alter_tree (k : string) (f : tree → tree) (ps : pools) : pools := set_trees (alter f k) ps.
Definition note_counts (pending : option Z) (n : Z) (t : tree) : tree :=
  Tree (leaves t) (roots t) (rootHistory t) (Some n) (Some (default 0 pending)) (integrityFailed t).
Definition reset_tree (t : tree) : tree :=
  Tree [] [] ∅ (canonicalLeafCount t) (pendingLeafCount t) (integrityFailed t).
Definition note_integrity (hadHardReject : bool) (t : tree) : tree :=
  Tree (leaves t) (roots t) (rootHistory t)
    (if hadHardReject then Some (Z.of_nat (length (leaves t))) else canonicalLeafCount t) (pendingLeafCount t) hadHardReject.

Definition local_leaves (k : string) (ps : pools) : list bytes :=
  if poolMerkleTrees ps !! k is Some t then leaves t else [].

(** the pool's entry, registered when it is new *)
Definition register_listed (p : pool_rec) (ps : pools) : pools :=
  let aid := pr_asset_id p in
  if mixerIsPoolRegistered aid (pr_pool_denom p) (pr_gen p) ps then ps else
  let auto := bool_decide (pr_source p = Some "bridge_auto"%string) in
  let cid (t : text) (canonical : bytes) :=
    if bool_decide (t = []) then (if auto then canonical else []) else text_encode t in
  (mixerRegisterPool aid (pr_pool_denom p) (cid (pr_vk_cid p) CANONICAL_VK_CID)
     (cid (pr_ceremony_cid p) CANONICAL_CEREMONY_CID) (pr_init_height p) (pr_init_txid p) (pr_gen p) ps).2.

(** the tree before new leaves: the counts noted, a diverged tree emptied *)
Definition prepare_tree (k : string) (remote : list leaf_rec) (pending : option Z) (ps : pools) : pools :=
  let ps := alter_tree k (note_counts pending (Z.of_nat (length remote))) ps in
  if diverged (local_leaves k ps) remote then alter_tree k reset_tree ps else ps.

Definition sync_pool_leaves (p : pool_rec) (remote : list leaf_rec) (ps : pools) : res unit * pools :=
  let k := poolKey (pr_asset_id p) (pr_pool_denom p) (pr_gen p) in
  let n := length (local_leaves k ps) in
  if (length remote <=? n)%nat || negb (canonical_order remote) then (Ok tt, ps) else
  let ctx := if bool_decide (pr_gen p = ""%string) then None else find (λ g, bool_decide (g_gen g = pr_gen p)) tethGenList in
  match sync_leaves (drop n remote) (pr_asset_id p) (pr_pool_denom p) (pr_gen p) ctx ps with
  | (Ok hadHardReject, ps) => (Ok tt, alter_tree k (note_integrity hadHardReject) ps)
  | (Null, ps) => (Null, ps)
  | (Throw e, ps) => (Throw e, ps)
  | (Oob, ps) => (Oob, ps)
  end.

(** [None]: the details could not be fetched *)
Definition processPool (p : pool_rec) (detail : option pool_detail) (ps : pools) : res unit * pools :=
  let ps := register_listed p ps in
  if (pr_leaf_count p =? 0) && (pr_nullifier_count p =? 0) then (Ok tt, ps) else
  match detail with
  | None => (Ok tt, ps)
  | Some d =>
      let remoteLeaves := filter (λ l, included (lr_status l) = true) (pd_leaves d) in
      let k := poolKey (pr_asset_id p) (pr_pool_denom p) (pr_gen p) in
      match sync_pool_leaves p remoteLeaves (prepare_tree k remoteLeaves (pd_pending_leaf_count d) ps) with
      | (Ok _, ps) =>
          sync_nullifiers (filter (λ n, included (nr_status n) = true) (pd_nullifiers d))
            (pr_asset_id p) (pr_pool_denom p) (pr_gen p) ps
      | (e, ps) => (e, ps)
      end
  end.

(** Every pool listed, one after the other; what a pool throws is dropped. *)
Definition scanPools (l : list (pool_rec * option pool_detail)) (ps : pools) : pools :=
  foldl (λ ps p, (processPool p.1 p.2 ps).2) ps l.
End sync.
