(* ===== verification/WalkFacts.v ===== *)
(** * The walk and the order

    The ancestor list has no duplicates and is closed under parents; the walk ends
    within as many steps as there are ancestors; the order is a permutation of the
    list, and on an acyclic graph every parent comes before its children. *)
From S2P Require Import Prelude Bytes Crypto EnvelopeScript CodecTransfer CodecIssue CodecPool CodecSlots CodecAmm.
From S2P Require Import Messages Curve Kernel Notes Handlers Validator.

Lemma filter_ext_in {A} (P Q : A → Prop) `{!∀ x, Decision (P x), !∀ x, Decision (Q x)} (l : list A) :
  (∀ x, x ∈ l → P x ↔ Q x) → filter P l = filter Q l.
Proof.
  induction l as [|x l IH]; intros Hl; [done|]. rewrite !filter_cons.
  rewrite IH by (intros; apply Hl; by right). pose proof (Hl x ltac:(by left)).
  destruct (decide (P x)), (decide (Q x)); tauto.
Qed.

(** ** The depth-first order *)
Section order.
Context (w : walk) (Htopo : NoDup (topoList w)).
Implicit Types d : dfs.

Definition weight (k : outpoint) : nat := S (length (deps_of w k)).
Definition unplaced (P : gset outpoint) : nat := sum_list (map weight (filter (λ k, k ∉ P) (topoList w))).
Definition stack_work (st : list (outpoint * nat)) : nat :=
  sum_list (map (λ p : outpoint * nat, S (length (deps_of w p.1) - p.2)) st).
Definition work (d : dfs) : nat := (unplaced (placed d) + stack_work (stack d))%nat.

Lemma unplaced_place p P :
  p ∈ topoList w → p ∉ P → unplaced P = (weight p + unplaced ({[ p ]} ∪ P))%nat.
Proof.
  unfold unplaced. intros Hp HP. induction (topoList w) as [|k l IH]; [by apply elem_of_nil in Hp|].
  apply NoDup_cons in Htopo as [Hk Hl]. rewrite !filter_cons.
  destruct (decide (k = p)) as [->|Hne].
  - rewrite decide_True by done. rewrite decide_False by set_solver. cbn.
    by rewrite (filter_ext_in (λ k, k ∉ P) (λ k, k ∉ {[ p ]} ∪ P) l) by set_solver.
  - apply elem_of_cons in Hp as [?|Hp]; [congruence|]. specialize (IH Hl Hp).
    destruct (decide (k ∉ P)).
    + rewrite decide_True by set_solver. cbn in *. rewrite IH. lia.
    + rewrite decide_False by set_solver. done.
Qed.

(** What holds of every state of the traversal.  [above] is the node pushed last from a
    stack entry: its parents seen so far are all in the order, except that one. *)
Definition seen (ord : list outpoint) (above : option outpoint) (p : outpoint * nat) : Prop :=
  ∀ i x, (i < p.2)%nat → deps_of w p.1 !! i = Some x → x ∈ topoList w → x ∈ ord ∨ above = Some x.
Fixpoint stack_ok (ord : list outpoint) (above : option outpoint) (st : list (outpoint * nat)) : Prop :=
  match st with
  | [] => True
  | p :: st =>
      seen ord above p ∧ (if above is Some x then x ∈ deps_of w p.1 else True) ∧ stack_ok ord (Some p.1) st
  end.
Definition parents_first (l : list outpoint) : Prop :=
  ∀ i k x, l !! i = Some k → x ∈ deps_of w k → x ∈ topoList w → x ∈ take i l.
Record dfs_ok d : Prop := {
  ok_nodup : NoDup ((stack d).*1 ++ order d);
  ok_placed : ∀ k, k ∈ placed d ↔ k ∈ (stack d).*1 ++ order d;
  ok_topo : ∀ k, k ∈ placed d → k ∈ topoList w }.

Lemma work_step d : dfs_ok d → stack d ≠ [] → (work (dfs_step w d) < work d)%nat.
Proof.
  intros Hok Hne. unfold work, dfs_step. destruct (stack d) as [|[k n] st]; [done|].
  destruct (deps_of w k !! n) as [p|] eqn:Hp.
  - pose proof (lookup_lt_Some _ _ _ Hp). destruct (bool_decide _ && _) eqn:Hb; cbn [stack placed].
    + bool_to_prop. rewrite (unplaced_place p (placed d)) by done. unfold stack_work, weight. cbn. lia.
    + unfold stack_work. cbn. lia.
  - unfold stack_work. cbn. lia.
Qed.

Lemma dfs_step_ok d : dfs_ok d → dfs_ok (dfs_step w d).
Proof.
  intros [Hnd Hpl Ht]. unfold dfs_step. destruct d as [[|[k n] st] P ord]; cbn [stack placed order] in *; [done|].
  destruct (deps_of w k !! n) as [p|] eqn:Hp.
  - destruct (bool_decide _ && _) eqn:Hb; split; cbn in *; try done.
    + bool_to_prop. apply NoDup_cons. split; [|done]. rewrite <- Hpl. done.
    + intros x. rewrite elem_of_union, elem_of_singleton, Hpl. set_solver.
    + bool_to_prop. set_solver.
  - split; cbn in *; [|intros x; rewrite Hpl; set_solver|done].
    rewrite app_assoc. apply NoDup_app. apply NoDup_cons in Hnd as [Hk Hnd].
    split; [done|]. split; [|apply NoDup_singleton]. set_solver.
Qed.

Lemma dfs_loop_Some fuel d :
  dfs_ok d → (work d <= fuel)%nat →
  ∃ d', dfs_loop fuel w d = Some d' ∧ dfs_ok d' ∧ stack d' = [].
Proof.
  revert d. induction fuel as [|fuel IH]; intros d Hok Hw.
  - destruct (stack d) eqn:Hs; cbn; rewrite Hs; [by exists d|].
    exfalso. pose proof (work_step d Hok ltac:(by rewrite Hs)). lia.
  - cbn [dfs_loop]. destruct (stack d) eqn:Hs; [by exists d|].
    apply IH; [by apply dfs_step_ok|]. pose proof (work_step d Hok ltac:(by rewrite Hs)). lia.
Qed.

(** *** Parents first *)
Definition parent_of (x k : outpoint) : Prop := x ∈ deps_of w k.
Definition acyclic : Prop := ∀ k, k ∈ topoList w → ¬ tc parent_of k k.
Definition ordered d : Prop := stack_ok (order d) None (stack d) ∧ parents_first (order d).

Lemma seen_mono ord ord' above p :
  (∀ x, x ∈ ord → x ∈ ord') → seen ord above p → seen ord' above p.
Proof. intros Hs Hp i x Hi Hx Ht. destruct (Hp i x Hi Hx Ht); [left; by apply Hs|by right]. Qed.

Lemma stack_ok_mono ord ord' above st :
  (∀ x, x ∈ ord → x ∈ ord') → stack_ok ord above st → stack_ok ord' above st.
Proof.
  intros Hs. revert above. induction st as [|p st IH]; intros above; cbn; [done|].
  intros (H1 & H2 & H3). split; [by eapply seen_mono|]. split; [done|by apply IH].
Qed.

Lemma stack_chain ord y st x : stack_ok ord (Some y) st → x ∈ st.*1 → tc parent_of y x.
Proof.
  revert y. induction st as [|p st IH]; intros y; cbn; [by intros _ ?%elem_of_nil|].
  intros (_ & Hy & Hst) [->|Hx]%elem_of_cons; [by apply tc_once|].
  eapply tc_l; [exact Hy|by apply IH].
Qed.

Lemma dfs_step_ordered d : acyclic → dfs_ok d → ordered d → ordered (dfs_step w d).
Proof.
  intros Hac [_ Hpl Ht] [Hst Hpf]. unfold ordered, dfs_step.
  destruct d as [[|[k n] st] P ord]; cbn [stack placed order] in *; [done|].
  destruct Hst as (Hseen & _ & Hst).
  destruct (deps_of w k !! n) as [p|] eqn:Hp.
  - pose proof (list_elem_of_lookup_2 _ _ _ Hp) as Hin.
    assert (Hold : ∀ i x, (i < n)%nat → deps_of w k !! i = Some x → x ∈ topoList w → x ∈ ord).
    { intros i x Hi Hx Hxt. by destruct (Hseen i x Hi Hx Hxt). }
    destruct (bool_decide (p ∈ topoList w) && _) eqn:Hb; cbn [stack placed order stack_ok fst snd].
    + split; [|done]. split; [intros i x; cbn; lia|]. split; [done|]. split; [|split; [done|done]].
      intros i x Hi Hx Hxt. cbn in *. destruct (decide (i = n)) as [->|]; [right; congruence|].
      left. apply (Hold i); [lia|done|done].
    + split; [|done]. split; [|split; [done|done]]. intros i x Hi Hx Hxt. cbn in *. left.
      destruct (decide (i = n)) as [->|]; [|apply (Hold i); [lia|done|done]].
      rewrite Hp in Hx. injection Hx as ->. rewrite bool_decide_eq_true_2 in Hb by done. cbn [andb] in Hb.
      bool_to_prop. apply Hpl, elem_of_cons in Hb as [->|[Hb|Hb]%elem_of_app]; [| |done].
      * exfalso. apply (Hac k Hxt), tc_once. done.
      * exfalso. apply (Hac x Hxt). apply (tc_l _ _ k); [done|]. by eapply stack_chain.
  - cbn [stack placed order]. split.
    + destruct st as [|p st]; [done|]. destruct Hst as (Hs & _ & Hst). split; [|split; [done|]].
      * intros i x Hi Hx Hxt. left. destruct (Hs i x Hi Hx Hxt) as [?|[= ->]]; set_solver.
      * eapply stack_ok_mono; [|exact Hst]. set_solver.
    + intros i k' x Hi Hx Hxt. apply lookup_app_Some in Hi as [Hi|[Hlen Hi]].
      * rewrite take_app_le by (apply lookup_lt_Some in Hi; lia). by eapply Hpf.
      * apply list_lookup_singleton_Some in Hi as [Hi <-].
        assert (i = length ord) as -> by lia. rewrite take_app_length.
        apply list_elem_of_lookup in Hx as [j Hj]. pose proof (lookup_lt_Some _ _ _ Hj).
        apply lookup_ge_None in Hp. destruct (Hseen j x) as [?|?]; cbn; try done. lia.
Qed.

Lemma dfs_loop_ordered fuel d d' :
  acyclic → dfs_ok d → ordered d → dfs_loop fuel w d = Some d' → ordered d'.
Proof.
  intros Hac. revert d. induction fuel as [|fuel IH]; intros d Hok Hord; cbn [dfs_loop].
  - destruct (stack d) eqn:Hs; [|done]. by intros [= <-].
  - destruct (stack d) eqn:Hs; [by intros [= <-]|]. apply IH; [by apply dfs_step_ok|by apply dfs_step_ordered].
Qed.

Lemma dfs_loop_placed fuel d d' k : dfs_loop fuel w d = Some d' → k ∈ placed d → k ∈ placed d'.
Proof.
  revert d. induction fuel as [|fuel IH]; intros d; cbn [dfs_loop].
  - destruct (stack d) eqn:Hs; [|done]. by intros [= <-].
  - destruct (stack d) as [|[j n] st] eqn:Hs; [by intros [= <-]|]. intros E Hk. apply (IH _ E).
    unfold dfs_step. rewrite Hs. destruct (_ !! _); [|done]. destruct (_ && _); cbn; set_solver.
Qed.

Lemma unplaced_le P : (unplaced P <= dfs_fuel w)%nat.
Proof.
  unfold unplaced, dfs_fuel. clear Htopo. induction (topoList w) as [|k l IH]; [done|].
  rewrite filter_cons. destruct (decide _); cbn in *; lia.
Qed.

Lemma dfs_start_ok k d :
  dfs_ok d → stack d = [] → k ∈ topoList w → k ∉ placed d →
  dfs_ok (dfs_start k d) ∧ (work (dfs_start k d) <= dfs_fuel w)%nat.
Proof.
  intros [Hnd Hpl Ht] Hs Hk Hp. rewrite Hs in Hnd, Hpl. cbn in Hnd, Hpl. split.
  - split; cbn.
    + apply NoDup_cons. by rewrite <- Hpl.
    + intros x. rewrite elem_of_union, elem_of_singleton, elem_of_cons, Hpl. done.
    + set_solver.
  - unfold work. cbn. etrans; [|apply (unplaced_le (placed d))].
    rewrite (unplaced_place k (placed d)) by done. unfold weight. lia.
Qed.

Lemma order_from_Some starts d :
  (∀ k, k ∈ starts → k ∈ topoList w) → dfs_ok d → stack d = [] →
  ∃ d', order_from w starts d = Some d' ∧ dfs_ok d' ∧ stack d' = [] ∧
    (∀ k, k ∈ placed d → k ∈ placed d') ∧ (∀ k, k ∈ starts → k ∈ placed d') ∧
    (acyclic → ordered d → ordered d').
Proof.
  revert d. induction starts as [|k starts IH]; intros d Hst Hok Hs; cbn [order_from].
  - exists d. split_and!; try done. by intros ? ?%elem_of_nil.
  - case_bool_decide as Hk.
    + destruct (IH d) as (d' & E & H1 & H2 & H3 & H4 & H5); [set_solver|done|done|].
      exists d'. split_and!; try done. intros x [->|Hx]%elem_of_cons; auto.
    + destruct (dfs_start_ok k d) as [Hok1 Hw1]; [done|done|set_solver|done|].
      destruct (dfs_loop_Some _ _ Hok1 Hw1) as (d1 & E1 & Hokd1 & Hs1).
      destruct (IH d1) as (d' & E & H1 & H2 & H3 & H4 & H5); [set_solver|done|done|].
      exists d'. rewrite E1. cbn [mbind option_bind].
      assert (Hpl1 : ∀ x, x ∈ placed (dfs_start k d) → x ∈ placed d') by eauto using dfs_loop_placed.
      split_and!; try done.
      * intros x Hx. apply Hpl1. cbn. set_solver.
      * intros x [->|Hx]%elem_of_cons; [apply Hpl1; cbn; set_solver|auto].
      * intros Hac [_ Hpf]. apply H5; [done|]. eapply dfs_loop_ordered; [done|exact Hok1| |exact E1].
        split; [|exact Hpf]. cbn. split; [|done]. intros i x Hi. cbn in Hi. lia.
Qed.

(** The order is a permutation of the ancestors; on an acyclic graph it puts the parents
    first. *)
Lemma order_of_spec :
  ∃ l, order_of w = Some l ∧ l ≡ₚ topoList w ∧ (acyclic → parents_first l).
Proof.
  destruct (order_from_Some (topoList w) (Dfs [] ∅ [])) as (d & E & [Hnd Hpl Ht] & Hs & _ & Hall & Hord).
  { done. }
  { split; cbn; [by apply NoDup_nil|set_solver|set_solver]. }
  { done. }
  rewrite Hs in Hnd, Hpl. cbn in Hnd, Hpl.
  exists (order d). unfold order_of. rewrite E. split; [done|]. split.
  - apply NoDup_Permutation; [done|done|]. intros k. rewrite <- Hpl. split; [apply Ht|apply Hall].
  - intros Hac. apply Hord; [done|]. split; [done|]. intros i k x Hi. cbn in Hi. by rewrite lookup_nil in Hi.
Qed.
End order.

(** ** The walk *)
Section walk.
Context `{Hash} {SE : Secp} {CH : Chain} {SV : Service}.

Lemma node_env_Some key tx e :
  node_env key = Some (tx, e) ↔
    fetchTx (txid key) = Some tx ∧ ∃ i0 rest, tx_vin tx = i0 :: rest ∧ _witnessEnvelope (in_witness i0) = Some e.
Proof.
  unfold node_env. destruct (fetchTx (txid key)) as [tx'|]; cbn; [|naive_solver].
  destruct (tx_vin tx') as [|i0 rest] eqn:Hv; cbn.
  - split; [done|]. intros ([= ->] & ? & ? & E & _). congruence.
  - destruct (_witnessEnvelope (in_witness i0)) as [e'|] eqn:He; cbn.
    + split; [intros [= -> ->]; naive_solver|]. intros ([= ->] & ? & ? & E & ?). rewrite Hv in E. by simplify_eq.
    + split; [done|]. intros ([= ->] & ? & ? & E & ?). rewrite Hv in E. by simplify_eq.
Qed.

Lemma witnessEnvelope_len w e : _witnessEnvelope w = Some e → (3 <= length w)%nat.
Proof. unfold _witnessEnvelope. destruct (Nat.ltb_spec (length w) 3); [done|lia]. Qed.

Definition node_parents (k : outpoint) : list outpoint :=
  if node_env k is Some (tx, e) then parents tx e else [].
(** a note the attested set vouches for *)
Definition tracked_note (k : outpoint) : Prop := ∃ tx e, node_env k = Some (tx, e) ∧ tracked_ok k tx = true.
#[global] Instance tracked_note_dec k : Decision (tracked_note k).
Proof.
  unfold tracked_note. destruct (node_env k) as [[tx e]|]; [|right; naive_solver].
  destruct (tracked_ok k tx) eqn:Ht; [left; by exists tx, e|right]. intros (? & ? & [= <- <-] & ?). congruence.
Defined.
Definition ancestor (root k : outpoint) : Prop := rtc (λ a b, ¬ tracked_note a ∧ b ∈ node_parents a) root k.

Lemma enqueue_all vs k ps w :
  NoDup (topoList w) →
  let w' := foldl (enqueue vs (Some k)) w ps in
  NoDup (topoList w') ∧
  (∃ new, topoList w' = topoList w ++ new ∧ ∀ p, p ∈ new → p ∈ ps) ∧
  (∀ p, p ∈ ps → p ∈ topoList w' ∨ is_Some (vs !! p)) ∧
  deps_of w' k = deps_of w k ++ ps ∧ (∀ j, j ≠ k → deps_of w' j = deps_of w j).
Proof.
  revert w. induction ps as [|p ps IH]; intros w Hnd; cbn [foldl].
  - split_and!; try done; [exists []; by rewrite app_nil_r|by intros ? ?%elem_of_nil|by rewrite app_nil_r].
  - set (w1 := enqueue vs (Some k) w p).
    assert (Hd1 : deps_of w1 k = deps_of w k ++ [p]).
    { unfold w1, enqueue, deps_of. destruct (_ || _); cbn; by rewrite lookup_insert_eq. }
    assert (Hd2 : ∀ j, j ≠ k → deps_of w1 j = deps_of w j).
    { intros j Hj. unfold w1, enqueue, deps_of. destruct (_ || _); cbn; by rewrite lookup_insert_ne. }
    assert (Ht1 : NoDup (topoList w1) ∧ (∃ new, topoList w1 = topoList w ++ new ∧ ∀ x, x ∈ new → x = p) ∧
                  (p ∈ topoList w1 ∨ is_Some (vs !! p))).
    { unfold w1, enqueue. destruct (_ || _) eqn:Hb; cbn.
      - split; [done|]. split; [exists []; split; [by rewrite app_nil_r|by intros ? ?%elem_of_nil]|].
        apply orb_true_iff in Hb as [Hb|Hb]; apply bool_decide_eq_true in Hb; auto.
      - bool_to_prop. split; [|split; [exists [p]; set_solver|set_solver]].
        apply NoDup_app. split; [done|]. split; [set_solver|apply NoDup_singleton]. }
    destruct Ht1 as (Hn1 & (new1 & Hw1 & Hnew1) & Hp1).
    destruct (IH w1 Hn1) as (H1 & (new & Hw & Hnew) & H3 & H4 & H5).
    split_and!; [done| | | |].
    + exists (new1 ++ new). rewrite Hw, Hw1, app_assoc. split; [done|].
      intros x [Hx|Hx]%elem_of_app; [rewrite (Hnew1 x Hx); by left|right; by apply Hnew].
    + intros x [->|Hx]%elem_of_cons; [|by apply H3]. destruct Hp1 as [Hp1|]; [left|by right].
      rewrite Hw. set_solver.
    + by rewrite H4, Hd1, <- app_assoc.
    + intros j Hj. by rewrite H5, Hd2.
Qed.

(** What the walk has established after [cursor] nodes. *)
Record walk_ok (root : outpoint) (s0 : vstate) (cursor : nat) (w : walk) (s : vstate) : Prop := {
  wk_nodup : NoDup (topoList w);
  wk_fresh : ∀ k, k ∉ take cursor (topoList w) → deps_of w k = [];
  wk_done : ∀ k, k ∈ take cursor (topoList w) →
    (deps_of w k = [] ∧ tracked_note k ∧ validatedSet s !! k = Some true) ∨
    (deps_of w k = node_parents k ∧ ¬ tracked_note k ∧
     ∀ p, p ∈ node_parents k → p ∈ topoList w ∨ is_Some (validatedSet s !! p));
  wk_reach : ∀ k, k ∈ topoList w → ancestor root k;
  wk_vs : ∀ k b, validatedSet s !! k = Some b →
    validatedSet s0 !! k = Some b ∨ b = true ∧ tracked_note k;
  wk_sub : ∀ k, is_Some (validatedSet s0 !! k) → is_Some (validatedSet s !! k);
  wk_rest : rpBatch s = rpBatch s0 ∧ boundOutpointKeys s = boundOutpointKeys s0 }.

Lemma expand_spec k w s :
  (expand k w s = (Ok w, VState (<[k := true]> (validatedSet s)) (validatedReasons s) (rpBatch s) (boundOutpointKeys s) (mixer s)) ∧
   tracked_note k) ∨
  (expand k w s = (Ok (foldl (enqueue (validatedSet s) (Some k)) w (node_parents k)), s) ∧ ¬ tracked_note k).
Proof.
  unfold expand, node_parents, tracked_note.
  destruct (node_env k) as [[tx e]|] eqn:Hn; [|right; split; [done|naive_solver]].
  unfold _trackedCredit. destruct (tracked_ok k tx) eqn:Ht.
  - left. split; [done|]. by exists tx, e.
  - right. split; [done|]. intros (? & ? & [= <- <-] & ?). congruence.
Qed.

Lemma walk_step root s0 cursor w s k :
  walk_ok root s0 cursor w s → topoList w !! cursor = Some k →
  ∃ w' s', expand k w s = (Ok w', s') ∧ walk_ok root s0 (S cursor) w' s' ∧
    (∃ new, topoList w' = topoList w ++ new ∧ ∀ p, p ∈ new → ¬ tracked_note k ∧ p ∈ node_parents k).
Proof.
  intros [Hnd Hfr Hdn Hre Hvs Hsub Hrest] Hk.
  pose proof (lookup_lt_Some _ _ _ Hk) as Hlt. pose proof (take_S_r _ _ _ Hk) as Htk.
  assert (Hknew : k ∉ take cursor (topoList w)).
  { intros Hin. rewrite <- (take_drop cursor (topoList w)) in Hnd.
    rewrite (drop_S _ _ _ Hk) in Hnd. apply NoDup_app in Hnd as (_ & Hd & _). apply (Hd k Hin). by left. }
  destruct (expand_spec k w s) as [[E Htr]|[E Hntr]].
  - eexists w, _. split; [exact E|]. split; [|exists []; rewrite app_nil_r; split; [done|by intros ? ?%elem_of_nil]].
    split; try done; cbn.
    + intros j. rewrite Htk. intros Hj. apply Hfr. set_solver.
    + intros j. rewrite Htk. intros [Hj| ->%list_elem_of_singleton]%elem_of_app.
      * destruct (Hdn j Hj) as [(? & ? & ?) | (? & ? & Hp)]; [left|right]; split_and!; try done.
        -- destruct (decide (k = j)) as [->|]; [by rewrite lookup_insert_eq|by rewrite lookup_insert_ne].
        -- intros p Hpp. destruct (Hp p Hpp) as [|Hs]; [by left|right].
           destruct (decide (k = p)) as [->|]; [by rewrite lookup_insert_eq|by rewrite lookup_insert_ne].
      * left. rewrite lookup_insert_eq. split_and!; [by apply Hfr|done|done].
    + intros j b Hj. destruct (decide (k = j)) as [->|].
      * rewrite lookup_insert_eq in Hj. right. by injection Hj as <-.
      * rewrite lookup_insert_ne in Hj by done. by apply Hvs.
    + intros j Hj. destruct (decide (k = j)) as [->|]; [by rewrite lookup_insert_eq|].
      rewrite lookup_insert_ne by done. by apply Hsub.
  - destruct (enqueue_all (validatedSet s) k (node_parents k) w Hnd) as (Hnd' & (new & Hnew & Hin) & Hcl & Hd1 & Hd2).
    set (w' := foldl _ w _) in *. eexists w', s. split; [exact E|]. split; [|exists new; auto].
    assert (Htk' : take (S cursor) (topoList w') = take cursor (topoList w) ++ [k]).
    { rewrite Hnew, take_app_le by lia. exact Htk. }
    rewrite (Hfr k Hknew) in Hd1. cbn in Hd1. split; try done.
    + intros j. rewrite Htk'. intros Hj. rewrite Hd2 by set_solver. apply Hfr. set_solver.
    + intros j. rewrite Htk'. intros [Hj| ->%list_elem_of_singleton]%elem_of_app.
      * rewrite Hd2 by set_solver. destruct (Hdn j Hj) as [? | (? & ? & Hp)]; [by left|right].
        split; [done|]. split; [done|]. intros p Hpp. destruct (Hp p Hpp); [left; rewrite Hnew; set_solver|by right].
      * right. by rewrite Hd1.
    + intros j. rewrite Hnew. intros [Hj|Hj]%elem_of_app; [by apply Hre|].
      eapply rtc_r; [|exact (conj Hntr (Hin j Hj))]. apply Hre. by eapply list_elem_of_lookup_2.
Qed.

Definition walk_start (s : vstate) (root : outpoint) : walk := enqueue (validatedSet s) None (Walk [] ∅) root.

Lemma walk_start_ok s root :
  validatedSet s !! root = None →
  topoList (walk_start s root) = [root] ∧ walk_ok root s 0 (walk_start s root) s.
Proof.
  intros Hn. unfold walk_start, enqueue. cbn [topoList parentsOf].
  rewrite (bool_decide_eq_false_2 (root ∈ [])) by (by intros ?%elem_of_nil).
  rewrite bool_decide_eq_false_2 by (rewrite Hn; by intros [? ?]). cbn.
  split; [done|]. split; cbn; try done.
  - apply NoDup_singleton.
  - by intros ? ?%elem_of_nil.
  - intros k ->%list_elem_of_singleton. apply rtc_refl.
  - auto.
Qed.

(** Partial correctness of the walk. *)
Lemma walk_loop_ok root s0 fuel cursor w s r s' :
  walk_ok root s0 cursor w s → walk_loop fuel cursor w s = Some (r, s') →
  ∃ w', r = Ok w' ∧ walk_ok root s0 (length (topoList w')) w' s' ∧ topoList w `prefix_of` topoList w'.
Proof.
  revert cursor w s. induction fuel as [|fuel IH]; intros cursor w s Hok; cbn [walk_loop];
    destruct (topoList w !! cursor) as [k|] eqn:Hk.
  - done.
  - intros [= <- <-]. exists w. split; [done|]. split; [|done]. apply lookup_ge_None in Hk.
    destruct Hok. rewrite take_ge in * by done. split; rewrite ?take_ge by done; done.
  - destruct (walk_step _ _ _ _ _ _ Hok Hk) as (w1 & s1 & E & Hok1 & new & Hnew & _). rewrite E. intros Hl.
    destruct (IH _ _ _ Hok1 Hl) as (w' & ? & ? & Hpre). exists w'. split_and!; try done.
    rewrite Hnew in Hpre. etrans; [|exact Hpre]. by apply prefix_app_r.
  - intros [= <- <-]. exists w. split; [done|]. split; [|done]. apply lookup_ge_None in Hk.
    destruct Hok. rewrite take_ge in * by done. split; rewrite ?take_ge by done; done.
Qed.

(** Termination: as many steps as there are ancestors. *)
Lemma walk_loop_total root s0 (U : list outpoint) fuel cursor w s :
  (∀ k p, k ∈ U → ¬ tracked_note k → p ∈ node_parents k → p ∈ U) →
  walk_ok root s0 cursor w s → (∀ k, k ∈ topoList w → k ∈ U) → (length U <= cursor + fuel)%nat →
  ∃ w' s', walk_loop fuel cursor w s = Some (Ok w', s').
Proof.
  intros HU. revert cursor w s. induction fuel as [|fuel IH]; intros cursor w s Hok Hsub Hlen;
    cbn [walk_loop]; destruct (topoList w !! cursor) as [k|] eqn:Hk; eauto.
  - exfalso. pose proof (lookup_lt_Some _ _ _ Hk).
    pose proof (submseteq_length _ _ (NoDup_submseteq _ _ (wk_nodup _ _ _ _ _ Hok) Hsub)). lia.
  - destruct (walk_step _ _ _ _ _ _ Hok Hk) as (w1 & s1 & E & Hok1 & new & Hnew & Hin). rewrite E.
    apply IH; [done| |lia]. intros j. rewrite Hnew. intros [Hj|Hj]%elem_of_app; [by apply Hsub|].
    destruct (Hin j Hj). apply (HU k); [apply Hsub; by eapply list_elem_of_lookup_2|done|done].
Qed.
End walk.
