(* ===== verification/ValidSpec.v ===== *)
(** * What a valid note is

    The validator's contract, without its maps, its marking of sibling outputs, its
    order of work or its batching: [valid svc k] holds when [k] is an etch with a proved
    amount, a mint signed by the authority of a valid etch, an output of a transfer
    whose inputs are valid notes of its asset and whose kernel closes, a note the
    attested set vouches for, or a note [svc] vouches for.  The eight kinds of transfer
    are one shape, [transfer]. *)
From S2P Require Import Prelude Bytes Crypto EnvelopeScript CodecTransfer CodecIssue CodecPool CodecSlots CodecAmm.
From S2P Require Import Messages Curve Kernel Notes Handlers Validator WalkFacts.

Inductive range_kind := Bp | Bpp.

(** A transfer: the inputs that carry the asset, the outputs' commitments with the
    transaction outputs they belong to, the amount destroyed, and the two proofs. *)
Record transfer := Transfer {
  t_asset : bytes; t_ins : list outpoint; t_outs : list bytes; t_vouts : list Z;
  t_burned : Z; t_kernelSig : bytes; t_kind : range_kind; t_proof : bytes }.

Section spec.
Context `{Hash} {SE : Secp} {CH : Chain} {SV : Service}.

Definition indices (n : nat) : list Z := map Z.of_nat (seq 0 n).

(** every input after the first carries the asset *)
Definition all_inputs (tx : txn) (t : list outpoint → transfer) : option transfer :=
  let ins := prevs (drop 1 (tx_vin tx)) in
  if (1 <=? length ins)%nat && (length ins <=? 255)%nat then Some (t ins) else None.
(** the envelope says how many do *)
Definition counted_inputs (tx : txn) (aic : Z) (t : list outpoint → transfer) : option transfer :=
  let ins := prevs (drop 1 (tx_vin tx)) in
  if (1 <=? aic) && (aic <=? 255) && (aic <=? Z.of_nat (length ins)) then Some (t (take (Z.to_nat aic) ins)) else None.

Definition of_axfer (tx : txn) (kind : range_kind) (vouts : list output → list Z) (d : Axfer.t) : option transfer :=
  counted_inputs tx (Axfer.assetInputCount d) (λ ins,
    Transfer (Axfer.assetId d) ins (commitments (Axfer.outputs d)) (vouts (Axfer.outputs d)) 0
      (Axfer.kernelSig d) kind (Axfer.rangeproof d)).

Definition bid_vouts (changeVout : Z) (outs : list output) : list Z :=
  if (length outs =? 2)%nat then [0; changeVout] else [0].

Definition transfer_of (tx : txn) (e : envelope) : option transfer :=
  let p := env_payload e in
  let t := env_opcode e in
  let plain (outs : list output) := indices (length outs) in
  if t =? T_CXFER then
    d ← decoded (decodeCXferPayload p);
    all_inputs tx (λ ins, Transfer (Cxfer.assetId d) ins (commitments (Cxfer.outputs d)) (plain (Cxfer.outputs d)) 0
                            (Cxfer.kernelSig d) Bp (Cxfer.rangeproof d))
  else if t =? T_BURN then
    d ← decoded (CBurn.decodeCBurnPayload p);
    all_inputs tx (λ ins, Transfer (CBurn.assetId d) ins (commitments (CBurn.outputs d)) (plain (CBurn.outputs d))
                            (CBurn.burnedAmount d) (CBurn.kernelSig d) Bp (CBurn.rangeproof d))
  else if t =? T_CXFER_BPP then
    d ← decoded (decodeCXferBppPayload p);
    if bppEnabled then
      all_inputs tx (λ ins, Transfer (Cxfer.assetId d) ins (commitments (Cxfer.outputs d)) (plain (Cxfer.outputs d)) 0
                              (Cxfer.kernelSig d) Bpp (Cxfer.rangeproof d))
    else None
  else if t =? T_CXFER_BOUND then
    d ← decoded (CxferBound.decodeCXferBoundPayload p);
    all_inputs tx (λ ins, Transfer (CxferBound.assetId d) ins (commitments (CxferBound.outputs d))
                            (plain (CxferBound.outputs d)) 0 (CxferBound.kernelSig d)
                            (if blen (CxferBound.rangeproof d) =? bppLen (length (CxferBound.outputs d)) then Bpp else Bp)
                            (CxferBound.rangeproof d))
  else if t =? T_AXFER then d ← decoded (decodeAxferPayload p); of_axfer tx Bp plain d
  else if t =? T_AXFER_BPP then
    d ← decoded (decodeAxferBppPayload p); if bppEnabled then of_axfer tx Bpp plain d else None
  else if t =? T_AXFER_VAR then
    d ← decoded (decodeAxferVarPayload p);
    if Axfer.assetInputCount d =? 1 then of_axfer tx Bp (λ _, [0; 2]) d else None
  else if t =? T_AXFER_VAR_BPP then
    d ← decoded (decodeAxferVarBppPayload p);
    if bppEnabled && (Axfer.assetInputCount d =? 1) then of_axfer tx Bpp (λ _, [0; 2]) d else None
  else if t =? T_PREAUTH_BID then
    d ← decoded (PreauthBid.decodePreauthBidPayload p);
    counted_inputs tx (PreauthBid.assetInputCount d) (λ ins,
      Transfer (PreauthBid.assetId d) ins (commitments (PreauthBid.outputs d)) (bid_vouts 3 (PreauthBid.outputs d)) 0
        (PreauthBid.kernelSig d) Bp (PreauthBid.rangeproof d))
  else if t =? T_PREAUTH_BID_VAR then
    d ← decoded (PreauthBidVar.decodePreauthBidVarPayload p);
    counted_inputs tx (PreauthBidVar.assetInputCount d) (λ ins,
      Transfer (PreauthBidVar.assetId d) ins (commitments (PreauthBidVar.outputs d))
        (bid_vouts (bid_var_changeVout d) (PreauthBidVar.outputs d)) 0
        (PreauthBidVar.kernelSig d) Bp (PreauthBidVar.rangeproof d))
  else None.

(** the range proof holds *)
Definition range_holds (kind : range_kind) (proof : bytes) (Cpts : list point) : bool :=
  match kind with Bp => bpRangeAggVerify Cpts proof | Bpp => bppEnabled && bppRangeVerify Cpts proof end.

(** Amounts in range, inputs of the same asset, and a signature under the excess. *)
Definition transfer_ok (t : transfer) : Prop :=
  ∃ Cpts ics E msg,
    pointsOf (t_outs t) = Some Cpts ∧ range_holds (t_kind t) (t_proof t) Cpts = true ∧
    inputCommitments (t_asset t) (t_ins t) = inr ics ∧
    EPrime (t_outs t) (t_burned t) ics = Ok E ∧ E ≠ ZERO ∧
    computeKernelMsg (t_asset t) (t_ins t) (t_outs t) (t_burned t) = Ok msg ∧
    verifySchnorr (t_kernelSig t) msg (xonly E) = Ok true.

(** the proof on the one commitment of an etch or a mint *)
Definition issued (C proof : bytes) : Prop := ∃ P, bytesToPoint C = Ok P ∧ bpRangeAggVerify [P] proof = true.

Definition etch_ok (k : outpoint) (e : envelope) : Prop :=
  env_opcode e = T_CETCH ∧ vout k = 0 ∧
  ∃ d m, CEtch.decodeCEtchPayload (env_payload e) = Ok (d, m) ∧ issued (CEtch.commitment d) (CEtch.rangeproof d).

(** A mint names its etch; the etch's authority signed it, over the first input of the
    transaction that committed to it. *)
Definition mint_ok (k : outpoint) (tx : txn) (e : envelope) (d : CMint.t) : Prop :=
  env_opcode e = T_MINT ∧ vout k = 0 ∧ CMint.decodeCMintPayload (env_payload e) = Ok d ∧
  take 32 (assetIdFor (CMint.etchTxid d) 0) = take 32 (CMint.assetId d) ∧
  (∃ etchTx etchEnv etchDec,
     node_env (Outpoint (CMint.etchTxid d) 0) = Some (etchTx, etchEnv) ∧ env_opcode etchEnv = T_CETCH ∧
     CEtch.decodeCEtchPayload (env_payload etchEnv) = Ok (etchDec, true) ∧
     ∃ i0 rest commitTx ci rest' msg,
       tx_vin tx = i0 :: rest ∧ fetchTx (txid (in_prev i0)) = Some commitTx ∧ tx_vin commitTx = ci :: rest' ∧
       computeMintMsg (CMint.assetId d) (outpoint_bytes (in_prev ci)) (CMint.commitment d) (CMint.encryptedAmount d) = Ok msg ∧
       verifySchnorr (CMint.issuerSig d) msg (default CEtch.MINT_AUTH_NONE (CEtch.mintAuthority etchDec)) = Ok true) ∧
  issued (CMint.commitment d) (CMint.rangeproof d).

Inductive valid (svc : outpoint → Prop) : outpoint → Prop :=
| valid_etch k tx e : node_env k = Some (tx, e) → etch_ok k e → valid svc k
| valid_mint k tx e d :
    node_env k = Some (tx, e) → mint_ok k tx e d → valid svc (Outpoint (CMint.etchTxid d) 0) → valid svc k
| valid_transfer k tx e t :
    node_env k = Some (tx, e) → transfer_of tx e = Some t → vout k ∈ t_vouts t → transfer_ok t →
    (∀ i, i ∈ t_ins t → valid svc i) → valid svc k
| valid_tracked k : tracked_note k → valid svc k
| valid_service k : svc k → valid svc k.

(** ** Facts about the specification *)
Lemma all_inputs_Some tx f t :
  all_inputs tx f = Some t ↔
    let ins := prevs (drop 1 (tx_vin tx)) in (1 <= length ins <= 255)%nat ∧ t = f ins.
Proof.
  unfold all_inputs. cbv zeta. destruct (_ && _) eqn:Hb.
  - apply andb_true_iff in Hb as [?%Nat.leb_le ?%Nat.leb_le]. split; [by intros [= <-]|by intros [_ ->]].
  - split; [done|]. apply andb_false_iff in Hb as [?%Nat.leb_gt|?%Nat.leb_gt]; intros [? _]; lia.
Qed.

Lemma counted_inputs_Some tx aic f t :
  counted_inputs tx aic f = Some t ↔
    let ins := prevs (drop 1 (tx_vin tx)) in
    1 <= aic <= 255 ∧ aic <= Z.of_nat (length ins) ∧ t = f (take (Z.to_nat aic) ins).
Proof.
  unfold counted_inputs. cbv zeta. destruct (_ && _) eqn:Hb.
  - bool_to_prop. split; [by intros [= <-]|by intros (_ & _ & ->)].
  - split; [done|]. intros (? & ? & _). rewrite !andb_false_iff, !Z.leb_gt in Hb. lia.
Qed.

Lemma decoded_Some {A} (r : res A) a : decoded r = Some a ↔ r = Ok a.
Proof. destruct r; naive_solver. Qed.

Lemma bind_Some {A B} (o : option A) (f : A → option B) b :
  (o ≫= f) = Some b ↔ ∃ a, o = Some a ∧ f a = Some b.
Proof. destruct o; naive_solver. Qed.
End spec.

(** Opens [transfer_of tx e = Some t] into one case per opcode. *)
Ltac transfer_cases E :=
  unfold transfer_of, of_axfer in E;
  repeat match type of E with
  | (if ?a =? ?b then _ else _) = Some _ => let Hop := fresh "Hop" in destruct (Z.eqb_spec a b) as [Hop|_]
  end; try done;
  apply bind_Some in E as (d & Hd & E);
  repeat match type of E with
  | (if ?b then _ else None) = Some _ => let Hb := fresh "Hb" in destruct b eqn:Hb; [|done]
  end;
  (apply all_inputs_Some in E as [Hlen ->] || apply counted_inputs_Some in E as (Haic & Hlen & ->));
  cbn [t_asset t_ins t_outs t_vouts t_burned t_kernelSig t_kind t_proof] in *.

Section spec_facts.
Context `{Hash} {SE : Secp} {CH : Chain} {SV : Service}.

(** The walk takes up exactly the inputs of a transfer. *)
Lemma parents_transfer tx e t : transfer_of tx e = Some t → parents tx e = t_ins t.
Proof.
  intros E. transfer_cases E; unfold parents; rewrite Hop; cbn [Z.eqb Pos.eqb]; rewrite ?Hd; try done.
  all: bool_to_prop; by rewrite Hb || by rewrite H1.
Qed.

Lemma transfer_ins tx e t : transfer_of tx e = Some t → t_ins t ≠ [] ∧ ∀ i, i ∈ t_ins t → i ∈ prevs (drop 1 (tx_vin tx)).
Proof.
  intros E. transfer_cases E.
  all: split;
    [intros Hn%(f_equal length); rewrite ?length_take in Hn; cbn [length] in Hn; lia
    |intros i Hi; try exact Hi; by apply elem_of_take in Hi as (? & ?%list_elem_of_lookup_2 & ?)].
Qed.
End spec_facts.
