(* ===== verification/ValidShape.v ===== *)
(** * The handlers are one shape

    Every handler either refuses, marking nothing true, or is the shared tail of the
    transfer that [transfer_of] reads from the envelope, followed at most by the checks
    on notes bound to the Ethereum pool. *)
From S2P Require Import Prelude Bytes Crypto EnvelopeScript CodecTransfer CodecIssue CodecPool CodecSlots CodecAmm.
From S2P Require Import Messages Curve Kernel Notes Handlers Validator WalkFacts ValidSpec.

Section shape.
Context `{Hash} {SE : Secp} {CH : Chain} {SV : Service}.

(** ** The monad *)
Lemma V_bind_run {A B} (m : V A) (k : A → V B) s a s' : m s = (Ok a, s') → (m ≫= k) s = k a s'.
Proof. intros E. unfold mbind, V_bind. by rewrite E. Qed.

Lemma V_bind_ret {A} (m : V A) s : (m ≫= mret) s = m s.
Proof. unfold mbind, V_bind. by destruct (m s) as [[] ?]. Qed.

(** ** What marking does *)
Definition set_all (ok : bool) (ks : list outpoint) (vs : gmap outpoint bool) : gmap outpoint bool :=
  foldl (λ vs k, <[k := ok]> vs) vs ks.

Lemma set_all_lookup ok ks vs k :
  set_all ok ks vs !! k = if bool_decide (k ∈ ks) then Some ok else vs !! k.
Proof.
  unfold set_all. revert vs. induction ks as [|j ks IH]; intros vs; cbn [foldl].
  - rewrite bool_decide_eq_false_2; [done|]. by intros ?%elem_of_nil.
  - rewrite IH. destruct (decide (k ∈ ks)).
    + rewrite !bool_decide_eq_true_2 by set_solver. done.
    + rewrite (bool_decide_eq_false_2 (k ∈ ks)) by done. destruct (decide (k = j)) as [->|].
      * rewrite lookup_insert_eq, bool_decide_eq_true_2 by set_solver. done.
      * rewrite lookup_insert_ne, bool_decide_eq_false_2 by set_solver. done.
Qed.

(** [m ok r] gives [ks] the verdict [ok] and touches nothing but the reasons besides. *)
Definition marks (ks : list outpoint) (m : bool → option reason → V unit) : Prop :=
  ∀ ok r s, ∃ rs, m ok r s = (Ok tt, VState (set_all ok ks (validatedSet s)) rs (rpBatch s) (boundOutpointKeys s) (mixer s)).

Lemma mark_list_marks dflt ks : marks ks (mark_list dflt ks).
Proof.
  intros ok r. induction ks as [|k ks IH]; intros s.
  - exists (validatedReasons s). by destruct s.
  - set (s1 := VState (<[k := ok]> (validatedSet s)) (validatedReasons s) (rpBatch s) (boundOutpointKeys s) (mixer s)).
    assert (∃ rs, mark_list dflt (k :: ks) ok r s =
              mark_list dflt ks ok r (VState (<[k := ok]> (validatedSet s)) rs (rpBatch s) (boundOutpointKeys s) (mixer s))) as [rs ->].
    { cbn [mark_list]. unfold mbind, V_bind, set_valid. cbn. fold s1.
      destruct ok; [eexists; done|]. destruct (match r with Some _ => r | None => dflt end); eexists; done. }
    destruct (IH (VState (<[k := ok]> (validatedSet s)) rs (rpBatch s) (boundOutpointKeys s) (mixer s))) as [rs' E]. exists rs'. by rewrite E.
Qed.

(** ** Refusals *)
Definition only_false (s s' : vstate) : Prop :=
  rpBatch s' = rpBatch s ∧ boundOutpointKeys s' = boundOutpointKeys s ∧
  ∀ k, validatedSet s' !! k = Some true → validatedSet s !! k = Some true.
Definition refuses (m : V bool) : Prop := ∀ s, ∃ s', m s = (Ok false, s') ∧ only_false s s'.

Lemma refuse_refuses k : refuses (refuse k).
Proof.
  intros s. eexists. split; [done|]. split_and!; try done. cbn. intros j.
  destruct (decide (k = j)) as [->|]; [by rewrite lookup_insert_eq|by rewrite lookup_insert_ne].
Qed.

Lemma refuse_with_refuses k r : refuses (refuse_with k r).
Proof.
  intros s. eexists. split; [done|]. split_and!; try done. cbn. intros j.
  destruct (decide (k = j)) as [->|]; [by rewrite lookup_insert_eq|by rewrite lookup_insert_ne].
Qed.

Lemma from_parent_refuses k p : refuses (_markInvalidFromParent k p;; mret false).
Proof.
  intros s. eexists. split; [done|]. split_and!; try done. cbn. intros j.
  destruct (decide (k = j)) as [->|]; [by rewrite lookup_insert_eq|by rewrite lookup_insert_ne].
Qed.

Lemma mark_refuses ks m r : marks ks m → refuses (m false r;; mret false).
Proof.
  intros Hm s. destruct (Hm false r s) as [rs E]. eexists. split; [unfold mbind, V_bind; by rewrite E|].
  split_and!; try done. cbn. intros j. rewrite set_all_lookup. by case_bool_decide.
Qed.

(** ** Running a transfer *)
Definition note_keys (key : outpoint) (t : transfer) : list outpoint := map (Outpoint (txid key)) (t_vouts t).

(** the range check of a transfer: at once, or queued *)
Definition runs_range (t : transfer) (rng : list point → V bool) : Prop :=
  ∀ Cpts s, rng Cpts s = match t_kind t with
                         | Bp => range_bp (t_proof t) Cpts s
                         | Bpp => (Ok (range_holds Bpp (t_proof t) Cpts), s)
                         end.

(** What follows the kernel: nothing, or the checks on bound outputs, which only refuse. *)
Definition posts (key : outpoint) (post : bool → V bool) : Prop :=
  (∀ s, post false s = (Ok false, s)) ∧
  (∀ s, (post true s).2.(rpBatch) = rpBatch s ∧
        ∀ k, validatedSet (post true s).2 !! k = Some true → validatedSet s !! k = Some true) ∧
  (∀ s, poolBinding = None → validatedSet s !! key = Some true → post true s = (Ok true, s)).

Definition shape (key : outpoint) (ot : option transfer) (h : V bool) : Prop :=
  (∃ t mark rng post,
     ot = Some t ∧ vout key ∈ t_vouts t ∧ marks (note_keys key t) mark ∧ runs_range t rng ∧ posts key post ∧
     ∀ s, h s = (transfer_tail mark (t_ins t) (t_outs t) rng (t_asset t) (t_burned t) (t_kernelSig t) ≫= post) s) ∨
  ((∀ t, ot = Some t → vout key ∉ t_vouts t) ∧ refuses h).

Lemma posts_ret key : posts key mret.
Proof. split_and!; done. Qed.

Lemma shape_refuses key ot h : (∀ t, ot = Some t → vout key ∉ t_vouts t) → refuses h → shape key ot h.
Proof. by right. Qed.

Lemma shape_tail key t mark rng :
  vout key ∈ t_vouts t → marks (note_keys key t) mark → runs_range t rng →
  shape key (Some t) (transfer_tail mark (t_ins t) (t_outs t) rng (t_asset t) (t_burned t) (t_kernelSig t)).
Proof.
  left. exists t, mark, rng, mret. split_and!; try done. intros s. by rewrite V_bind_ret.
Qed.

(** ** Lists of outputs *)
Lemma indices_elem n v : v ∈ indices n ↔ 0 <= v < Z.of_nat n.
Proof.
  unfold indices. rewrite list_elem_of_fmap. setoid_rewrite elem_of_seq. split.
  - intros (i & -> & ?). lia.
  - intros ?. exists (Z.to_nat v). lia.
Qed.

Lemma vouts_keys t n : vouts t n = map (Outpoint t) (indices n).
Proof. unfold vouts, indices. by rewrite map_map. Qed.

Lemma ins_length (tx : txn) : length (prevs (drop 1 (tx_vin tx))) = (length (tx_vin tx) - 1)%nat.
Proof. unfold prevs. by rewrite length_map, length_drop. Qed.

(** ** The handlers *)
Lemma all_inputs_run tx f :
  all_inputs tx f = (if (length (tx_vin tx) <? 2)%nat then None
                     else if Z.of_nat (length (tx_vin tx)) - 1 >? 255 then None
                     else Some (f (prevs (drop 1 (tx_vin tx))))).
Proof.
  unfold all_inputs. cbv zeta. rewrite ins_length. rewrite Z.gtb_ltb.
  destruct (Nat.ltb_spec (length (tx_vin tx)) 2), (Nat.leb_spec 1 (length (tx_vin tx) - 1)),
    (Nat.leb_spec (length (tx_vin tx) - 1) 255), (Z.ltb_spec 255 (Z.of_nat (length (tx_vin tx)) - 1)); cbn; done || lia.
Qed.

Lemma counted_inputs_run tx aic f :
  counted_inputs tx aic f = (if (aic <? 1) || (aic >? 255) then None
                             else if Z.of_nat (length (tx_vin tx)) <? 1 + aic then None
                             else Some (f (take (Z.to_nat aic) (prevs (drop 1 (tx_vin tx)))))).
Proof.
  unfold counted_inputs. cbv zeta. rewrite ins_length, Z.gtb_ltb.
  destruct (Z.ltb_spec aic 1), (Z.leb_spec 1 aic), (Z.ltb_spec 255 aic), (Z.leb_spec aic 255),
    (Z.ltb_spec (Z.of_nat (length (tx_vin tx))) (1 + aic)),
    (Z.leb_spec aic (Z.of_nat (length (tx_vin tx) - 1))); cbn; done || lia.
Qed.

Lemma prevs_take n l : prevs (take n l) = take n (prevs l).
Proof. apply (fmap_take in_prev). Qed.

Lemma xfer_shape key tx asset outs burned sig proof ot :
  0 <= vout key →
  ot = all_inputs tx (λ ins, Transfer asset ins (commitments outs) (indices (length outs)) burned sig Bp proof) →
  shape key ot (xfer_handler key tx asset outs burned sig proof).
Proof.
  intros Hv ->. unfold xfer_handler. rewrite all_inputs_run.
  destruct (Z.geb_spec (vout key) (Z.of_nat (length outs))) as [Hn|Hn].
  { apply shape_refuses; [|apply refuse_refuses]. intros t E.
    destruct (_ <? _)%nat; [done|]. destruct (_ >? _); [done|]. injection E as <-.
    cbn. rewrite indices_elem. lia. }
  destruct (_ <? _)%nat.
  { apply shape_refuses; [done|]. eapply mark_refuses, mark_list_marks. }
  destruct (_ >? _).
  { apply shape_refuses; [done|]. eapply mark_refuses, mark_list_marks. }
  rewrite Nat.max_l by lia.
  apply (shape_tail key (Transfer asset _ _ _ burned sig Bp proof)).
  - cbn. rewrite indices_elem. lia.
  - unfold note_keys, markAll. cbn. rewrite <- vouts_keys. apply mark_list_marks.
  - intros Cpts s. by rewrite (proj2 (Nat.ltb_lt 0 (length outs))) by lia.
Qed.

Lemma cxfer_bpp_shape key tx p ot :
  0 <= vout key →
  ot = (d ← decoded (decodeCXferBppPayload p);
        if bppEnabled then all_inputs tx (λ ins, Transfer (Cxfer.assetId d) ins (commitments (Cxfer.outputs d))
               (indices (length (Cxfer.outputs d))) 0 (Cxfer.kernelSig d) Bpp (Cxfer.rangeproof d))
        else None) →
  shape key ot (cxfer_bpp_handler key tx p).
Proof.
  intros Hv ->. unfold cxfer_bpp_handler. destruct bppEnabled eqn:Hb; cbn [negb].
  2: { apply shape_refuses; [by destruct (decoded _)|]. eapply mark_refuses, mark_list_marks. }
  destruct (decoded _) as [d|]; cbn [mbind option_bind]; [|apply shape_refuses; [done|apply refuse_refuses]].
  rewrite all_inputs_run.
  destruct (Z.geb_spec (vout key) (Z.of_nat (length (Cxfer.outputs d)))) as [Hn|Hn].
  { apply shape_refuses; [|apply refuse_refuses]. intros t E.
    destruct (_ <? _)%nat; [done|]. destruct (_ >? _); [done|]. injection E as <-.
    cbn. rewrite indices_elem. lia. }
  destruct (_ <? _)%nat.
  { apply shape_refuses; [done|]. eapply mark_refuses, mark_list_marks. }
  destruct (_ >? _).
  { apply shape_refuses; [done|]. eapply mark_refuses, mark_list_marks. }
  rewrite Nat.max_l by lia.
  apply (shape_tail key (Transfer _ _ _ _ 0 _ Bpp _)).
  - cbn. rewrite indices_elem. lia.
  - unfold note_keys, markAll. cbn. rewrite <- vouts_keys. apply mark_list_marks.
  - intros Cpts s. cbn. by rewrite Hb.
Qed.

Lemma axfer_shape (isBpp : bool) key tx p ot :
  0 <= vout key →
  ot = (d ← decoded (if isBpp then decodeAxferBppPayload p else decodeAxferPayload p);
        if isBpp && negb bppEnabled then None
        else of_axfer tx (if isBpp then Bpp else Bp) (λ outs, indices (length outs)) d) →
  shape key ot (axfer_handler isBpp key tx p).
Proof.
  intros Hv ->. unfold axfer_handler, of_axfer.
  destruct (decoded _) as [d|]; cbn [mbind option_bind]; [|apply shape_refuses; [done|apply refuse_refuses]].
  rewrite counted_inputs_run.
  destruct (Z.geb_spec (vout key) (Z.of_nat (length (Axfer.outputs d)))) as [Hn|Hn].
  { apply shape_refuses; [|apply refuse_refuses]. intros t E. destruct (_ && _); [done|].
    destruct (_ || _); [done|]. destruct (_ <? _); [done|]. injection E as <-. cbn. rewrite indices_elem. lia. }
  destruct (isBpp && negb bppEnabled) eqn:Hb.
  { apply shape_refuses; [done|]. eapply mark_refuses, mark_list_marks. }
  destruct (_ || _).
  { apply shape_refuses; [done|]. eapply mark_refuses, mark_list_marks. }
  destruct (_ <? _).
  { apply shape_refuses; [done|]. eapply mark_refuses, mark_list_marks. }
  rewrite prevs_take.
  apply (shape_tail key (Transfer _ _ _ _ 0 _ (if isBpp then Bpp else Bp) _)).
  - cbn. rewrite indices_elem. lia.
  - unfold note_keys, markAll. cbn. rewrite <- vouts_keys. apply mark_list_marks.
  - intros Cpts s. destruct isBpp; cbn; [|done]. cbn in Hb. by apply negb_false_iff in Hb as ->.
Qed.

Lemma axferVar_index v : is_Some (axferVarOutputIndexForVout v) ↔ v ∈ [0; 2].
Proof.
  unfold axferVarOutputIndexForVout. destruct (Z.eqb_spec v 0) as [->|]; [split; [set_solver|eauto]|].
  destruct (Z.eqb_spec v 2) as [->|]; [split; [set_solver|eauto]|]. split; [by intros []|set_solver].
Qed.

Lemma axfer_var_shape (isBpp : bool) key tx p ot :
  0 <= vout key →
  ot = (d ← decoded (if isBpp then decodeAxferVarBppPayload p else decodeAxferVarPayload p);
        if isBpp && negb bppEnabled then None
        else if Axfer.assetInputCount d =? 1 then of_axfer tx (if isBpp then Bpp else Bp) (λ _, [0; 2]) d
        else None) →
  shape key ot (axfer_var_handler isBpp key tx p).
Proof.
  intros Hv ->. unfold axfer_var_handler, of_axfer.
  destruct (decoded _) as [d|]; cbn [mbind option_bind]; [|apply shape_refuses; [done|apply refuse_refuses]].
  pose proof (axferVar_index (vout key)) as Hi.
  destruct (axferVarOutputIndexForVout (vout key)); [|].
  2: { apply shape_refuses; [|apply refuse_refuses]. intros t E. destruct (_ && _); [done|].
       destruct (_ =? _); [|done]. apply counted_inputs_Some in E as (_ & _ & ->). cbn. rewrite <- Hi. by intros []. }
  destruct (isBpp && negb bppEnabled) eqn:Hb.
  { apply shape_refuses; [done|]. eapply mark_refuses, mark_list_marks. }
  destruct (Z.eqb_spec (Axfer.assetInputCount d) 1) as [H1|H1]; cbn [negb].
  2: { apply shape_refuses; [done|]. eapply mark_refuses, mark_list_marks. }
  rewrite counted_inputs_run, H1. cbn [orb Z.ltb Z.gtb Z.compare Pos.compare Pos.compare_cont].
  destruct (Nat.ltb_spec (length (tx_vin tx)) 2), (Z.ltb_spec (Z.of_nat (length (tx_vin tx))) (1 + 1)); try lia.
  { apply shape_refuses; [done|]. eapply mark_refuses, mark_list_marks. }
  rewrite prevs_take.
  apply (shape_tail key (Transfer _ _ _ [0; 2] 0 _ (if isBpp then Bpp else Bp) _)).
  - cbn [t_vouts]. apply Hi. eauto.
  - apply mark_list_marks.
  - intros Cpts s. destruct isBpp; cbn; [|done]. cbn in Hb. by apply negb_false_iff in Hb as ->.
Qed.

Lemma bid_index_vouts v change outs :
  is_Some (bid_index v change (length outs)) ↔ v ∈ bid_vouts change outs.
Proof.
  unfold bid_index, bid_vouts. destruct (Z.eqb_spec v 0) as [->|].
  - split; [|eauto]. intros _. destruct (_ =? _)%nat; set_solver.
  - destruct (length outs =? 2)%nat; rewrite ?andb_true_r, ?andb_false_r.
    + destruct (Z.eqb_spec v change) as [->|]; split; try set_solver; eauto.
    + split; [by intros []|set_solver].
Qed.

Lemma preauth_shape key tx asset outs aic change sig proof ot :
  0 <= vout key →
  ot = counted_inputs tx aic (λ ins, Transfer asset ins (commitments outs) (bid_vouts change outs) 0 sig Bp proof) →
  shape key ot (preauth_handler key tx asset outs aic change sig proof).
Proof.
  intros Hv ->. unfold preauth_handler. pose proof (bid_index_vouts (vout key) change outs) as Hi.
  destruct (bid_index _ _ _).
  2: { apply shape_refuses; [|apply refuse_refuses]. intros t E.
       apply counted_inputs_Some in E as (_ & _ & ->). cbn. rewrite <- Hi. by intros []. }
  rewrite counted_inputs_run. destruct (_ || _).
  { apply shape_refuses; [done|]. eapply mark_refuses, mark_list_marks. }
  destruct (_ <? _).
  { apply shape_refuses; [done|]. eapply mark_refuses, mark_list_marks. }
  rewrite prevs_take. apply (shape_tail key (Transfer _ _ _ _ 0 _ Bp _)).
  - cbn. apply Hi. eauto.
  - apply mark_list_marks.
  - done.
Qed.

(** *** Bound outputs *)
Definition batch_kept (s s' : vstate) : Prop :=
  rpBatch s' = rpBatch s ∧ ∀ k, validatedSet s' !! k = Some true → validatedSet s !! k = Some true.

Lemma boundOutputFailure_kept b k s :
  ∃ r s', _boundOutputFailure b k s = (Ok r, s') ∧ rpBatch s' = rpBatch s ∧ validatedSet s' = validatedSet s.
Proof.
  unfold _boundOutputFailure. destruct poolBinding as [binding|]; [|by eexists _, _].
  unfold mbind, V_bind, bind_key, _strictUnavailable, mret, V_ret.
  destruct strictValidation; [by eexists _, _|].
  destruct (negb _); [by eexists _, _|].
  destruct (evmNullifierSpent k) as [[]|]; by eexists _, _.
Qed.

Lemma bound_outputs_kept b ks s : ∃ s', bound_outputs b ks s = (Ok tt, s') ∧ batch_kept s s'.
Proof.
  revert s. induction ks as [|k ks IH]; intros s; cbn [bound_outputs]; [by exists s|].
  destruct (boundOutputFailure_kept b k s) as (r & s1 & E1 & Hrp & Hvs).
  rewrite (V_bind_run _ _ _ _ _ E1).
  set (m := match r with Some _ => _ | None => _ end).
  assert (∃ s2, m s1 = (Ok tt, s2) ∧ batch_kept s1 s2) as (s2 & E2 & Hr2 & Hv2).
  { unfold m. destruct r as [r|]; [|by exists s1]. eexists. split; [done|]. split; [done|].
    cbn. intros j. destruct (decide (k = j)) as [->|]; [by rewrite lookup_insert_eq|by rewrite lookup_insert_ne]. }
  rewrite (V_bind_run _ _ _ _ _ E2). destruct (IH s2) as (s3 & E3 & Hr3 & Hv3).
  exists s3. split; [done|]. split; [congruence|]. intros j Hj. rewrite <- Hvs. auto.
Qed.

Lemma bound_outputs_none b ks s : poolBinding = None → bound_outputs b ks s = (Ok tt, s).
Proof.
  intros Hp. induction ks as [|k ks IH]; [done|]. cbn [bound_outputs].
  assert (E : _boundOutputFailure b k s = (Ok None, s)) by (unfold _boundOutputFailure; by rewrite Hp).
  rewrite (V_bind_run _ _ _ _ _ E). exact IH.
Qed.

Definition bound_post (key : outpoint) (b : bytes) (N : nat) (kernelOk : bool) : V bool :=
  if negb kernelOk then mret false else
  bound_outputs b (vouts (txid key) N);; s ← get; mret (bool_decide (validatedSet s !! key = Some true)).

Lemma bound_post_posts key b N : posts key (bound_post key b N).
Proof.
  split; [done|]. split.
  - intros s. unfold bound_post. cbn [negb]. destruct (bound_outputs_kept b (vouts (txid key) N) s) as (s' & E & Hk).
    by rewrite (V_bind_run _ _ _ _ _ E).
  - intros s Hp Hs. unfold bound_post. cbn [negb].
    rewrite (V_bind_run _ _ _ _ _ (bound_outputs_none _ _ _ Hp)). unfold mbind, V_bind, get.
    by rewrite bool_decide_eq_true_2.
Qed.

Lemma cxfer_bound_shape key tx p ot :
  0 <= vout key →
  ot = (d ← decoded (CxferBound.decodeCXferBoundPayload p);
        all_inputs tx (λ ins, Transfer (CxferBound.assetId d) ins (commitments (CxferBound.outputs d))
                            (indices (length (CxferBound.outputs d))) 0 (CxferBound.kernelSig d)
                            (if blen (CxferBound.rangeproof d) =? bppLen (length (CxferBound.outputs d)) then Bpp else Bp)
                            (CxferBound.rangeproof d))) →
  shape key ot (cxfer_bound_handler key tx p).
Proof.
  intros Hv ->. unfold cxfer_bound_handler.
  destruct (decoded _) as [d|]; cbn [mbind option_bind]; [|apply shape_refuses; [done|apply refuse_refuses]].
  rewrite all_inputs_run.
  destruct (Z.geb_spec (vout key) (Z.of_nat (length (CxferBound.outputs d)))) as [Hn|Hn].
  { apply shape_refuses; [|apply refuse_refuses]. intros t E.
    destruct (_ <? _)%nat; [done|]. destruct (_ >? _); [done|]. injection E as <-.
    cbn. rewrite indices_elem. lia. }
  destruct (_ <? _)%nat; cbn [orb].
  { apply shape_refuses; [done|]. eapply mark_refuses, mark_list_marks. }
  destruct (_ >? _).
  { apply shape_refuses; [done|]. eapply mark_refuses, mark_list_marks. }
  left. eexists (Transfer _ _ _ _ 0 _ _ _), _, _,
    (bound_post key (CxferBound.targetChainBinding d) (length (CxferBound.outputs d))).
  split; [done|]. split; [cbn; rewrite indices_elem; lia|]. split; [|split; [|split; [apply bound_post_posts|done]]].
  - unfold note_keys, markAll. cbn. rewrite <- vouts_keys. apply mark_list_marks.
  - intros Cpts s. cbn. by destruct (_ =? _).
Qed.

(** *** All of them *)
Definition transfer_opcodes : list Z :=
  [T_CXFER; T_BURN; T_CXFER_BPP; T_AXFER; T_AXFER_BPP; T_AXFER_VAR; T_AXFER_VAR_BPP; T_PREAUTH_BID;
   T_PREAUTH_BID_VAR; T_CXFER_BOUND].

Lemma dispatch_shape key tx e :
  0 <= vout key → env_opcode e ∈ transfer_opcodes → shape key (transfer_of tx e) (dispatch key tx e).
Proof.
  intros Hv Hop. unfold transfer_of, dispatch. set (p := env_payload e). clearbody p.
  repeat (apply elem_of_cons in Hop as [->|Hop]); [..|by apply elem_of_nil in Hop];
    cbn [Z.eqb Pos.eqb T_CXFER T_BURN T_CXFER_BPP T_AXFER T_AXFER_BPP T_AXFER_VAR T_AXFER_VAR_BPP T_PREAUTH_BID
         T_PREAUTH_BID_VAR T_CXFER_BOUND T_CETCH T_MINT T_PETCH T_DEPOSIT].
  - unfold cxfer_handler. destruct (decoded _); [by apply xfer_shape|]. apply shape_refuses; [done|apply refuse_refuses].
  - unfold burn_handler. destruct (decoded _); [by apply xfer_shape|]. apply shape_refuses; [done|apply refuse_refuses].
  - by apply cxfer_bpp_shape.
  - by apply axfer_shape.
  - apply axfer_shape; [done|]. by destruct (decoded _), bppEnabled.
  - by apply axfer_var_shape.
  - apply axfer_var_shape; [done|]. by destruct (decoded _), bppEnabled.
  - unfold preauth_bid_handler. destruct (decoded _); [by apply preauth_shape|]. apply shape_refuses; [done|apply refuse_refuses].
  - unfold preauth_bid_var_handler. destruct (decoded _); [by apply preauth_shape|]. apply shape_refuses; [done|apply refuse_refuses].
  - by apply cxfer_bound_shape.
Qed.

Lemma transfer_of_opcode tx e t : transfer_of tx e = Some t → env_opcode e ∈ transfer_opcodes.
Proof. intros E. transfer_cases E; rewrite Hop; unfold transfer_opcodes; set_solver. Qed.
End shape.
