(* ===== verification/ValidSound.v ===== *)
(** * The validator is sound

    If the map of verdicts calls only valid notes true before a call, it does so after,
    once the proofs the call has queued verify: every handler, every node and the whole
    walk keep that invariant, whatever they answer and even when they throw. *)
From S2P Require Import Prelude Bytes Crypto EnvelopeScript CodecTransfer CodecIssue CodecPool CodecSlots CodecAmm.
From S2P Require Import Messages Curve Kernel Notes Handlers Validator WalkFacts ValidSpec ValidShape.

Section soundness.
Context `{Hash} {SE : Secp} {CH : Chain} {SV : Service} (svc : outpoint → Prop).

(** every queued proof verifies *)
Definition batch_ok (s : vstate) : Prop :=
  ∀ Cpts proof, (Cpts, proof) ∈ default [] (rpBatch s) → bpRangeAggVerify Cpts proof = true.
Definition sound (s : vstate) : Prop :=
  batch_ok s → ∀ k, validatedSet s !! k = Some true → valid svc k.
Definition keeps {A} (m : V A) : Prop := ∀ s, sound s → sound (m s).2.

(** The services write to the maps only what they vouch for. *)
Class ServiceLaws : Prop := service_keeps key tx e :
  fetchTx (txid key) = Some tx → _txOutputEnvelope tx = Some e → keeps (service key tx e).

(** the explorer's answers name real outputs *)
Class ChainLaws : Prop := fetch_vout t tx i :
  fetchTx t = Some tx → i ∈ prevs (tx_vin tx) → 0 <= vout i.

(** ** The monad *)
Lemma keeps_ret {A} (a : A) : keeps (mret a).
Proof. by intros s Hs. Qed.

Lemma keeps_bind {A B} (m : V A) (k : A → V B) : keeps m → (∀ a, keeps (k a)) → keeps (m ≫= k).
Proof.
  intros Hm Hk s Hs. specialize (Hm s Hs). unfold mbind, V_bind.
  destruct (m s) as [[] s']; try done. by apply Hk.
Qed.

Lemma keeps_lift {A} (r : res A) : keeps (lift r).
Proof. by intros s Hs. Qed.

Lemma keeps_get : keeps get.
Proof. by intros s Hs. Qed.

Lemma sound_weaken s s' :
  sound s → rpBatch s' = rpBatch s →
  (∀ k, validatedSet s' !! k = Some true → validatedSet s !! k = Some true) → sound s'.
Proof.
  intros Hs Hr Hv Hb k Hk. apply Hs; [|by apply Hv]. intros C p Hin. apply Hb. by rewrite Hr.
Qed.

Lemma keeps_refuses (m : V bool) : refuses m → keeps m.
Proof.
  intros Hm s Hs. destruct (Hm s) as (s' & -> & Hr & _ & Hv). by eapply sound_weaken.
Qed.

Lemma keeps_set_true k s : sound s → (batch_ok s → valid svc k) → sound (set_valid k true s).2.
Proof.
  intros Hs Hk Hb j Hj. cbn in Hj. destruct (decide (k = j)) as [<-|].
  - apply Hk. exact Hb.
  - rewrite lookup_insert_ne in Hj by done. by apply Hs.
Qed.

Lemma keeps_set_false k : keeps (set_valid k false).
Proof.
  intros s Hs. eapply sound_weaken; [exact Hs|done|]. cbn. intros j.
  destruct (decide (k = j)) as [->|]; [by rewrite lookup_insert_eq|by rewrite lookup_insert_ne].
Qed.

(** ** Range proofs *)

(** A check that answered true stands once the queue verifies. *)
Lemma range_bp_sound proof Cpts s :
  sound s →
  ∃ ok s', range_bp proof Cpts s = (Ok ok, s') ∧ sound s' ∧ validatedSet s' = validatedSet s ∧
    (batch_ok s' → batch_ok s) ∧ (ok = true → batch_ok s' → bpRangeAggVerify Cpts proof = true).
Proof.
  intros Hs. unfold range_bp. destruct (rpBatch s) as [l|] eqn:Hr.
  - eexists true, _. split; [done|].
    set (s' := VState _ _ _ _ _). assert (Hb : batch_ok s' → batch_ok s).
    { intros Hb C p Hin. rewrite Hr in Hin. apply Hb. cbn in *. set_solver. }
    split_and!; try done.
    + intros Hb' k Hk. apply Hs; [by apply Hb|done].
    + intros _ Hb'. apply Hb'. cbn. set_solver.
  - eexists _, s. split; [done|]. split_and!; try done.
Qed.

Lemma runs_range_sound t rng Cpts s :
  runs_range t rng → sound s →
  ∃ ok s', rng Cpts s = (Ok ok, s') ∧ sound s' ∧ validatedSet s' = validatedSet s ∧
    (batch_ok s' → batch_ok s) ∧ (ok = true → batch_ok s' → range_holds (t_kind t) (t_proof t) Cpts = true).
Proof.
  intros Hr Hs. rewrite Hr. destruct (t_kind t); [by apply range_bp_sound|].
  eexists _, s. split; [done|]. split_and!; done.
Qed.

(** ** The shared tail *)
Lemma parentFailure_run ins s :
  ∃ r, parentFailure ins s = (Ok r, s) ∧ (r = None ↔ ∀ i, i ∈ ins → validatedSet s !! i = Some true).
Proof.
  induction ins as [|k ins (r & E & Hr)].
  - exists None. split; [done|]. split; [by intros _ i ?%elem_of_nil|done].
  - cbn [parentFailure]. unfold mbind, V_bind, get. destruct (decide _) as [Hk|Hk].
    + exists r. split; [done|]. rewrite Hr. split; [intros Hi i [->|Hin]%elem_of_cons; auto|].
      intros Hi i Hin. apply Hi. by right.
    + eexists. split; [done|]. split; [done|]. intros Hi. destruct Hk. apply Hi. by left.
Qed.

Lemma marks_sound ks mark ok r s :
  marks ks mark → sound s → (ok = true → batch_ok s → ∀ k, k ∈ ks → valid svc k) → sound (mark ok r s).2.
Proof.
  intros Hm Hs Hk. destruct (Hm ok r s) as [rs E]. rewrite E. intros Hb j. cbn. rewrite set_all_lookup.
  case_bool_decide; [|by apply Hs]. intros [= ->]. by apply Hk.
Qed.

Lemma marks_then_sound {A} ks mark ok r (a : A) s :
  marks ks mark → sound s → (ok = true → batch_ok s → ∀ k, k ∈ ks → valid svc k) →
  sound ((mark ok r;; mret a) s).2.
Proof.
  intros Hm Hs Hk. pose proof (marks_sound ks mark ok r s Hm Hs Hk) as Hs'.
  destruct (Hm ok r s) as [rs E]. rewrite (V_bind_run _ _ _ _ _ E). by rewrite E in Hs'.
Qed.

Lemma tail_sound ks mark t rng s :
  marks ks mark → runs_range t rng → sound s →
  (transfer_ok t → (∀ i, i ∈ t_ins t → valid svc i) → ∀ k, k ∈ ks → valid svc k) →
  sound (transfer_tail mark (t_ins t) (t_outs t) rng (t_asset t) (t_burned t) (t_kernelSig t) s).2.
Proof.
  intros Hm Hr Hs Hgood. unfold transfer_tail.
  assert (Hbad : ∀ r s, sound s → sound ((mark false r;; mret false) s).2).
  { intros r s1 Hs1. by apply (marks_then_sound ks). }
  destruct (parentFailure_run (t_ins t) s) as (pf & E & Hpf). rewrite (V_bind_run _ _ _ _ _ E).
  destruct pf as [r|]; [by apply Hbad|]. assert (Hpar := proj1 Hpf eq_refl).
  destruct (pointsOf (t_outs t)) as [Cpts|] eqn:HC; [|by apply Hbad].
  destruct (runs_range_sound t rng Cpts s Hr Hs) as (ok & s1 & E1 & Hs1 & Hvs1 & Hb1 & Hok).
  rewrite (V_bind_run _ _ _ _ _ E1). destruct ok; cbn [negb]; [|by apply Hbad].
  destruct (inputCommitments _ _) as [r|ics] eqn:Hics; [by apply Hbad|].
  destruct (EPrime _ _ _) as [E'| | |] eqn:HE; try by apply Hbad.
  unfold equals. case_bool_decide as HZ; [by apply Hbad|].
  unfold lift at 1. unfold mbind at 1, V_bind at 1.
  destruct (computeKernelMsg _ _ _ _) as [msg| | |] eqn:Hmsg; try done.
  unfold lift at 1. unfold mbind at 1, V_bind at 1.
  destruct (verifySchnorr _ _ _) as [kok| | |] eqn:Hsig; try done.
  apply (marks_then_sound ks); [done|done|]. intros -> Hb. apply Hgood.
  - exists Cpts, ics, E', msg. split_and!; try done. by apply Hok.
  - intros i Hi. apply Hs; [by apply Hb1|by apply Hpar].
Qed.

Lemma dispatch_transfer_sound key tx e s :
  0 <= vout key → env_opcode e ∈ transfer_opcodes → node_env key = Some (tx, e) →
  sound s → sound (dispatch key tx e s).2.
Proof.
  intros Hv Hop Hn Hs.
  destruct (dispatch_shape key tx e Hv Hop) as [(t & mark & rng & post & Ht & Hvt & Hm & Hr & Hp & E)|[_ Hrf]];
    [|by apply keeps_refuses].
  rewrite E. pose proof (tail_sound (note_keys key t) mark t rng s Hm Hr Hs) as Htail.
  unfold mbind, V_bind. destruct (transfer_tail _ _ _ _ _ _ _ s) as [[b| | |] s1]; try (apply Htail; clear Htail).
  1: cut (sound s1).
  - intros Hs1. destruct Hp as (Hp1 & Hp2 & _). destruct b; [|by rewrite Hp1].
    destruct (Hp2 s1) as [Hp3 Hp4]. by eapply sound_weaken.
  - apply Htail. clear Htail.
    intros Hok Hins k (v & -> & Hkv)%list_elem_of_fmap. eapply valid_transfer; eauto.
  - intros Hok Hins k (v & -> & Hkv)%list_elem_of_fmap. eapply valid_transfer; eauto.
  - intros Hok Hins k (v & -> & Hkv)%list_elem_of_fmap. eapply valid_transfer; eauto.
  - intros Hok Hins k (v & -> & Hkv)%list_elem_of_fmap. eapply valid_transfer; eauto.
Qed.

(** ** Issuance *)
Lemma issue_range_sound key C proof s :
  sound s → (issued C proof → batch_ok s → valid svc key) → sound (issue_range key C proof s).2.
Proof.
  intros Hs Hv. unfold issue_range. destruct (bytesToPoint C) as [P| | |] eqn:HP;
    try by (apply keeps_refuses; [apply refuse_refuses|]).
  destruct (range_bp_sound proof [P] s Hs) as (ok & s1 & E1 & Hs1 & Hvs1 & Hb1 & Hok).
  rewrite (V_bind_run _ _ _ _ _ E1). destruct ok.
  - apply (keeps_set_true key s1 Hs1). intros Hb. apply Hv; [|by apply Hb1]. exists P. split; [done|by apply Hok].
  - by apply (keeps_set_false key).
Qed.

Lemma cetch_sound key tx e s :
  env_opcode e = T_CETCH → node_env key = Some (tx, e) → sound s →
  sound (cetch_handler key (env_payload e) s).2.
Proof.
  intros Hop Hn Hs. unfold cetch_handler.
  destruct (Z.eqb_spec (vout key) 0) as [Hv|]; cbn [negb]; [|by apply keeps_refuses; [apply refuse_refuses|]].
  destruct (decoded _) as [[d m]|] eqn:Hd; [|by apply keeps_refuses; [apply refuse_refuses|]].
  apply decoded_Some in Hd. apply issue_range_sound; [done|]. intros Hi _.
  eapply valid_etch; [exact Hn|]. split; [done|]. split; [done|]. by exists d, m.
Qed.

Lemma mint_sound key tx e s :
  env_opcode e = T_MINT → node_env key = Some (tx, e) → sound s →
  sound (mint_handler key tx (env_payload e) s).2.
Proof.
  intros Hop Hn Hs. unfold mint_handler.
  assert (Hrf : sound (refuse key s).2) by (by apply keeps_refuses; [apply refuse_refuses|]).
  assert (Hrw : ∀ r, sound (refuse_with key r s).2) by (by intros; apply keeps_refuses; [apply refuse_with_refuses|]).
  destruct (Z.eqb_spec (vout key) 0) as [Hv|]; cbn [negb]; [|done].
  destruct (decoded (CMint.decodeCMintPayload _)) as [d|] eqn:Hd; [|done]. apply decoded_Some in Hd.
  destruct (bool_decide _) eqn:Ha; cbn [negb]; [|done]. bool_to_prop.
  destruct (fetchTx (CMint.etchTxid d)) as [etchTx|] eqn:Hf; [|done].
  destruct (tx_vin etchTx) as [|ei rest] eqn:Hei; [done|]. destruct (_ <? 3)%nat; [done|].
  destruct (_witnessEnvelope _) as [etchEnv|] eqn:Hw; [|done].
  destruct (Z.eqb_spec (env_opcode etchEnv) T_CETCH) as [Heop|]; cbn [negb]; [|done].
  destruct (decoded (CEtch.decodeCEtchPayload _)) as [[etchDec []]|] eqn:Hed; try done. apply decoded_Some in Hed.
  cbn [negb]. unfold mbind at 1, V_bind at 1, get. cbn -[mint_commit].
  destruct (bool_decide _) eqn:Hpar; cbn [negb]; [|by apply keeps_refuses; [apply from_parent_refuses|]].
  bool_to_prop. unfold mint_commit.
  destruct (tx_vin tx) as [|i0 rest0] eqn:Hi0; [done|].
  destruct (fetchTx (txid (in_prev i0))) as [commitTx|] eqn:Hct; [|done].
  destruct (tx_vin commitTx) as [|ci rest'] eqn:Hci; [done|].
  unfold lift at 1. unfold mbind at 1, V_bind at 1. destruct (computeMintMsg _ _ _ _) as [msg| | |] eqn:Hmsg; try done.
  unfold lift at 1. unfold mbind at 1, V_bind at 1. destruct (verifySchnorr _ _ _) as [[]| | |] eqn:Hsig; try done.
  cbn [negb].
  apply issue_range_sound; [done|]. intros Hi Hb.
  assert (Hetch : valid svc (Outpoint (CMint.etchTxid d) 0)) by (by apply Hs).
  eapply (valid_mint svc key tx e d); [exact Hn| |exact Hetch].
  split_and!; try done. exists etchTx, etchEnv, etchDec. split; [|split; [done|split; [done|]]].
  { apply node_env_Some. split; [done|]. by exists ei, rest. }
  by exists i0, rest0, commitTx, ci, rest', msg.
Qed.

(** ** One outpoint *)
Context `{!ServiceLaws}.

(** The envelope the validator reads is the one the transaction's outputs go by. *)
Lemma node_output_envelope k tx e : node_env k = Some (tx, e) → _txOutputEnvelope tx = Some e.
Proof. intros (_ & i0 & rest & Hi & He)%node_env_Some. unfold _txOutputEnvelope. by rewrite Hi, He. Qed.

Lemma dispatch_sound key tx e s :
  0 <= vout key → node_env key = Some (tx, e) → sound s → sound (dispatch key tx e s).2.
Proof.
  intros Hv Hn Hs. pose proof Hn as Hn'. apply node_env_Some in Hn' as (Hf & _).
  destruct (decide (env_opcode e ∈ transfer_opcodes)) as [Ht|Ht]; [by eapply dispatch_transfer_sound|].
  unfold dispatch. destruct (Z.eqb_spec (env_opcode e) T_CETCH); [by eapply cetch_sound|].
  destruct (Z.eqb_spec (env_opcode e) T_MINT); [by eapply mint_sound|].
  assert (Hrf : sound (refuse key s).2) by (by apply keeps_refuses; [apply refuse_refuses|]).
  repeat match goal with
  | |- context [env_opcode e =? ?t] =>
      destruct (Z.eqb_spec (env_opcode e) t) as [Hop|_];
      [first [done | exfalso; apply Ht; rewrite Hop; unfold transfer_opcodes; set_solver]|]
  end.
  case_bool_decide; [|done]. apply service_keeps; [done| |done]. by eapply node_output_envelope.
Qed.

Lemma boundSpendPending_run tx s :
  ∃ r, _boundSpendPending tx s = (r, s).
Proof.
  unfold _boundSpendPending, mbind, V_bind, get, _strictUnavailable.
  destruct (_ || _); [by eexists|]. destruct (if tx_height tx is Some h then _ else false); [by eexists|].
  destruct strictValidation; by eexists.
Qed.

Lemma validate_witness_sound key tx i0 rest s :
  0 <= vout key → fetchTx (txid key) = Some tx → tx_vin tx = i0 :: rest →
  sound s → sound (validate_witness key tx i0 s).2.
Proof.
  intros Hv Hf Hi Hs. unfold validate_witness.
  assert (Hrw : ∀ r, sound (refuse_with key r s).2) by (by intros; apply keeps_refuses; [apply refuse_with_refuses|]).
  destruct (_ =? 0)%nat; [done|]. destruct (_ <? 3)%nat; [done|].
  destruct (_witnessEnvelope _) as [e|] eqn:He; [|done].
  unfold mbind, V_bind. destruct (boundSpendPending_run tx s) as [r ->].
  destruct r as [[r|]| | |]; try done. apply dispatch_sound; [done| |done].
  apply node_env_Some. split; [done|]. by exists i0, rest.
Qed.

Lemma single_sound key s : 0 <= vout key → sound s → sound (_validateOutpointSingle key s).2.
Proof.
  intros Hv Hs. unfold _validateOutpointSingle. unfold mbind, V_bind, get.
  assert (Hrw : ∀ r, sound (refuse_with key r s).2) by (by intros; apply keeps_refuses; [apply refuse_with_refuses|]).
  destruct (validatedSet s !! key); [done|]. destruct (fetchTx (txid key)) as [tx|] eqn:Hf; [|done].
  destruct (tx_vin tx) as [|i0 rest] eqn:Hi; [done|].
  destruct (_txOutputEnvelope tx) as [e|] eqn:He; [destruct (_ =? _); [by apply service_keeps|]|];
    by eapply validate_witness_sound.
Qed.

Lemma validate_each_sound ks s :
  (∀ k, k ∈ ks → 0 <= vout k) → sound s → sound (validate_each ks s).2.
Proof.
  revert s. induction ks as [|k ks IH]; intros s Hv Hs; [done|]. cbn [validate_each].
  unfold mbind at 1, V_bind at 1, get. case_bool_decide.
  - unfold mbind, V_bind. cbn. apply IH; [set_solver|done].
  - pose proof (single_sound k s ltac:(apply Hv; by left) Hs) as Hsk. unfold mbind, V_bind.
    destruct (_validateOutpointSingle k s) as [[b| | |] s1]; cbn in *; try done. apply IH; [set_solver|done].
Qed.

(** ** The walk *)
Context `{!ChainLaws}.

Lemma node_parents_vout k p : p ∈ node_parents k → 0 <= vout p.
Proof.
  unfold node_parents. destruct (node_env k) as [[tx e]|] eqn:Hn; [|by intros ?%elem_of_nil].
  apply node_env_Some in Hn as (Hf & _).
  assert (Hins : ∀ n q, q ∈ take n (prevs (drop 1 (tx_vin tx))) → 0 <= vout q).
  { intros n q (j & Hq & _)%elem_of_take. apply (fetch_vout (txid k) tx); [done|].
    apply list_elem_of_lookup_2 in Hq. revert Hq. unfold prevs. rewrite !list_elem_of_fmap.
    intros (x & -> & Hx). exists x. split; [done|]. rewrite <- (take_drop 1 (tx_vin tx)). set_solver. }
  assert (Hall : ∀ q, q ∈ prevs (drop 1 (tx_vin tx)) → 0 <= vout q).
  { intros q Hq. apply (Hins (length (prevs (drop 1 (tx_vin tx))))). by rewrite firstn_all. }
  unfold parents. intros Hp.
  repeat match type of Hp with
  | _ ∈ (if ?a =? ?b then _ else _) => destruct (a =? b)
  end; repeat match type of Hp with
  | _ ∈ match ?d with _ => _ end => destruct d
  end; try (by apply elem_of_nil in Hp); eauto.
  apply list_elem_of_singleton in Hp as ->. done.
Qed.

Lemma ancestor_vout root k : 0 <= vout root → ancestor root k → 0 <= vout k.
Proof. intros Hr Hk. apply rtc_inv_r in Hk as [->|(y & _ & _ & Hy)]; [done|by eapply node_parents_vout]. Qed.

Lemma walk_sound root s0 cursor w s : walk_ok root s0 cursor w s → sound s0 → sound s.
Proof.
  intros [_ _ _ _ Hvs _ [Hr _]] Hs Hb k Hk. destruct (Hvs k true Hk) as [Hk0|[_ Ht]].
  - apply Hs; [|done]. intros C p Hin. apply Hb. by rewrite Hr.
  - by apply valid_tracked.
Qed.

Lemma validateOutpoint_sound fuel root s r s' :
  0 <= vout root → sound s → validateOutpoint fuel root s = Some (r, s') →
  sound s' ∧ (r = Ok true → batch_ok s' → valid svc root).
Proof.
  intros Hv Hs. unfold validateOutpoint. destruct (validatedSet s !! root) as [b|] eqn:Hroot.
  { intros [= <- <-]. split; [done|]. intros [= ->] Hb. by apply Hs. }
  destruct (walk_start_ok s root Hroot) as [_ Hw0].
  destruct (walk_loop fuel 0 _ s) as [[wr s1]|] eqn:Hl; [|done]. cbn [mbind option_bind].
  destruct (walk_loop_ok _ _ _ _ _ _ _ _ Hw0 Hl) as (w & -> & Hw & _).
  destruct (order_of_spec w (wk_nodup _ _ _ _ _ Hw)) as (ks & -> & Hperm & _). cbn [mbind option_bind].
  intros E. pose proof (walk_sound _ _ _ _ _ Hw Hs) as Hs1.
  assert (Hks : ∀ k, k ∈ ks → 0 <= vout k).
  { intros k. rewrite Hperm. intros Hk. eapply ancestor_vout; [exact Hv|]. by eapply wk_reach. }
  pose proof (validate_each_sound ks s1 Hks Hs1) as Hs2. revert E. unfold mbind, V_bind.
  destruct (validate_each ks s1) as [[u| | |] s2]; cbn in *; intros [= <- <-]; split; try done.
  intros [= Ht] Hb. apply Hs2; [done|]. destruct (validatedSet s2 !! root) as [[]|]; done.
Qed.
End soundness.
