(* ===== verification/MixerTree.v ===== *)
(** * The trees of the pools

    What holds of every pool's tree whatever the client does: the roots it remembers are
    the roots of the prefixes of its leaves.  A leaf that is not 32 bytes long stops
    that: from it on no root is computed any more.  Every operation on the pools is a
    sequence of the changes of [change], and each invariant is shown once, for a change. *)
From Stdlib Require Import Ascii.
From stdpp Require Import strings pretty.
From S2P Require Import Prelude Bytes Text Crypto EnvelopeScript CodecTransfer CodecIssue CodecPool CodecSlots CodecAmm.
From S2P Require Import Messages Curve Hex Merkle MerkleFacts Mixer MixerProof CodecBridge Kernel Notes MixerLeaf Handlers Validator.
From S2P Require Import WalkFacts ValidSpec ValidShape MixerWithdraw MixerSync.

(** ** Roots of prefixes *)
Section roots.
Context `{PO : Poseidon} {PL : PoseidonLaws}.

Definition root_bytes (ls : list bytes) : bytes := be 32 (tree_root 0 POOL_TREE_DEPTH (map unbe ls)).
Definition prefix_roots (ls : list bytes) : list bytes := map (λ n, root_bytes (take n ls)) (seq 1 (length ls)).
Definition last_n {A} (n : nat) (l : list A) : list A := drop (length l - n) l.
(** the leaves before the first that is not 32 bytes *)
Fixpoint well_formed (ls : list bytes) : list bytes :=
  match ls with [] => [] | l :: ls => if blen l =? 32 then l :: well_formed ls else [] end.

Record tree_inv (t : tree) : Prop := {
  ti_bound : Z.of_nat (length (leaves t)) <= 2 ^ 20;
  ti_roots : roots t = last_n POOL_RECENT_ROOTS_WINDOW (prefix_roots (well_formed (leaves t)));
  ti_history : rootHistory t = list_to_set (map bytesToHex (prefix_roots (well_formed (leaves t)))) }.

Lemma be_unbe_32 b : is32 b → be 32 (unbe b) = b.
Proof.
  unfold is32, blen. intros Hb. unfold be, unbe. rewrite le_unle by (rewrite length_rev; lia). apply rev_involutive.
Qed.
Lemma computePoolRoot_bytes ls : Forall is32 ls → computePoolRoot ls = Ok (root_bytes ls).
Proof.
  intros Hf. destruct (computePoolRoot_Ok ls Hf) as (r & -> & Hr & E). f_equal. unfold root_bytes. rewrite <- E. by rewrite be_unbe_32.
Qed.

Lemma poseidonInput_bad b : ¬ is32 b → ∃ e, poseidonInputToBigInt (InBytes b) = Throw e.
Proof. unfold is32. intros Hb. cbn [poseidonInputToBigInt]. destruct (Z.eqb_spec (blen b) 32); [done|]. by eexists. Qed.
Lemma hash_bad a b : ¬ is32 a ∨ ¬ is32 b → ∃ e, poseidonHash [InBytes a; InBytes b] = Throw e.
Proof.
  intros Hb. unfold poseidonHash. cbn [poseidon_args].
  destruct (decide (is32 a)) as [Ha|Ha].
  - assert (poseidonInputToBigInt (InBytes a) = Ok (unbe a)) as ->.
    { cbn [poseidonInputToBigInt]. unfold is32 in Ha. by rewrite Ha. }
    destruct Hb as [Hb|Hb]; [done|]. apply poseidonInput_bad in Hb as [e ->]. by eexists.
  - apply poseidonInput_bad in Ha as [e ->]. by eexists.
Qed.
Lemma pair_layer_bad k ls : ¬ Forall is32 ls → ∃ e, pair_layer (empty_bytes k) ls = Throw e.
Proof.
  revert ls. fix IH 1. intros [|l [|r ls]] Hn.
  - clear IH. by destruct Hn.
  - clear IH. cbn [pair_layer]. destruct (hash_bad l (empty_bytes k)) as [e ->]; [left; intros Hl; apply Hn; by constructor|by eexists].
  - cbn [pair_layer]. destruct (decide (is32 l)) as [Hl|Hl]; [destruct (decide (is32 r)) as [Hr|Hr]|].
    + rewrite hash_bytes by done. cbn [mbind res_bind]. destruct (IH ls) as [e ->]; [intros Hf; apply Hn; constructor; [done|by constructor]|by eexists].
    + destruct (hash_bad l r) as [e ->]; [by right|by eexists].
    + destruct (hash_bad l r) as [e ->]; [by left|by eexists].
Qed.
(** One malformed leaf and there is no root. *)
Lemma computePoolRoot_bad ls : ¬ Forall is32 ls → ∃ e, computePoolRoot ls = Throw e.
Proof.
  intros Hn. unfold computePoolRoot. change poolEmptyLeaf with (empty_bytes 0). rewrite zeros_from_Ok. cbn [mbind res_bind].
  change (seq 0 (S POOL_TREE_DEPTH)) with (0%nat :: 1%nat :: seq 2 19). cbn [map climb]. unfold next_layer.
  destruct (pair_layer_bad 0 ls Hn) as [e ->]. by eexists.
Qed.

Lemma well_formed_all ls : Forall is32 ls → well_formed ls = ls.
Proof. unfold is32. induction 1 as [|l ls Hl _ IH]; [done|]. cbn [well_formed]. by rewrite Hl, IH. Qed.
Lemma well_formed_bad ls leaf : ¬ Forall is32 (ls ++ [leaf]) → well_formed (ls ++ [leaf]) = well_formed ls.
Proof.
  induction ls as [|l ls IH]; intros Hn; cbn [app well_formed].
  - destruct (Z.eqb_spec (blen leaf) 32); [|done]. destruct Hn. constructor; [done|constructor].
  - destruct (Z.eqb_spec (blen l) 32); [|done]. f_equal. apply IH. intros Hf. apply Hn. by constructor.
Qed.
Lemma prefix_roots_snoc ls leaf : prefix_roots (ls ++ [leaf]) = prefix_roots ls ++ [root_bytes (ls ++ [leaf])].
Proof.
  unfold prefix_roots. generalize root_bytes. intros f. rewrite length_app, Nat.add_1_r, seq_S, map_app. cbn [map length].
  rewrite (take_ge (ls ++ [leaf])) by (rewrite length_app; cbn [length]; lia).
  apply (f_equal (λ l, l ++ _)). apply map_ext_in. intros n [_ Hn]%in_seq. by rewrite take_app_le by lia.
Qed.
Lemma prefix_roots_length ls : length (prefix_roots ls) = length ls.
Proof. unfold prefix_roots. by rewrite length_map, length_seq. Qed.
Lemma tail_drop_S {A} n (l : list A) : tail (drop n l) = drop (S n) l.
Proof. revert l. induction n as [|n IH]; intros [|x l]; try done. by cbn [drop]. Qed.
Lemma push_root_last r l : push_root r (last_n POOL_RECENT_ROOTS_WINDOW l) = last_n POOL_RECENT_ROOTS_WINDOW (l ++ [r]).
Proof.
  unfold push_root, last_n. set (n := POOL_RECENT_ROOTS_WINDOW). rewrite !length_app, length_drop. cbn [length].
  destruct (Nat.ltb_spec n (length l - (length l - n) + 1)).
  - replace (length l + 1 - n)%nat with (S (length l - n)) by lia. rewrite <- tail_drop_S, drop_app_le by lia. done.
  - replace (length l - n)%nat with 0%nat by lia. replace (length l + 1 - n)%nat with 0%nat by lia. by rewrite !drop_0.
Qed.
End roots.

(** ** Changes *)
Section changes.
Context `{Hash} {SE : Secp} {CH : Chain} {GR : Groth16} {MC : MixerChain} {PO : Poseidon}.

(** the tree of [k] replaced *)
Definition put_tree (k : string) (t : tree) : pools → pools := set_trees <[k := t]>.
Definition nullifiers_of (k : string) (ps : pools) : gmap string string := default ∅ (poolNullifiers ps !! k).

(** a rewriting of a tree that adds no leaf: its counts, its flag, or a fresh start *)
Inductive retouched : tree → tree → Prop :=
| retouch_counts t p n : retouched t (note_counts p n t)
| retouch_integrity t b : retouched t (note_integrity b t)
| retouch_reset t : retouched t (reset_tree t).

Inductive change : pools → pools → Prop :=
| change_register ps k info :
    poolRegistry ps !! k = None →
    change ps (Pools (<[k := info]> (poolRegistry ps)) (<[k := Tree [] [] ∅ None None false]> (poolMerkleTrees ps))
                     (<[k := ∅]> (poolNullifiers ps)) (bridgeProofCache ps))
| change_append ps k t leaf :
    poolMerkleTrees ps !! k = Some t → Z.of_nat (length (leaves t)) < 2 ^ 20 →
    change ps (put_tree k (append_leaf t leaf).2 ps)
| change_retouch ps k t t' : poolMerkleTrees ps !! k = Some t → retouched t t' → change ps (put_tree k t' ps)
| change_mark ps k n owner :
    nullifiers_of k ps !! n = None → change ps (set_nullifiers <[k := <[n := owner]> (nullifiers_of k ps)]> ps)
| change_touch ps k : change ps (set_nullifiers <[k := nullifiers_of k ps]> ps)
| change_force ps k aid denom n old new :
    k = poolKey aid denom "" → nullifier_owner k n ps = Some old →
    verifyWithdrawOwnerOnChain old aid denom n ps = Some false →
    change ps (set_nullifiers <[k := <[bytesToHex n := new]> (nullifiers_of k ps)]> ps)
| change_cache ps key ok : change ps (set_proofCache <[key := ok]> ps).
Definition changes : pools → pools → Prop := rtc change.

(** *** The operations change the pools in these ways only *)
Lemma register_changes aid d vk ce h tx gen ps : changes ps (mixerRegisterPool aid d vk ce h tx gen ps).2.
Proof.
  unfold mixerRegisterPool. case_bool_decide as Hk; [done|]. apply rtc_once, change_register. by apply eq_None_not_Some.
Qed.
Lemma mark_changes aid d n owner gen ps : changes ps (mixerMarkNullifierSpent aid d n owner gen ps).
Proof.
  unfold mixerMarkNullifierSpent. cbv zeta. fold (nullifiers_of (poolKey aid d gen) ps). case_bool_decide as Hn.
  - apply rtc_once, change_touch.
  - apply rtc_once, change_mark. by apply eq_None_not_Some.
Qed.
Lemma append_changes aid d leaf gen ps : changes ps (mixerAppendLeaf aid d leaf gen ps).2.
Proof.
  unfold mixerAppendLeaf. destruct (poolMerkleTrees ps !! _) as [t|] eqn:Et; [|done].
  change (Z.shiftl 1 (Z.of_nat POOL_TREE_DEPTH)) with (2 ^ 20). destruct (Z.geb_spec (Z.of_nat (length (leaves t))) (2 ^ 20)); [done|].
  destruct (append_leaf t leaf) as [r t'] eqn:Ea. apply rtc_once. cbn [snd].
  change t' with (r, t').2. rewrite <- Ea. by apply change_append.
Qed.
Lemma alter_changes k f ps : (∀ t, retouched t (f t)) → changes ps (alter_tree k f ps).
Proof.
  intros Hf. unfold alter_tree. destruct (poolMerkleTrees ps !! k) as [t|] eqn:Et.
  - assert (set_trees (alter f k) ps = put_tree k (f t) ps) as ->.
    { unfold put_tree, set_trees. f_equal. apply map_eq. intros j. destruct (decide (k = j)) as [<-|].
      - by rewrite lookup_alter_eq, lookup_insert_eq, Et.
      - by rewrite lookup_alter_ne, lookup_insert_ne. }
    by apply rtc_once, (change_retouch _ _ t).
  - assert (set_trees (alter f k) ps = ps) as ->; [|done]. destruct ps as [r tr n c]. unfold set_trees. cbn in *. f_equal.
    apply map_eq. intros j. destruct (decide (k = j)) as [<-|]; [by rewrite lookup_alter_eq, Et|by rewrite lookup_alter_ne].
Qed.

Lemma conflict_changes aid d n us ps : changes ps (mixerWithdrawConflictBlocks aid d n us ps).2.
Proof.
  unfold mixerWithdrawConflictBlocks. destruct (mixerIsNullifierSpentByOther aid d n us "" ps) eqn:Eo; [|done]. cbn [negb].
  unfold mixerIsNullifierSpentByOther in Eo. unfold mixerGetNullifierOwner.
  destruct (nullifier_owner (poolKey aid d "") n ps) as [old|] eqn:En; [|done].
  change (default ""%string (Some old)) with old. destruct (verifyWithdrawOwnerOnChain old aid d n ps) as [[|]|] eqn:Ev; try done.
  unfold mixerForceNullifierOwner. pose proof En as En'. unfold nullifier_owner in En'.
  destruct (poolNullifiers ps !! poolKey aid d "") as [m|] eqn:Em; [|done]. cbn [snd]. apply rtc_once.
  assert (m = nullifiers_of (poolKey aid d "") ps) as -> by (unfold nullifiers_of; by rewrite Em).
  by eapply change_force.
Qed.
Lemma remember_changes key ok ps : changes ps (remember key ok ps).2.
Proof. apply rtc_once, change_cache. Qed.
Lemma bridge_deposit_changes r aid d ctx ps : changes ps (_verifyBridgeDepositProof r aid d ctx ps).2.
Proof.
  unfold _verifyBridgeDepositProof. repeat (case_match; try done; try apply remember_changes).
Qed.
Lemma check_leaf_changes r aid d leaf dtxid ctx ps : changes ps (check_leaf r aid d leaf dtxid ctx ps).2.
Proof.
  assert (Hb : changes ps (let '(ok, ps') := _verifyBridgeDepositProof r aid d ctx ps in (Some (bool_decide (ok = Some true)), ps')).2).
  { pose proof (bridge_deposit_changes r aid d ctx ps) as Hc. by destruct (_verifyBridgeDepositProof r aid d ctx ps). }
  unfold check_leaf. destruct (leaf_kind r) as [k|]; [|done]. case_bool_decide; [exact Hb|].
  by repeat match goal with |- context [if ?b then _ else _] => destruct b end.
Qed.

Lemma changes_refl ps : changes ps ps.
Proof. apply rtc_refl. Qed.
Lemma changes_trans ps1 ps2 ps3 : changes ps1 ps2 → changes ps2 ps3 → changes ps1 ps3.
Proof. intros H1 H2. by trans ps2. Qed.

Lemma sync_leaves_changes rs aid d gen ctx ps : changes ps (sync_leaves rs aid d gen ctx ps).2.
Proof.
  revert ps. induction rs as [|r rs IH]; intros ps; cbn [sync_leaves]; [apply changes_refl|].
  destruct (truthy (lr_leaf_commitment r)) as [lc|]; [|apply changes_refl].
  destruct (truthy (lr_deposit_txid r)) as [dtxid|]; [|apply changes_refl].
  destruct (hexToBytes lc) as [leaf| | |]; try apply changes_refl.
  pose proof (check_leaf_changes r aid d leaf dtxid ctx ps) as Hc. destruct (check_leaf _ _ _ _ _ _ _) as [[[|]|] ps1]; [|done..].
  destruct (negb _); [done|]. pose proof (append_changes aid d leaf gen ps1) as Ha.
  destruct (mixerAppendLeaf aid d leaf gen ps1) as [[b| | |] ps2]; cbn [snd] in *.
  all: eapply changes_trans; [exact Hc|]; try exact Ha. eapply changes_trans; [exact Ha|apply IH].
Qed.
Lemma sync_nullifiers_changes ns aid d gen ps : changes ps (sync_nullifiers ns aid d gen ps).2.
Proof.
  revert ps. induction ns as [|n ns IH]; intros ps; cbn [sync_nullifiers]; [apply changes_refl|].
  destruct (truthy _) as [h|]; [|apply IH]. destruct (hexToBytes h); try apply changes_refl.
  eapply changes_trans; [|apply IH]. destruct (mixerIsNullifierSpent _ _ _ _ _); [apply changes_refl|apply mark_changes].
Qed.
Lemma processPool_changes p detail ps : changes ps (processPool p detail ps).2.
Proof.
  unfold processPool. cbv zeta. assert (H1 : changes ps (register_listed p ps)).
  { unfold register_listed. cbv zeta. destruct (mixerIsPoolRegistered _ _ _ _); [apply changes_refl|apply register_changes]. }
  set (ps1 := register_listed p ps) in *. destruct (_ && _); [exact H1|]. destruct detail as [d|]; [|exact H1].
  set (k := poolKey _ _ _). set (remote := filter _ (pd_leaves d)).
  assert (H2 : changes ps1 (prepare_tree k remote (pd_pending_leaf_count d) ps1)).
  { unfold prepare_tree. cbv zeta. eapply changes_trans; [apply alter_changes; intros; apply retouch_counts|].
    destruct (diverged _ _); [apply alter_changes; intros; apply retouch_reset|apply changes_refl]. }
  set (ps2 := prepare_tree _ _ _ _) in *. assert (H3 : changes ps2 (sync_pool_leaves p remote ps2).2).
  { unfold sync_pool_leaves. cbv zeta. destruct (_ || _); [apply changes_refl|].
    match goal with |- context [sync_leaves ?a ?b ?c ?d ?e ?f] => pose proof (sync_leaves_changes a b c d e f) as Hs end.
    destruct (sync_leaves _ _ _ _ _ _) as [[b| | |] ps3]; try exact Hs. cbn [snd] in *.
    eapply changes_trans; [exact Hs|]. apply alter_changes. intros. apply retouch_integrity. }
  pose proof (changes_trans _ _ _ H1 (changes_trans _ _ _ H2 H3)) as H4.
  destruct (sync_pool_leaves p remote ps2) as [[u| | |] ps3]; try exact H4. cbn [snd] in *.
  eapply changes_trans; [exact H4|apply sync_nullifiers_changes].
Qed.
Lemma scanPools_changes l ps : changes ps (scanPools l ps).
Proof.
  revert ps. induction l as [|[p d] l IH]; intros ps; [apply changes_refl|].
  eapply changes_trans; [apply (processPool_changes p d)|apply IH].
Qed.

Lemma get_pools_run s : get_pools s = (Ok (mixer s), s).
Proof. done. Qed.
Lemma refuse_mixer key s : mixer (refuse key s).2 = mixer s.
Proof. done. Qed.
Lemma conflict_run aid d n us s :
  ∃ b ps', mixerWithdrawConflictBlocks aid d n us (mixer s) = (b, ps') ∧ conflict aid d n us s = (Ok b, (set_pools ps' s).2).
Proof.
  unfold conflict. destruct (mixerWithdrawConflictBlocks aid d n us (mixer s)) as [b ps'] eqn:E. exists b, ps'. split; [done|].
  unfold get_pools, mbind, V_bind, get. cbn [fst snd mret V_ret]. by rewrite E.
Qed.
Lemma withdraw_changes key payload s : changes (mixer s) (mixer (withdraw_handler key payload s).2).
Proof.
  unfold withdraw_handler. destruct (negb _); [apply changes_refl|]. destruct (decoded _) as [d|]; [|apply changes_refl].
  cbv zeta. rewrite (V_bind_run _ _ _ _ _ (get_pools_run s)).
  repeat (destruct (negb _); [apply changes_refl|]).
  match goal with |- context [conflict ?a ?b ?c ?d] => destruct (conflict_run a b c d s) as (b1 & ps1 & E1 & R1);
    pose proof (conflict_changes a b c d (mixer s)) as H1 end.
  rewrite (V_bind_run _ _ _ _ _ R1). rewrite E1 in H1. cbn [snd] in H1. set (s1 := (set_pools ps1 s).2) in *.
  destruct b1; [exact H1|]. destruct (negb (recipient_opens d)); [exact H1|].
  destruct (verifyMixerProof _ _ _) as [[|]| | |]; try exact H1.
  2,3,4: unfold _strictUnavailable; destruct strictValidation; exact H1.
  match goal with |- context [conflict ?a ?b ?c ?d] => destruct (conflict_run a b c d s1) as (b2 & ps2 & E2 & R2);
    pose proof (conflict_changes a b c d (mixer s1)) as H2 end.
  rewrite (V_bind_run _ _ _ _ _ R2). rewrite E2 in H2. cbn [snd] in H2.
  pose proof (changes_trans _ _ _ H1 H2) as H3. destruct b2; [exact H3|].
  rewrite (V_bind_run _ _ _ _ _ (get_pools_run _)).
  destruct (mixerIsNullifierSpentByOther _ _ _ _ _ _); [exact H3|].
  destruct (mixerReserveWouldBreach _ _ _ _); [exact H3|].
  eapply changes_trans; [exact H3|apply mark_changes].
Qed.
End changes.

(** ** Invariants *)
Section invariants.
Context `{Hash} {SE : Secp} {CH : Chain} {GR : Groth16} {MC : MixerChain} {PO : Poseidon} {PL : PoseidonLaws}.

Definition trees_inv (ps : pools) : Prop := map_Forall (λ _, tree_inv) (poolMerkleTrees ps).
(** the three maps know the same pools *)
Definition same_keys (ps : pools) : Prop :=
  ∀ k, (is_Some (poolRegistry ps !! k) ↔ is_Some (poolMerkleTrees ps !! k)) ∧
       (is_Some (poolRegistry ps !! k) → is_Some (poolNullifiers ps !! k)).

Lemma empty_tree_inv : tree_inv (Tree [] [] ∅ None None false).
Proof. split; [done|done|]. cbn. set_solver. Qed.
Lemma append_leaf_inv t leaf :
  tree_inv t → Z.of_nat (length (leaves t)) < 2 ^ 20 →
  tree_inv (append_leaf t leaf).2 ∧ leaves (append_leaf t leaf).2 = leaves t ++ [leaf].
Proof.
  intros [Hb Hr Hh] Hl. unfold append_leaf. cbv zeta. cbn [leaves].
  destruct (decide (Forall is32 (leaves t ++ [leaf]))) as [Hf|Hf].
  - rewrite computePoolRoot_bytes by done. cbn [snd leaves]. split; [|done].
    pose proof (proj1 (proj1 (Forall_app _ _ _) Hf)) as Hf1. rewrite (well_formed_all (leaves t)) in Hr, Hh by done.
    split; cbn [leaves roots rootHistory].
    + rewrite length_app. cbn [length]. lia.
    + rewrite well_formed_all by done. by rewrite Hr, prefix_roots_snoc, push_root_last.
    + rewrite well_formed_all by done. rewrite Hh, prefix_roots_snoc, map_app, list_to_set_app_L.
      cbn [map list_to_set]. rewrite union_empty_r_L. apply union_comm_L.
  - destruct (computePoolRoot_bad _ Hf) as [e ->]. cbn [snd leaves]. split; [|done].
    split; cbn [leaves roots rootHistory]; rewrite ?well_formed_bad by done; [|done..].
    rewrite length_app. cbn [length]. lia.
Qed.
(** From a malformed leaf on, appending throws and no root is added. *)
Lemma append_leaf_frozen t leaf :
  ¬ Forall is32 (leaves t) →
  (∃ e, (append_leaf t leaf).1 = Throw e) ∧ roots (append_leaf t leaf).2 = roots t ∧ rootHistory (append_leaf t leaf).2 = rootHistory t.
Proof.
  intros Hn. unfold append_leaf. cbv zeta. cbn [leaves].
  destruct (computePoolRoot_bad (leaves t ++ [leaf])) as [e ->]; [by intros [? _]%Forall_app|]. split; [by eexists|done].
Qed.
Lemma retouched_inv t t' : retouched t t' → tree_inv t → tree_inv t'.
Proof. intros Hr [Hb Ht Hh]. destruct Hr; [by split|by split|]. split; [done|done|]. cbn. set_solver. Qed.

Lemma change_trees ps ps' : change ps ps' → trees_inv ps → trees_inv ps'.
Proof.
  intros Hc Hi. unfold trees_inv in *. destruct Hc; try exact Hi; cbn [poolMerkleTrees put_tree set_trees].
  - apply map_Forall_insert_2; [apply empty_tree_inv|exact Hi].
  - apply map_Forall_insert_2; [|exact Hi]. apply append_leaf_inv; [by eapply Hi|done].
  - apply map_Forall_insert_2; [|exact Hi]. eapply retouched_inv; [done|]. by eapply Hi.
Qed.
Lemma change_keys ps ps' : change ps ps' → same_keys ps → same_keys ps'.
Proof.
  intros Hc Hi j. specialize (Hi j) as [H1 H2].
  destruct Hc; cbn [poolRegistry poolMerkleTrees poolNullifiers put_tree set_trees set_nullifiers set_proofCache];
    try (split; done).
  all: match goal with |- context [<[?k := _]>] => destruct (decide (k = j)) as [<-|Hne] end;
    rewrite ?lookup_insert_eq, ?lookup_insert_ne by done; try done.
  - split; [|done]. split; intros _; [by eexists|]. apply H1. by eexists.
  - split; [|done]. split; intros _; [by eexists|]. apply H1. by eexists.
Qed.
(** Pools once registered keep their keys; entries are never replaced. *)
Lemma change_registry ps ps' k info : change ps ps' → poolRegistry ps !! k = Some info → poolRegistry ps' !! k = Some info.
Proof.
  intros Hc Hk. destruct Hc; try exact Hk. cbn [poolRegistry]. rewrite lookup_insert_ne; [done|]. congruence.
Qed.

Lemma well_formed_prefix ls : Forall is32 (well_formed ls) ∧ ∃ n, (n <= length ls)%nat ∧ well_formed ls = take n ls.
Proof.
  unfold is32. induction ls as [|l ls [Hf (n & Hn & E)]]; cbn [well_formed]; [split; [constructor|by exists 0%nat]|].
  destruct (Z.eqb_spec (blen l) 32) as [Hl|]; [|split; [constructor|exists 0%nat; split; [lia|done]]].
  split; [by constructor|]. exists (S n). split; [cbn [length]; lia|]. cbn [take]. by rewrite E.
Qed.
(** A root of the history is the root of a prefix of the leaves. *)
Lemma historical_prefix t root :
  tree_inv t → bytesToHex root ∈ rootHistory t →
  ∃ n, (0 < n <= length (leaves t))%nat ∧ Forall is32 (take n (leaves t)) ∧ computePoolRoot (take n (leaves t)) = Ok root.
Proof.
  intros [_ _ Hh] Hr. rewrite Hh in Hr. apply elem_of_list_to_set, list_elem_of_fmap in Hr as (b & E%(inj bytesToHex) & Hb). subst b.
  destruct (well_formed_prefix (leaves t)) as [Hf (m & Hm & Ew)]. unfold prefix_roots in Hb.
  apply list_elem_of_fmap in Hb as (n & -> & Hn%elem_of_seq). rewrite Ew in Hn, Hf |- *. rewrite length_take in Hn.
  rewrite take_take, Nat.min_l by lia. exists n. split; [lia|].
  assert (Hn32 : Forall is32 (take n (leaves t))).
  { replace (take n (leaves t)) with (take n (take m (leaves t))) by (rewrite take_take; f_equal; lia). by apply Forall_take. }
  split; [exact Hn32|]. by apply computePoolRoot_bytes.
Qed.

Lemma no_pools_trees : trees_inv no_pools.
Proof. apply map_Forall_empty. Qed.
Lemma no_pools_keys : same_keys no_pools.
Proof.
  intros k. unfold no_pools. cbn [poolRegistry poolMerkleTrees poolNullifiers]. rewrite !lookup_empty.
  split; [split; by intros [? ?]|by intros [? ?]].
Qed.
(** *** A standing owner keeps its nullifier *)
Definition standing (aid : string) (d : Z) (n : bytes) (owner : string) (ps : pools) : Prop :=
  nullifier_owner (poolKey aid d "") n ps = Some owner ∧
  ∀ aid' d' ps', poolKey aid' d' "" = poolKey aid d "" →
    poolRegistry ps' !! poolKey aid d "" = poolRegistry ps !! poolKey aid d "" →
    verifyWithdrawOwnerOnChain owner aid' d' n ps' ≠ Some false.
Lemma change_standing aid d n owner ps ps' :
  change ps ps' → is_Some (poolRegistry ps !! poolKey aid d "") → standing aid d n owner ps → standing aid d n owner ps'.
Proof.
  intros Hc [info Hinfo] [Ho Hs]. pose proof (change_registry _ _ _ _ Hc Hinfo) as Hinfo'.
  split; [|intros aid' d' ps2; rewrite Hinfo', <- Hinfo; apply Hs]. clear Hinfo'.
  assert (Hput : ∀ j m, (j = poolKey aid d "" → m !! bytesToHex n = nullifiers_of (poolKey aid d "") ps !! bytesToHex n) →
    nullifier_owner (poolKey aid d "") n (set_nullifiers <[j := m]> ps) = Some owner).
  { intros j m Hm. unfold nullifier_owner. cbn [poolNullifiers set_nullifiers].
    destruct (decide (j = poolKey aid d "")) as [->|]; [|by rewrite lookup_insert_ne].
    rewrite lookup_insert_eq. cbn [mbind option_bind]. rewrite Hm by done. unfold nullifiers_of. unfold nullifier_owner in Ho.
    by destruct (poolNullifiers ps !! poolKey aid d ""). }
  assert (Hcur : nullifiers_of (poolKey aid d "") ps !! bytesToHex n = Some owner).
  { unfold nullifiers_of. unfold nullifier_owner in Ho. by destruct (poolNullifiers ps !! poolKey aid d ""). }
  destruct Hc as [ps k i Hk| | |ps k m o Hm|ps k|ps k aid' d' n' old new Hk Hold Hv|]; try exact Ho.
  - unfold nullifier_owner. cbn [poolNullifiers]. rewrite lookup_insert_ne by congruence. exact Ho.
  - apply Hput. intros ->. rewrite lookup_insert_ne; [done|]. intros E. rewrite E, Hcur in Hm. done.
  - apply Hput. intros E. by rewrite E.
  - apply Hput. intros Hkk. destruct (decide (n' = n)) as [->|Hne].
    + exfalso. subst k. rewrite Hkk in Hold. rewrite Ho in Hold. injection Hold as <-. by apply (Hs aid' d' ps Hkk eq_refl).
    + rewrite lookup_insert_ne by (intros E%(inj bytesToHex); congruence). by rewrite Hkk.
Qed.

(** *** Along any sequence of changes *)
Lemma changes_trees ps ps' : changes ps ps' → trees_inv ps → trees_inv ps'.
Proof. induction 1; eauto using change_trees. Qed.
Lemma changes_keys ps ps' : changes ps ps' → same_keys ps → same_keys ps'.
Proof. induction 1; eauto using change_keys. Qed.
Lemma changes_registry ps ps' k info : changes ps ps' → poolRegistry ps !! k = Some info → poolRegistry ps' !! k = Some info.
Proof. induction 1; eauto using change_registry. Qed.
Lemma changes_standing aid d n owner ps ps' :
  changes ps ps' → is_Some (poolRegistry ps !! poolKey aid d "") → standing aid d n owner ps → standing aid d n owner ps'.
Proof.
  induction 1 as [|ps ps1 ps2 Hc _ IH]; [done|]. intros [i Hi] Hs. apply IH; [|by eapply change_standing].
  exists i. by eapply change_registry.
Qed.
End invariants.
