(* ===== verification/MixerFacts.v ===== *)
(** * Withdrawals and leaves: the lemmas

    When a withdrawal is accepted, what it leaves behind, and why it cannot happen
    twice; and what stands behind a leaf the client took up. *)
From Stdlib Require Import Ascii.
From stdpp Require Import strings pretty.
From S2P Require Import Prelude Bytes Text Crypto EnvelopeScript CodecTransfer CodecIssue CodecPool CodecSlots CodecAmm.
From S2P Require Import Messages Curve Hex Merkle MerkleFacts Mixer MixerProof CodecBridge Kernel Notes MixerLeaf Handlers Validator.
From S2P Require Import WalkFacts ValidSpec ValidShape ValidSound MixerWithdraw MixerSync MixerTree.

(** ** Pool keys *)
Fixpoint no_char (c : ascii) (s : string) : Prop :=
  match s with "" => True | String a s => a ≠ c ∧ no_char c s end%string.
Lemma no_char_app c a b : no_char c (a +:+ b)%string ↔ no_char c a ∧ no_char c b.
Proof. induction a as [|x a IH]; simpl; [naive_solver|]. rewrite IH. naive_solver. Qed.
Lemma split_at_char c a s a' s' :
  no_char c s → no_char c s' → (a +:+ String c s)%string = (a' +:+ String c s')%string → a = a' ∧ s = s'.
Proof.
  intros Hs Hs'. revert a'. induction a as [|x a IH]; intros [|x' a'] E; simpl in E.
  - injection E as <-. done.
  - injection E as <- ->. apply no_char_app in Hs as [_ [[] _]]. done.
  - injection E as -> <-. apply no_char_app in Hs' as [_ [[] _]]. done.
  - injection E as <- E. apply IH in E as [<- <-]. done.
Qed.
Lemma pretty_char n : no_char ":"%char (pretty_N_go n "").
Proof.
  assert (Hg : ∀ s, no_char ":"%char s → no_char ":"%char (pretty_N_go n s)); [|by apply Hg].
  induction (N.lt_wf_0 n) as [n _ IH]. intros s Hs. destruct (decide (0 < n)%N) as [Hn|Hn].
  - rewrite pretty_N_go_step by done. apply IH; [by apply N.div_lt|]. split; [|done].
    pose proof (N.mod_lt n 10 ltac:(lia)) as Hm. pose proof (pretty_N_char_value _ Hm) as Hv. intros E. by rewrite E in Hv.
  - assert (n = 0%N) as -> by lia. by rewrite pretty_N_go_0.
Qed.
Lemma pretty_no_colon (d : Z) : no_char ":"%char (pretty d).
Proof.
  assert (Hn : ∀ n : N, no_char ":"%char (pretty n)).
  { intros n. unfold pretty, pretty_N. case_decide; [done|apply pretty_char]. }
  destruct d as [|p|p]; [done|exact (Hn (N.pos p))|]. change (pretty (Z.neg p)) with ("-" +:+ pretty (N.pos p))%string.
  split; [done|apply Hn].
Qed.
Lemma poolKey_inj aid d aid' d' : poolKey aid d "" = poolKey aid' d' "" → aid = aid' ∧ d = d'.
Proof.
  unfold poolKey. cbn -[pretty String.append]. intros E. apply split_at_char in E as [<- E]; try apply pretty_no_colon.
  split; [done|]. by apply (inj pretty) in E.
Qed.

Section withdraw.
Context `{Hash} {SE : Secp} {CH : Chain} {GR : Groth16} {MC : MixerChain} {PO : Poseidon}.

(** ** One withdrawal *)
Definition withdraw_ok (d : spend) (ps : pools) : Prop :=
  let aid := bytesToHex (assetId d) in
  mixerIsPoolRegistered aid (denomination d) "" ps = true ∧ mixerIsPoolCanonical aid (denomination d) ps = true ∧
  mixerHasHistoricalRoot aid (denomination d) (merkleRoot d) "" ps = true ∧ recipient_opens d = true ∧
  verifyMixerProof (vkCid <$> poolRegistry ps !! poolKey aid (denomination d) "")
    (mixer_inputs (merkleRoot d) (nullifierHash d) (denomination d) (rLeaf d) (bindHash d)) (proof d) = Ok true.
(** the pools after it; [None] when the nullifier is another's or the reserve is exhausted *)
Definition settled (d : spend) (us : string) (ps : pools) : option pools :=
  let aid := bytesToHex (assetId d) in
  let '(blocked, ps1) := mixerWithdrawConflictBlocks aid (denomination d) (nullifierHash d) us ps in
  if blocked : bool then None else
  if mixerReserveWouldBreach aid (denomination d) (bytesToHex (nullifierHash d)) ps1 then None else
  Some (mixerMarkNullifierSpent aid (denomination d) (nullifierHash d) us "" ps1).

Lemma forced_owner aid d n us ps old :
  nullifier_owner (poolKey aid d "") n ps = Some old →
  nullifier_owner (poolKey aid d "") n (mixerForceNullifierOwner aid d n us "" ps) = Some (toLowerCase us).
Proof.
  unfold mixerForceNullifierOwner, nullifier_owner. destruct (poolNullifiers ps !! _) as [m|]; [|done]. intros _.
  cbn [poolNullifiers set_nullifiers]. rewrite lookup_insert_eq. cbn [mbind option_bind]. by rewrite lookup_insert_eq.
Qed.
(** Asked again, the answer is the same. *)
Lemma conflict_again aid d n us ps ps1 :
  toLowerCase us = us → mixerWithdrawConflictBlocks aid d n us ps = (false, ps1) →
  mixerIsNullifierSpentByOther aid d n us "" ps1 = false ∧ mixerWithdrawConflictBlocks aid d n us ps1 = (false, ps1).
Proof.
  intros Hus E. assert (Hb : mixerIsNullifierSpentByOther aid d n us "" ps1 = false).
  { unfold mixerWithdrawConflictBlocks in E. destruct (mixerIsNullifierSpentByOther aid d n us "" ps) eqn:Eo; [|by injection E as <-].
    cbn [negb] in E. unfold mixerIsNullifierSpentByOther in Eo.
    destruct (nullifier_owner (poolKey aid d "") n ps) as [old|] eqn:En; [|done].
    destruct (verifyWithdrawOwnerOnChain _ _ _ _ _) as [[|]|]; try done. injection E as <-.
    unfold mixerIsNullifierSpentByOther. rewrite (forced_owner _ _ _ _ _ _ En). rewrite !Hus. by rewrite bool_decide_eq_true_2. }
  split; [done|]. unfold mixerWithdrawConflictBlocks. by rewrite Hb.
Qed.

Definition accepted_state (key : outpoint) (ps : pools) (s : vstate) : vstate :=
  VState (<[key := true]> (validatedSet s)) (validatedReasons s) (rpBatch s) (boundOutpointKeys s) ps.

Lemma withdraw_run key payload d s :
  vout key = 0 → TWithdraw.decodeTWithdrawPayload payload = Ok d → withdraw_ok d (mixer s) →
  match settled d (bytesToHex (txid key)) (mixer s) with
  | Some ps => withdraw_handler key payload s = (Ok true, accepted_state key ps s)
  | None => (withdraw_handler key payload s).1 = Ok false
  end.
Proof.
  intros Hv Hd (Hr & Hc & Hh & Ho & Hp). unfold withdraw_handler, settled. rewrite Hv, Hd. cbn [Z.eqb negb decoded]. cbv zeta.
  rewrite (V_bind_run _ _ _ _ _ (get_pools_run s)). rewrite Hr, Hc, Hh. cbn [negb].
  destruct (conflict_run (bytesToHex (assetId d)) (denomination d) (nullifierHash d) (bytesToHex (txid key)) s) as (b & ps1 & E1 & R1).
  rewrite (V_bind_run _ _ _ _ _ R1), E1. destruct b; [done|]. rewrite Ho, Hp. cbn [negb].
  destruct (conflict_again _ _ _ _ _ _ (bytesToHex_lower (txid key)) E1) as [Hb E2].
  destruct (conflict_run (bytesToHex (assetId d)) (denomination d) (nullifierHash d) (bytesToHex (txid key)) (set_pools ps1 s).2)
    as (b2 & ps2 & E2' & R2).
  assert (Eq : (b2, ps2) = (false, ps1)) by (rewrite <- E2', <- E2; done). injection Eq as -> ->.
  rewrite (V_bind_run _ _ _ _ _ R2). rewrite (V_bind_run _ _ _ _ _ (get_pools_run _)).
  change (mixer (set_pools ps1 (set_pools ps1 s).2).2) with ps1. rewrite Hb.
  by destruct (mixerReserveWouldBreach _ _ _ _).
Qed.
Lemma withdraw_true key payload s s' :
  withdraw_handler key payload s = (Ok true, s') →
  ∃ d ps, vout key = 0 ∧ TWithdraw.decodeTWithdrawPayload payload = Ok d ∧ withdraw_ok d (mixer s) ∧
    settled d (bytesToHex (txid key)) (mixer s) = Some ps ∧ s' = accepted_state key ps s.
Proof.
  intros E. pose proof (withdraw_run key payload) as Hrun. pose proof E as E0. unfold withdraw_handler in E.
  destruct (Z.eqb_spec (vout key) 0) as [Hv|]; [|done]. cbn [negb] in E.
  destruct (TWithdraw.decodeTWithdrawPayload payload) as [d| | |] eqn:Hd; try done. cbn [decoded] in E. cbv zeta in E.
  rewrite (V_bind_run _ _ _ _ _ (get_pools_run s)) in E.
  destruct (mixerIsPoolRegistered _ _ _ _) eqn:Hr; [|done]. destruct (mixerIsPoolCanonical _ _ _) eqn:Hc; [|done].
  destruct (mixerHasHistoricalRoot _ _ _ _ _) eqn:Hh; [|done]. cbn [negb] in E.
  destruct (conflict_run (bytesToHex (assetId d)) (denomination d) (nullifierHash d) (bytesToHex (txid key)) s) as (b & ps1 & E1 & R1).
  rewrite (V_bind_run _ _ _ _ _ R1) in E. destruct b; [done|]. destruct (recipient_opens d) eqn:Ho; [|done]. cbn [negb] in E.
  destruct (verifyMixerProof _ _ _) as [[|]| | |] eqn:Hp; try done.
  2,3,4: unfold _strictUnavailable in E; destruct strictValidation; done.
  clear E. exists d. assert (Hok : withdraw_ok d (mixer s)) by by repeat split.
  specialize (Hrun d s Hv eq_refl Hok). rewrite E0 in Hrun.
  destruct (settled d (bytesToHex (txid key)) (mixer s)) as [ps|]; [|done]. injection Hrun as ->. by exists ps.
Qed.

(** *** What it leaves behind *)
Lemma marked_owner aid d n us gen ps :
  nullifier_owner (poolKey aid d gen) n (mixerMarkNullifierSpent aid d n us gen ps) =
    Some (default (toLowerCase us) (nullifier_owner (poolKey aid d gen) n ps)).
Proof.
  unfold mixerMarkNullifierSpent, nullifier_owner. cbv zeta. cbn [poolNullifiers set_nullifiers]. rewrite lookup_insert_eq.
  cbn [mbind option_bind]. destruct (poolNullifiers ps !! poolKey aid d gen) as [m|].
  - change (default ∅ (Some m)) with m. cbn [mbind option_bind]. case_bool_decide as Hs.
    + destruct Hs as [o Ho]. by rewrite Ho.
    + apply eq_None_not_Some in Hs. rewrite Hs. by rewrite lookup_insert_eq.
  - change (default ∅ None) with (∅ : gmap string string). rewrite bool_decide_eq_false_2.
    + by rewrite lookup_insert_eq.
    + rewrite lookup_empty. by intros [? ?].
Qed.
Lemma settled_owner d us ps ps' :
  toLowerCase us = us → settled d us ps = Some ps' →
  ∃ o, nullifier_owner (poolKey (bytesToHex (assetId d)) (denomination d) "") (nullifierHash d) ps' = Some o ∧ toLowerCase o = us.
Proof.
  intros Hus E. unfold settled in E.
  destruct (mixerWithdrawConflictBlocks _ _ _ _ _) as [[|] ps1] eqn:Ec; [done|].
  destruct (mixerReserveWouldBreach _ _ _ _); [done|]. injection E as <-.
  destruct (conflict_again _ _ _ _ _ _ Hus Ec) as [Hb _]. rewrite marked_owner. eexists. split; [reflexivity|].
  unfold mixerIsNullifierSpentByOther in Hb. destruct (nullifier_owner _ _ ps1) as [o|] eqn:Eo; [|by rewrite Hus].
  apply negb_false_iff, bool_decide_eq_true in Hb. by rewrite <- Hus.
Qed.

Lemma conflict_keeps aid d n us ps b ps' :
  mixerWithdrawConflictBlocks aid d n us ps = (b, ps') →
  poolRegistry ps' = poolRegistry ps ∧ poolMerkleTrees ps' = poolMerkleTrees ps.
Proof.
  unfold mixerWithdrawConflictBlocks, mixerForceNullifierOwner. intros E. repeat case_match; by simplify_eq.
Qed.
Lemma settled_keeps d us ps ps' :
  settled d us ps = Some ps' → poolRegistry ps' = poolRegistry ps ∧ poolMerkleTrees ps' = poolMerkleTrees ps.
Proof.
  unfold settled. destruct (mixerWithdrawConflictBlocks _ _ _ _ _) as [[|] ps1] eqn:Ec; [done|].
  destruct (mixerReserveWouldBreach _ _ _ _); [done|]. intros [= <-]. by apply conflict_keeps in Ec.
Qed.
(** The pool never counts more nullifiers spent than leaves. *)
Lemma settled_reserve d us ps ps' (k := poolKey (bytesToHex (assetId d)) (denomination d) "") :
  settled d us ps = Some ps' → spent_count k ps' <= leaf_bound (poolMerkleTrees ps' !! k).
Proof.
  unfold settled. destruct (mixerWithdrawConflictBlocks _ _ _ _ _) as [[|] ps1]; [done|].
  destruct (mixerReserveWouldBreach _ _ _ _) eqn:Er; [done|]. intros [= <-]. unfold mixerReserveWouldBreach in Er.
  cbv zeta in Er. rewrite bytesToHex_lower in Er. fold k in Er. rewrite Z.gtb_ltb, Z.ltb_ge in Er. etrans; [|exact Er]. clear Er.
  unfold mixerMarkNullifierSpent, spent_count. cbv zeta. cbn [poolNullifiers set_nullifiers]. fold k. rewrite lookup_insert_eq.
  destruct (poolNullifiers ps1 !! k) as [m|].
  - change (default ∅ (Some m)) with m. case_bool_decide as Hs; [lia|]. apply eq_None_not_Some in Hs.
    rewrite map_size_insert_None by done. lia.
  - change (default ∅ None) with (∅ : gmap string string). rewrite bool_decide_eq_false_2 by (rewrite lookup_empty; by intros [? ?]).
    rewrite map_size_insert_None by apply lookup_empty. by rewrite map_size_empty.
Qed.

(** The withdrawn note is worth the denomination. *)
Lemma recipient_commits `{SL : !SecpLaws} d :
  recipient_opens d = true → bytesToPoint (recipientCommitment d) = Ok (commit (denomination d) (unbe (rLeaf d) mod SECP_N)).
Proof.
  unfold recipient_opens. rewrite pedersenCommit_Ok. destruct (bytesToPoint _) as [Q| | |]; try done.
  unfold equals. by intros <-%bool_decide_eq_true.
Qed.
(** Marking one spelling of a nullifier does not mark another. *)
Lemma mark_other aid d n m owner ps :
  n ≠ m → mixerIsNullifierSpent aid d m "" (mixerMarkNullifierSpent aid d n owner "" ps) = mixerIsNullifierSpent aid d m "" ps.
Proof.
  intros Hne. assert (Hk : bytesToHex n ≠ bytesToHex m) by (intros E%(inj bytesToHex); done).
  unfold mixerIsNullifierSpent, mixerMarkNullifierSpent, nullifier_owner. cbv zeta. cbn [poolNullifiers set_nullifiers].
  rewrite lookup_insert_eq. cbn [mbind option_bind]. destruct (poolNullifiers ps !! poolKey aid d "") as [x|].
  - change (default ∅ (Some x)) with x. cbn [mbind option_bind].
    destruct (bool_decide (is_Some (x !! bytesToHex n))); [done|]. by rewrite lookup_insert_ne.
  - change (default ∅ None) with (∅ : gmap string string). rewrite lookup_empty.
    rewrite (bool_decide_eq_false_2 (is_Some None)) by (by intros [? ?]). rewrite lookup_insert_ne by done. by rewrite lookup_empty.
Qed.

(** ** Once withdrawn *)
(** the transaction is a withdrawal with this payload *)
Definition withdrawal_tx (t : bytes) (payload : bytes) : Prop :=
  blen t = 32 ∧ ∃ tx env, fetchTx t = Some tx ∧ first_envelope 3 tx = Some env ∧ env_opcode env = T_WITHDRAW ∧ env_payload env = payload.
Lemma getTx_lower o t : blen t = 32 → toLowerCase o = bytesToHex t → is_hex64 o = true ∧ getTx o = fetchTx t.
Proof.
  intros Ht E. assert (Hh : is_hex64 o = true) by (rewrite <- is_hex64_lower, E; by apply bytesToHex_hex64).
  split; [done|]. unfold getTx. rewrite Hh, <- hexToBytes_lower, E, hexToBytes_bytesToHex. done.
Qed.
Lemma settled_standing d us t payload ps ps' :
  withdrawal_tx t payload → TWithdraw.decodeTWithdrawPayload payload = Ok d → us = bytesToHex t →
  withdraw_ok d ps → settled d us ps = Some ps' →
  ∃ o, standing (bytesToHex (assetId d)) (denomination d) (nullifierHash d) o ps' ∧ toLowerCase o = us.
Proof.
  intros (Ht & tx & env & Hf & He & Hop & Hpl) Hd -> (_ & Hc & _ & Ho & _) E.
  destruct (settled_owner d _ ps ps' (bytesToHex_lower t) E) as (o & Hown & Hlow). exists o. split; [|done].
  split; [done|]. intros aid' d' ps2 Hk Hreg. apply poolKey_inj in Hk as [-> ->].
  destruct (getTx_lower o t Ht Hlow) as [Hhex Hget]. unfold verifyWithdrawOwnerOnChain. rewrite Hhex, Hget, Hf. cbn [negb].
  destruct (tx_height tx); [|done]. rewrite He, Hop, Z.eqb_refl, Hpl, Hd. cbn [negb decoded].
  rewrite bytesToHex_lower, bool_decide_eq_true_2, Z.eqb_refl, bool_decide_eq_true_2, Ho by done. cbn [negb].
  apply settled_keeps in E as [E _]. unfold mixerIsPoolCanonical in Hc. rewrite Hreg, E, Hc. done.
Qed.
Lemma standing_blocks aid d n o us ps :
  standing aid d n o ps → toLowerCase o ≠ toLowerCase us → mixerWithdrawConflictBlocks aid d n us ps = (true, ps).
Proof.
  intros [Ho Hs] Hne. unfold mixerWithdrawConflictBlocks, mixerIsNullifierSpentByOther, mixerGetNullifierOwner.
  rewrite Ho, bool_decide_eq_false_2 by done. cbn [negb]. change (default ""%string (Some o)) with o.
  specialize (Hs aid d ps eq_refl eq_refl). by destruct (verifyWithdrawOwnerOnChain o aid d n ps) as [[|]|].
Qed.
Lemma withdraw_refused key payload d o s :
  TWithdraw.decodeTWithdrawPayload payload = Ok d →
  standing (bytesToHex (assetId d)) (denomination d) (nullifierHash d) o (mixer s) → toLowerCase o ≠ bytesToHex (txid key) →
  (withdraw_handler key payload s).1 = Ok false ∧ mixer (withdraw_handler key payload s).2 = mixer s.
Proof.
  intros Hd Hs Hne. unfold withdraw_handler. destruct (negb _); [done|]. rewrite Hd. cbn [decoded]. cbv zeta.
  rewrite (V_bind_run _ _ _ _ _ (get_pools_run s)). repeat (destruct (negb _); [done|]).
  destruct (conflict_run (bytesToHex (assetId d)) (denomination d) (nullifierHash d) (bytesToHex (txid key)) s) as (b & ps1 & E1 & R1).
  rewrite (standing_blocks _ _ _ o) in E1; [|done|by rewrite bytesToHex_lower]. injection E1 as <- <-.
  by rewrite (V_bind_run _ _ _ _ _ R1).
Qed.
Lemma withdrawn_once key payload d s s' ps2 :
  withdraw_handler key payload s = (Ok true, s') → TWithdraw.decodeTWithdrawPayload payload = Ok d →
  withdrawal_tx (txid key) payload → changes (mixer s') ps2 →
  ∃ o, standing (bytesToHex (assetId d)) (denomination d) (nullifierHash d) o ps2 ∧ toLowerCase o = bytesToHex (txid key).
Proof.
  intros E Hd Ht Hch. apply withdraw_true in E as (d' & ps & _ & Hd' & Hok & Hset & ->).
  rewrite Hd in Hd'. injection Hd' as <-. destruct (settled_standing d _ _ _ _ _ Ht Hd eq_refl Hok Hset) as (o & Hst & Hlow).
  exists o. split; [|done]. cbn [mixer accepted_state] in Hch. eapply changes_standing; [exact Hch| |exact Hst].
  destruct Hok as (_ & Hc & _). destruct (settled_keeps _ _ _ _ Hset) as [-> _]. unfold mixerIsPoolCanonical in Hc.
  destruct (poolRegistry (mixer s) !! _); [by eexists|done].
Qed.

(** ** The service *)
(** A note of a withdrawal: all that was checked of it, in the pools of that moment. *)
Definition withdrawn (k : outpoint) : Prop :=
  vout k = 0 ∧ ∃ tx env d ps, fetchTx (txid k) = Some tx ∧ _txOutputEnvelope tx = Some env ∧ env_opcode env = T_WITHDRAW ∧
    TWithdraw.decodeTWithdrawPayload (env_payload env) = Ok d ∧ withdraw_ok d ps.
Lemma withdraw_maps key payload s s' r :
  withdraw_handler key payload s = (r, s') →
  (∀ k, validatedSet s' !! k = Some true → validatedSet s !! k = Some true ∨ (k = key ∧ r = Ok true)) ∧ rpBatch s' = rpBatch s.
Proof.
  intros E. assert (Hfix : ∀ (b : bool) (s0 : vstate), validatedSet s0 = <[key := b]> (validatedSet s) → (b = true → r = Ok true) →
    rpBatch s0 = rpBatch s → s0 = s' →
    (∀ k, validatedSet s' !! k = Some true → validatedSet s !! k = Some true ∨ (k = key ∧ r = Ok true)) ∧ rpBatch s' = rpBatch s).
  { intros b s0 Hv Hb Hr <-. split; [|done]. intros k. rewrite Hv. destruct (decide (key = k)) as [<-|].
    - rewrite lookup_insert_eq. intros [= ->]. right. auto.
    - rewrite lookup_insert_ne by done. by left. }
  assert (Hno : ∀ s0, refuse key s0 = (r, s') → validatedSet s0 = validatedSet s → rpBatch s0 = rpBatch s →
    (∀ k, validatedSet s' !! k = Some true → validatedSet s !! k = Some true ∨ (k = key ∧ r = Ok true)) ∧ rpBatch s' = rpBatch s).
  { intros s0 E0 Hv Hr. injection E0 as <- E0. eapply (Hfix false); [|done| |exact E0]; cbn; by rewrite ?Hv. }
  unfold withdraw_handler in E. destruct (negb _); [by eapply Hno|]. destruct (decoded _) as [d|]; [|by eapply Hno].
  cbv zeta in E. rewrite (V_bind_run _ _ _ _ _ (get_pools_run s)) in E. repeat (destruct (negb _); [by eapply Hno|]).
  match type of E with context [conflict ?a ?b ?c ?d] => destruct (conflict_run a b c d s) as (b1 & ps1 & _ & R1) end.
  rewrite (V_bind_run _ _ _ _ _ R1) in E. destruct b1; [by eapply Hno|]. destruct (negb _); [by eapply Hno|].
  destruct (verifyMixerProof _ _ _) as [[|]| | |]; try by eapply Hno.
  2,3,4: unfold _strictUnavailable in E; destruct strictValidation; [by injection E as <- <-; auto|];
    injection E as <- E; eapply (Hfix false); [|done| |exact E]; done.
  match type of E with context [conflict ?a ?b ?c ?d] => destruct (conflict_run a b c d (set_pools ps1 s).2) as (b2 & ps2 & _ & R2) end.
  rewrite (V_bind_run _ _ _ _ _ R2) in E. destruct b2; [by eapply Hno|].
  rewrite (V_bind_run _ _ _ _ _ (get_pools_run _)) in E.
  destruct (mixerIsNullifierSpentByOther _ _ _ _ _ _); [by eapply Hno|].
  destruct (mixerReserveWouldBreach _ _ _ _); [by eapply Hno|].
  injection E as <- E. by eapply (Hfix true); [| | |exact E].
Qed.
Lemma withdrawals_laws (svc : outpoint → Prop) (rest : Service) :
  (∀ k, withdrawn k → svc k) → @ServiceLaws _ _ _ rest svc → @ServiceLaws _ _ _ (with_withdrawals rest) svc.
Proof.
  intros Hw Hlaws key tx e Hf He s Hs. unfold service, with_withdrawals. destruct (Z.eqb_spec (env_opcode e) T_WITHDRAW) as [Hop|];
    [|by apply (Hlaws key tx e Hf He)].
  destruct (withdraw_handler key (env_payload e) s) as [r s'] eqn:E. cbn [snd].
  destruct (withdraw_maps _ _ _ _ _ E) as [Hv Hr]. intros Hb k Hk. destruct (Hv k Hk) as [Hold|[-> ->]].
  - apply Hs; [|done]. intros C p Hin. apply Hb. by rewrite Hr.
  - apply valid_service, Hw. apply withdraw_true in E as (d & ps & Hv0 & Hd & Hok & _). split; [done|].
    by exists tx, e, d, (mixer s).
Qed.
End withdraw.
