(* ===== verification/MixerLeafFacts.v ===== *)
(** * What stands behind a leaf

    A deposit believed by the client burns an input worth the denomination, or its owner
    knows a relation between the generators; and the leaves the client takes up are a
    prefix of those the indexer reports, each one verified. *)
From Stdlib Require Import Ascii.
From stdpp Require Import strings pretty.
From S2P Require Import Prelude Bytes Text Crypto EnvelopeScript CodecTransfer CodecIssue CodecPool CodecSlots CodecAmm.
From S2P Require Import Messages Curve Hex Merkle MerkleFacts Mixer MixerProof CodecBridge Kernel Notes MixerLeaf Handlers Validator.
From S2P Require Import WalkFacts ValidSpec ValidShape MixerWithdraw MixerSync MixerTree.

(** ** Deposits *)
Section deposit.
Context `{Hash} {SE : Secp} {CH : Chain}.

(** The deposit the client believed: its transaction, the note it spends, the payload. *)
Record deposit := Deposit { dep_tx : txn; dep_input : txin; dep_payload : bytes; dep_asset : bytes; dep_sig : bytes;
                            dep_note : bytes * bytes }.
Definition deposit_of (t : string) (aid : string) (denom : Z) (leaf : bytes) (d : deposit) : Prop :=
  getTx t = Some (dep_tx d) ∧ tx_vin (dep_tx d) !! 1%nat = Some (dep_input d) ∧
  (∃ env, first_envelope 3 (dep_tx d) = Some env ∧ env_opcode env = T_DEPOSIT ∧ env_payload env = dep_payload d) ∧
  TDeposit.decodeTDepositPayload (dep_payload d) = Ok (TDeposit.Deposit (dep_asset d) denom leaf (dep_sig d)) ∧
  bytesToHex (dep_asset d) = toLowerCase aid ∧
  (∃ parent env, fetchTx (txid (in_prev (dep_input d))) = Some parent ∧ first_envelope 3 parent = Some env ∧
     getParentEnvelopeData env (in_prev (dep_input d)) = Some (dep_note d)) ∧
  bytesToHex (dep_note d).1 = toLowerCase aid.

(** the excess its kernel signs under, once the input's commitment is parsed *)
Definition deposit_excess (C : point) (denom : Z) : res point :=
  denomH ← (if denom =? 0 then mret ZERO else safeMult H denom); mret (add C (negate denomH)).

Lemma deposit_true t aid denom leaf h :
  verifyMixerDepositKernelOnChain t aid denom leaf h = Ok (Some true) →
  ∃ d C E msg, deposit_of t aid denom leaf d ∧ height_differs h (dep_tx d) = false ∧ bytesToPoint (dep_note d).2 = Ok C ∧
    deposit_excess C denom = Ok E ∧ E ≠ ZERO ∧
    computeDepositKernelMsg (dep_asset d) denom (rev (txid (in_prev (dep_input d)))) (vout (in_prev (dep_input d))) leaf = Ok msg ∧
    verifySchnorr (dep_sig d) msg (xonly E) = Ok true.
Proof.
  unfold verifyMixerDepositKernelOnChain. destruct (getTx t) as [tx|] eqn:Ht; [|done].
  destruct (height_differs h tx) eqn:Hh; [done|]. destruct (tx_vin tx !! 1%nat) as [inp|] eqn:Hi; [|done].
  destruct (first_envelope 3 tx) as [env|] eqn:He; [|done]. destruct (Z.eqb_spec (env_opcode env) T_DEPOSIT) as [Hop|]; [|done].
  cbn [negb]. destruct (TDeposit.decodeTDepositPayload (env_payload env)) as [[assetId d' leaf' sig|]| | |] eqn:Hd; try done. cbn [decoded].
  case_bool_decide as Ha; [|done]. destruct (Z.eqb_spec d' denom) as [->|]; [|done]. case_bool_decide as Hl; [|done]. subst leaf'.
  cbn [negb]. destruct (fetchTx _) as [parent|] eqn:Hp; [|done].
  destruct (first_envelope 3 parent) as [penv|] eqn:Hpe; [|done]. cbn [mbind option_bind].
  destruct (getParentEnvelopeData penv (in_prev inp)) as [pd|] eqn:Hpd; [|done]. case_bool_decide as Hpa; [|done]. cbn [negb].
  destruct (bytesToPoint pd.2) as [C| | |] eqn:HC; try done.
  intros E. assert (Hx : ∃ EP, deposit_excess C denom = Ok EP ∧ ∃ msg,
      EP ≠ ZERO ∧ computeDepositKernelMsg assetId denom (rev (txid (in_prev inp))) (vout (in_prev inp)) leaf = Ok msg ∧
      verifySchnorr sig msg (xonly EP) = Ok true).
  { unfold deposit_excess. apply res_bind_Ok in E as (dH & -> & E). exists (add C (negate dH)). split; [done|].
    unfold equals in E. case_bool_decide as Hz; [done|]. apply res_bind_Ok in E as (msg & Hm & E). exists msg.
    apply res_bind_Ok in E as (ok & Hv & [= ->]). done. }
  destruct Hx as (EP & Hex & msg & Hz & Hm & Hv).
  exists (Deposit tx inp (env_payload env) assetId sig pd), C, EP, msg. unfold deposit_of. cbn. split_and!; eauto.
Qed.
Lemma deposit_leaf_32 t aid denom leaf h : verifyMixerDepositKernelOnChain t aid denom leaf h = Ok (Some true) → blen leaf = 32.
Proof.
  intros (d & C & E & msg & _ & _ & _ & _ & _ & Hm & _)%deposit_true. unfold computeDepositKernelMsg in Hm. enc_inv Hm.
  bool_to_prop. lia.
Qed.
Lemma deposit_conserves `{SL : !SecpLaws} v r denom e C E :
  0 <= v < 2 ^ 64 → 0 < denom < 2 ^ 64 → C = commit v r → deposit_excess C denom = Ok E → E = smul e G →
  v = denom ∨ relation (v - denom) (e - r).
Proof.
  intros Hv Hd -> Ex ->. unfold deposit_excess in Ex. destruct (Z.eqb_spec denom 0); [lia|].
  rewrite safeMult_Ok in Ex. cbn [mbind res_bind mret res_ret] in Ex. injection Ex as Ex.
  rewrite commit_H, commit_negate, commit_add in Ex. rewrite Z.add_0_r in Ex. replace (v + - denom) with (v - denom) in Ex by lia.
  assert (HN : 2 ^ 64 < SECP_N) by done. apply excess_conserves in Ex as [?|?]; [left; lia|by right|lia].
Qed.
End deposit.

(** ** The leaves taken up *)
Section sync.
Context `{Hash} {SE : Secp} {CH : Chain} {GR : Groth16} {MC : MixerChain} {PO : Poseidon}.

(** The client checked this leaf, in some state of the pools, and found its position. *)
Definition believed (aid : string) (denom : Z) (ctx : option gctx) (r : leaf_rec) (leaf : bytes) : Prop :=
  ∃ lc dtxid ps, lr_leaf_commitment r = Some lc ∧ lr_deposit_txid r = Some dtxid ∧ hexToBytes lc = Ok leaf ∧
    (check_leaf r aid denom leaf dtxid ctx ps).1 = Some true ∧ position_ok dtxid (lr_tx_index r) = true.

Lemma truthy_Some s x : truthy s = Some x → s = Some x.
Proof. destruct s as [[|]|]; naive_solver. Qed.
Lemma bridge_deposit_trees r aid d ctx ps : poolMerkleTrees (_verifyBridgeDepositProof r aid d ctx ps).2 = poolMerkleTrees ps.
Proof. unfold _verifyBridgeDepositProof, remember. repeat (case_match; try done). Qed.
Lemma check_leaf_trees r aid d leaf dtxid ctx ps : poolMerkleTrees (check_leaf r aid d leaf dtxid ctx ps).2 = poolMerkleTrees ps.
Proof.
  pose proof (bridge_deposit_trees r aid d ctx ps) as Hb. unfold check_leaf. destruct (leaf_kind r) as [k|]; [|done].
  case_bool_decide; [by destruct (_verifyBridgeDepositProof r aid d ctx ps)|].
  by repeat match goal with |- context [if ?b then _ else _] => destruct b end.
Qed.

(** no room, or no tree *)
Definition closed (k : string) (ps : pools) : Prop :=
  ∀ t, poolMerkleTrees ps !! k = Some t → Z.shiftl 1 (Z.of_nat POOL_TREE_DEPTH) <= Z.of_nat (length (leaves t)).
Lemma append_closed aid d leaf gen ps : closed (poolKey aid d gen) ps → mixerAppendLeaf aid d leaf gen ps = (Ok false, ps).
Proof.
  intros Hc. unfold mixerAppendLeaf. destruct (poolMerkleTrees ps !! _) as [t|] eqn:Et; [|done].
  specialize (Hc t Et). by destruct (Z.geb_spec (Z.of_nat (length (leaves t))) (Z.shiftl 1 (Z.of_nat POOL_TREE_DEPTH))); [|lia].
Qed.
Lemma append_leaf_leaves t leaf : leaves (append_leaf t leaf).2 = leaves t ++ [leaf].
Proof. unfold append_leaf. cbv zeta. by destruct (computePoolRoot _). Qed.
Lemma append_open aid d leaf gen ps r ps' (k := poolKey aid d gen) :
  mixerAppendLeaf aid d leaf gen ps = (r, ps') → closed k ps ∨
  (local_leaves k ps' = local_leaves k ps ++ [leaf] ∧ ∀ j, j ≠ k → poolMerkleTrees ps' !! j = poolMerkleTrees ps !! j).
Proof.
  unfold mixerAppendLeaf. fold k. intros E. destruct (poolMerkleTrees ps !! k) as [t|] eqn:Et; [|left; intros t; by rewrite Et].
  destruct (Z.geb_spec (Z.of_nat (length (leaves t))) (Z.shiftl 1 (Z.of_nat POOL_TREE_DEPTH))).
  - left. intros t'. rewrite Et. by intros [= <-].
  - right. pose proof (append_leaf_leaves t leaf) as Hl. destruct (append_leaf t leaf) as [ra t']. injection E as <- <-.
    unfold local_leaves. cbn [poolMerkleTrees set_trees]. rewrite lookup_insert_eq, Et. split; [exact Hl|].
    intros j Hj. by rewrite lookup_insert_ne.
Qed.

Lemma sync_leaves_closed rs aid d gen ctx ps :
  closed (poolKey aid d gen) ps → poolMerkleTrees (sync_leaves rs aid d gen ctx ps).2 = poolMerkleTrees ps.
Proof.
  revert ps. induction rs as [|r rs IH]; intros ps Hc; cbn [sync_leaves]; [done|].
  destruct (truthy _) as [lc|]; [|done]. destruct (truthy _) as [dtxid|]; [|done]. destruct (hexToBytes lc) as [leaf| | |]; try done.
  pose proof (check_leaf_trees r aid d leaf dtxid ctx ps) as Ht. destruct (check_leaf _ _ _ _ _ _ _) as [[[|]|] ps1]; cbn [snd] in *; [|done..].
  destruct (negb _); [done|]. assert (Hc1 : closed (poolKey aid d gen) ps1) by (unfold closed; by rewrite Ht).
  rewrite (append_closed _ _ _ _ _ Hc1). by rewrite IH.
Qed.
(** What is taken up is a prefix of what is reported. *)
Lemma sync_leaves_believed rs aid d gen ctx ps (k := poolKey aid d gen) (ps' := (sync_leaves rs aid d gen ctx ps).2) :
  ∃ new rs1 rs2, local_leaves k ps' = local_leaves k ps ++ new ∧ rs = rs1 ++ rs2 ∧ Forall2 (believed aid d ctx) rs1 new ∧
    ∀ j, j ≠ k → poolMerkleTrees ps' !! j = poolMerkleTrees ps !! j.
Proof.
  assert (Hsame : ∀ rs ps ps', poolMerkleTrees ps' = poolMerkleTrees ps →
    ∃ new rs1 rs2, local_leaves k ps' = local_leaves k ps ++ new ∧ rs = rs1 ++ rs2 ∧ Forall2 (believed aid d ctx) rs1 new ∧
    ∀ j, j ≠ k → poolMerkleTrees ps' !! j = poolMerkleTrees ps !! j).
  { intros rs0 psa psb E. exists [], [], rs0. unfold local_leaves. rewrite E, app_nil_r. split_and!; done. }
  subst ps'. revert ps. induction rs as [|r rs IH]; intros ps; cbn [sync_leaves]; [by apply Hsame|].
  destruct (truthy (lr_leaf_commitment r)) as [lc|] eqn:Hlc; [|by apply Hsame].
  destruct (truthy (lr_deposit_txid r)) as [dtxid|] eqn:Hdt; [|by apply Hsame].
  destruct (hexToBytes lc) as [leaf| | |] eqn:Hleaf; try by apply Hsame.
  pose proof (check_leaf_trees r aid d leaf dtxid ctx ps) as Ht.
  destruct (check_leaf r aid d leaf dtxid ctx ps) as [[[|]|] ps1] eqn:Hck; cbn [snd] in *; [|by apply Hsame..].
  destruct (position_ok dtxid (lr_tx_index r)) eqn:Hpos; [|by apply Hsame]. cbn [negb].
  destruct (mixerAppendLeaf aid d leaf gen ps1) as [ra ps2] eqn:Ha. destruct (append_open _ _ _ _ _ _ _ Ha) as [Hc|[Hl Hj]].
  - rewrite (append_closed _ _ _ _ _ Hc) in Ha. injection Ha as <- <-. apply Hsame. by rewrite (sync_leaves_closed _ _ _ _ _ _ Hc).
  - assert (Hb : believed aid d ctx r leaf).
    { exists lc, dtxid, ps. split; [by apply truthy_Some|]. split; [by apply truthy_Some|]. by rewrite Hck. }
    assert (Hl1 : local_leaves k ps1 = local_leaves k ps) by (unfold local_leaves; by rewrite Ht).
    fold k in Hl. rewrite Hl1 in Hl. fold k in Hj. setoid_rewrite Ht in Hj. destruct ra as [b| | |].
    + destruct (IH ps2) as (new & rs1 & rs2 & E & -> & Hf & Hj2). exists (leaf :: new), (r :: rs1), rs2.
      rewrite E, Hl, <- app_assoc. split_and!; try done; [by constructor|]. intros j Hne. by rewrite Hj2, Hj.
    + exists [leaf], [r], rs. split_and!; try done. by constructor.
    + exists [leaf], [r], rs. split_and!; try done. by constructor.
    + exists [leaf], [r], rs. split_and!; try done. by constructor.
Qed.

Lemma prefix_agrees local remote i l r h :
  prefix_diverged local remote = false → local !! i = Some l → remote !! i = Some r → lr_leaf_commitment r = Some h →
  bytesToHex l = toLowerCase h.
Proof.
  revert remote i. induction local as [|l0 local IH]; intros [|r0 remote] [|i] Hp Hl Hr Hh; cbn in *; try done.
  - injection Hl as ->. injection Hr as ->. rewrite Hh in Hp. by case_bool_decide.
  - destruct (lr_leaf_commitment r0); [case_bool_decide; [|done]|]; by eapply IH.
Qed.
Lemma not_diverged local remote : diverged local remote = false → prefix_diverged local remote = false.
Proof. unfold diverged. destruct local; [by destruct remote|]. by intros [? _]%orb_false_iff. Qed.

(** ** One pool *)
Lemma local_alter k f ps j :
  local_leaves j (alter_tree k f ps) =
    (if decide (j = k) then match poolMerkleTrees ps !! k with Some t => leaves (f t) | None => [] end else local_leaves j ps).
Proof.
  unfold local_leaves, alter_tree. cbn [poolMerkleTrees set_trees]. destruct (decide (j = k)) as [->|].
  - rewrite lookup_alter_eq. by destruct (poolMerkleTrees ps !! k).
  - by rewrite lookup_alter_ne.
Qed.
Lemma local_alter_same k f ps j : (∀ t, leaves (f t) = leaves t) → local_leaves j (alter_tree k f ps) = local_leaves j ps.
Proof.
  intros Hf. rewrite local_alter. destruct (decide (j = k)) as [->|]; [|done]. unfold local_leaves.
  destruct (poolMerkleTrees ps !! k); [apply Hf|done].
Qed.
Lemma prepare_leaves k remote pending ps :
  local_leaves k (prepare_tree k remote pending ps) = if diverged (local_leaves k ps) remote then [] else local_leaves k ps.
Proof.
  unfold prepare_tree. cbv zeta. rewrite local_alter_same by done. destruct (diverged _ _).
  - rewrite local_alter, decide_True by done. by destruct (poolMerkleTrees _ !! k).
  - by apply local_alter_same.
Qed.
Lemma sync_nullifiers_trees ns aid d gen ps : poolMerkleTrees (sync_nullifiers ns aid d gen ps).2 = poolMerkleTrees ps.
Proof.
  revert ps. induction ns as [|n ns IH]; intros ps; cbn [sync_nullifiers]; [done|].
  destruct (truthy _) as [h|]; [|done]. destruct (hexToBytes h); try done. rewrite IH. by destruct (mixerIsNullifierSpent _ _ _ _ _).
Qed.
Lemma register_leaves p ps k : same_keys ps → local_leaves k (register_listed p ps) = local_leaves k ps.
Proof.
  intros Hs. unfold register_listed. cbv zeta. destruct (mixerIsPoolRegistered _ _ _ _) eqn:Er; [done|].
  unfold mixerIsPoolRegistered in Er. apply bool_decide_eq_false in Er. unfold mixerRegisterPool.
  rewrite bool_decide_eq_false_2 by done. unfold local_leaves. cbn [snd poolMerkleTrees].
  destruct (decide (poolKey (pr_asset_id p) (pr_pool_denom p) (pr_gen p) = k)) as [<-|]; [|by rewrite lookup_insert_ne].
  rewrite lookup_insert_eq. cbn [leaves]. destruct (poolMerkleTrees ps !! _) eqn:Et; [|done]. exfalso. apply Er.
  apply Hs. by eexists.
Qed.
Definition sync_ctx (p : pool_rec) : option gctx :=
  if bool_decide (pr_gen p = ""%string) then None else find (λ g, bool_decide (g_gen g = pr_gen p)) tethGenList.

Lemma processPool_leaves p d ps (remote := filter (λ l, included (lr_status l) = true) (pd_leaves d))
    (k := poolKey (pr_asset_id p) (pr_pool_denom p) (pr_gen p)) :
  same_keys ps → (pr_leaf_count p =? 0) && (pr_nullifier_count p =? 0) = false →
  let kept := if diverged (local_leaves k ps) remote then [] else local_leaves k ps in
  ∃ new rs1 rs2, local_leaves k (processPool p (Some d) ps).2 = kept ++ new ∧
    drop (length kept) remote = rs1 ++ rs2 ∧ Forall2 (believed (pr_asset_id p) (pr_pool_denom p) (sync_ctx p)) rs1 new.
Proof.
  intros Hs Hc kept. unfold processPool. cbv zeta. rewrite Hc. fold remote k.
  pose proof (prepare_leaves k remote (pd_pending_leaf_count d) (register_listed p ps)) as Hp.
  rewrite register_leaves in Hp by done. fold kept in Hp. set (ps2 := prepare_tree _ _ _ _) in *.
  assert (Hsync : ∃ new rs1 rs2, local_leaves k (sync_pool_leaves p remote ps2).2 = kept ++ new ∧
    drop (length kept) remote = rs1 ++ rs2 ∧ Forall2 (believed (pr_asset_id p) (pr_pool_denom p) (sync_ctx p)) rs1 new).
  { unfold sync_pool_leaves. cbv zeta. fold k. rewrite Hp. destruct (_ || _).
    - exists [], [], (drop (length kept) remote). rewrite app_nil_r. split_and!; [exact Hp|done|constructor].
    - fold (sync_ctx p). destruct (sync_leaves_believed (drop (length kept) remote) (pr_asset_id p) (pr_pool_denom p) (pr_gen p)
        (sync_ctx p) ps2) as (new & rs1 & rs2 & E & Hd & Hf & _). fold k in E. rewrite Hp in E.
      exists new, rs1, rs2. split; [|done].
      destruct (sync_leaves _ _ _ _ _ _) as [[b| | |] ps3]; try exact E. cbn [snd]. by rewrite local_alter_same. }
  destruct (sync_pool_leaves p remote ps2) as [[u| | |] ps3]; try exact Hsync. cbn [snd] in *.
  unfold local_leaves. by rewrite sync_nullifiers_trees.
Qed.
End sync.

(** ** Bridge leaves *)
Section bridge.
Context `{Hash} {SE : Secp} {CH : Chain} {GR : Groth16} {MC : MixerChain}.

Definition cache_key (r : leaf_rec) (id : string) : string := (id +:+ ":" +:+ default "undefined" (lr_leaf_commitment r))%string.
(** The proof is the transaction's; the leaf is not compared with it. *)
Lemma bridge_deposit_any_leaf r r' id aid d ctx ps :
  lr_deposit_txid r = Some id → lr_deposit_txid r' = Some id →
  bridgeProofCache ps !! cache_key r id = None → bridgeProofCache ps !! cache_key r' id = None →
  (_verifyBridgeDepositProof r aid d ctx ps).1 = (_verifyBridgeDepositProof r' aid d ctx ps).1.
Proof.
  unfold cache_key. intros Hr Hr' Hc Hc'. unfold _verifyBridgeDepositProof. cbv zeta. rewrite Hr, Hr', Hc, Hc'. unfold remember.
  repeat (case_match; try done).
Qed.
(** An answer once kept serves every pool. *)
Lemma bridge_deposit_cached r id aid d ctx ps ok :
  lr_deposit_txid r = Some id → bridgeProofCache ps !! cache_key r id = Some ok →
  _verifyBridgeDepositProof r aid d ctx ps = (Some ok, ps).
Proof. unfold cache_key. intros Hr Hc. unfold _verifyBridgeDepositProof. cbv zeta. by rewrite Hr, Hc. Qed.
(** A deposit that cannot be fetched counts as refuted. *)
Lemma bridge_deposit_missing r id aid d leaf dtxid ctx ps :
  leaf_kind r = Some "bridge_deposit"%string → lr_deposit_txid r = Some id → getTx id = None →
  bridgeProofCache ps !! cache_key r id = None → check_leaf r aid d leaf dtxid ctx ps = (Some false, ps).
Proof.
  unfold cache_key. intros Hk Hr Hg Hc. unfold check_leaf. cbv zeta. rewrite Hk, bool_decide_eq_true_2 by done.
  unfold _verifyBridgeDepositProof. cbv zeta. by rewrite Hr, Hc, Hg.
Qed.
Definition bridge_payload (opcode : Z) (tx : txn) : option bytes :=
  match witness_payload opcode tx with Some p => Some p | None => find_op_return opcode (tx_vout tx) end.
(** An import is believed on its own word. *)
Lemma bridge_import_unproved r id tx x aid d ctx ps :
  lr_deposit_txid r = Some id → getTx id = Some tx → bridge_payload T_BRIDGE_IMPORT tx = Some (encodeTBridgeImportPayload x) →
  import_fits x → im_networkTag x = (if onSignet then 1 else 0) → bytesToHex (im_assetId x) = toLowerCase aid →
  unbe (im_denomWei x) = d → lr_leaf_commitment r = Some (bytesToHex (im_newCommitment x)) →
  _verifyBridgeRotateImportLeaf r aid d "bridge_import" ctx ps = Ok (Some true).
Proof.
  intros Hr Hg Hp Hf Hn Ha Hd Hl. destruct (import_layout x Hf) as (E1 & E2 & E3 & E4). unfold _verifyBridgeRotateImportLeaf. cbv zeta.
  rewrite Hr, Hg. rewrite bool_decide_eq_false_2 by done. fold (bridge_payload T_BRIDGE_IMPORT tx). rewrite Hp, E1, E2, E3, E4, Ha, Hl.
  assert (H1 : byteZ <$> encodeTBridgeImportPayload x !! 1%nat = Some (if onSignet then 1 else 0)).
  { unfold encodeTBridgeImportPayload. rewrite !concatBytes_cons. rewrite <- Hn. destruct Hf as (Ht & _).
    rewrite land_byte by done. unfold u8b. cbn [app lookup list_lookup fmap option_fmap option_map]. by rewrite byteZ_of_Z, Z.mod_small. }
  rewrite H1. rewrite !bool_decide_eq_true_2 by done. cbn [negb].
  unfold BigInt_hex. destruct Hf as (_ & _ & Hdl & _). unfold blen in Hdl. rewrite bytesToHex_length, hex_number_bytes.
  assert (length (im_denomWei x) = 32%nat) as -> by lia. cbn [Nat.mul Nat.add Nat.eqb mbind res_bind mret res_ret].
  rewrite Hd, Z.eqb_refl. cbn [negb]. change (164 <? 164) with false. cbn [default]. cbv iota.
  apply (f_equal (λ b, Ok (Some b))), bool_decide_eq_true_2. symmetry. apply bytesToHex_lower.
Qed.
End bridge.
