(* ===== verification/ValidComplete.v ===== *)
(** * The validator is complete

    On a node whose inputs have been called true, every handler of a valid note answers
    true; a valid note has finitely many ancestors and no cycles among them, so the walk
    ends and the order visits inputs before the notes that spend them.  Hence a valid
    note is called true.  (Notes a service vouches for are left to the service, and
    nothing is bound to the Ethereum pool.) *)
From S2P Require Import Prelude Bytes Crypto EnvelopeScript CodecTransfer CodecIssue CodecPool CodecSlots CodecAmm.
From S2P Require Import Messages Curve Kernel Notes Handlers Validator WalkFacts ValidSpec ValidShape ValidSound.

Section completeness.
Context `{Hash} {SE : Secp} {CH : Chain} {SV : Service}.
Context (Hunbound : poolBinding = None).

(** no service vouches *)
Definition no_service : outpoint → Prop := λ _, False.
Notation valid := (valid no_service).

(** Nothing has been refused, nothing is bound. *)
Definition clean (s : vstate) : Prop :=
  boundOutpointKeys s = ∅ ∧ ∀ k b, validatedSet s !! k = Some b → b = true.
Definition grows (s s' : vstate) : Prop :=
  ∀ k, validatedSet s !! k = Some true → validatedSet s' !! k = Some true.
(** the call answers true and calls [key] true *)
Definition accepts (key : outpoint) (m : V bool) (s : vstate) : Prop :=
  ∃ s', m s = (Ok true, s') ∧ clean s' ∧ grows s s' ∧ validatedSet s' !! key = Some true.

Lemma set_true_accepts key s s' :
  clean s → validatedSet s' = <[key := true]> (validatedSet s) → boundOutpointKeys s' = boundOutpointKeys s →
  clean s' ∧ grows s s' ∧ validatedSet s' !! key = Some true.
Proof.
  intros [Hb Hc] Hv Hbk. unfold clean, grows. rewrite Hv, Hbk. split_and!; [done| | |by rewrite lookup_insert_eq].
  - intros k b. destruct (decide (key = k)) as [->|]; [rewrite lookup_insert_eq; congruence|].
    rewrite lookup_insert_ne by done. apply Hc.
  - intros k Hk. destruct (decide (key = k)) as [->|]; [by rewrite lookup_insert_eq|by rewrite lookup_insert_ne].
Qed.

Lemma range_bp_complete proof Cpts s :
  bpRangeAggVerify Cpts proof = true →
  ∃ s', range_bp proof Cpts s = (Ok true, s') ∧ validatedSet s' = validatedSet s ∧
    boundOutpointKeys s' = boundOutpointKeys s.
Proof. intros Hp. unfold range_bp. destruct (rpBatch s); eexists; [done|by rewrite Hp]. Qed.

Lemma issue_range_complete key C proof s :
  clean s → issued C proof → accepts key (issue_range key C proof) s.
Proof.
  intros Hc (P & HP & Hr). unfold issue_range. rewrite HP.
  destruct (range_bp_complete proof [P] s Hr) as (s1 & E1 & Hv1 & Hb1).
  unfold accepts. rewrite (V_bind_run _ _ _ _ _ E1). eexists. split; [done|].
  apply set_true_accepts; [done|cbn; by rewrite Hv1|done].
Qed.

Lemma tail_complete ks mark t rng s :
  marks ks mark → runs_range t rng → transfer_ok t →
  (∀ i, i ∈ t_ins t → validatedSet s !! i = Some true) →
  ∃ s', transfer_tail mark (t_ins t) (t_outs t) rng (t_asset t) (t_burned t) (t_kernelSig t) s = (Ok true, s') ∧
    validatedSet s' = set_all true ks (validatedSet s) ∧ boundOutpointKeys s' = boundOutpointKeys s.
Proof.
  intros Hm Hr (Cpts & ics & E' & msg & HC & Hrg & Hics & HE & HZ & Hmsg & Hsig) Hpar. unfold transfer_tail.
  destruct (parentFailure_run (t_ins t) s) as (pf & E & Hpf). rewrite (V_bind_run _ _ _ _ _ E).
  destruct pf as [r|]; [by pose proof (proj2 Hpf Hpar)|]. rewrite HC.
  assert (∃ s1, rng Cpts s = (Ok true, s1) ∧ validatedSet s1 = validatedSet s ∧
            boundOutpointKeys s1 = boundOutpointKeys s) as (s1 & E1 & Hv1 & Hb1).
  { rewrite Hr. destruct (t_kind t); [by apply range_bp_complete|]. exists s. by rewrite Hrg. }
  rewrite (V_bind_run _ _ _ _ _ E1). cbn [negb]. rewrite Hics, HE. unfold equals.
  rewrite bool_decide_eq_false_2 by done. unfold lift at 1. unfold mbind at 1, V_bind at 1. rewrite Hmsg.
  unfold lift at 1. unfold mbind at 1, V_bind at 1. rewrite Hsig.
  destruct (Hm true None s1) as [rs E2]. rewrite (V_bind_run _ _ _ _ _ E2).
  eexists. split; [done|]. cbn. by rewrite Hv1, Hb1.
Qed.

Lemma transfer_vouts_nonneg tx e t v : transfer_of tx e = Some t → v ∈ t_vouts t → 0 <= v.
Proof.
  intros E. transfer_cases E; rewrite ?indices_elem; try lia.
  1, 2: set_solver by lia.
  1: unfold bid_vouts; destruct (_ =? _)%nat; set_solver by lia.
  unfold bid_vouts, bid_var_changeVout. destruct (_ =? _)%nat, (PreauthBidVar.fillAmount d <? PreauthBidVar.maxFill d); set_solver by lia.
Qed.

Lemma transfer_complete key tx e t s :
  transfer_of tx e = Some t → vout key ∈ t_vouts t → transfer_ok t → clean s →
  (∀ i, i ∈ t_ins t → validatedSet s !! i = Some true) → accepts key (dispatch key tx e) s.
Proof.
  intros Ht Hk Hok [Hcb Hct] Hpar. pose proof (transfer_vouts_nonneg _ _ _ _ Ht Hk) as Hv.
  destruct (dispatch_shape key tx e Hv (transfer_of_opcode _ _ _ Ht)) as [(t' & mark & rng & post & Ht' & _ & Hm & Hr & Hp & E)|[Hno _]].
  2: { by destruct (Hno t Ht). }
  rewrite Ht in Ht'. injection Ht' as <-.
  destruct (tail_complete _ mark t rng s Hm Hr Hok Hpar) as (s1 & E1 & Hv1 & Hb1).
  assert (Hin : key ∈ note_keys key t) by (apply list_elem_of_fmap; exists (vout key); by destruct key).
  assert (Hk1 : validatedSet s1 !! key = Some true) by (by rewrite Hv1, set_all_lookup, bool_decide_eq_true_2).
  exists s1. rewrite E, (V_bind_run _ _ _ _ _ E1). destruct Hp as (_ & _ & Hp). split; [by apply Hp|].
  unfold clean. split_and!; [by rewrite Hb1| | |done].
  - intros k b. rewrite Hv1, set_all_lookup. case_bool_decide; [congruence|apply Hct].
  - intros k Hkt. rewrite Hv1, set_all_lookup. by case_bool_decide.
Qed.

Lemma mint_complete key tx e d s :
  mint_ok key tx e d → clean s → validatedSet s !! Outpoint (CMint.etchTxid d) 0 = Some true →
  accepts key (mint_handler key tx (env_payload e)) s.
Proof.
  intros (Hop & Hv & Hd & Ha & (etchTx & etchEnv & etchDec & Hn & Heop & Hed & i0 & rest & commitTx & ci & rest' & msg &
    Hi0 & Hct & Hci & Hmsg & Hsig) & Hiss) Hc Hpar.
  apply node_env_Some in Hn as (Hf & ei & erest & Hei & Hw). cbn [txid] in Hf.
  unfold mint_handler. rewrite Hv, Hd. cbn [Z.eqb negb decoded]. rewrite bool_decide_eq_true_2 by done. cbn [negb].
  rewrite Hf, Hei. destruct (Nat.ltb_spec (length (in_witness ei)) 3); [apply witnessEnvelope_len in Hw; lia|].
  rewrite Hw, Heop. change (T_CETCH =? T_CETCH) with true. cbn [negb]. rewrite Hed. cbn [negb decoded].
  unfold accepts. unfold mbind at 1, V_bind at 1, get. rewrite bool_decide_eq_true_2 by done. cbn [negb].
  unfold mint_commit. rewrite Hi0, Hct, Hci. unfold lift at 1. unfold mbind at 1, V_bind at 1. rewrite Hmsg.
  unfold lift at 1. unfold mbind at 1, V_bind at 1. rewrite Hsig. cbn [negb]. by apply issue_range_complete.
Qed.

Lemma etch_complete key e s :
  etch_ok key e → clean s → accepts key (cetch_handler key (env_payload e)) s.
Proof.
  intros (Hop & Hv & d & m & Hd & Hiss) Hc. unfold cetch_handler. rewrite Hv, Hd. cbn [Z.eqb negb decoded].
  by apply issue_range_complete.
Qed.

(** ** One outpoint *)
Lemma boundSpendPending_clean tx s : clean s → _boundSpendPending tx s = (Ok None, s).
Proof.
  intros [Hb _].
  assert (E : ∀ l, filter (λ k, k ∈ boundOutpointKeys s) l = []).
  { intros l. induction l as [|k l IH]; [done|]. rewrite filter_cons_False; [done|]. rewrite Hb. set_solver. }
  unfold _boundSpendPending, mbind, V_bind, get. by rewrite E.
Qed.

Lemma single_dispatch key tx e s :
  node_env key = Some (tx, e) → env_opcode e ≠ T_BTC_SPEND → clean s → validatedSet s !! key = None →
  _validateOutpointSingle key s = dispatch key tx e s.
Proof.
  intros (Hf & i0 & rest & Hi & Hw)%node_env_Some Hop Hc Hk.
  unfold _validateOutpointSingle. unfold mbind, V_bind, get. rewrite Hk, Hf, Hi.
  assert (Ho : _txOutputEnvelope tx = Some e) by (unfold _txOutputEnvelope; by rewrite Hi, Hw).
  rewrite Ho. destruct (Z.eqb_spec (env_opcode e) T_BTC_SPEND); [done|].
  unfold validate_witness. pose proof (witnessEnvelope_len _ _ Hw).
  destruct (Nat.eqb_spec (length (in_witness i0)) 0); [lia|]. destruct (Nat.ltb_spec (length (in_witness i0)) 3); [lia|].
  rewrite Hw. unfold mbind, V_bind. by rewrite boundSpendPending_clean.
Qed.

Lemma transfer_not_btc tx e t : transfer_of tx e = Some t → env_opcode e ≠ T_BTC_SPEND.
Proof.
  intros Ht%transfer_of_opcode E. rewrite E in Ht.
  repeat (apply elem_of_cons in Ht as [Ht|Ht]; [done|]). by apply elem_of_nil in Ht.
Qed.

Lemma single_complete key s :
  valid key → ¬ tracked_note key → clean s → validatedSet s !! key = None →
  (∀ p, p ∈ node_parents key → validatedSet s !! p = Some true) →
  accepts key (_validateOutpointSingle key) s.
Proof.
  intros Hval Hnt Hc Hk Hpar. unfold accepts. destruct Hval as [k tx e Hn Hok|k tx e d Hn Hok _|k tx e t Hn Ht Hkt Hok _|k Htr|k []]; [| | |done].
  - rewrite (single_dispatch k tx e) by (done || by destruct Hok as [-> _]).
    pose proof Hok as [Hop _]. unfold dispatch. rewrite Hop. by apply etch_complete.
  - rewrite (single_dispatch k tx e) by (done || by destruct Hok as [-> _]).
    pose proof Hok as [Hop (_ & Hd & _)]. unfold dispatch. rewrite Hop. apply (mint_complete k tx e d); [done|done|].
    apply Hpar. unfold node_parents. rewrite Hn. unfold parents. rewrite Hop. cbn. rewrite Hd. cbn. by left.
  - rewrite (single_dispatch k tx e) by (done || by eapply transfer_not_btc).
    apply (transfer_complete k tx e t); try done. intros i Hi. apply Hpar. unfold node_parents.
    rewrite Hn. by rewrite (parents_transfer tx e t).
Qed.

(** ** The ancestors of a valid note *)
Lemma valid_parents key : valid key → ¬ tracked_note key → ∀ p, p ∈ node_parents key → valid p.
Proof.
  intros Hval Hnt p. unfold node_parents. destruct Hval as [k tx e Hn Hok|k tx e d Hn Hok He|k tx e t Hn Ht Hkt Hok Hi|k Htr|k []]; [| | |done].
  - rewrite Hn. destruct Hok as [Hop _]. unfold parents. rewrite Hop. by intros ?%elem_of_nil.
  - rewrite Hn. destruct Hok as [Hop (_ & Hd & _)]. unfold parents. rewrite Hop. cbn. rewrite Hd. cbn.
    by intros ->%list_elem_of_singleton.
  - rewrite Hn, (parents_transfer tx e t) by done. apply Hi.
Qed.

(** Nothing below needs to know why a note is valid: only that [valid] is well-founded
    along the parents the walk takes up. *)
Lemma valid_rect_parents (P : outpoint → Prop) :
  (∀ k, (¬ tracked_note k → ∀ p, p ∈ node_parents k → P p) → P k) → ∀ k, valid k → P k.
Proof.
  intros HP k Hval. induction Hval as [k tx e Hn Hok|k tx e d Hn Hok He IH|k tx e t Hn Ht Hkt Hok Hi IH|k Htr|k []];
    apply HP; intros Hnt p; [| | |done]; unfold node_parents; rewrite Hn.
  - destruct Hok as [Hop _]. unfold parents. rewrite Hop. by intros ?%elem_of_nil.
  - destruct Hok as [Hop (_ & Hd & _)]. unfold parents. rewrite Hop. cbn. rewrite Hd. cbn.
    by intros ->%list_elem_of_singleton.
  - rewrite (parents_transfer tx e t) by done. apply IH.
Qed.

Definition closed (U : list outpoint) : Prop :=
  ∀ k p, k ∈ U → ¬ tracked_note k → p ∈ node_parents k → p ∈ U.

Lemma closed_union (l : list outpoint) :
  (∀ p, p ∈ l → ∃ U, p ∈ U ∧ closed U) → ∃ U, (∀ p, p ∈ l → p ∈ U) ∧ closed U.
Proof.
  induction l as [|p l IH]; intros Hl.
  - exists []. split; [done|]. by intros k q ?%elem_of_nil.
  - destruct IH as (U & HU & HcU); [set_solver|]. destruct (Hl p ltac:(by left)) as (W & HW & HcW).
    exists (W ++ U). split; [set_solver|]. intros k q [Hk|Hk]%elem_of_app Hnt Hq; apply elem_of_app; eauto.
Qed.

Lemma valid_closure k : valid k → ∃ U, k ∈ U ∧ closed U.
Proof.
  intros Hval. pattern k. revert k Hval. apply valid_rect_parents. intros k Hp.
  destruct (decide (tracked_note k)) as [Ht|Ht].
  - exists [k]. split; [by left|]. by intros j p ->%list_elem_of_singleton.
  - destruct (closed_union (node_parents k) (Hp Ht)) as (U & HU & HcU). exists (k :: U). split; [by left|].
    intros j p [->|Hj]%elem_of_cons Hnt Hq; right; eauto.
Qed.

(** Every node the walk reaches from a valid note is valid. *)
Lemma valid_ancestor root k : valid root → ancestor root k → valid k.
Proof.
  intros Hr Hk. induction Hk as [|x y z [Hnt Hy] _ IH]; [done|]. apply IH. by eapply valid_parents.
Qed.

Lemma tc_irrefl_Acc (R : outpoint → outpoint → Prop) k : Acc R k → ¬ tc R k k.
Proof.
  induction 1 as [k _ IH]. intros Hk.
  assert (∃ y, R y k ∧ tc R y y) as (y & Hy & Hyy); [|by eapply IH].
  assert (Hlast : ∀ a b, tc R a b → R a b ∨ ∃ y, tc R a y ∧ R y b).
  { induction 1 as [a b HR|a b c HR _ [HR'|(y & ? & ?)]]; [by left|right..].
    - exists b. split; [by apply tc_once|done].
    - exists y. split; [by eapply tc_l|done]. }
  destruct (Hlast k k Hk) as [HR|(y & Hky & HR)]; [by exists k|].
  exists y. split; [done|]. by eapply tc_l.
Qed.

Lemma walk_deps root s0 w s k x :
  walk_ok root s0 (length (topoList w)) w s → x ∈ deps_of w k → ¬ tracked_note k ∧ x ∈ node_parents k.
Proof.
  intros Hw Hx. destruct (decide (k ∈ topoList w)) as [Hk|Hk].
  - destruct (wk_done _ _ _ _ _ Hw k ltac:(by rewrite take_ge)) as [(E & _)|(E & ? & _)]; rewrite E in Hx; [|done].
    by apply elem_of_nil in Hx.
  - rewrite (wk_fresh _ _ _ _ _ Hw) in Hx by (by rewrite take_ge). by apply elem_of_nil in Hx.
Qed.

Lemma walk_acyclic root s0 w s :
  valid root → walk_ok root s0 (length (topoList w)) w s → acyclic w.
Proof.
  intros Hr Hw k Hk. apply tc_irrefl_Acc.
  assert (Hv : valid k) by (eapply valid_ancestor; [exact Hr|by eapply wk_reach]). clear Hk.
  pattern k. revert k Hv. apply valid_rect_parents. intros k IH. constructor. intros x Hx.
  destruct (walk_deps _ _ _ _ _ _ Hw Hx) as [Hnt Hp]. by apply IH.
Qed.

(** Nodes in an order that puts parents first are all called true. *)
Lemma validate_each_complete root s0 w s1 l pre post s :
  valid root → walk_ok root s0 (length (topoList w)) w s1 → clean s1 →
  l ≡ₚ topoList w → parents_first w l → l = pre ++ post → clean s → grows s1 s →
  (∀ k, k ∈ pre → validatedSet s !! k = Some true) →
  ∃ s', validate_each post s = (Ok tt, s') ∧ ∀ k, k ∈ l → validatedSet s' !! k = Some true.
Proof.
  intros Hr Hw Hc1 Hperm Hpf. revert pre s. induction post as [|k post IH]; intros pre s -> Hc Hg Hpre.
  - exists s. rewrite app_nil_r. split; [done|exact Hpre].
  - cbn [validate_each]. unfold mbind at 1, V_bind at 1, get.
    assert (Hnext : ∀ s', clean s' → grows s s' → validatedSet s' !! k = Some true →
              ∃ s'', validate_each post s' = (Ok tt, s'') ∧ ∀ j, j ∈ pre ++ k :: post → validatedSet s'' !! j = Some true).
    { intros s' Hc' Hg' Hk'. apply (IH (pre ++ [k])); [by rewrite <- app_assoc|done|by intros j ?; apply Hg', Hg|].
      intros j [Hj| ->%list_elem_of_singleton]%elem_of_app; [by apply Hg', Hpre|done]. }
    assert (Hkt : k ∈ topoList w) by (rewrite <- Hperm; set_solver).
    destruct (validatedSet s !! k) as [b|] eqn:Hk.
    + rewrite bool_decide_eq_true_2 by eauto. unfold mbind, V_bind, mret, V_ret. apply Hnext; [done|by intros ??|].
      by rewrite <- (proj2 Hc k b Hk).
    + rewrite bool_decide_eq_false_2 by (by intros [? ?]).
      destruct (wk_done _ _ _ _ _ Hw k ltac:(by rewrite take_ge)) as [(_ & _ & Ht)|(Hd & Hnt & Hcl)].
      { apply Hg in Ht. congruence. }
      assert (Hv : valid k) by (eapply valid_ancestor; [exact Hr|by eapply wk_reach]).
      destruct (single_complete k s Hv Hnt Hc Hk) as (s' & E & Hc' & Hg' & Hk').
      * intros p Hp. destruct (Hcl p Hp) as [Hpt|[b Hb]].
        -- apply Hpre. rewrite <- Hd in Hp. specialize (Hpf (length pre) k p).
           rewrite list_lookup_middle, take_app_length in Hpf by done. by apply Hpf.
        -- apply Hg. by rewrite <- (proj2 Hc1 p b Hb).
      * unfold mbind, V_bind, mret, V_ret. rewrite E. by apply Hnext.
Qed.

Lemma walk_clean root s0 cursor w s : walk_ok root s0 cursor w s → clean s0 → clean s.
Proof.
  intros [_ _ _ _ Hvs _ [_ Hb]] [Hb0 Hc]. split; [by rewrite Hb|]. intros k b Hk.
  destruct (Hvs k b Hk) as [?|[-> _]]; [by eapply Hc|done].
Qed.

Lemma validateOutpoint_complete root s :
  valid root → clean s →
  ∃ n, ∀ fuel, (n <= fuel)%nat → ∃ s', validateOutpoint fuel root s = Some (Ok true, s').
Proof.
  intros Hv Hc. unfold validateOutpoint. destruct (validatedSet s !! root) as [b|] eqn:Hroot.
  { exists 0%nat. intros fuel _. exists s. by rewrite (proj2 Hc root b Hroot). }
  destruct (valid_closure root Hv) as (U & HrU & HcU). exists (length U). intros fuel Hfuel.
  destruct (walk_start_ok s root Hroot) as [Ht0 Hw0].
  destruct (walk_loop_total root s U fuel 0 _ s HcU Hw0) as (w & s1 & E); [rewrite Ht0; set_solver|lia|].
  fold (walk_start s root). rewrite E. cbn [mbind option_bind].
  destruct (walk_loop_ok _ _ _ _ _ _ _ _ Hw0 E) as (w' & [= <-] & Hw & [new Hpre]).
  destruct (order_of_spec w (wk_nodup _ _ _ _ _ Hw)) as (ks & -> & Hperm & Hpf). cbn [mbind option_bind].
  pose proof (walk_clean _ _ _ _ _ Hw Hc) as Hc1.
  destruct (validate_each_complete root s w s1 ks [] ks s1 Hv Hw Hc1 Hperm) as (s2 & E2 & Hall); try done.
  { apply Hpf. by eapply walk_acyclic. }
  { by intros ? ?. }
  { by intros ? ?%elem_of_nil. }
  exists s2. rewrite (V_bind_run _ _ _ _ _ E2). unfold mbind, V_bind, get.
  rewrite Hall; [done|]. rewrite Hperm, Hpre, Ht0. by left.
Qed.
End completeness.
