(* ===== verification/ValidFacts.v ===== *)
(** * What a valid note guarantees

    The asset and commitment [getParentEnvelopeData] reads for an output are the ones
    its transfer proved; a transfer's inputs are notes of its own asset, so every note
    descends from the etch its asset id is the hash of; and a transfer with known
    openings conserves the amounts. *)
From S2P Require Import Prelude Bytes Crypto EnvelopeScript CodecTransfer CodecIssue CodecPool CodecSlots CodecAmm.
From S2P Require Import Messages Curve Kernel Notes Handlers Validator WalkFacts ValidSpec ValidShape ValidSound ValidComplete.

Section facts.
Context `{Hash} {SE : Secp} {CH : Chain} {SV : Service}.

(** asset and commitment of an output, from its own transaction *)
Definition note_data (k : outpoint) : option (bytes * bytes) :=
  tx ← fetchTx (txid k); e ← _txOutputEnvelope tx; getParentEnvelopeData e k.

Lemma node_output_env k tx e : node_env k = Some (tx, e) → _txOutputEnvelope tx = Some e.
Proof. intros (_ & i0 & rest & Hi & Hw)%node_env_Some. unfold _txOutputEnvelope. by rewrite Hi, Hw. Qed.

Lemma node_data k tx e : node_env k = Some (tx, e) → note_data k = getParentEnvelopeData e k.
Proof.
  intros Hn. unfold note_data. pose proof Hn as (-> & _)%node_env_Some. cbn.
  by rewrite (node_output_env k tx e).
Qed.

(** ** Outputs *)
Definition output_data (t : transfer) (i : nat) : option (bytes * bytes) :=
  C ← t_outs t !! i; Some (t_asset t, C).

Lemma note_of_commitments a (outs : list output) i o :
  outs !! i = o → note_of a o = (C ← commitments outs !! i; Some (a, C)).
Proof. intros <-. unfold commitments. rewrite list_lookup_fmap. by destruct (outs !! i). Qed.

Lemma output_at_index (outs : list output) i v :
  indices (length outs) !! i = Some v → output_at outs v = outs !! i.
Proof.
  unfold indices. rewrite list_lookup_fmap. intros (j & (-> & Hj)%lookup_seq & ->)%fmap_Some.
  unfold output_at. destruct (Z.geb_spec (Z.of_nat (0 + i)) (Z.of_nat (length outs))); [lia|].
  by rewrite Nat2Z.id.
Qed.

Lemma axferVar_at i v : [0; 2] !! i = Some v → axferVarOutputIndexForVout v = Some (Z.of_nat i).
Proof. by destruct i as [|[|i]]; intros [= <-]. Qed.

Lemma bid_at change outs i v :
  change ≠ 0 → bid_vouts change outs !! i = Some v → bid_index v change (length outs) = Some i.
Proof.
  intros Hc. unfold bid_vouts, bid_index. destruct (length outs =? 2)%nat eqn:Hl.
  - destruct i as [|[|i]]; intros [= <-]; [done|]. rewrite Z.eqb_refl. by destruct (Z.eqb_spec change 0).
  - by destruct i as [|i]; intros [= <-].
Qed.

(** The data of the output a transfer gives the transaction output [vout k]. *)
Lemma transfer_data tx e t k i :
  transfer_of tx e = Some t → t_vouts t !! i = Some (vout k) →
  getParentEnvelopeData e k = output_data t i.
Proof.
  intros Ht. unfold output_data. transfer_cases Ht; intros Hi; unfold getParentEnvelopeData; rewrite Hop;
    cbn [Z.eqb Pos.eqb T_CXFER T_BURN T_CXFER_BPP T_AXFER T_AXFER_BPP T_AXFER_VAR T_AXFER_VAR_BPP T_PREAUTH_BID
         T_PREAUTH_BID_VAR T_CXFER_BOUND T_CETCH T_MINT]; rewrite Hd; cbn [mbind option_bind].
  1-6: by apply note_of_commitments; rewrite (output_at_index _ i).
  1-2: rewrite (axferVar_at i) by done; cbn [mbind option_bind]; rewrite Nat2Z.id; by apply note_of_commitments.
  1: rewrite (bid_at 3 _ i) by done; cbn [mbind option_bind]; by apply note_of_commitments.
  rewrite (bid_at (bid_var_changeVout d) _ i); [by apply note_of_commitments| |done].
  unfold bid_var_changeVout. by destruct (_ <? _).
Qed.

(** ** Inputs *)
Lemma inputCommitments_data asset ins ics :
  inputCommitments asset ins = inr ics ↔ Forall2 (λ i C, note_data i = Some (asset, C)) ins ics.
Proof.
  revert ics. induction ins as [|i ins IH]; intros ics.
  - split; [intros [= <-]; constructor|by intros ->%Forall2_nil_inv_l].
  - cbn [inputCommitments]. split.
    + destruct (fetchTx (txid i)) as [tx|] eqn:Hf; [|done]. destruct (_txOutputEnvelope tx) as [e|] eqn:He; [|done].
      destruct (getParentEnvelopeData e i) as [pd|] eqn:Hpd; [|done]. case_bool_decide as Ha; [|done]. cbn [negb].
      destruct (inputCommitments asset ins) as [|cs]; [done|]. intros [= <-].
      constructor; [|by apply IH]. unfold note_data. rewrite Hf. cbn. rewrite He. cbn. rewrite Hpd, <- Ha. by destruct pd.
    + intros (C & cs & HC & Hcs & ->)%Forall2_cons_inv_l. unfold note_data in HC. destruct (fetchTx (txid i)) as [tx|]; [|done]. cbn in HC.
      destruct (_txOutputEnvelope tx) as [e|]; [|done]. cbn in HC. rewrite HC. cbn [fst snd].
      rewrite bool_decide_eq_true_2 by done. cbn [negb]. apply IH in Hcs as ->. done.
Qed.

(** ** Provenance *)
(** [a] is the hash of the outpoint of a valid etch. *)
Definition etched (svc : outpoint → Prop) (a : bytes) : Prop :=
  ∃ k tx e, node_env k = Some (tx, e) ∧ etch_ok k e ∧ valid svc k ∧ a = assetIdFor (txid k) 0.

Lemma mint_data k tx e d : node_env k = Some (tx, e) → mint_ok k tx e d →
  note_data k = Some (CMint.assetId d, CMint.commitment d).
Proof.
  intros Hn (Hop & Hv & Hd & _). rewrite (node_data k tx e) by done. unfold getParentEnvelopeData.
  rewrite Hop, Hv. cbn. by rewrite Hd.
Qed.

Lemma etch_data k tx e d m : node_env k = Some (tx, e) → env_opcode e = T_CETCH → vout k = 0 →
  CEtch.decodeCEtchPayload (env_payload e) = Ok (d, m) →
  note_data k = Some (assetIdFor (txid k) 0, CEtch.commitment d).
Proof.
  intros Hn Hop Hv Hd. rewrite (node_data k tx e) by done. unfold getParentEnvelopeData.
  rewrite Hop, Hv. cbn. by rewrite Hd.
Qed.

Lemma transfer_note k tx e t :
  node_env k = Some (tx, e) → transfer_of tx e = Some t → vout k ∈ t_vouts t →
  ∃ i, t_vouts t !! i = Some (vout k) ∧ note_data k = output_data t i.
Proof.
  intros Hn Ht (i & Hi)%list_elem_of_lookup. exists i. split; [done|].
  rewrite (node_data k tx e) by done. by eapply transfer_data.
Qed.

Lemma provenance `{!HashLen} k a C :
  (∀ op, trackedNotes op = None) → valid no_service k → note_data k = Some (a, C) → etched no_service a.
Proof.
  intros Htr Hval. revert a C.
  induction Hval as [k tx e Hn Hok|k tx e d Hn Hok He IH|k tx e t Hn Ht Hkt Hok Hi IH|k (tx & e & _ & Ht)|k []]; intros a C Hd.
  - destruct Hok as (Hop & Hv & d & m & Hdec & Hiss). rewrite (etch_data k tx e d m) in Hd by done. injection Hd as <- <-.
    exists k, tx, e. assert (Hok : etch_ok k e) by (split; [done|split; [done|by exists d, m]]).
    split_and!; [done|done|by eapply valid_etch|done].
  - rewrite (mint_data k tx e d) in Hd by done. injection Hd as <- <-.
    destruct Hok as (_ & _ & Hdec & Ha & (etx & ee & ed & Hen & Heop & Hed & _) & _).
    pose proof (etch_data _ _ _ _ _ Hen Heop eq_refl Hed) as Hdata. cbn [txid] in Hdata.
    destruct (IH _ _ Hdata) as (k0 & tx0 & e0 & ? & ? & ? & E). exists k0, tx0, e0. split_and!; try done.
    rewrite <- E. apply CMint.cMint_codec in Hdec. unfold CMint.encodeCMintPayload in Hdec. enc_inv Hdec. bool_to_prop.
    rewrite !take_ge in Ha; [done|unfold blen in *; lia|].
    pose proof (sha256_len (outpoint_bytes (Outpoint (CMint.etchTxid d) 0))). unfold assetIdFor, blen in *. lia.
  - destruct (transfer_note k tx e t Hn Ht Hkt) as (i & Hti & Hdata). rewrite Hd in Hdata.
    unfold output_data in Hdata. destruct (t_outs t !! i); [|done]. injection Hdata as -> _.
    destruct (transfer_ins tx e t Ht) as [Hne _].
    destruct Hok as (Cpts & ics & _ & _ & _ & _ & Hics & _). apply inputCommitments_data in Hics.
    destruct (t_ins t) as [|j ins]; [done|]. inversion Hics as [|? c ? ? Hj _]; subst.
    apply (IH j ltac:(by left) _ _ Hj).
  - unfold tracked_ok in Ht. by rewrite Htr in Ht.
Qed.

(** ** Conservation *)
(** [o] opens the commitment of the note [k]. *)
Definition note_opens (k : outpoint) (o : Z * Z) : Prop := ∃ a C, note_data k = Some (a, C) ∧ opens C o.

Lemma transfer_conserves_valid `{!SecpLaws} t vos vis :
  transfer_ok t → 0 <= t_burned t < 2 ^ 64 →
  amounts_u64 vos → amounts_u64 vis → Forall2 opens (t_outs t) vos → Forall2 note_opens (t_ins t) vis →
  ∃ E sig_msg,
    verifySchnorr (t_kernelSig t) sig_msg (xonly E) = Ok true ∧
    E = commit (total_v vos + t_burned t - total_v vis) (total_r vos - total_r vis) ∧
    ∀ x, E = smul x G →
      total_v vis = total_v vos + t_burned t ∨
      relation (total_v vos + t_burned t - total_v vis) (x - (total_r vos - total_r vis)).
Proof.
  intros (Cpts & ics & E & msg & _ & _ & Hics & HE & _ & _ & Hsig) Hb Hvo Hvi Ho Hi.
  exists E, msg. split; [done|]. apply inputCommitments_data in Hics.
  assert (Hi' : Forall2 opens ics vis).
  { clear -Hics Hi. revert vis Hi. induction Hics as [|i C ins ics Hd _ IH]; intros vis Hi; inversion Hi; subst; constructor.
    - match goal with Hn : note_opens _ _ |- _ => destruct Hn as (a & C' & Hd' & ?) end. by simplify_eq.
    - by apply IH. }
  pose proof (EPrime_opens _ (t_burned t) _ vos vis ltac:(lia) Ho Hi') as HE'. rewrite HE in HE'.
  injection HE' as HE'. split; [done|]. intros x ->.
  by eapply (transfer_conserves (t_outs t) _ ics).
Qed.

(** ** Bound notes *)
(** [k] may be spent on Bitcoin: it is bound to this pool and the pool has not spent it. *)
Definition bound_standing (targetChainBinding : bytes) (k : outpoint) : Prop :=
  poolBinding = None ∨
  strictValidation = false ∧ poolBinding = Some targetChainBinding ∧ evmNullifierSpent k = Some false.

Lemma boundOutputFailure_None b k s s' :
  _boundOutputFailure b k s = (Ok None, s') → bound_standing b k.
Proof.
  unfold _boundOutputFailure, bound_standing. destruct poolBinding as [binding|]; [|by left]. intros E. right.
  revert E. unfold mbind, V_bind, bind_key, _strictUnavailable, mret, V_ret.
  destruct strictValidation; [done|]. destruct (bool_decide _) eqn:Hb; cbn [negb]; [|done]. bool_to_prop. subst.
  by destruct (evmNullifierSpent k) as [[]|].
Qed.

Lemma bound_outputs_standing b ks s s' k :
  bound_outputs b ks s = (Ok tt, s') → k ∈ ks → validatedSet s' !! k = Some true → bound_standing b k.
Proof.
  revert s. induction ks as [|j ks IH]; intros s E; [by intros ?%elem_of_nil|]. cbn [bound_outputs] in E.
  destruct (boundOutputFailure_kept b j s) as (r & s1 & E1 & _). rewrite (V_bind_run _ _ _ _ _ E1) in E.
  destruct (decide (j = k)) as [->|Hne].
  - intros _ Hk. destruct r as [r|]; [|by eapply boundOutputFailure_None]. exfalso. revert E.
    set (m := _markInvalid k r).
    assert (∃ s2, m s1 = (Ok tt, s2) ∧ validatedSet s2 !! k = Some false) as (s2 & E2 & Hf).
    { eexists. split; [done|]. cbn. by rewrite lookup_insert_eq. }
    rewrite (V_bind_run _ _ _ _ _ E2). intros E.
    destruct (bound_outputs_kept b ks s2) as (s3 & E3 & _ & Hv). rewrite E in E3. injection E3 as <-.
    apply Hv in Hk. congruence.
  - intros [->|Hin]%elem_of_cons Hk; [done|]. destruct r as [r|].
    + set (m := _markInvalid j r) in E. assert (∃ s2, m s1 = (Ok tt, s2)) as (s2 & E2) by (by eexists).
      rewrite (V_bind_run _ _ _ _ _ E2) in E. by eapply IH.
    + assert (E2 : (mret tt : V unit) s1 = (Ok tt, s1)) by done. rewrite (V_bind_run _ _ _ _ _ E2) in E. by eapply IH.
Qed.

Lemma cxfer_bound_standing key tx p s s' :
  0 <= vout key → cxfer_bound_handler key tx p s = (Ok true, s') →
  validatedSet s' !! key = Some true ∧
  ∃ d, CxferBound.decodeCXferBoundPayload p = Ok d ∧ bound_standing (CxferBound.targetChainBinding d) key.
Proof.
  intros Hv E. pose proof (cxfer_bound_shape key tx p _ Hv eq_refl) as Hsh.
  destruct (decoded (CxferBound.decodeCXferBoundPayload p)) as [d|] eqn:Hd.
  2: { destruct Hsh as [(t & ? & ? & ? & [=] & _)|[_ Hr]]. destruct (Hr s) as (? & E' & _). rewrite E in E'. congruence. }
  apply decoded_Some in Hd. cut (validatedSet s' !! key = Some true ∧ bound_standing (CxferBound.targetChainBinding d) key); [naive_solver|].
  unfold cxfer_bound_handler in E. rewrite Hd in E. cbn [decoded] in E.
  destruct (Z.geb_spec (vout key) (Z.of_nat (length (CxferBound.outputs d)))) as [|Hlt]; [done|].
  destruct (_ || _).
  { destruct (mark_list_marks (Some INVALID) (vouts (txid key) (length (CxferBound.outputs d))) false None s) as [rs Em].
    unfold markAll in E. by rewrite (V_bind_run _ _ _ _ _ Em) in E. }
  unfold mbind at 1, V_bind at 1 in E. destruct (transfer_tail _ _ _ _ _ _ _ s) as [[[]| | |] s1]; cbn [negb] in E; try done.
  destruct (bound_outputs_kept (CxferBound.targetChainBinding d) (vouts (txid key) (length (CxferBound.outputs d))) s1) as (s2 & E2 & _).
  rewrite (V_bind_run _ _ _ _ _ E2) in E. unfold mbind, V_bind, get, mret, V_ret in E.
  injection E as Hk <-. bool_to_prop. split; [done|]. eapply bound_outputs_standing; [exact E2| |done].
  rewrite vouts_keys. apply list_elem_of_fmap. exists (vout key). split; [by destruct key|]. apply indices_elem. lia.
Qed.
End facts.
