(* ===== verification/ChainModel.v ===== *)
(** * A concrete chain

    An etch of 5 units, a transfer that splits them into 2 and 3, and a chain that holds
    the two transactions, over the group of [CurveModel].  The witnesses of the
    validator's theorems are evaluated on it: the whole path from the bytes of the
    witness stack to the verdict. *)
From S2P Require Import Prelude Bytes Text Crypto EnvelopeScript CodecTransfer CodecIssue CodecPool CodecSlots CodecAmm.
From S2P Require Import Messages Curve CurveModel Mixer Kernel Notes Handlers Validator WalkFacts ValidSpec ValidShape ValidSound ValidComplete ValidFacts.

Definition ok_or {A} (d : A) (r : res A) : A := match r with Ok a => a | _ => d end.

(** ** Transactions *)
Definition etch_id : bytes := be 32 1.
Definition xfer_id : bytes := be 32 2.
Definition funding : outpoint := Outpoint (be 32 3) 0.

Definition commitment_of (v r : Z) : bytes := toRawBytes (commit v r).
Definition envelope_witness (payload : bytes) : list bytes :=
  [zeros 64; ok_or [] (encodeEnvelopeScript (zeros 32) payload); zeros 33].

Definition etch_payload : bytes :=
  ok_or [] (CEtch.encodeCEtchPayload (CEtch.Mk [65] 8 (commitment_of 5 3) (zeros 8) (zeros 8) None None)).
Definition etch_tx : txn := Txn [TxIn funding (envelope_witness etch_payload) "v1_p2tr"] [] (Some 100) None.

Definition asset : bytes := assetIdFor etch_id 0.
Definition xfer_outs : list bytes := [commitment_of 2 1; commitment_of 3 4].
Definition xfer_ins : list outpoint := [Outpoint etch_id 0].
Definition xfer_msg : bytes := ok_or [] (computeKernelMsg asset xfer_ins xfer_outs 0).
(** the blindings' excess, 1 + 4 - 3 *)
Definition xfer_sig : bytes := ok_or [] (signSchnorr (zeros 32) xfer_msg (bigintToBytes32 2)).
Definition xfer_with (sig : bytes) : bytes :=
  ok_or [] (encodeCXferPayload (Cxfer.Mk asset sig (map (λ C, Output C (zeros 8)) xfer_outs) (zeros 8))).
Definition xfer_tx (sig : bytes) : txn :=
  Txn [TxIn funding (envelope_witness (xfer_with sig)) "v1_p2tr"; TxIn (Outpoint etch_id 0) [] "v0_p2wpkh"] [] (Some 101) None.

(** ** The chain *)
Definition toy_fetch (sig : bytes) (id : bytes) : option txn :=
  if bool_decide (id = etch_id) then Some etch_tx
  else if bool_decide (id = xfer_id) then Some (xfer_tx sig)
  else None.

Definition toy_chain_with (sig : bytes) : Chain := {|
  fetchTx := toy_fetch sig;
  bppEnabled := true;
  bpRangeAggVerify _ _ := true;
  bppRangeVerify _ _ := true;
  trackedNotes _ := None;
  getAssetMeta _ := false;
  coordsHash _ := [];
  reflectedHeight := None;
  poolBinding := None;
  evmNullifierSpent _ := None;
  serviceParent _ _ := None;
  strictValidation := false |}.
Definition toy_chain : Chain := toy_chain_with xfer_sig.

(** a service that vouches for nothing *)
Definition no_services `{CH : Chain} : Service := λ key _ _, refuse key.

Definition empty_state : vstate := VState ∅ ∅ None ∅ no_pools.
Definition xfer_note : outpoint := Outpoint xfer_id 1.

Definition verdict (sig : bytes) (k : outpoint) : option (res bool) :=
  option_map fst (@validateOutpoint _ _ (toy_chain_with sig) no_services 10 k empty_state).

Example xfer_validates : verdict xfer_sig xfer_note = Some (Ok true).
Proof. vm_compute. reflexivity. Qed.
(** a signature with one bit changed *)
Example forged_refused : verdict (take 63 xfer_sig ++ [x00]) xfer_note = Some (Ok false).
Proof. vm_compute. reflexivity. Qed.
(** a signature whose second half is zero *)
Example zero_scalar_throws : verdict (take 32 xfer_sig ++ zeros 32) xfer_note = Some (Throw "invalid scalar").
Proof. vm_compute. reflexivity. Qed.

Lemma verdict_run sig k r :
  verdict sig k = Some r →
  ∃ s, @validateOutpoint _ _ (toy_chain_with sig) no_services 10 k empty_state = Some (r, s).
Proof.
  unfold verdict. destruct (validateOutpoint 10 k empty_state) as [[r' s]|]; [|done].
  intros [= ->]. by exists s.
Qed.

(** ** The model meets the assumptions *)
#[export] Instance toy_chain_vouts sig : @ChainLaws _ (toy_chain_with sig).
Proof.
  intros t tx i. cbn [fetchTx toy_chain_with]. unfold toy_fetch. intros Hf Hi.
  case_bool_decide; [|case_bool_decide; [|done]]; injection Hf as <-; unfold prevs in Hi; cbn [tx_vin etch_tx xfer_tx map in_prev] in Hi;
    repeat (apply elem_of_cons in Hi as [->|Hi]; [done|]); by apply elem_of_nil in Hi.
Qed.

Lemma no_services_laws sig : @ServiceLaws _ _ (toy_chain_with sig) no_services (λ _, False).
Proof. intros key tx e _ _. apply keeps_refuses, refuse_refuses. Qed.

Lemma empty_validated k : validatedSet empty_state !! k = None.
Proof. exact (lookup_empty k). Qed.

Lemma empty_sound sig : @sound _ _ (toy_chain_with sig) (λ _, False) empty_state.
Proof. intros _ k Hk. by rewrite empty_validated in Hk. Qed.

Lemma empty_clean : clean empty_state.
Proof. split; [done|]. intros k b Hk. by rewrite empty_validated in Hk. Qed.

(** The transfer's output is a valid note. *)
Lemma xfer_valid : @valid _ _ toy_chain (λ _, False) xfer_note.
Proof.
  destruct (verdict_run _ _ _ xfer_validates) as [s Hs].
  refine (proj2 (@validateOutpoint_sound _ _ _ no_services (λ _, False) (no_services_laws _) _ 10 _ _ _ _ _ (empty_sound _) Hs) eq_refl _).
  - done.
  - by intros C p _.
Qed.

(** *** The transfer's parts *)
Definition toy_transfer : transfer := Transfer asset xfer_ins xfer_outs [0; 1] 0 xfer_sig Bp (zeros 8).
Definition xfer_env : envelope := Envelope (zeros 32) 0x23 (xfer_with xfer_sig).

Lemma xfer_node : @node_env _ toy_chain xfer_note = Some (xfer_tx xfer_sig, xfer_env).
Proof. vm_compute. reflexivity. Qed.
Lemma xfer_read : @transfer_of _ toy_chain (xfer_tx xfer_sig) xfer_env = Some toy_transfer.
Proof. vm_compute. reflexivity. Qed.

Lemma xfer_node_inv tx e :
  @node_env _ toy_chain xfer_note = Some (tx, e) →
  env_opcode e = T_CXFER ∧ @transfer_of _ toy_chain tx e = Some toy_transfer.
Proof.
  rewrite xfer_node. intros E.
  assert (xfer_tx xfer_sig = tx) as <- by exact (f_equal (λ o, from_option fst tx o) E).
  assert (xfer_env = e) as <- by exact (f_equal (λ o, from_option snd e o) E).
  split; [reflexivity|exact xfer_read].
Qed.

Lemma toy_transfer_ok : @transfer_ok _ _ toy_chain toy_transfer.
Proof.
  pose proof xfer_valid as Hval. pose proof xfer_node_inv as Hx. pose proof xfer_node as Hnode.
  destruct Hval as [k tx e Hn [Hop _]|k tx e d Hn [Hop _] _|k tx e t Hn Ht _ Hok _|k (tx & e & _ & Ht)|k []].
  - destruct (Hx _ _ Hn) as [Hop' _]. rewrite Hop in Hop'. discriminate.
  - destruct (Hx _ _ Hn) as [Hop' _]. rewrite Hop in Hop'. discriminate.
  - destruct (Hx _ _ Hn) as [_ Ht']. rewrite Ht in Ht'. injection Ht' as ->. exact Hok.
  - unfold tracked_ok in Ht. discriminate.
Qed.

Lemma commitment_opens v r : commit v r ≠ ZERO → opens (commitment_of v r) (v, r).
Proof. intros Hne. unfold opens, commitment_of. by apply bytesToPoint_raw. Qed.

Lemma toy_outs_open : Forall2 opens (t_outs toy_transfer) [(2, 1); (3, 4)].
Proof. repeat constructor; apply commitment_opens; vm_compute; intros [=]. Qed.
Lemma toy_ins_open : Forall2 (@note_opens _ _ toy_chain) (t_ins toy_transfer) [(5, 3)].
Proof.
  repeat constructor. exists asset, (commitment_of 5 3). split; [vm_compute; reflexivity|].
  apply commitment_opens. vm_compute. intros [=].
Qed.

(** *** Its walk *)
Lemma toy_walk_run :
  ∃ w s', walk_loop (CH := toy_chain) 10 0 (walk_start empty_state xfer_note) empty_state = Some (Ok w, s').
Proof.
  assert (E : match walk_loop (CH := toy_chain) 10 0 (walk_start empty_state xfer_note) empty_state with
              | Some (Ok _, _) => true | _ => false end = true) by (vm_compute; reflexivity).
  revert E. destruct (walk_loop _ _ _ _) as [[[w| | |] s']|]; try discriminate. by exists w, s'.
Qed.

(** *** The same transfer bound to a pool *)
Definition bound_payload : bytes := u8b T_CXFER_BOUND ++ zeros 32 ++ drop 1 (xfer_with xfer_sig).
Definition bound_chain : Chain := {|
  fetchTx := toy_fetch xfer_sig; bppEnabled := true; bpRangeAggVerify _ _ := true; bppRangeVerify _ _ := true;
  trackedNotes _ := None; getAssetMeta _ := false; coordsHash _ := []; reflectedHeight := None;
  poolBinding := Some (zeros 32); evmNullifierSpent _ := Some false; serviceParent _ _ := None;
  strictValidation := false |}.
Definition etch_checked : vstate := VState {[ Outpoint etch_id 0 := true ]} ∅ None ∅ no_pools.

Lemma bound_run :
  ∃ s', @cxfer_bound_handler _ _ bound_chain xfer_note (xfer_tx xfer_sig) bound_payload etch_checked = (Ok true, s').
Proof.
  assert (E : (@cxfer_bound_handler _ _ bound_chain xfer_note (xfer_tx xfer_sig) bound_payload etch_checked).1 = Ok true)
    by (vm_compute; reflexivity).
  revert E. destruct (cxfer_bound_handler _ _ _ _) as [r s']. cbn. intros ->. by exists s'.
Qed.
