(* ===== verification/MixerModel.v ===== *)
(** * A concrete mixer

    A pool of two notes over toy Poseidon functions and a verifier that checks the
    statement of the withdraw circuit on a note at index 0; a withdrawal of that note,
    the same note withdrawn again under the other spelling of its nullifier, a
    deposit, and a leaf the bridge imported. *)
From Stdlib Require Import Ascii.
From stdpp Require Import strings pretty.
From S2P Require Import Prelude Bytes Text Crypto EnvelopeScript CodecTransfer CodecIssue CodecPool CodecSlots CodecAmm.
From S2P Require Import Messages Curve CurveModel Hex Merkle MerkleFacts Mixer MixerProof CodecBridge Kernel Notes MixerLeaf Handlers Validator.
From S2P Require Import WalkFacts ValidSpec ValidShape ValidSound ValidComplete ValidFacts MixerWithdraw MixerSync MixerTree MixerFacts ChainModel.

(** ** Libraries *)
Definition toy_field : Z := 65521.
#[export] Instance toy_poseidon : Poseidon := {|
  poseidon1 a := (a + 7) mod toy_field;
  poseidon2 a b := (3 * a + 5 * b + 1) mod toy_field;
  poseidon3 a b c := (a + 2 * b + 3 * c + 11) mod toy_field |}.
#[export] Instance toy_poseidon_laws : PoseidonLaws.
Proof.
  assert (toy_field < BN254_FIELD_SIZE) by done.
  split; intros; cbn [poseidon1 poseidon2 poseidon3 toy_poseidon];
    match goal with |- 0 <= ?x mod _ < _ => pose proof (Z.mod_pos_bound x toy_field ltac:(done)); lia end.
Qed.

(** the withdraw circuit for the first leaf: secret, nullifier preimage and sibling *)
Definition circuit (root n d c0 c1 c2 : Z) : bool :=
  (path_root (poseidon3 c0 c1 d) ((c2, 0) :: map (λ k, (empty_root k, 0)) (seq 1 19)) =? root) && (poseidon1 c1 =? n).
#[export] Instance toy_groth16 : Groth16 := λ _ ins coords,
  match map dec_number ins, coords with
  | [Some root; Some n; Some d; Some _; Some _], c0 :: c1 :: c2 :: _ => Ok (circuit root n d c0 c1 c2)
  | _, _ => Ok false
  end.
#[export] Instance toy_groth16_laws : Groth16Laws.
Proof. intros vk ins ins' coords E. unfold groth16_verify, toy_groth16. by rewrite E. Qed.

#[export] Instance toy_mixer_chain : MixerChain := {|
  _txIsRecentlyNotFound _ := false; blockTxids _ := None; onSignet := false; tethActiveCtx := None; tethGenList := [];
  bridgeAsset := None; BRIDGE_UNIT_SCALE := 1; keccak_256 b := b; eth_call _ _ := None |}.

(** ** The pool *)
Definition token : bytes := be 32 9.
Definition denom5 : Z := 5.
Definition secret : Z := 4.
Definition preimage : Z := 164.
(** 171: written [ab] in hexadecimal *)
Definition the_nullifier : Z := 171.
Definition leaf1 : bytes := Eval vm_compute in be 32 (poseidon3 secret preimage denom5).
Definition leaf2 : bytes := Eval vm_compute in be 32 77.
Definition the_root : bytes := Eval vm_compute in match computePoolRoot [leaf1; leaf2] with Ok r => r | _ => [] end.
Definition the_pool : string := poolKey (bytesToHex token) denom5 "".
Definition pool_state : pools :=
  let ps := (mixerRegisterPool (bytesToHex token) denom5 CANONICAL_VK_CID CANONICAL_CEREMONY_CID 100 None "" no_pools).2 in
  let ps := (mixerAppendLeaf (bytesToHex token) denom5 leaf1 "" ps).2 in
  (mixerAppendLeaf (bytesToHex token) denom5 leaf2 "" ps).2.

(** ** Two withdrawals of one note *)
Definition r_leaf : bytes := be 32 3.
Definition recipient : bytes := Eval vm_compute in commitment_of denom5 3.
Definition the_proof : bytes := be 32 secret ++ be 32 preimage ++ leaf2 ++ zeros 160.
Definition withdraw_payload (nullifier : bytes) : bytes :=
  let bind := ok_or [] (computeWithdrawBindHash token denom5 nullifier recipient r_leaf) in
  ok_or [] (TWithdraw.encodeTWithdrawPayload (Spend token denom5 the_root nullifier recipient r_leaf bind the_proof)).
Definition payload1 : bytes := Eval vm_compute in withdraw_payload (be 32 the_nullifier).
Definition payload2 : bytes := Eval vm_compute in withdraw_payload (bcd 32 the_nullifier).
Definition tx1_id : bytes := Eval vm_compute in be 32 101.
Definition tx2_id : bytes := Eval vm_compute in be 32 102.
Definition tx_of (payload : bytes) : txn :=
  Txn [TxIn funding (envelope_witness payload) "v1_p2tr"] [] (Some 102) None.
Definition mixer_fetch (id : bytes) : option txn :=
  if bool_decide (id = tx1_id) then Some (tx_of payload1)
  else if bool_decide (id = tx2_id) then Some (tx_of payload2)
  else None.
Definition mixer_chain : Chain := {|
  fetchTx := mixer_fetch; bppEnabled := true; bpRangeAggVerify _ _ := true; bppRangeVerify _ _ := true;
  trackedNotes _ := None; getAssetMeta _ := false; coordsHash _ := []; reflectedHeight := None; poolBinding := None;
  evmNullifierSpent _ := None; serviceParent _ _ := None; strictValidation := false |}.
#[local] Existing Instance mixer_chain.
Definition mixed_state (ps : pools) : vstate := VState ∅ ∅ None ∅ ps.
Definition note1 : outpoint := Outpoint tx1_id 0.
Definition note2 : outpoint := Outpoint tx2_id 0.

Definition run1 : res bool * vstate := withdraw_handler note1 payload1 (mixed_state pool_state).
Definition run2 : res bool * vstate := withdraw_handler note2 payload2 run1.2.
Lemma both_run : (run1.1, run2.1) = (Ok true, Ok true).
Proof. vm_compute. reflexivity. Qed.
Lemma both_withdrawn : run1.1 = Ok true ∧ run2.1 = Ok true.
Proof. exact (proj1 (pair_equal_spec run1.1 (Ok true) run2.1 (Ok true)) both_run). Qed.

(** ** A deposit of the etched note of [ChainModel] *)
Definition deposit_id : bytes := Eval vm_compute in be 32 103.
Definition deposit_msg : bytes := ok_or [] (computeDepositKernelMsg asset denom5 (rev etch_id) 0 leaf1).
(** its blinding is 3 *)
Definition deposit_payload : bytes := Eval vm_compute in
  ok_or [] (TDeposit.encodeTDepositPayload asset denom5 leaf1 (ok_or [] (signSchnorr (zeros 32) deposit_msg (bigintToBytes32 3)))).
Definition deposit_tx : txn :=
  Txn [TxIn funding (envelope_witness deposit_payload) "v1_p2tr"; TxIn (Outpoint etch_id 0) [] "v0_p2wpkh"] [] (Some 103) None.

(** ** A leaf imported by the bridge, in an OP_RETURN *)
Definition import_id : bytes := Eval vm_compute in be 32 104.
Definition leaf3 : bytes := Eval vm_compute in be 32 88.
Definition the_import : import := Import 0 token (be 32 denom5) leaf3 (zeros 32) (zeros 32) 0.
Definition import_script : bytes := Eval vm_compute in u8b 0x6a ++ u8b 0x4c ++ u8b 164 ++ encodeTBridgeImportPayload the_import.
Definition import_tx : txn := Txn [TxIn funding [] "v0_p2wpkh"] [TxOut import_script "op_return" 0] (Some 104) None.

Definition deposit_fetch (id : bytes) : option txn :=
  if bool_decide (id = etch_id) then Some etch_tx
  else if bool_decide (id = deposit_id) then Some deposit_tx
  else if bool_decide (id = import_id) then Some import_tx
  else None.
Definition deposit_chain : Chain := {|
  fetchTx := deposit_fetch; bppEnabled := true; bpRangeAggVerify _ _ := true; bppRangeVerify _ _ := true;
  trackedNotes _ := None; getAssetMeta _ := false; coordsHash _ := []; reflectedHeight := None; poolBinding := None;
  evmNullifierSpent _ := None; serviceParent _ _ := None; strictValidation := false |}.

Example deposit_believed :
  verifyMixerDepositKernelOnChain (CH := deposit_chain) (bytesToHex deposit_id) (bytesToHex asset) denom5 leaf1 (Some 103) = Ok (Some true).
Proof. vm_compute. reflexivity. Qed.
(** the same transaction for another leaf *)
Example other_leaf_refused :
  verifyMixerDepositKernelOnChain (CH := deposit_chain) (bytesToHex deposit_id) (bytesToHex asset) denom5 leaf2 (Some 103) = Ok (Some false).
Proof. vm_compute. reflexivity. Qed.

(** ** What an indexer reports of the pool *)
Definition reported (leaf : bytes) (id : bytes) (kind : option string) : leaf_rec :=
  LeafRec (Some (bytesToHex leaf)) (Some (bytesToHex id)) kind None None None None None.
Definition imported : leaf_rec := reported leaf3 import_id (Some "bridge_import"%string).
Definition listed : pool_rec := PoolRec (bytesToHex token) denom5 "" None [] [] 100 None 3 0.
Definition details : pool_detail := PoolDetail [reported leaf1 deposit_id None; reported leaf2 deposit_id None; imported] [] None.
Example import_taken_up :
  local_leaves the_pool (processPool (CH := deposit_chain) listed (Some details) pool_state).2 = [leaf1; leaf2; leaf3].
Proof. vm_compute. reflexivity. Qed.

(** ** The state is one the operations reach *)
Lemma pool_state_reached : changes (CH := mixer_chain) no_pools pool_state.
Proof.
  unfold pool_state. cbv zeta. eapply changes_trans; [apply (register_changes (CH := mixer_chain))|].
  eapply changes_trans; apply (append_changes (CH := mixer_chain)).
Qed.
Lemma pool_state_keys : same_keys pool_state.
Proof. exact (changes_keys _ _ pool_state_reached no_pools_keys). Qed.
