(* ===== verification/BatchGrows.v ===== *)
(** * The queue of range proofs only grows

    Whatever a call of the validator answers, the proofs queued before it are still
    queued after it: a verdict that stands on the proofs of the end stands on those of
    any earlier moment. *)
From S2P Require Import Prelude Bytes Crypto EnvelopeScript CodecTransfer CodecIssue CodecPool CodecSlots CodecAmm.
From S2P Require Import Messages Curve Kernel Notes Handlers Validator WalkFacts ValidSpec ValidShape ValidSound.

Section grows.
Context `{Hash} {SE : Secp} {CH : Chain}.

Definition queued (s : vstate) : list (list point * bytes) := default [] (rpBatch s).
Definition extends (s s' : vstate) : Prop := ∀ x, x ∈ queued s → x ∈ queued s'.
#[export] Instance extends_preorder : PreOrder extends.
Proof. split; [by intros s x|]. intros s1 s2 s3 H1 H2 x Hx. auto. Qed.
Lemma extends_batch_ok s s' : extends s s' → batch_ok s' → batch_ok s.
Proof. intros He Hb C p Hin. apply Hb. exact (He _ Hin). Qed.

Definition grows {A} (m : V A) : Prop := ∀ s, extends s (m s).2.
Lemma grows_same {A} (m : V A) : (∀ s, rpBatch (m s).2 = rpBatch s) → grows m.
Proof. intros Hm s x. unfold queued. by rewrite Hm. Qed.
Lemma grows_ret {A} (a : A) : grows (mret a).
Proof. by apply grows_same. Qed.
Lemma grows_lift {A} (r : res A) : grows (lift r).
Proof. by apply grows_same. Qed.
Lemma grows_get : grows get.
Proof. by apply grows_same. Qed.
Lemma grows_set_valid k b : grows (set_valid k b).
Proof. by apply grows_same. Qed.
Lemma grows_set_reason k r : grows (set_reason k r).
Proof. by apply grows_same. Qed.
Lemma grows_bind_key k : grows (bind_key k).
Proof. by apply grows_same. Qed.
Lemma grows_bind {A B} (m : V A) (k : A → V B) : grows m → (∀ a, grows (k a)) → grows (m ≫= k).
Proof.
  intros Hm Hk s. specialize (Hm s). unfold mbind, V_bind. destruct (m s) as [[a| | |] s']; cbn [snd] in *; try done.
  etrans; [exact Hm|apply Hk].
Qed.
Lemma grows_strict msg : grows (_strictUnavailable msg).
Proof. unfold _strictUnavailable. destruct strictValidation; [apply grows_lift|apply grows_ret]. Qed.
Lemma grows_range_bp proof Cpts : grows (range_bp proof Cpts).
Proof.
  intros s x. unfold range_bp, queued. destruct (rpBatch s) as [l|] eqn:E; cbn [snd rpBatch default]; [|by rewrite E].
  intros Hx. apply elem_of_app. by left.
Qed.
End grows.

Create HintDb grows.
#[export] Hint Resolve grows_ret grows_lift grows_get grows_set_valid grows_set_reason grows_bind_key grows_strict grows_range_bp : grows.
(** One call after the other, every branch. *)
Ltac grow :=
  lazymatch goal with
  | |- forall _, _ => let x := fresh "x" in intros x; grow
  | |- grows (_ ≫= _) => apply grows_bind; [grow|grow]
  | |- grows (match ?x with _ => _ end) => destruct x; grow
  | |- grows (let _ := _ in _) => cbv zeta; grow
  | |- grows _ => auto with grows nocore
  | |- _ => idtac
  end.

Section validator.
Context `{Hash} {SE : Secp} {CH : Chain}.
Lemma grows_mark_invalid k r : grows (_markInvalid k r).
Proof. unfold _markInvalid. grow. Qed.
Lemma grows_refuse k : grows (refuse k).
Proof. unfold refuse. grow. Qed.
Lemma grows_refuse_with k r : grows (refuse_with k r).
Proof. unfold refuse_with, _markInvalid. grow. Qed.
Lemma grows_mark_list d ks ok r : grows (mark_list d ks ok r).
Proof. induction ks as [|k ks IH]; cbn [mark_list]; [apply grows_ret|]. grow; exact IH. Qed.
Lemma grows_parentFailure ins : grows (parentFailure ins).
Proof. intros s. destruct (parentFailure_run ins s) as (r & -> & _). done. Qed.
Lemma grows_tail mark ins outs range a b sig :
  (∀ ok r, grows (mark ok r)) → (∀ C, grows (range C)) → grows (transfer_tail mark ins outs range a b sig).
Proof.
  intros Hm Hr. unfold transfer_tail. apply grows_bind; [apply grows_parentFailure|]. grow; auto.
Qed.
End validator.
#[export] Hint Resolve grows_mark_invalid grows_refuse grows_refuse_with grows_mark_list grows_parentFailure : grows.

Section handlers.
Context `{Hash} {SE : Secp} {CH : Chain}.
Lemma grows_markAll t n ok r : grows (markAll t n ok r).
Proof. apply grows_mark_list. Qed.
Lemma grows_markBoth t ok r : grows (markBothTacitVouts t ok r).
Proof. apply grows_mark_list. Qed.
Lemma grows_issue k C p : grows (issue_range k C p).
Proof. unfold issue_range. grow. Qed.
Hint Resolve grows_markAll grows_markBoth grows_issue : grows.
Ltac tail := apply grows_tail; [intros; solve [auto with grows nocore]|intros; unfold range_bpp; repeat case_match; auto with grows nocore].

Lemma grows_cetch k p : grows (cetch_handler k p).
Proof. unfold cetch_handler. grow. Qed.
Lemma grows_mint k tx p : grows (mint_handler k tx p).
Proof. unfold mint_handler, mint_commit, _markInvalidFromParent. grow. Qed.
Lemma grows_xfer k tx a o b sig rp : grows (xfer_handler k tx a o b sig rp).
Proof. unfold xfer_handler. grow. tail. Qed.
Lemma grows_cxfer k tx p : grows (cxfer_handler k tx p).
Proof. unfold cxfer_handler. grow. apply grows_xfer. Qed.
Lemma grows_burn k tx p : grows (burn_handler k tx p).
Proof. unfold burn_handler. grow. apply grows_xfer. Qed.
Lemma grows_cxfer_bpp k tx p : grows (cxfer_bpp_handler k tx p).
Proof. unfold cxfer_bpp_handler. grow. tail. Qed.
Lemma grows_axfer b k tx p : grows (axfer_handler b k tx p).
Proof. unfold axfer_handler. grow; tail. Qed.
Lemma grows_axfer_var b k tx p : grows (axfer_var_handler b k tx p).
Proof. unfold axfer_var_handler. grow; tail. Qed.
Lemma grows_preauth k tx a o n c sig rp : grows (preauth_handler k tx a o n c sig rp).
Proof. unfold preauth_handler. grow; tail. Qed.
Lemma grows_preauth_bid k tx p : grows (preauth_bid_handler k tx p).
Proof. unfold preauth_bid_handler. grow. apply grows_preauth. Qed.
Lemma grows_preauth_bid_var k tx p : grows (preauth_bid_var_handler k tx p).
Proof. unfold preauth_bid_var_handler. grow. apply grows_preauth. Qed.
Lemma grows_bound_failure b k : grows (_boundOutputFailure b k).
Proof. unfold _boundOutputFailure. grow. Qed.
Lemma grows_bound_outputs b ks : grows (bound_outputs b ks).
Proof.
  induction ks as [|k ks IH]; cbn [bound_outputs]; [apply grows_ret|]. apply grows_bind; [apply grows_bound_failure|]. grow; exact IH.
Qed.
Lemma grows_cxfer_bound k tx p : grows (cxfer_bound_handler k tx p).
Proof. unfold cxfer_bound_handler. grow; [tail..|apply grows_bound_outputs]. Qed.
Lemma grows_pending tx : grows (_boundSpendPending tx).
Proof. unfold _boundSpendPending. grow. Qed.
End handlers.
#[export] Hint Resolve grows_cetch grows_mint grows_cxfer grows_burn grows_cxfer_bpp grows_axfer grows_axfer_var
  grows_preauth_bid grows_preauth_bid_var grows_cxfer_bound grows_pending : grows.

(** ** The whole walk *)
Section walk.
Context `{Hash} {SE : Secp} {CH : Chain} {SV : Service}.
Hypothesis service_grows : ∀ key tx e, grows (service key tx e).
Hint Resolve service_grows : grows.

Lemma grows_dispatch k tx e : grows (dispatch k tx e).
Proof. unfold dispatch. grow. Qed.
Lemma grows_single k : grows (_validateOutpointSingle k).
Proof.
  unfold _validateOutpointSingle, validate_witness. grow; apply grows_dispatch.
Qed.
Lemma grows_each ks : grows (validate_each ks).
Proof. induction ks as [|k ks IH]; cbn [validate_each]; [apply grows_ret|]. grow. apply grows_single. Qed.
Lemma grows_expand k w : grows (expand k w).
Proof. unfold expand, _trackedCredit. grow. Qed.
Lemma walk_loop_grows fuel cursor w s r s' : walk_loop fuel cursor w s = Some (r, s') → extends s s'.
Proof.
  revert cursor w s. induction fuel as [|fuel IH]; intros cursor w s; cbn [walk_loop].
  { destruct (topoList w !! cursor); [done|]. by intros [= <- <-]. }
  destruct (topoList w !! cursor) as [k|]; [|by intros [= <- <-]].
  pose proof (grows_expand k w s) as Hg. destruct (expand k w s) as [[w'| | |] s1]; cbn [snd] in Hg; try (by intros [= <- <-]).
  intros E. etrans; [exact Hg|by eapply IH].
Qed.
Lemma validateOutpoint_grows fuel root s r s' : validateOutpoint fuel root s = Some (r, s') → extends s s'.
Proof.
  unfold validateOutpoint. destruct (validatedSet s !! root); [by intros [= <- <-]|].
  destruct (walk_loop _ _ _ _) as [[o s1]|] eqn:E; [|done]. apply walk_loop_grows in E. cbn [mbind option_bind].
  destruct o as [w| | |]; try (by intros [= <- <-]). destruct (order_of w) as [ks|]; [|done]. cbn [mbind option_bind].
  intros E2. etrans; [exact E|]. assert (Hg : grows (validate_each ks;; s ← get; mret (default false (validatedSet s !! root)))).
  { apply grows_bind; [apply grows_each|]. grow. }
  specialize (Hg s1). injection E2 as E2. rewrite E2 in Hg. exact Hg.
Qed.
End walk.
