(* ===== verification/LaunchIndex.v ===== *)
(** * Fair launches and drops in the indexer

    The T_PETCH, T_PMINT, T_DROP and T_DCLAIM branches of [scanForEtches] in
    [worker/src/index.js], the keys they write, and the walks over these keys that decide
    which mints and claims are credited: [loadCanonicalPmints], the snapshot of
    [refreshPetchProgress], the lists of [handlePmintList], [loadCreditedDclaims] and the
    progress of a drop.  The key-value store lists keys in the order of their names. *)
From Stdlib Require Import Ascii.
From stdpp Require Import strings pretty.
From S2P Require Import Prelude Bytes Text Crypto EnvelopeScript CodecTransfer CodecIssue CodecPool CodecSlots CodecAmm.
From S2P Require Import Messages Curve Hex Merkle Mixer MixerProof CodecBridge Kernel Notes.

(** ** Keys *)
(** where a transaction stands in the chain *)
Record position := Pos { p_height : Z; p_index : Z; p_txid : bytes }.
#[export] Instance position_eq_dec : EqDecision position.
Proof. solve_decision. Defined.

(** what follows the asset in [pmintKeyFor], and the drop in [dclaimKeyFor] *)
Definition key_name (p : position) : string :=
  (padStart 10 (pretty (p_height p)) +:+ ":" +:+ padStart 6 (pretty (p_index p)) +:+ ":" +:+ bytesToHex (p_txid p))%string.
(** the name starts with [ORPHAN_HEIGHT_TOKEN] *)
Definition is_orphan (p : position) : bool := bool_decide (padStart 10 (pretty (p_height p)) = "0000000000"%string).

(** [REGISTRY_KV.put] among the keys of one prefix, which [list] returns by name *)
Fixpoint kv_put (p : position) (l : list position) : list position :=
  match l with
  | [] => [p]
  | q :: l =>
      match String.compare (key_name p) (key_name q) with
      | Eq => p :: l
      | Lt => p :: q :: l
      | Gt => q :: kv_put p l
      end
  end.

(** ** The store *)
Record petch_rec := Petch { pt_cap : Z; pt_limit : Z; pt_start : Z; pt_end : Z; pt_height : Z }.
Record drop_rec := DropRec {
  dr_txid : bytes; dr_asset : bytes; dr_cap : Z; dr_per : Z; dr_root : bytes; dr_expiry : Z; dr_inputs : Z;
  dr_depositor : option bytes; dr_height : Z }.
(** height 0: not confirmed *)
Record reclaim_rec := Reclaimed { rr_txid : bytes; rr_asset : bytes; rr_cap : Z; rr_height : Z }.
Record index := Index {
  petches : gmap bytes petch_rec;
  pmints : gmap bytes (list position);
  drops : gmap bytes drop_rec;
  dclaims : gmap bytes (list position);
  dclaim_leaves : gmap (bytes * Z) bytes;
  drop_reclaims : gmap bytes reclaim_rec }.
Definition empty_index : index := Index ∅ ∅ ∅ ∅ ∅ ∅.

Inductive write :=
| PutPetch (aid : bytes) (r : petch_rec)
| PutPmint (aid : bytes) (p : position)
| PutDrop (id : bytes) (r : drop_rec)
| PutLeaf (id : bytes) (leaf : Z) (claim_txid : bytes)
| PutDclaim (id : bytes) (p : position)
| PutReclaim (id : bytes) (r : reclaim_rec).
Definition keys_at (id : bytes) (m : gmap bytes (list position)) : list position := default [] (m !! id).
Definition apply_write (ix : index) (w : write) : index :=
  let '(Index pe pm dr dc le re) := ix in
  match w with
  | PutPetch aid r => Index (<[aid := r]> pe) pm dr dc le re
  | PutPmint aid p => Index pe (<[aid := kv_put p (keys_at aid pm)]> pm) dr dc le re
  | PutDrop id r => Index pe pm (<[id := r]> dr) dc le re
  | PutLeaf id i t => Index pe pm dr dc (<[(id, i) := t]> le) re
  | PutDclaim id p => Index pe pm dr (<[id := kv_put p (keys_at id dc)]> dc) le re
  | PutReclaim id r => Index pe pm dr dc le (<[id := r]> re)
  end.
Definition run_writes (ix : index) (ws : list write) : index := foldl apply_write ix ws.

Section scan.
Context `{Hash} {SE : Secp} {CH : Chain}.

(** ** The branches of the scan *)
Definition pmintCommitmentOpens (amount : Z) (blinding commitment : bytes) : bool :=
  match pedersenCommit amount (unbe blinding), bytesToPoint commitment with
  | Ok claimed, Ok onchain => equals claimed onchain
  | _, _ => false
  end.

(** the cache of [_petchLookup], one per scan *)
Definition petch_cache := gmap bytes (option petch_rec).
Definition _petchLookup (aid : bytes) (ix : index) (cache : petch_cache) : option petch_rec * petch_cache :=
  match cache !! aid with
  | Some v => (v, cache)
  | None => let v := petches ix !! aid in (v, <[aid := v]> cache)
  end.

Definition petch_branch (h : Z) (t : bytes) (payload : bytes) : list write :=
  match decoded (CPetch.decodeCPetchPayload payload) with
  | None => []
  | Some cp =>
      if negb (CPetch.mintStartHeight cp =? 0) && (CPetch.mintStartHeight cp <? h + 1) then [] else
      [PutPetch (assetIdFor t 0)
        (Petch (CPetch.capAmount cp) (CPetch.mintLimit cp) (CPetch.mintStartHeight cp) (CPetch.mintEndHeight cp) h)]
  end.

Definition effective_start (start etched : Z) : Z := if negb (start =? 0) then start else etched + 1.
Definition pmint_branch (h i : Z) (t : bytes) (payload : bytes) (ix : index) (cache : petch_cache)
    : list write * petch_cache :=
  match decoded (CPmint.decodeCPmintPayload payload) with
  | None => ([], cache)
  | Some cm =>
      let expectedAid := assetIdFor (CPmint.etchTxid cm) 0 in
      if negb (bool_decide (expectedAid = CPmint.assetId cm)) then ([], cache) else
      match _petchLookup expectedAid ix cache with
      | (None, cache) => ([], cache)
      | (Some petch, cache) =>
          if negb (CPmint.amount cm =? pt_limit petch) then ([], cache) else
          if h <? effective_start (pt_start petch) (pt_height petch) then ([], cache) else
          if negb (pt_end petch =? 0) && (h >? pt_end petch) then ([], cache) else
          if negb (pmintCommitmentOpens (CPmint.amount cm) (CPmint.blinding cm) (CPmint.commitment cm)) then ([], cache) else
          ([PutPmint expectedAid (Pos h i t)], cache)
      end
  end.

(** the key of the first funding input *)
Definition dropDepositorXonly (tx : txn) : option bytes :=
  v ← tx_vin tx !! 1%nat; w ← in_witness v !! 1%nat;
  if (blen w =? 33) && (bool_decide (head w = Some x02) || bool_decide (head w = Some x03)) then Some (drop 1 w) else None.

(** the earlier of two reclaims stands; an unconfirmed one gives way *)
Definition prior_stands (prior : reclaim_rec) (t : bytes) (mh : Z) : bool :=
  let ph := rr_height prior in
  let priorFirst := (ph >? 0) && ((mh =? 0) || (ph <? mh) || ((ph =? mh) && String.ltb (bytesToHex (rr_txid prior)) (bytesToHex t))) in
  priorFirst || ((ph =? 0) && (mh =? 0)).
Definition putDropReclaim (id : bytes) (meta : reclaim_rec) (signer : bytes) (ix : index) : list write :=
  match drops ix !! id with
  | None => []
  | Some d =>
      let depositor := match dr_depositor d with Some x => Some x | None => fetchTx (dr_txid d) ≫= dropDepositorXonly end in
      if negb (bool_decide (depositor = Some signer)) then [] else
      match drop_reclaims ix !! id with
      | Some prior =>
          if negb (bool_decide (rr_txid prior = rr_txid meta)) && prior_stands prior (rr_txid meta) (rr_height meta) then []
          else [PutReclaim id meta]
      | None => [PutReclaim id meta]
      end
  end.

Definition drop_branch (h : Z) (t : bytes) (tx : txn) (e : envelope) (ix : index) : list write :=
  match decoded (CDrop.decodeCDropPayload (env_payload e)) with
  | None => []
  | Some (CDrop.Drop a cap per root expiry _ _ n _) =>
      [PutDrop (dropIdFromRevealTxid t) (DropRec t a cap per root expiry n (dropDepositorXonly tx) h)]
  | Some (CDrop.Reclaim a cap id _ _) => putDropReclaim id (Reclaimed t a cap h) (signingPubXonly e) ix
  end.

Definition dclaim_branch (h i : Z) (t : bytes) (payload : bytes) (ix : index) : list write :=
  match decoded (CDClaim.decodeCDClaimPayload payload) with
  | None => []
  | Some c =>
      let id := dropIdFromRevealTxid (CDClaim.dropRevealTxid c) in
      match drops ix !! id with
      | None => []
      | Some d =>
          if negb (CDClaim.amount c =? dr_per d) then [] else
          if negb (dr_expiry d =? 0) && (h >? dr_expiry d) then [] else
          if negb (pmintCommitmentOpens (CDClaim.amount c) (CDClaim.blinding c) (CDClaim.commitment c)) then [] else
          if all_zero (dr_root d) then
            if CDClaim.claim_witness c is Some _ then [] else [PutDclaim id (Pos h i t)]
          else
            match CDClaim.claim_witness c with
            | None => []
            | Some w =>
                if bool_decide (is_Some (dclaim_leaves ix !! (id, CDClaim.leafIndex w))) then [] else
                [PutLeaf id (CDClaim.leafIndex w) t; PutDclaim id (Pos h i t)]
            end
      end
  end.

(** One transaction of a block; the cache lives as long as the scan. *)
Definition scan_launch (h i : Z) (t : bytes) (tx : txn) (e : envelope) (st : index * petch_cache) : index * petch_cache :=
  let '(ix, cache) := st in
  let op := env_opcode e in
  if op =? T_PETCH then (run_writes ix (petch_branch h t (env_payload e)), cache)
  else if op =? T_PMINT then
    let '(ws, cache) := pmint_branch h i t (env_payload e) ix cache in (run_writes ix ws, cache)
  else if op =? T_DROP then (run_writes ix (drop_branch h t tx e ix), cache)
  else if op =? T_DCLAIM then (run_writes ix (dclaim_branch h i t (env_payload e) ix), cache)
  else st.

(** the envelope of the first input *)
Definition launch_envelope (tx : txn) : option envelope :=
  i ← head (tx_vin tx); _witnessEnvelope (in_witness i).
(** the transactions of a block, in order *)
Fixpoint scan_block (h i : Z) (txids : list bytes) (st : index * petch_cache) : index * petch_cache :=
  match txids with
  | [] => st
  | t :: txids =>
      let st := match fetchTx t with
                | Some tx => if launch_envelope tx is Some e then scan_launch h i t tx e st else st
                | None => st
                end in
      scan_block h (i + 1) txids st
  end.
(** [for (let h = startHeight; ...)] *)
Fixpoint scan_blocks (h : Z) (blocks : list (list bytes)) (st : index * petch_cache) : index * petch_cache :=
  match blocks with
  | [] => st
  | b :: blocks => scan_blocks (h + 1) blocks (scan_block h 0 b st)
  end.
(** One scan: whole blocks, then perhaps a part of the next, which is scanned again. *)
Definition scan_tick (h : Z) (blocks : list (list bytes)) (part : list bytes) (ix : index) : Z * index :=
  (h + Z.of_nat (length blocks), (scan_blocks h (blocks ++ [part]) (ix, ∅)).1).
End scan.

(** ** Crediting *)
Definition PMINT_CONFIRMATION_DEPTH : Z := 3.
Definition depth (tip h : Z) : Z := Z.max 0 (tip - h + 1).

Inductive status := pending | unknown_depth | duplicate | cap_overflow | credited.
#[export] Instance status_eq_dec : EqDecision status.
Proof. solve_decision. Defined.

Record tally := Tally { ta_seen : gset bytes; ta_amount : Z; ta_count : Z }.
Definition no_tally : tally := Tally ∅ 0 0.
Definition annotate (tip : option Z) (cap limit : Z) (ta : tally) (p : position) : status * tally :=
  match tip with
  | None => (unknown_depth, ta)
  | Some tip =>
      if depth tip (p_height p) <? PMINT_CONFIRMATION_DEPTH then (pending, ta) else
      if bool_decide (p_txid p ∈ ta_seen ta) then (duplicate, ta) else
      let seen := {[ p_txid p ]} ∪ ta_seen ta in
      let wouldBe := ta_amount ta + limit in
      if wouldBe >? cap then (cap_overflow, Tally seen (ta_amount ta) (ta_count ta))
      else (credited, Tally seen wouldBe (ta_count ta + 1))
  end.
Fixpoint annotate_all (tip : option Z) (cap limit : Z) (ta : tally) (ps : list position) : list (position * status) * tally :=
  match ps with
  | [] => ([], ta)
  | p :: ps =>
      let '(s, ta) := annotate tip cap limit ta p in
      let '(l, ta) := annotate_all tip cap limit ta ps in ((p, s) :: l, ta)
  end.

(** The keys of the canonical heights, page by page, and whether some are left out. *)
Fixpoint canonical_walk (guard : nat) (pages : list (list position)) (acc : list position) : list position * bool :=
  match guard, pages with
  | O, _ => (acc, true)
  | S _, [] => (acc, false)
  | S guard, pg :: pages =>
      let acc := acc ++ filter (λ p, is_orphan p = false) pg in
      match pages with
      | [] => (acc, false)
      | _ => if (5000 <=? length acc)%nat then (acc, true) else canonical_walk guard pages acc
      end
  end.

Record canonical_pmints := CanonicalPmints {
  events : list (position * status); cp_count : Z; cp_amount : Z; canonical_truncated : bool }.
Definition loadCanonicalPmints (pages : list (list position)) (tip : option Z) (cap limit : Z) : canonical_pmints :=
  let '(canonical, truncated) := canonical_walk 60 pages [] in
  let '(l, ta) := annotate_all tip cap limit no_tally canonical in
  CanonicalPmints l (ta_count ta) (ta_amount ta) truncated.

(** A walk over the pages of keys: [step] says whether to stop early; so does the guard.
    The flag of the result: the walk is cut short. *)
Section walks.
Context {S : Type} (step : position → S → S * bool).
Fixpoint walk_page (ps : list position) (s : S) : S * bool :=
  match ps with
  | [] => (s, false)
  | p :: ps => match step p s with (s, true) => (s, true) | (s, false) => walk_page ps s end
  end.
Fixpoint walk_pages (guard : nat) (pages : list (list position)) (s : S) : S * bool :=
  match guard, pages with
  | O, _ => (s, true)
  | _, [] => (s, false)
  | Datatypes.S guard, pg :: pages =>
      match walk_page pg s with
      | (s, true) => (s, true)
      | (s, false) => match pages with [] => (s, false) | _ => walk_pages guard pages s end
      end
  end.
End walks.

(** ** The snapshot *)
Definition PETCH_REFRESH_MAX_PAGES : nat := 300.
Definition PETCH_REFRESH_SAFETY_CAP : Z := 300000.
Definition CAP_OVERFLOW_TXIDS_MAX : nat := 10000.
Record refresh := Refresh {
  re_seen : gset bytes; re_amount : Z; re_count : Z; re_overflow_count : Z; re_overflow : list bytes;
  re_pending : Z; re_canonical : Z; re_last : option position }.
Definition refresh_start : refresh := Refresh ∅ 0 0 0 [] 0 0 None.
(** one key; the flag: the safety cap is reached *)
Definition refresh_key (tip cap limit : Z) (p : position) (s : refresh) : refresh * bool :=
  if is_orphan p then (s, false) else
  let '(Refresh seen amount count ovc ov pend canon last) := s in
  let canon := canon + 1 in
  if depth tip (p_height p) <? PMINT_CONFIRMATION_DEPTH then (Refresh seen amount count ovc ov (pend + 1) canon last, false) else
  if bool_decide (p_txid p ∈ seen) then (Refresh seen amount count ovc ov pend canon last, false) else
  let seen := {[ p_txid p ]} ∪ seen in
  let wouldBe := amount + limit in
  if wouldBe >? cap then
    (Refresh seen amount count (ovc + 1) (if (length ov <? CAP_OVERFLOW_TXIDS_MAX)%nat then ov ++ [p_txid p] else ov) pend canon last, false)
  else (Refresh seen wouldBe (count + 1) ovc ov pend canon (Some p), canon >=? PETCH_REFRESH_SAFETY_CAP).
Definition refresh_pages (tip cap limit : Z) (pages : list (list position)) : refresh * bool :=
  walk_pages (refresh_key tip cap limit) PETCH_REFRESH_MAX_PAGES pages refresh_start.

Record snapshot := Snapshot {
  credited_count : Z; credited_amount : Z; cap_overflow_count : Z; cap_overflow_txids : list bytes;
  cap_overflow_truncated : bool; pending_count : Z; canonical_count : Z; last_credited : option position;
  tip_at_update : Z; scanned_at_update : option Z; sn_truncated : bool; cap_counter_final : bool }.
(** [None]: there is no tip *)
Definition refreshPetchProgress (pages : list (list position)) (orphanCount : Z) (scannedHeight tip : option Z)
    (petch : petch_rec) : option snapshot :=
  tip ← tip;
  let '(s, truncated) := refresh_pages tip (pt_cap petch) (pt_limit petch) pages in
  let capFull := re_amount s =? pt_cap petch in
  let windowClosed := (pt_end petch >? 0) && (tip >? pt_end petch + PMINT_CONFIRMATION_DEPTH) in
  Some (Snapshot (re_count s) (re_amount s) (re_overflow_count s) (re_overflow s)
    (re_overflow_count s >? Z.of_nat (length (re_overflow s))) (re_pending s + orphanCount) (re_canonical s) (re_last s)
    tip (Z.min tip <$> scannedHeight) truncated (capFull || windowClosed)).

(** ** What clients are told *)
(** the response with [credited=1]: the identifiers, and the facts of the snapshot *)
Record credit := Credit {
  cr_credited : list bytes; cr_overflow : list bytes; cr_overflow_truncated : bool; cr_truncated : bool;
  cr_last : option position; cr_tip : option Z; cr_scanned : option Z }.
(** with [include_txids=0] *)
Definition slim_credit (snap : option snapshot) : credit :=
  match snap with
  | None => Credit [] [] false true None None None
  | Some s => Credit [] (cap_overflow_txids s) (cap_overflow_truncated s) true (last_credited s)
                (Some (tip_at_update s)) (scanned_at_update s)
  end.
(** with the identifiers: the keys are walked again *)
Definition SAFETY_CAP : nat := 50000.
Definition FAT_MAX_PAGES : nat := 200.
Record fat := Fat { fa_credited : list bytes; fa_overflow : list bytes; fa_amount : Z }.
Definition fat_key (tip : option Z) (cap limit : Z) (p : position) (s : fat) : fat * bool :=
  let shallow := if tip is Some tip then depth tip (p_height p) <? PMINT_CONFIRMATION_DEPTH else false in
  if is_orphan p || shallow then (s, false) else
  let wouldBe := fa_amount s + limit in
  if wouldBe >? cap then (Fat (fa_credited s) (fa_overflow s ++ [p_txid p]) (fa_amount s), false)
  else
    let credited := fa_credited s ++ [p_txid p] in
    (Fat credited (fa_overflow s) wouldBe, (SAFETY_CAP <=? length credited)%nat).
Definition fat_credit (snap : option snapshot) (pages : list (list position)) (scannedHeight tip : option Z) (cap limit : Z) : credit :=
  let '(s, truncated) := walk_pages (fat_key tip cap limit) FAT_MAX_PAGES pages (Fat [] [] 0) in
  Credit (fa_credited s) (if snap is Some sn then cap_overflow_txids sn else fa_overflow s)
    false truncated (snap ≫= last_credited) tip scannedHeight.

(** *** Claims of a drop *)
Definition DCLAIM_CREDIT_PAGE_GUARD : nat := 64.
Record claim_walk := ClaimWalk { cw_seen : gset bytes; cw_credited : list bytes; cw_reached : bool }.
Definition claim_key (tip maxClaims : Z) (s : claim_walk) (p : position) : claim_walk :=
  if tip - p_height p + 1 <? PMINT_CONFIRMATION_DEPTH then s else
  if bool_decide (p_txid p ∈ cw_seen s) then s else
  let seen := {[ p_txid p ]} ∪ cw_seen s in
  if Z.of_nat (length (cw_credited s)) >=? maxClaims then ClaimWalk seen (cw_credited s) true
  else ClaimWalk seen (cw_credited s ++ [p_txid p]) (cw_reached s).
(** the walk, whether it is complete *)
Fixpoint claim_pages (guard : nat) (tip maxClaims : Z) (pages : list (list position)) (s : claim_walk) : claim_walk * bool :=
  match guard, pages with
  | O, _ => (s, false)
  | S _, [] => (s, true)
  | S guard, pg :: pages =>
      let s := foldl (claim_key tip maxClaims) s pg in
      match pages with
      | [] => (s, true)
      | _ => if Z.of_nat (length (cw_credited s)) >=? maxClaims then (ClaimWalk (cw_seen s) (cw_credited s) true, true)
             else claim_pages guard tip maxClaims pages s
      end
  end.
(** [None]: not resolvable *)
Definition loadCreditedDclaims (pages : list (list position)) (tip : option Z) (cap per : Z) : option (list bytes) :=
  if per >? 0 then
    tip ← tip;
    let '(s, complete) := claim_pages DCLAIM_CREDIT_PAGE_GUARD tip (cap / per) pages (ClaimWalk ∅ [] false) in
    if complete || cw_reached s then Some (cw_credited s) else None
  else None.

(** the progress the drop's record is served with *)
Definition DCLAIM_PROGRESS_PAGE_GUARD : nat := 32.
Record progress := Progress { claim_count : Z; claimed_amount : Z; remaining_amount : Z; list_complete : bool; pr_scanned : option Z }.
Definition progress_key (tip : option Z) (s : gset bytes * Z) (p : position) : gset bytes * Z :=
  let shallow := if tip is Some tip then tip - p_height p + 1 <? PMINT_CONFIRMATION_DEPTH else false in
  if shallow then s else
  if bool_decide (p_txid p ∈ s.1) then s else ({[ p_txid p ]} ∪ s.1, s.2 + 1).
Definition drop_progress (pages : list (list position)) (scannedHeight tip : option Z) (d : drop_rec) : progress :=
  let eligible := (foldl (progress_key tip) (∅, 0) (concat (take DCLAIM_PROGRESS_PAGE_GUARD pages))).2 in
  let creditedCount := Z.min eligible (dr_cap d / dr_per d) in
  let claimed := creditedCount * dr_per d in
  Progress creditedCount claimed (Z.max 0 (dr_cap d - claimed)) (length pages <=? DCLAIM_PROGRESS_PAGE_GUARD)%nat
    (t ← tip; Z.min t <$> scannedHeight).
