(* ===== verification/Airdrop.v ===== *)
(** * Airdrop trees and claims

    The list an airdrop commits to is a tree of hashes of (address, amount, index), each
    pair sorted before hashing; a claim shows a path to the root and a signature by the
    address over a text that names the recipient.  Source: the airdrop functions of
    [dapp/tacit.js].  The library's key recovery and RIPEMD-160 are parameters. *)
From Stdlib Require Import Ascii.
From stdpp Require Import strings pretty.
From S2P Require Import Prelude Bytes Text Crypto EnvelopeScript CodecTransfer CodecIssue CodecPool CodecSlots CodecAmm.
From S2P Require Import Messages Curve Hex Merkle Mixer MixerProof CodecBridge Kernel Notes MixerLeaf.

(** ** Trees *)
Definition AIRDROP_LEAF_TAG : bytes := ascii_bytes "tacit-airdrop-leaf-v1".
Definition AIRDROP_NODE_TAG : bytes := ascii_bytes "tacit-airdrop-node-v1".

Section trees.
Context `{Hash}.

Definition airdropLeafHash (ethAddrBytes : bytes) (amount index : Z) : res bytes :=
  throw_if (negb (blen ethAddrBytes =? 20)) "eth_address must be 20 bytes";;
  throw_if ((amount <? 0) || (amount >=? Z.shiftl 1 64)) "amount out of u64 range";;
  throw_if ((index <? 0) || (index >? 0xffffffff)) "index out of u32 range";;
  mret (sha256 (concatBytes [AIRDROP_LEAF_TAG; ethAddrBytes; le 8 amount; le 4 index])).

(** [cmp <= 0]: at the first byte that differs, [a]'s is smaller *)
Fixpoint bytes_le (a b : bytes) : bool :=
  match a, b with
  | x :: a, y :: b => if byteZ x =? byteZ y then bytes_le a b else byteZ x <? byteZ y
  | _, _ => true
  end.
Definition _airdropNodeHash (a b : bytes) : bytes :=
  let '(lo, hi) := if bytes_le a b then (a, b) else (b, a) in sha256 (concatBytes [AIRDROP_NODE_TAG; lo; hi]).

(** the layer above: pairs hashed, an odd last one carried over *)
Fixpoint next_layer (l : list bytes) : list bytes :=
  match l with
  | a :: b :: l => _airdropNodeHash a b :: next_layer l
  | l => l
  end.
(** [while (layers[layers.length - 1].length > 1)] *)
Fixpoint merkle_layers (fuel : nat) (l : list bytes) : list (list bytes) :=
  match fuel with
  | O => [l]
  | S fuel => if (length l <=? 1)%nat then [l] else l :: merkle_layers fuel (next_layer l)
  end.
Definition buildAirdropMerkle (leaves : list bytes) : res (bytes * list (list bytes)) :=
  throw_if (length leaves =? 0)%nat "leaves must be a non-empty array";;
  throw_if (negb (forallb (λ l, blen l =? 32) leaves)) "leaves must be 32-byte arrays";;
  let layers := merkle_layers (length leaves) leaves in
  mret (nth 0 (List.last layers []) [], layers).

Fixpoint proof_of (layers : list (list bytes)) (idx : nat) : list bytes :=
  match layers with
  | [] => []
  | layer :: above =>
      match above with
      | [] => []
      | _ =>
          match layer !! (if Nat.even idx then S idx else Nat.pred idx) with
          | Some s => s :: proof_of above (Nat.div2 idx)
          | None => proof_of above (Nat.div2 idx)
          end
      end
  end.
Definition airdropMerkleProof (layers : list (list bytes)) (leafIndex : nat) : res (list bytes) :=
  match layers with
  | [] => Throw "empty layers"
  | l :: _ => throw_if (length l <=? leafIndex)%nat "leafIndex out of range";; mret (proof_of layers leafIndex)
  end.

Fixpoint walk_proof (h : bytes) (proof : list bytes) : option bytes :=
  match proof with
  | [] => Some h
  | s :: proof => if blen s =? 32 then walk_proof (_airdropNodeHash h s) proof else None
  end.
Definition verifyAirdropMerkleProof (leaf : bytes) (proof : list bytes) (root : bytes) : bool :=
  if negb (blen leaf =? 32) then false else
  if negb (blen root =? 32) then false else
  match walk_proof leaf proof with
  | Some h => (blen h =? 32) && bool_decide (h = root)
  | None => false
  end.
End trees.

(** ** The text a claimant signs *)
Class EthKeys := {
  recoverPublicKey : bytes → Z → bytes → option bytes;  (* r and s, recovery bit, hash: 65 bytes; None: it throws *)
  ripemd160 : bytes → bytes }.

Definition ascii_text (s : string) : text := map (λ c, Z.of_N (N_of_ascii c)) (String.list_ascii_of_string s).
(** [s.replace(/0+$/, '')] *)
Fixpoint strip_zeros (s : string) : string :=
  match s with
  | EmptyString => EmptyString
  | String c s => let r := strip_zeros s in if bool_decide (r = ""%string) && bool_decide (c = "0"%char) then "" else String c r
  end.
Definition fmtAssetAmountPlain (a decimals : Z) : string :=
  if decimals =? 0 then pretty a else
  let div := 10 ^ decimals in
  let frac := strip_zeros (padStart (Z.to_nat decimals) (pretty (a mod div))) in
  if bool_decide (frac = ""%string) then pretty (a / div) else (pretty (a / div) +:+ "." +:+ frac)%string.

Definition hex_char_ok (c : ascii) : bool := if hex_value c is Some _ then true else false.
(** [/^[0-9a-f]{n}$/] of a lower-case string *)
Definition is_hexn (n : nat) (s : string) : bool := (String.length s =? n)%nat && string_all hex_char_ok s.
(** [/^0[23][0-9a-f]{64}$/] *)
Definition is_pub_hex (s : string) : bool :=
  is_hexn 66 s && bool_decide (String.get 0 s = Some "0"%char) &&
  (bool_decide (String.get 1 s = Some "2"%char) || bool_decide (String.get 1 s = Some "3"%char)).
Definition is_space (c : ascii) : bool := let n := Z.of_N (N_of_ascii c) in ((9 <=? n) && (n <=? 13)) || (n =? 32) || (n =? 160).
Fixpoint no_spaces (s : string) : string :=
  match s with EmptyString => EmptyString | String c s => if is_space c then no_spaces s else String c (no_spaces s) end.

Record claim_terms := ClaimTerms {
  ct_rootHex : string; ct_network : string; ct_assetIdHex : string; ct_ethAddrHex : string; ct_leafIndex : Z;
  ct_amount : Z; ct_ticker : text; ct_decimals : Z; ct_tacitPubHex : string }.
Fixpoint join_lines (l : list text) : text :=
  match l with
  | [] => []
  | [x] => x
  | x :: l => x ++ 10 :: join_lines l
  end.
Definition buildAirdropClaimMsg (x : claim_terms) : res text :=
  throw_if (negb (is_hexn 64 (toLowerCase (ct_rootHex x)))) "rootHex must be 64-hex";;
  throw_if (bool_decide (ct_network x = ""%string)) "network required";;
  throw_if (negb (is_hexn 64 (toLowerCase (ct_assetIdHex x)))) "assetIdHex must be 64-hex";;
  let cleanAddr := strip0x (toLowerCase (ct_ethAddrHex x)) in
  throw_if (negb (is_hexn 40 cleanAddr)) "ethAddrHex must be 40-hex";;
  throw_if (ct_leafIndex x <? 0) "leafIndex required";;
  throw_if ((ct_amount x <? 0) || (ct_amount x >=? Z.shiftl 1 64)) "amount out of u64";;
  throw_if ((ct_decimals x <? 0) || (ct_decimals x >? 8)) "decimals 0..8 (CETCH max)";;
  let cleanPub := no_spaces (toLowerCase (ct_tacitPubHex x)) in
  throw_if (negb (is_pub_hex cleanPub)) "tacitPubHex must be 33-byte compressed";;
  let display := fmtAssetAmountPlain (ct_amount x) (ct_decimals x) in
  mret (join_lines [
    ascii_text "tacit airdrop claim v1";
    [];
    ascii_text ("Drop:    " +:+ toLowerCase (ct_rootHex x));
    ascii_text ("Network: " +:+ ct_network x);
    ascii_text ("Asset:   " +:+ toLowerCase (ct_assetIdHex x));
    ascii_text ("Address: 0x" +:+ cleanAddr);
    ascii_text ("Leaf:    " +:+ pretty (ct_leafIndex x));
    ascii_text ("Amount:  " +:+ display +:+ " ") ++ ct_ticker x ++ ascii_text (" (" +:+ pretty (ct_amount x) +:+ ")");
    ascii_text ("Tacit:   " +:+ cleanPub);
    [];
    ascii_text "By signing, you authorize the airdrop issuer to send the above amount of " ++ ct_ticker x ++
      ascii_text " to the tacit pubkey listed."]).

Section signatures.
Context {MC : MixerChain} {EK : EthKeys}.

Definition eip191Hash (msg : text) : bytes :=
  let msgBytes := text_encode msg in
  keccak_256 (u8b 0x19 ++ ascii_bytes "Ethereum Signed Message:" ++ u8b 10 ++ ascii_bytes (pretty (blen msgBytes)) ++ msgBytes).
Definition recoverEthAddrFromSig (msg : text) (sigHex : string) : res string :=
  let clean := strip0x (toLowerCase sigHex) in
  throw_if (negb (is_hexn 130 clean)) "eth signature must be 65 bytes (130 hex)";;
  sig ← hexToBytes clean;
  let vByte := byteZ (nth 64 sig x00) in
  recovery ← (if (vByte =? 27) || (vByte =? 28) then mret (vByte - 27)
              else if (vByte =? 0) || (vByte =? 1) then mret vByte
              else Throw "unsupported recovery v");
  match recoverPublicKey (take 64 sig) recovery (eip191Hash msg) with
  | None => Throw "recoverPublicKey"
  | Some pub =>
      throw_if (negb (blen pub =? 65) || negb (byteZ (nth 0 pub x00) =? 0x04)) "recovered pubkey malformed";;
      mret (bytesToHex (drop 12 (keccak_256 (drop 1 pub))))
  end.
Definition verifyAirdropClaimSig (msg : text) (sigHex expectedEthAddrHex : string) : bool :=
  match recoverEthAddrFromSig msg sigHex with
  | Ok recovered => bool_decide (recovered = strip0x (toLowerCase expectedEthAddrHex))
  | _ => false
  end.
End signatures.
