(* ===== verification/AirdropFacts.v ===== *)
(** * What an airdrop's root commits to

    The path built for an entry verifies; and an entry that verifies against the root of
    a list is one of the list, or two different preimages that were hashed have one
    hash. *)
From Stdlib Require Import Ascii.
From stdpp Require Import strings pretty.
From S2P Require Import Prelude Bytes Text Crypto EnvelopeScript CodecTransfer CodecIssue CodecPool CodecSlots CodecAmm.
From S2P Require Import Messages Curve Hex Merkle Mixer MixerProof CodecBridge Kernel Notes MixerLeaf Airdrop.

Section airdrop.
Context `{Hash} `{!HashLen}.

(** ** Nodes *)
Definition node_pre (a b : bytes) : bytes :=
  let '(lo, hi) := if bytes_le a b then (a, b) else (b, a) in concatBytes [AIRDROP_NODE_TAG; lo; hi].
Lemma node_hash a b : _airdropNodeHash a b = sha256 (node_pre a b).
Proof. unfold _airdropNodeHash, node_pre. by destruct (bytes_le a b). Qed.
Lemma blen_node a b : blen (_airdropNodeHash a b) = 32.
Proof. rewrite node_hash. apply sha256_len. Qed.
Lemma bytes_le_total a b : bytes_le a b = false → bytes_le b a = true.
Proof.
  revert b. induction a as [|x a IH]; intros [|y b]; cbn [bytes_le]; try done.
  rewrite (Z.eqb_sym (byteZ y)). destruct (Z.eqb_spec (byteZ x) (byteZ y)); [apply IH|]. lia.
Qed.
Lemma bytes_le_antisym a b : length a = length b → bytes_le a b = true → bytes_le b a = true → a = b.
Proof.
  revert b. induction a as [|x a IH]; intros [|y b]; cbn [bytes_le length]; try done.
  rewrite (Z.eqb_sym (byteZ y)). destruct (Z.eqb_spec (byteZ x) (byteZ y)) as [E|]; [|lia].
  intros [= Hl] Hab Hba. rewrite <- (byte_of_byteZ x), <- (byte_of_byteZ y), E. f_equal. by apply IH.
Qed.
Lemma node_pre_comm a b : length a = length b → node_pre a b = node_pre b a.
Proof.
  intros Hl. unfold node_pre. destruct (bytes_le a b) eqn:E1, (bytes_le b a) eqn:E2; try done.
  - by rewrite (bytes_le_antisym a b Hl E1 E2).
  - apply bytes_le_total in E1. congruence.
Qed.

(** ** The path of an entry *)
Definition sibling (idx : nat) : nat := if Nat.even idx then S idx else Nat.pred idx.
Lemma next_layer_lookup l idx x :
  (∀ y, y ∈ l → length y = 32%nat) → l !! idx = Some x →
  next_layer l !! Nat.div2 idx = Some (match l !! sibling idx with Some s => _airdropNodeHash x s | None => x end).
Proof.
  remember (length l) as n eqn:Hn. revert l idx Hn. induction (lt_wf n) as [n _ IH]. intros [|a [|b l]] idx Hn Hlen Hx.
  - by rewrite lookup_nil in Hx.
  - destruct idx as [|[|idx]]; [by injection Hx as ->|discriminate Hx..].
  - destruct idx as [|[|idx]].
    + by injection Hx as ->.
    + injection Hx as ->. cbn. rewrite !node_hash. f_equal. f_equal. apply node_pre_comm.
      rewrite !Hlen; [done|right; by left|by left].
    + cbn [next_layer Nat.div2]. change ((_airdropNodeHash a b :: next_layer l) !! S (Nat.div2 idx)) with (next_layer l !! Nat.div2 idx).
      rewrite (IH (length l)); [|subst n; cbn; lia|done|intros y Hy; apply Hlen; by right; right|exact Hx].
      unfold sibling. cbn [Nat.even]. destruct (Nat.even idx) eqn:Ev; [done|]. destruct idx as [|idx]; [done|]. done.
Qed.
Lemma next_layer_32 l : (∀ y, y ∈ l → length y = 32%nat) → ∀ y, y ∈ next_layer l → length y = 32%nat.
Proof.
  remember (length l) as n eqn:Hn. revert l Hn. induction (lt_wf n) as [n _ IH]. intros [|a [|b l]] Hn Hlen y; cbn [next_layer]; [apply Hlen..|].
  intros [->|Hy]%elem_of_cons.
  - apply Nat2Z.inj. exact (blen_node a b).
  - apply (IH (length l)) with l; [subst n; cbn; lia|done|intros z Hz; apply Hlen; by right; right|done].
Qed.
Lemma next_layer_length l : (2 <= length l)%nat → (1 <= length (next_layer l) < length l)%nat.
Proof.
  remember (length l) as n eqn:Hn. revert l Hn. induction (lt_wf n) as [n _ IH]. intros [|a [|b l]] Hn Hl; subst n; cbn [length] in *; try lia.
  cbn [next_layer length]. destruct l as [|c [|d l]]; [cbn; lia|cbn; lia|].
  pose proof (IH (length (c :: d :: l)) ltac:(cbn [length] in *; lia) (c :: d :: l) eq_refl ltac:(cbn; lia)). cbn [length] in *. lia.
Qed.
Lemma walk_path fuel l idx x :
  (1 <= length l <= S fuel)%nat → (∀ y, y ∈ l → length y = 32%nat) → l !! idx = Some x →
  walk_proof x (proof_of (merkle_layers fuel l) idx) = Some (nth 0 (List.last (merkle_layers fuel l) []) []) .
Proof.
  revert l idx x. induction fuel as [|fuel IH]; intros l idx x Hl H32 Hx; cbn [merkle_layers].
  - destruct l as [|y [|z l]]; cbn [length] in *; try lia. destruct idx as [|[|idx]]; [by injection Hx as ->|discriminate Hx..].
  - destruct (Nat.leb_spec (length l) 1) as [Hs|Hs].
    + destruct l as [|y [|z l]]; cbn [length] in *; try lia. destruct idx as [|[|idx]]; [by injection Hx as ->|discriminate Hx..].
    + pose proof (next_layer_length l ltac:(lia)) as Hn. pose proof (next_layer_lookup l idx x H32 Hx) as Hnext.
      pose proof (λ x', IH (next_layer l) (Nat.div2 idx) x' ltac:(lia) (next_layer_32 l H32)) as IH'.
      destruct (merkle_layers fuel (next_layer l)) as [|m ms] eqn:Em; [destruct fuel; cbn [merkle_layers] in Em; [done|by destruct (_ <=? _)%nat]|].
      change (List.last (l :: m :: ms) []) with (List.last (m :: ms) []).
      change (proof_of (l :: m :: ms) idx) with
        (match l !! sibling idx with Some s => s :: proof_of (m :: ms) (Nat.div2 idx) | None => proof_of (m :: ms) (Nat.div2 idx) end).
      destruct (l !! sibling idx) as [s|] eqn:Es; [|by apply IH'].
      cbn [walk_proof]. assert ((blen s =? 32) = true) as ->; [|by apply IH'].
      apply Z.eqb_eq. unfold blen. rewrite (H32 s) by (by eapply list_elem_of_lookup_2). done.
Qed.
Lemma layers_last_32 fuel l :
  (1 <= length l <= S fuel)%nat → (∀ y, y ∈ l → length y = 32%nat) → blen (nth 0 (List.last (merkle_layers fuel l) []) []) = 32.
Proof.
  revert l. induction fuel as [|fuel IH]; intros l Hl H32; cbn [merkle_layers].
  - destruct l as [|y l]; [cbn in Hl; lia|]. cbn. unfold blen. by rewrite H32 by left.
  - destruct (Nat.leb_spec (length l) 1).
    + destruct l as [|y l]; [cbn in Hl; lia|]. cbn. unfold blen. by rewrite H32 by left.
    + pose proof (next_layer_length l ltac:(lia)). specialize (IH (next_layer l) ltac:(lia) (next_layer_32 l H32)).
      destruct (merkle_layers fuel (next_layer l)) as [|m ms] eqn:Em; [destruct fuel; cbn [merkle_layers] in Em; [done|by destruct (_ <=? _)%nat]|].
      exact IH.
Qed.
Lemma layers_head fuel l : ∃ ms, merkle_layers fuel l = l :: ms.
Proof. destruct fuel; cbn [merkle_layers]; [by eexists|]. destruct (_ <=? _)%nat; by eexists. Qed.
Lemma airdrop_path leaves root layers idx leaf :
  buildAirdropMerkle leaves = Ok (root, layers) → leaves !! idx = Some leaf →
  ∃ proof, airdropMerkleProof layers idx = Ok proof ∧ verifyAirdropMerkleProof leaf proof root = true.
Proof.
  unfold buildAirdropMerkle. intros E Hx.
  destruct (Nat.eqb_spec (length leaves) 0) as [|Hne]; [discriminate|]. cbn [throw_if mbind res_bind] in E.
  destruct (forallb _ _) eqn:Hf; [|discriminate]. cbn in E. injection E as <- <-.
  assert (H32 : ∀ y, y ∈ leaves → length y = 32%nat).
  { intros y Hy. rewrite forallb_forall in Hf. specialize (Hf y ltac:(by apply list_elem_of_In)). unfold blen in Hf. lia. }
  exists (proof_of (merkle_layers (length leaves) leaves) idx). split.
  - unfold airdropMerkleProof. destruct (layers_head (length leaves) leaves) as [ms E]. rewrite E.
    apply lookup_lt_Some in Hx. by rewrite (proj2 (Nat.leb_gt _ _) Hx).
  - unfold verifyAirdropMerkleProof. assert (blen leaf = 32) as ->.
    { unfold blen. rewrite H32; [done|by eapply list_elem_of_lookup_2]. }
    rewrite layers_last_32 by (done || lia). cbn [negb Z.eqb Pos.eqb]. rewrite walk_path by (done || lia).
    rewrite layers_last_32 by (done || lia). by rewrite bool_decide_eq_true_2.
Qed.

(** ** What a verified path shows *)
(** an entry of a list: the address, the amount, the index *)
Record entry := Entry { en_address : bytes; en_amount : Z; en_index : Z }.
Definition entry_ok (e : entry) : Prop := blen (en_address e) = 20 ∧ 0 <= en_amount e < 2 ^ 64 ∧ 0 <= en_index e < 2 ^ 32.
Definition leaf_pre (e : entry) : bytes := concatBytes [AIRDROP_LEAF_TAG; en_address e; le 8 (en_amount e); le 4 (en_index e)].
Definition leaf_of (e : entry) : bytes := sha256 (leaf_pre e).
Lemma airdropLeafHash_entry a v i leaf : airdropLeafHash a v i = Ok leaf → entry_ok (Entry a v i) ∧ leaf = leaf_of (Entry a v i).
Proof.
  unfold airdropLeafHash. intros E. enc_inv E. injection E as <-. change (Z.shiftl 1 64) with (2 ^ 64) in *.
  bool_to_prop. unfold entry_ok. cbn [en_address en_amount en_index]. split; [split_and!; lia|done].
Qed.
Lemma leaf_pre_inj e f : entry_ok e → entry_ok f → leaf_pre e = leaf_pre f → e = f.
Proof.
  destruct e as [a v i], f as [a' v' i']. unfold leaf_pre, entry_ok. cbn [en_address en_amount en_index].
  intros (Ha & Hv & Hi) (Ha' & Hv' & Hi'). rewrite !concatBytes_cons. intros E.
  apply app_inv_head in E. apply app_inj_blen in E as [-> E]; [|congruence].
  apply app_inj_blen in E as [Ev E]; [|by rewrite !blen_le]. apply app_inj_blen in E as [Ei _]; [|by rewrite !blen_le].
  apply (f_equal unle) in Ev, Ei. rewrite !unle_le in Ev, Ei. rewrite !Z.mod_small in Ev, Ei by (done || lia). by subst.
Qed.
Lemma leaf_not_node e a b : leaf_pre e ≠ node_pre a b.
Proof.
  unfold leaf_pre, node_pre. destruct (if bytes_le a b then (a, b) else (b, a)) as [lo hi]. rewrite !concatBytes_cons.
  intros E. apply app_inj_blen in E as [E _]; [discriminate E|done].
Qed.
Lemma node_pre_parts a b c d :
  blen a = 32 → blen b = 32 → blen c = 32 → blen d = 32 → node_pre a b = node_pre c d → a = c ∨ a = d.
Proof.
  intros Ha Hb Hc Hd. unfold node_pre. destruct (bytes_le a b), (bytes_le c d); rewrite !concatBytes_cons; intros E;
    apply app_inv_head in E; apply app_inj_blen in E as [E1 E2]; try congruence; try (by left); try (by right);
    rewrite !concatBytes_nil, !app_nil_r in E2; auto.
Qed.

(** what was hashed for the layers above a layer, and along a path *)
Fixpoint pair_pres (l : list bytes) : list bytes :=
  match l with
  | a :: b :: l => node_pre a b :: pair_pres l
  | _ => []
  end.
Definition tree_pres (entries : list entry) (layers : list (list bytes)) : list bytes :=
  map leaf_pre entries ++ concat (map pair_pres layers).
Fixpoint path_pres (h : bytes) (proof : list bytes) : list bytes :=
  match proof with
  | [] => []
  | s :: proof => node_pre h s :: path_pres (_airdropNodeHash h s) proof
  end.
(** two different texts, the first of the one list and the second of the other, with one hash *)
Definition collide (ps qs : list bytes) : Prop := ∃ p q, p ∈ ps ∧ q ∈ qs ∧ p ≠ q ∧ sha256 p = sha256 q.

(** a node of the tree: a leaf, or the hash of two nodes of the tree *)
Definition explained (N : list bytes) (entries : list entry) (pres : list bytes) : Prop :=
  ∀ x, x ∈ N → blen x = 32 ∧
    ((∃ e, e ∈ entries ∧ x = leaf_of e) ∨ ∃ a b, a ∈ N ∧ b ∈ N ∧ node_pre a b ∈ pres ∧ x = sha256 (node_pre a b)).

Lemma next_layer_explained l x :
  x ∈ next_layer l → x ∈ l ∨ ∃ a b, a ∈ l ∧ b ∈ l ∧ node_pre a b ∈ pair_pres l ∧ x = sha256 (node_pre a b).
Proof.
  remember (length l) as n eqn:Hn. revert l Hn. induction (lt_wf n) as [n _ IH]. intros [|a [|b l]] Hn; cbn [next_layer pair_pres]; [by left..|].
  intros [->|Hx]%elem_of_cons.
  - right. exists a, b. rewrite node_hash. split; [by left|]. split; [by right; left|]. split; [by left|done].
  - destruct (IH (length l) ltac:(subst n; cbn; lia) l eq_refl Hx) as [Hl|(c & d & Hc & Hd & Hp & E)]; [left; by right; right|].
    right. exists c, d. split; [by right; right|]. split; [by right; right|]. split; [by right|done].
Qed.
Lemma layers_explained fuel l entries N pres :
  (∀ y, y ∈ l → length y = 32%nat) → explained N entries pres → l ⊆ N →
  explained (N ++ concat (merkle_layers fuel l)) entries (pres ++ concat (map pair_pres (merkle_layers fuel l))).
Proof.
  assert (Hdone : ∀ l N pres, explained N entries pres → l ⊆ N → explained (N ++ concat [l]) entries (pres ++ concat (map pair_pres [l]))).
  { intros l' N' pres' HN Hl x Hx. cbn [concat] in Hx. rewrite app_nil_r in Hx. apply elem_of_app in Hx.
    assert (HxN : x ∈ N') by (destruct Hx; auto). destruct (HN x HxN) as [H32 [He|(a & b & Ha & Hb & Hp & E)]]; split; try done; [by left|].
    right. exists a, b. rewrite !elem_of_app. auto. }
  revert l N pres. induction fuel as [|fuel IH]; intros l N pres H32 HN Hl; cbn [merkle_layers]; [by apply Hdone|].
  destruct (length l <=? 1)%nat; [by apply Hdone|]. cbn [map concat].
  rewrite (app_assoc N), (app_assoc pres).
  assert (HN' : explained (N ++ l ++ next_layer l) entries (pres ++ pair_pres l)).
  { intros x. rewrite !elem_of_app. intros Hx.
    assert (Hc : x ∈ N ∨ ∃ a b, a ∈ l ∧ b ∈ l ∧ node_pre a b ∈ pair_pres l ∧ x = sha256 (node_pre a b)).
    { destruct Hx as [Hx|[Hx|Hx%next_layer_explained]]; [by left|left; by apply Hl|]. destruct Hx as [Hx|Hx]; [left; by apply Hl|by right]. }
    destruct Hc as [Hx'|(a & b & Ha & Hb & Hp & ->)].
    - destruct (HN x Hx') as [? [He|(a & b & Ha & Hb & Hp & E)]]; split; try done; [by left|]. right. exists a, b. rewrite !elem_of_app. auto.
    - split; [apply sha256_len|]. right. exists a, b. rewrite !elem_of_app. auto 6. }
  pose proof (IH (next_layer l) (N ++ l ++ next_layer l) (pres ++ pair_pres l) (next_layer_32 l H32) HN') as HI.
  intros x Hx. destruct (HI ltac:(intros y Hy; rewrite !elem_of_app; auto) x) as [Hx32 Hxe].
  { rewrite !elem_of_app in *. tauto. }
  assert (Hsub : ∀ y, y ∈ (N ++ l ++ next_layer l) ++ concat (merkle_layers fuel (next_layer l)) → y ∈ (N ++ l) ++ concat (merkle_layers fuel (next_layer l))).
  { intros y. rewrite !elem_of_app. intros [[Hy|[Hy|Hy]]|Hy]; auto. right.
    destruct (layers_head fuel (next_layer l)) as [ms ->]. cbn [concat]. apply elem_of_app. by left. }
  split; [done|]. destruct Hxe as [He|(a & b & Ha & Hb & Hp & E)]; [by left|]. right. exists a, b. auto.
Qed.
Lemma path_back N entries pres h proof r :
  explained N entries pres → blen h = 32 → walk_proof h proof = Some r → r ∈ N →
  h ∈ N ∨ collide (map leaf_pre entries ++ pres) (path_pres h proof).
Proof.
  intros HN. revert h. induction proof as [|s proof IH]; intros h H32; cbn [walk_proof path_pres]; [intros [= ->]; auto|].
  destruct (Z.eqb_spec (blen s) 32) as [Hs|]; [|done]. intros Hw Hr.
  destruct (IH (_airdropNodeHash h s) (blen_node h s) Hw Hr) as [Hn|(p & q & Hp & Hq & Hne & E)].
  2: { right. exists p, q. split; [done|]. split; [by right|done]. }
  destruct (HN _ Hn) as [_ [(e & He & E)|(a & b & Ha & Hb & Hp & E)]]; rewrite node_hash in E.
  - right. exists (leaf_pre e), (node_pre h s). split; [apply elem_of_app; left; by apply list_elem_of_fmap_2|].
    split; [by left|]. split; [apply leaf_not_node|by symmetry].
  - destruct (decide (node_pre h s = node_pre a b)) as [Epre|Hne].
    + left. destruct (HN a Ha) as [Ha32 _]. destruct (HN b Hb) as [Hb32 _].
      by destruct (node_pre_parts h s a b H32 Hs Ha32 Hb32 Epre) as [->| ->].
    + right. exists (node_pre a b), (node_pre h s). split; [apply elem_of_app; by right|]. split; [by left|]. split; [congruence|by symmetry].
Qed.
Lemma airdrop_listed entries root layers e proof :
  Forall entry_ok entries → entry_ok e → buildAirdropMerkle (map leaf_of entries) = Ok (root, layers) →
  verifyAirdropMerkleProof (leaf_of e) proof root = true →
  e ∈ entries ∨ collide (tree_pres entries layers) (leaf_pre e :: path_pres (leaf_of e) proof).
Proof.
  intros Hes He Hb Hv. unfold buildAirdropMerkle in Hb. rewrite length_map in Hb.
  destruct (Nat.eqb_spec (length entries) 0) as [|Hne]; [discriminate|]. cbn [throw_if mbind res_bind] in Hb.
  destruct (forallb _ _) eqn:Hf; [|discriminate]. cbn in Hb. injection Hb as <- <-.
  assert (H32 : ∀ y, y ∈ map leaf_of entries → length y = 32%nat).
  { intros y (e' & -> & _)%list_elem_of_fmap. apply Nat2Z.inj. exact (sha256_len _). }
  set (layers := merkle_layers (length entries) (map leaf_of entries)) in *.
  assert (HN0 : explained (map leaf_of entries) entries []).
  { intros x Hx. split; [unfold blen; by rewrite H32|]. left. apply list_elem_of_fmap in Hx as (e' & -> & He'). by exists e'. }
  pose proof (layers_explained (length entries) (map leaf_of entries) entries _ [] H32 HN0 ltac:(done)) as HN. fold layers in HN. cbn [app] in HN.
  unfold verifyAirdropMerkleProof in Hv. destruct (negb _) in Hv; [done|]. destruct (negb _) in Hv; [done|].
  destruct (walk_proof (leaf_of e) proof) as [r|] eqn:Hw; [|done]. apply andb_true_iff in Hv as [_ Hr%bool_decide_eq_true].
  assert (Hroot : r ∈ map leaf_of entries ++ concat layers).
  { apply elem_of_app. right. subst r. apply list_elem_of_In, in_concat. exists (List.last layers []).
    pose proof (layers_last_32 (length entries) (map leaf_of entries) ltac:(rewrite length_map; lia) H32) as Hl.
    split.
    - destruct (layers_head (length entries) (map leaf_of entries)) as [ms E]. unfold layers. rewrite E.
      apply list_elem_of_In. pose proof (app_removelast_last (l := map leaf_of entries :: ms) [] ltac:(done)) as Ea. rewrite Ea at 2. apply elem_of_app. right. by left.
    - destruct (List.last _ []) as [|x l]; [done|by left]. }
  destruct (path_back _ entries _ _ proof r HN (sha256_len _) Hw Hroot) as [Hin|(p & q & Hp & Hq & Hneq & E)].
  2: { right. exists p, q. split; [exact Hp|]. split; [by right|done]. }
  destruct (HN _ Hin) as [_ [(e' & He' & E)|(a & b & Ha & Hb & Hp & E)]].
  - destruct (decide (leaf_pre e' = leaf_pre e)) as [Epre|Hneq].
    + left. rewrite Forall_forall in Hes. by rewrite <- (leaf_pre_inj e' e (Hes e' He') He Epre).
    + right. exists (leaf_pre e'), (leaf_pre e). split; [apply elem_of_app; left; by apply list_elem_of_fmap_2|]. split; [by left|].
      split; [done|]. by symmetry.
  - right. exists (node_pre a b), (leaf_pre e). split; [apply elem_of_app; by right|]. split; [by left|].
    split; [intros Epre; by apply (leaf_not_node e a b)|]. by symmetry.
Qed.
End airdrop.
