(* ===== verification/AirdropText.v ===== *)
(** * What a claimant has signed

    The text of an airdrop claim determines the leaf it claims and the recipient it
    pays: no signed text serves for a second leaf or a second recipient of the same
    drop. *)
From Stdlib Require Import Ascii.
From stdpp Require Import strings pretty.
From S2P Require Import Prelude Bytes Text Crypto CodecIssue Hex CodecBridge MixerProof Airdrop.

(** ** Strings as texts *)
Lemma ascii_text_app s t : ascii_text (s +:+ t) = ascii_text s ++ ascii_text t.
Proof. unfold ascii_text. induction s as [|c s IH]; [done|]. change (String c s +:+ t)%string with (String c (s +:+ t)).
  cbn. by rewrite IH. Qed.
Lemma ascii_text_length s : length (ascii_text s) = String.length s.
Proof. unfold ascii_text. induction s as [|c s IH]; [done|]. cbn. f_equal. exact IH. Qed.
#[export] Instance ascii_text_inj : Inj (=) (=) ascii_text.
Proof.
  intros s. induction s as [|c s IH]; intros [|d t] E; try discriminate E; [done|]. injection E as Ec Et.
  apply N2Z.inj in Ec. apply (f_equal ascii_of_N) in Ec. rewrite !ascii_N_embedding in Ec. by rewrite Ec, (IH t Et).
Qed.
Lemma ascii_text_all (P : Z → Prop) f s : (∀ c, f c = true → P (Z.of_N (N_of_ascii c))) → string_all f s = true → Forall P (ascii_text s).
Proof.
  intros Hf. induction s as [|c s IH]; cbn; [constructor|]. intros [Hc Hs]%andb_true_iff. constructor; [by apply Hf|by apply IH].
Qed.
(** two lines of one text *)
Lemma line_break (l r l' r' : text) n : n ∉ l → n ∉ l' → l ++ n :: r = l' ++ n :: r' → l = l' ∧ r = r'.
Proof.
  revert l'. induction l as [|x l IH]; intros [|y l'] Hl Hl' E; cbn in E.
  - by injection E as ->.
  - injection E as -> _. exfalso. apply Hl'. by left.
  - injection E as -> _. exfalso. apply Hl. by left.
  - injection E as -> E. destruct (IH l') as [-> ->]; [by intros ?; apply Hl; right|by intros ?; apply Hl'; right|done|done].
Qed.
Lemma same_width (a b : string) n r r' :
  String.length a = n → String.length b = n → ascii_text a ++ r = ascii_text b ++ r' → a = b ∧ r = r'.
Proof.
  intros Ha Hb E. apply app_inj_1 in E as [E ->]; [|by rewrite !ascii_text_length, Ha, Hb]. split; [by apply (inj ascii_text)|done].
Qed.
Lemma hexn_width n s : is_hexn n s = true → String.length s = n.
Proof. unfold is_hexn. intros [Hl _]%andb_true_iff. by apply Nat.eqb_eq. Qed.
Lemma pub_width s : is_pub_hex s = true → String.length s = 66%nat.
Proof. unfold is_pub_hex. intros [[Hh _]%andb_true_iff _]%andb_true_iff. by apply hexn_width. Qed.
Lemma digits_no_break v : 0 <= v → 10 ∉ ascii_text (pretty v).
Proof.
  intros Hv Hin. pose proof (pretty_decimal v Hv) as Hd.
  assert (Hall : Forall (λ n, n ≠ 10) (ascii_text (pretty v))).
  { eapply (ascii_text_all _ dec_char); [|exact (proj2 (proj1 (andb_true_iff _ _) Hd))].
    intros c Hc E. assert (Ec : c = "010"%char).
    { apply (f_equal Z.to_N) in E. rewrite N2Z.id in E. apply (f_equal ascii_of_N) in E. by rewrite ascii_N_embedding in E. }
    subst c. discriminate Hc. }
  rewrite Forall_forall in Hall. by apply (Hall 10).
Qed.

(** ** The text *)
Definition tail_of (x : claim_terms) : text :=
  ascii_text (fmtAssetAmountPlain (ct_amount x) (ct_decimals x) +:+ " ") ++ ct_ticker x ++ ascii_text (" (" +:+ pretty (ct_amount x) +:+ ")").
Lemma claim_text x msg :
  buildAirdropClaimMsg x = Ok msg →
  ∃ root asset addr pub rest, root = toLowerCase (ct_rootHex x) ∧ asset = toLowerCase (ct_assetIdHex x) ∧
    addr = strip0x (toLowerCase (ct_ethAddrHex x)) ∧ pub = no_spaces (toLowerCase (ct_tacitPubHex x)) ∧
    String.length root = 64%nat ∧ String.length asset = 64%nat ∧ String.length addr = 40%nat ∧ String.length pub = 66%nat ∧
    0 <= ct_leafIndex x ∧
    msg = ascii_text "tacit airdrop claim v1" ++ 10 :: 10 :: ascii_text "Drop:    " ++ ascii_text root ++ 10 ::
          ascii_text "Network: " ++ ascii_text (ct_network x) ++ 10 :: ascii_text "Asset:   " ++ ascii_text asset ++ 10 ::
          ascii_text "Address: 0x" ++ ascii_text addr ++ 10 :: ascii_text "Leaf:    " ++ ascii_text (pretty (ct_leafIndex x)) ++ 10 ::
          ascii_text "Amount:  " ++ tail_of x ++ 10 :: ascii_text "Tacit:   " ++ ascii_text pub ++ 10 :: rest.
Proof.
  unfold buildAirdropClaimMsg. intros E.
  destruct (is_hexn 64 (toLowerCase (ct_rootHex x))) eqn:Hr; [|discriminate E].
  destruct (bool_decide (ct_network x = ""%string)); [discriminate E|].
  destruct (is_hexn 64 (toLowerCase (ct_assetIdHex x))) eqn:Ha; [|discriminate E]. cbv zeta in E.
  destruct (is_hexn 40 (strip0x (toLowerCase (ct_ethAddrHex x)))) eqn:Hd; [|discriminate E].
  destruct (Z.ltb_spec (ct_leafIndex x) 0) as [|Hl]; [discriminate E|].
  destruct ((ct_amount x <? 0) || _); [discriminate E|]. destruct ((ct_decimals x <? 0) || _); [discriminate E|].
  destruct (is_pub_hex (no_spaces (toLowerCase (ct_tacitPubHex x)))) eqn:Hp; [|discriminate E].
  cbn [negb throw_if mbind res_bind mret res_ret] in E. injection E as <-.
  do 5 eexists. split_and!; try reflexivity; try (by apply hexn_width); [by apply pub_width|exact Hl].
Qed.
(** the leaf and the recipient are read off the text *)
Lemma claim_text_binds x y msg :
  buildAirdropClaimMsg x = Ok msg → buildAirdropClaimMsg y = Ok msg →
  ct_network x = ct_network y → tail_of x = tail_of y →
  toLowerCase (ct_rootHex x) = toLowerCase (ct_rootHex y) ∧ toLowerCase (ct_assetIdHex x) = toLowerCase (ct_assetIdHex y) ∧
  strip0x (toLowerCase (ct_ethAddrHex x)) = strip0x (toLowerCase (ct_ethAddrHex y)) ∧ ct_leafIndex x = ct_leafIndex y ∧
  no_spaces (toLowerCase (ct_tacitPubHex x)) = no_spaces (toLowerCase (ct_tacitPubHex y)).
Proof.
  intros Hx%claim_text Hy%claim_text En Et.
  destruct Hx as (r & a & d & p & m & <- & <- & <- & <- & Lr & La & Ld & Lp & Hl & ->).
  destruct Hy as (r' & a' & d' & p' & m' & <- & <- & <- & <- & Lr' & La' & Ld' & Lp' & Hl' & E).
  rewrite En, Et in E. apply app_inv_head in E. do 2 apply (f_equal tail) in E. cbn [tail] in E. apply app_inv_head in E.
  apply (same_width r r' 64) in E as [-> E]; [|done..]. apply (f_equal tail) in E. cbn [tail] in E. do 2 apply app_inv_head in E.
  apply (f_equal tail) in E. cbn [tail] in E. apply app_inv_head in E.
  apply (same_width a a' 64) in E as [-> E]; [|done..]. apply (f_equal tail) in E. cbn [tail] in E. apply app_inv_head in E.
  apply (same_width d d' 40) in E as [-> E]; [|done..]. apply (f_equal tail) in E. cbn [tail] in E. apply app_inv_head in E.
  apply line_break in E as [El E]; [|by apply digits_no_break..]. do 2 apply app_inv_head in E.
  apply (f_equal tail) in E. cbn [tail] in E. apply app_inv_head in E. apply (same_width p p' 66) in E as [-> _]; [|done..].
  apply (inj ascii_text) in El. split_and!; try done. by apply (inj pretty).
Qed.

(** ** Of hexadecimal fields *)
Lemma strip0x_hex b : strip0x (toLowerCase (bytesToHex b)) = bytesToHex b.
Proof.
  rewrite bytesToHex_lower. pose proof (bytesToHex_digits b) as Hd. unfold strip0x. destruct (bytesToHex b) as [|c [|x s]]; [done..|].
  cbn [string_all] in Hd. apply andb_true_iff in Hd as [_ [Hx _]%andb_true_iff].
  rewrite !(bool_decide_eq_false_2 (x = _)), andb_false_r by (intros ->; discriminate Hx). done.
Qed.
Lemma no_spaces_digits s : string_all hex_char_ok s = true → no_spaces s = s.
Proof.
  induction s as [|c s IH]; cbn; [done|]. intros [Hc Hs]%andb_true_iff. rewrite (IH Hs).
  replace (is_space c) with false; [done|]. destruct c as [[] [] [] [] [] [] [] []]; first [reflexivity|discriminate Hc].
Qed.
Lemma no_spaces_hex b : no_spaces (toLowerCase (bytesToHex b)) = bytesToHex b.
Proof. rewrite bytesToHex_lower. apply no_spaces_digits, bytesToHex_digits. Qed.
