(* ===== verification/LaunchClient.v ===== *)
(** * Fair mints and drops in the client

    The [T_PMINT], [T_DROP] and [T_DCLAIM] branches of [_validateOutpointSingle] in
    [dapp/tacit.js], with [_dropFundingFailure], which validates the notes a drop was
    funded with, and the services these branches are to the validator.  The answers of
    the indexer are what [LaunchIndex] models; here they are a parameter. *)
From Stdlib Require Import Ascii.
From stdpp Require Import strings pretty.
From S2P Require Import Prelude Bytes Text Crypto EnvelopeScript CodecTransfer CodecIssue CodecPool CodecSlots CodecAmm.
From S2P Require Import Messages Curve Hex Merkle Mixer MixerProof CodecBridge Kernel Notes MixerLeaf Handlers Validator LaunchIndex Airdrop.

(** ** What these branches ask of the outside *)
(** the answer of [_fetchDclaimCredited] *)
Record dclaim_credit := DclaimCredit { dc_credited : list bytes; dc_truncated : bool; dc_scanned : option Z }.
(** the record of a drop as the indexer serves it *)
Record drop_served := DropServed { ds_record : drop_rec; ds_progress : progress; ds_reclaimed : option bytes }.
Class LaunchChain := {
  _fetchPmintCredited : bytes → option credit;          (* by asset; None: the indexer is not available *)
  _fetchDclaimCredited : bytes → option dclaim_credit;  (* by drop *)
  dropMeta : bytes → option drop_served;                (* /drops-onchain/<id>; None: no answer, or not a drop *)
  assetName : bytes → option (option text * option Z);  (* the wallet's ticker and decimals for an asset *)
  networkName : string }.

Definition STRICT_DECIDED_DEPTH : Z := 3.
Definition _strictDecided (workerHeight txHeight : option Z) : bool :=
  match workerHeight, txHeight with
  | Some w, Some h => (h >? 0) && (w >=? h + STRICT_DECIDED_DEPTH - 1)
  | _, _ => false
  end.

Section client.
Context `{Hash} {SE : Secp} {CH : Chain} {MC : MixerChain} {LC : LaunchChain} {EK : EthKeys}.

(** the envelope of a transaction's first input, when its witness has three items *)
Definition parent_envelope (tx : txn) : option envelope := launch_envelope tx.
Definition commits_to (amount : Z) (blinding commitment : bytes) : bool := pmintCommitmentOpens amount blinding commitment.

(** ** Fair mints *)
Inductive verdict := Credited | Refused | Undecided.
#[global] Instance verdict_eq_dec : EqDecision verdict.
Proof. solve_decision. Defined.

(** [fetchBlockTxids(bhash).indexOf(txidHex)] *)
Definition txIndexOf (tx : txn) (t : bytes) : option Z :=
  match tx_blockHash tx with
  | None => None
  | Some h =>
      match blockTxids h with
      | None => None
      | Some ids => match list_find (λ x, x = bytesToHex t) ids with Some (i, _) => Some (Z.of_nat i) | None => None end
      end
  end.

(** Beyond the list of identifiers, a mint is placed before or after the last one
    credited. *)
Definition placed_before (c : credit) (tx : txn) (t : bytes) (h : Z) : verdict :=
  let past := if cr_overflow_truncated c then Refused else Undecided in
  match cr_last c with
  | None => Undecided
  | Some l =>
      if h <? p_height l then Credited
      else if h =? p_height l then
        match txIndexOf tx t with
        | Some ti => if ti <=? p_index l then Credited else past
        | None => Undecided
        end
      else past
  end.
Definition credit_verdict (c : credit) (tx : txn) (t : bytes) (h : Z) : verdict :=
  if bool_decide (t ∈ cr_overflow c) then Refused
  else if bool_decide (t ∈ cr_credited c) then Credited
  else if cr_truncated c then placed_before c tx t h
  else Undecided.

(** the rules of a mint, and the heights of its etch and of itself *)
Definition mint_window (etch : CPetch.t) (etchHeight pmintHeight : Z) : bool :=
  let start := CPetch.mintStartHeight etch in
  negb (negb (start =? 0) && (start <? etchHeight + 1)) &&
  negb (pmintHeight <? effective_start start etchHeight) &&
  negb (negb (CPetch.mintEndHeight etch =? 0) && (pmintHeight >? CPetch.mintEndHeight etch)).

(** [tagPending(); ... return false]: strict validation does not take a pending answer *)
Definition pending_mint (key : outpoint) (tx : txn) (workerHeight : option Z) : V bool :=
  (if _strictDecided workerHeight (tx_height tx) then mret tt else _strictUnavailable "T_PMINT: credit not decided");;
  refuse key.
Definition strictWorkerHeight (c : credit) : option Z :=
  match cr_tip c, cr_scanned c with Some tip, Some sc => Some (Z.min tip sc) | _, _ => None end.

Definition pmint_handler (key : outpoint) (tx : txn) (payload : bytes) : V bool :=
  if negb (vout key =? 0) then refuse key else
  match decoded (CPmint.decodeCPmintPayload payload) with
  | None => refuse key
  | Some dec =>
      if negb (bool_decide (take 32 (assetIdFor (CPmint.etchTxid dec) 0) = take 32 (CPmint.assetId dec))) then refuse key else
      match fetchTx (CPmint.etchTxid dec) with
      | None => refuse_with key FETCH_FAILED
      | Some etchTx =>
          match parent_envelope etchTx with
          | None => refuse key
          | Some petchEnv =>
              if negb (env_opcode petchEnv =? T_PETCH) then refuse key else
              match decoded (CPetch.decodeCPetchPayload (env_payload petchEnv)) with
              | None => refuse key
              | Some petchDec =>
                  if negb (CPmint.amount dec =? CPetch.mintLimit petchDec) then refuse key else
                  match tx_height etchTx, tx_height tx with
                  | Some etchHeight, Some pmintHeight =>
                      if negb (mint_window petchDec etchHeight pmintHeight) then refuse key else
                      if negb (commits_to (CPmint.amount dec) (CPmint.blinding dec) (CPmint.commitment dec)) then refuse key else
                      match _fetchPmintCredited (CPmint.assetId dec) with
                      | None =>
                          _strictUnavailable "T_PMINT: credit index unavailable";;
                          pending_mint key tx None
                      | Some c =>
                          match credit_verdict c tx (txid key) pmintHeight with
                          | Credited => set_valid key true;; mret true
                          | Refused => refuse key
                          | Undecided => pending_mint key tx (strictWorkerHeight c)
                          end
                      end
                  | _, _ => pending_mint key tx None
                  end
              end
          end
      end
  end.

(** ** Drops *)
Section drops.
(** [validateOutpoint] of the funding notes, on the same maps *)
Variable validate : outpoint → V bool.

(** the sum of the commitments of the notes a drop spends *)
Fixpoint funding_excess (asset : bytes) (ins : list outpoint) (excess : point) : V (reason + point) :=
  match ins with
  | [] => mret (inr excess)
  | k :: ins =>
      ok ← validate k;
      s ← get;
      if negb ok then mret (inl (reason_of_parent s k)) else
      match fetchTx (txid k) with
      | None => mret (inl FETCH_FAILED)
      | Some parent =>
          match e ← _txOutputEnvelope parent; getParentEnvelopeData e k with
          | None => mret (inl INVALID)
          | Some pd =>
              if negb (bool_decide (pd.1 = asset)) then mret (inl INVALID) else
              match bytesToPoint pd.2 with
              | Ok P => funding_excess asset ins (add excess P)
              | _ => mret (inl INVALID)
              end
          end
      end
  end.
Definition funding_inputs (dropTx : txn) (aic : Z) : list outpoint := take (Z.to_nat aic) (prevs (drop 1 (tx_vin dropTx))).
(** [None]: the drop holds what it declares *)
Definition _dropFundingFailure (dropTx : txn) (asset : bytes) (cap per : Z) (root : bytes) (expiry aic : Z) (kernelSig : bytes)
    : V (option reason) :=
  if Z.of_nat (length (tx_vin dropTx)) <? 1 + aic then mret (Some INVALID) else
  let inputs := funding_inputs dropTx aic in
  r ← funding_excess asset inputs ZERO;
  match r with
  | inl reason => mret (Some reason)
  | inr sum =>
      match safeMult H cap with
      | Ok capH =>
          let excess := add sum (negate capH) in
          if equals excess ZERO then mret (Some INVALID) else
          msg ← lift (dropKernelMsg (DropTerms asset cap per root expiry aic) inputs);
          ok ← lift (verifySchnorr kernelSig msg (xonly excess));
          mret (if ok : bool then None else Some INVALID)
      | _ => mret (Some INVALID)
      end
  end.
(** the drop, from its transaction *)
Record drop_terms_of := DropTermsOf {
  do_asset : bytes; do_cap : Z; do_per : Z; do_root : bytes; do_expiry : Z; do_ticker : option text; do_decimals : Z;
  do_inputs : Z; do_sig : bytes }.
Definition drop_of_tx (dropTx : txn) : option drop_terms_of :=
  i ← head (tx_vin dropTx); w ← in_witness i !! 1%nat; e ← decoded (decodeEnvelopeScript w);
  if negb (env_opcode e =? T_DROP) then None else
  match decoded (CDrop.decodeCDropPayload (env_payload e)) with
  | Some (CDrop.Drop a cap per root expiry tk dc n sig) => Some (DropTermsOf a cap per root expiry tk dc n sig)
  | _ => None
  end.
Definition fundingFailure (dropTx : txn) (d : drop_terms_of) : V (option reason) :=
  _dropFundingFailure dropTx (do_asset d) (do_cap d) (do_per d) (do_root d) (do_expiry d) (do_inputs d) (do_sig d).

(** *** The depositor takes back what nobody claimed *)
Definition reclaim_signed (dropTx : txn) (env : envelope) (id asset : bytes) (cap : Z) (sig : bytes) : V (option bool) :=
  match (v ← tx_vin dropTx !! 1%nat; in_witness v !! 1%nat) with
  | Some pub =>
      if negb (blen pub =? 33) then mret None else
      let depositorXonly := drop 1 pub in
      match dropReclaimMsg id asset cap with
      | Ok msg =>
          ok ← lift (verifySchnorr sig msg depositorXonly);
          mret (Some (ok && bool_decide (signingPubXonly env = depositorXonly)))
      | _ => mret (Some false)
      end
  | None => mret None
  end.
Definition reclaim_handler (key : outpoint) (tx : txn) (env : envelope) (asset : bytes) (cap : Z) (id sig : bytes) : V bool :=
  match dropMeta id with
  | None => _strictUnavailable "T_DROP reclaim: drop record unavailable";; refuse key
  | Some m =>
      let d := ds_record m in
      if negb (bool_decide (asset = dr_asset d)) then refuse key else
      if dr_expiry d =? 0 then refuse key else
      let reclaimHeight := default 0 (tx_height tx) in
      if (reclaimHeight =? 0) || (reclaimHeight <=? dr_expiry d) then mret false else
      if negb (list_complete (ds_progress m) && _strictDecided (pr_scanned (ds_progress m)) (Some (dr_expiry d))) then
        _strictUnavailable "T_DROP reclaim: claim count not final";; mret false
      else
      let canonicalRemainder := dr_cap d - claim_count (ds_progress m) * dr_per d in
      if negb (cap =? canonicalRemainder) then refuse key else
      if cap <=? 0 then refuse key else
      match fetchTx (dr_txid d) with
      | None => refuse_with key FETCH_FAILED
      | Some dropTx =>
          signed ← reclaim_signed dropTx env id asset cap sig;
          match signed with
          | None => refuse_with key INVALID
          | Some false => refuse key
          | Some true =>
              match ds_reclaimed m with
              | None => _strictUnavailable "T_DROP reclaim: reclaim record unavailable";; mret false
              | Some first =>
                  if negb (bool_decide (first = txid key)) then refuse key else
                  match drop_of_tx dropTx with
                  | None => refuse key
                  | Some dt =>
                      f ← fundingFailure dropTx dt;
                      match f with
                      | Some r => refuse_with key r
                      | None => set_valid key true;; mret true
                      end
                  end
              end
          end
      end
  end.
Definition drop_handler (key : outpoint) (tx : txn) (env : envelope) : V bool :=
  if negb (vout key =? 0) then refuse key else
  match decoded (CDrop.decodeCDropPayload (env_payload env)) with
  | Some (CDrop.Reclaim asset cap id sig _) => reclaim_handler key tx env asset cap id sig
  | _ => refuse key
  end.

(** *** Claims *)
(** the recipient is who the transaction pays, the leaf is in the drop's tree, and its
    address has signed *)
Definition claim_name (d : drop_terms_of) : option (text * Z) :=
  match do_ticker d with
  | Some (c :: tk) => Some (c :: tk, do_decimals d)
  | _ => m ← assetName (do_asset d); tk ← m.1; dc ← m.2; Some (tk, dc)
  end.
Definition claim_terms_of (d : drop_terms_of) (w : CDClaim.witness) (tk : text) (dc : Z) : claim_terms :=
  ClaimTerms (bytesToHex (do_root d)) networkName (bytesToHex (do_asset d)) (bytesToHex (CDClaim.ethAddress w))
    (CDClaim.leafIndex w) (do_per d) tk dc (bytesToHex (CDClaim.recipientPub w)).
Definition hash160 (b : bytes) : bytes := ripemd160 (sha256 b).
Definition witness_ok (tx : txn) (d : drop_terms_of) (w : CDClaim.witness) : bool :=
  match head (tx_vout tx) with
  | None => false
  | Some o =>
      if negb (blen (out_script o) =? 22) then false else
      if negb (bool_decide (take 2 (out_script o) = [x00; x14])) then false else
      if negb (bool_decide (hash160 (CDClaim.recipientPub w) = drop 2 (out_script o))) then false else
      match airdropLeafHash (CDClaim.ethAddress w) (do_per d) (CDClaim.leafIndex w) with
      | Ok leaf =>
          if negb (verifyAirdropMerkleProof leaf (CDClaim.proofPath w) (do_root d)) then false else
          match claim_name d with
          | None => false
          | Some (tk, dc) =>
              if bool_decide (tk = []) then false else
              match buildAirdropClaimMsg (claim_terms_of d w tk dc) with
              | Ok msg => verifyAirdropClaimSig msg ("0x" +:+ bytesToHex (CDClaim.ethSig w)) (bytesToHex (CDClaim.ethAddress w))
              | _ => false
              end
          end
      | _ => false
      end
  end.
Definition eligible_claim (tx : txn) (d : drop_terms_of) (w : option CDClaim.witness) : bool :=
  if all_zero (take 32 (do_root d)) then negb (if w is Some _ then true else false)
  else if w is Some w then witness_ok tx d w else false.

Definition dclaim_handler (key : outpoint) (tx : txn) (payload : bytes) : V bool :=
  if negb (vout key =? 0) then refuse key else
  match decoded (CDClaim.decodeCDClaimPayload payload) with
  | None => refuse key
  | Some dec =>
      match fetchTx (CDClaim.dropRevealTxid dec) with
      | None => refuse_with key FETCH_FAILED
      | Some dropTx =>
          if (length (default [] (in_witness <$> head (tx_vin dropTx))) <? 3)%nat then refuse_with key INVALID else
          match drop_of_tx dropTx with
          | None => refuse key
          | Some d =>
              if negb (bool_decide (take 32 (CDClaim.assetId dec) = take 32 (do_asset d))) then refuse key else
              if negb (CDClaim.amount dec =? do_per d) then refuse key else
              if negb (commits_to (CDClaim.amount dec) (CDClaim.blinding dec) (CDClaim.commitment dec)) then refuse key else
              if negb (eligible_claim tx d (CDClaim.claim_witness dec)) then refuse key else
              f ← fundingFailure dropTx d;
              match f with
              | Some r => refuse_with key r
              | None =>
                  let unavailable :=
                    _strictUnavailable "T_DCLAIM: credit index unavailable";; refuse_with key FETCH_FAILED in
                  match _fetchDclaimCredited (dropIdFromRevealTxid (CDClaim.dropRevealTxid dec)) with
                  | None => unavailable
                  | Some c =>
                      if dc_truncated c then unavailable else
                      if bool_decide (txid key ∈ dc_credited c) then set_valid key true;; mret true
                      else
                        (if _strictDecided (dc_scanned c) (tx_height tx) then mret tt
                         else _strictUnavailable "T_DCLAIM: credit not decided");;
                        refuse key
                  end
              end
          end
      end
  end.
End drops.

(** ** The services *)
(** Fair mints, drops and claims by these handlers, the rest by [rest]. *)
Definition with_launches (validate : outpoint → V bool) (rest : Service) : Service := λ key tx e,
  if env_opcode e =? T_PMINT then pmint_handler key tx (env_payload e)
  else if env_opcode e =? T_DROP then drop_handler validate key tx e
  else if env_opcode e =? T_DCLAIM then dclaim_handler validate key tx (env_payload e)
  else rest key tx e.
(** the validator over a service, out of fuel when the walk is *)
Definition validate_over (sv : Service) (fuel : nat) (k : outpoint) : V bool := λ s,
  match validateOutpoint (SV := sv) fuel k s with Some r => r | None => (Throw "walk", s) end.
(** drops funded with claims of drops, [n] deep *)
Fixpoint launch_services (n fuel : nat) (rest : Service) : Service :=
  match n with
  | O => with_launches (λ k, lift (Throw "depth")) rest
  | S n => with_launches (validate_over (launch_services n fuel rest) fuel) rest
  end.
End client.
