(* ===== verification/LaunchOrder.v ===== *)
(** * The order of the keys

    Keys are listed by name, and a name carries the height and the index padded with
    zeros: the order of names is the order of the chain, as long as heights and indices
    fit their columns.  The keys of a prefix stay sorted, and a key of a later block
    comes after all of them. *)
From Stdlib Require Import Ascii Sorted.
From stdpp Require Import strings pretty.
From S2P Require Import Prelude Bytes Text Crypto EnvelopeScript CodecTransfer CodecIssue CodecPool CodecSlots CodecAmm.
From S2P Require Import Messages Curve Hex Merkle Mixer MixerProof CodecBridge Kernel Notes LaunchIndex.

(** ** Padded numbers *)
(** [w] digits of [n], in front of [s] *)
Fixpoint fixed (w : nat) (n : N) (s : string) : string :=
  match w with
  | O => s
  | S w => fixed w (n / 10) (String (pretty_N_char (n mod 10)) s)
  end.

Lemma fixed_app w n s t : (fixed w n s +:+ t)%string = fixed w n (s +:+ t).
Proof. revert n s. induction w as [|w IH]; intros n s; [done|]. cbn [fixed]. by rewrite IH. Qed.
Lemma zeros_snoc w s : (zeros_string w +:+ String "0" s)%string = (zeros_string (S w) +:+ s)%string.
Proof. induction w as [|w IH]; [done|]. exact (f_equal (String "0") IH). Qed.
Lemma fixed_0 w s : fixed w 0 s = (zeros_string w +:+ s)%string.
Proof. revert s. induction w as [|w IH]; intros s; [done|]. cbn [fixed]. change (0 / 10)%N with 0%N. change (pretty_N_char (0 mod 10)) with "0"%char. by rewrite IH, zeros_snoc. Qed.
Lemma go_length n s : (String.length s <= String.length (pretty_N_go n s))%nat.
Proof.
  revert s. induction (N.lt_wf_0 n) as [n _ IH]; intros s. destruct (decide (0 < n)%N).
  - rewrite pretty_N_go_step by done. etrans; [|apply IH; by apply N.div_lt]. cbn [String.length]. lia.
  - assert (n = 0%N) as -> by lia. by rewrite pretty_N_go_0.
Qed.
Lemma pow_nat_succ w : (10 ^ N.of_nat (S w) = 10 * 10 ^ N.of_nat w)%N.
Proof. rewrite Nat2N.inj_succ. apply N.pow_succ_r'. Qed.
Lemma fixed_go w n s :
  (n < 10 ^ N.of_nat w)%N →
  fixed w n s = (zeros_string (w - (String.length (pretty_N_go n s) - String.length s)) +:+ pretty_N_go n s)%string ∧
  (String.length (pretty_N_go n s) <= w + String.length s)%nat.
Proof.
  revert n s. induction w as [|w IH]; intros n s Hn.
  - assert (n = 0%N) as -> by (change (10 ^ N.of_nat 0)%N with 1%N in Hn; lia). rewrite pretty_N_go_0. split; [|lia]. done.
  - rewrite pow_nat_succ in Hn. destruct (decide (0 < n)%N) as [Hp|Hp].
    + rewrite pretty_N_go_step by done. cbn [fixed].
      destruct (IH (n / 10)%N (String (pretty_N_char (n mod 10)) s)) as [E Hl]; [apply N.Div0.div_lt_upper_bound; lia|].
      pose proof (go_length (n / 10) (String (pretty_N_char (n mod 10)) s)) as Hg. cbn [String.length] in *.
      split; [|lia]. rewrite E. do 2 f_equal. lia.
    + assert (n = 0%N) as -> by lia. rewrite fixed_0, pretty_N_go_0. split; [|lia]. do 2 f_equal. lia.
Qed.
Lemma padStart_fixed w (z : Z) : (0 < w)%nat → 0 <= z < 10 ^ Z.of_nat w → padStart w (pretty z) = fixed w (Z.to_N z) "".
Proof.
  intros Hw Hz. unfold padStart. destruct z as [|p|p]; [| |lia].
  - change (pretty 0) with "0"%string. change (Z.to_N 0) with 0%N. rewrite fixed_0. destruct w as [|w]; [lia|].
    change (String.length "0") with 1%nat. replace (S w - 1)%nat with w by lia. by rewrite zeros_snoc.
  - change (pretty (Z.pos p)) with (pretty (N.pos p)). unfold pretty, pretty_N. rewrite decide_False by done.
    change (Z.to_N (Z.pos p)) with (N.pos p). destruct (fixed_go w (N.pos p) "") as [E _].
    + apply N2Z.inj_lt. rewrite N2Z.inj_pow, nat_N_Z. exact (proj2 Hz).
    + rewrite E. cbn [String.length]. by rewrite Nat.sub_0_r.
Qed.

(** ** Comparing names *)
Lemma char_compare x y : (x < 10)%N → (y < 10)%N → Ascii.compare (pretty_N_char x) (pretty_N_char y) = N.compare x y.
Proof.
  intros Hx Hy.
  assert (x = 0 ∨ x = 1 ∨ x = 2 ∨ x = 3 ∨ x = 4 ∨ x = 5 ∨ x = 6 ∨ x = 7 ∨ x = 8 ∨ x = 9)%N as Cx by lia.
  assert (y = 0 ∨ y = 1 ∨ y = 2 ∨ y = 3 ∨ y = 4 ∨ y = 5 ∨ y = 6 ∨ y = 7 ∨ y = 8 ∨ y = 9)%N as Cy by lia.
  clear Hx Hy. destruct_or! Cx; destruct_or! Cy; subst; reflexivity.
Qed.
(** first one comparison, then the other *)
Definition then_compare (c d : comparison) : comparison := match c with Eq => d | c => c end.
Lemma then_assoc a b c : then_compare (then_compare a b) c = then_compare a (then_compare b c).
Proof. by destruct a. Qed.
Lemma compare_digit n m : N.compare n m = then_compare (N.compare (n / 10) (m / 10)) (N.compare (n mod 10) (m mod 10)).
Proof.
  pose proof (N.div_mod n 10 ltac:(done)) as En. pose proof (N.div_mod m 10 ltac:(done)) as Em.
  pose proof (N.mod_lt n 10 ltac:(done)) as Hn. pose proof (N.mod_lt m 10 ltac:(done)) as Hm.
  generalize dependent (n / 10)%N. generalize dependent (n mod 10)%N.
  generalize dependent (m mod 10)%N. generalize dependent (m / 10)%N. intros b d Hd Em c Hc a En. subst n m.
  destruct (N.compare_spec a b) as [->|?|?]; cbn [then_compare]; [destruct (N.compare_spec c d) as [->|?|?]|..].
  - apply N.compare_refl.
  - apply N.compare_lt_iff. lia.
  - apply N.compare_gt_iff. lia.
  - apply N.compare_lt_iff. lia.
  - apply N.compare_gt_iff. lia.
Qed.
Lemma fixed_compare w n m s t :
  (n < 10 ^ N.of_nat w)%N → (m < 10 ^ N.of_nat w)%N →
  String.compare (fixed w n s) (fixed w m t) = then_compare (N.compare n m) (String.compare s t).
Proof.
  revert n m s t. induction w as [|w IH]; intros n m s t Hn Hm.
  - change (10 ^ N.of_nat 0)%N with 1%N in *. assert (n = 0%N) as -> by lia. assert (m = 0%N) as -> by lia. done.
  - rewrite pow_nat_succ in *. cbn [fixed]. rewrite IH by (apply N.Div0.div_lt_upper_bound; lia).
    rewrite (compare_digit n m), then_assoc. f_equal. cbn [String.compare].
    rewrite char_compare by (apply N.mod_lt; lia). by destruct (N.compare _ _).
Qed.

(** the position fits its key *)
Definition in_columns (p : position) : Prop := 0 < p_height p < 10 ^ 10 ∧ 0 <= p_index p < 10 ^ 6.
Definition key_compare (p q : position) : comparison := String.compare (key_name p) (key_name q).
Definition key_lt (p q : position) : Prop := key_compare p q = Lt.
(** where in the chain, then by identifier *)
Definition chain_compare (p q : position) : comparison :=
  then_compare (Z.compare (p_height p) (p_height q))
    (then_compare (Z.compare (p_index p) (p_index q)) (String.compare (bytesToHex (p_txid p)) (bytesToHex (p_txid q)))).

Lemma column_bound w z : 0 <= z < 10 ^ Z.of_nat w → (Z.to_N z < 10 ^ N.of_nat w)%N.
Proof. intros Hz. apply N2Z.inj_lt. rewrite N2Z.inj_pow, nat_N_Z, Z2N.id by lia. apply Hz. Qed.
Lemma columns_fit p :
  in_columns p → (Z.to_N (p_height p) < 10 ^ N.of_nat 10)%N ∧ (Z.to_N (p_index p) < 10 ^ N.of_nat 6)%N.
Proof. intros [[Hh0 Hh] Hi]. split; [apply (column_bound 10); split; [lia|exact Hh]|by apply (column_bound 6)]. Qed.
Lemma key_name_fixed p :
  in_columns p → key_name p = fixed 10 (Z.to_N (p_height p)) (":" +:+ fixed 6 (Z.to_N (p_index p)) (":" +:+ bytesToHex (p_txid p)))%string.
Proof.
  intros [[Hh0 Hh] Hi]. unfold key_name. rewrite (padStart_fixed 10 _ ltac:(lia) (conj (Z.lt_le_incl _ _ Hh0) Hh)), (padStart_fixed 6 _ ltac:(lia) Hi). by rewrite !fixed_app.
Qed.
Lemma Z_to_N_compare a b : 0 <= a → 0 <= b → N.compare (Z.to_N a) (Z.to_N b) = Z.compare a b.
Proof. intros Ha Hb. rewrite <- N2Z.inj_compare. by rewrite !Z2N.id. Qed.
Lemma colon_compare s t : String.compare (":" +:+ s) (":" +:+ t) = String.compare s t.
Proof. done. Qed.
Lemma key_order p q : in_columns p → in_columns q → key_compare p q = chain_compare p q.
Proof.
  intros Hp Hq. unfold key_compare, chain_compare. rewrite !key_name_fixed by done.
  pose proof (columns_fit p Hp) as [Hph Hpi]. pose proof (columns_fit q Hq) as [Hqh Hqi].
  destruct Hp as [[? _] [? _]], Hq as [[? _] [? _]].
  rewrite fixed_compare, colon_compare, fixed_compare, colon_compare by assumption. by rewrite !Z_to_N_compare by lia.
Qed.
Lemma not_orphan p : in_columns p → is_orphan p = false.
Proof.
  intros Hp. pose proof (columns_fit p Hp) as [Hw _]. destruct Hp as [[Hh0 Hh] _].
  apply bool_decide_eq_false. rewrite (padStart_fixed 10 _ ltac:(lia) (conj (Z.lt_le_incl _ _ Hh0) Hh)). change "0000000000"%string with (fixed 10 0 "").
  intros E. pose proof (fixed_compare 10 (Z.to_N (p_height p)) 0 "" "" Hw ltac:(done)) as Hc.
  rewrite E in Hc. change (String.compare (fixed 10 0 "") (fixed 10 0 "")) with Eq in Hc. cbn [then_compare] in Hc.
  destruct (N.compare_spec (Z.to_N (p_height p)) 0) as [E0|?|?]; cbn [then_compare] in Hc; [lia|discriminate..].
Qed.

(** ** Sorted keys *)
Lemma char_spec a b : CompareSpec (a = b) (N_of_ascii a < N_of_ascii b)%N (N_of_ascii b < N_of_ascii a)%N (Ascii.compare a b).
Proof.
  unfold Ascii.compare. destruct (N.compare_spec (N_of_ascii a) (N_of_ascii b)) as [E|?|?]; constructor; [|done..].
  by rewrite <- (ascii_N_embedding a), <- (ascii_N_embedding b), E.
Qed.
Lemma string_lt_trans s t u : String.compare s t = Lt → String.compare t u = Lt → String.compare s u = Lt.
Proof.
  revert t u. induction s as [|a s IH]; intros [|b t] [|c u]; cbn [String.compare]; try done.
  destruct (char_spec a b) as [->|Hab|]; [| |done]; destruct (char_spec b c) as [->|Hbc|]; try done.
  - apply IH.
  - destruct (char_spec a c) as [->|?|?]; [lia|done|lia].
  - destruct (char_spec a c) as [->|?|?]; [lia|done|lia].
Qed.
#[export] Instance key_lt_trans : Transitive key_lt.
Proof. intros p q r. apply string_lt_trans. Qed.
Lemma string_compare_refl s : String.compare s s = Eq.
Proof. induction s as [|a s IH]; [done|]. cbn [String.compare]. by destruct (char_spec a a) as [_|?|?]; [|lia..]. Qed.
Lemma key_lt_irrefl p : ¬ key_lt p p.
Proof. unfold key_lt, key_compare. by rewrite string_compare_refl. Qed.
Lemma key_flip p q : key_compare p q = Gt → key_lt q p.
Proof. unfold key_lt, key_compare. rewrite String.compare_antisym. by destruct (String.compare (key_name q) (key_name p)). Qed.
Lemma key_eq p q : in_columns p → in_columns q → key_compare p q = Eq → p = q.
Proof.
  intros Hp Hq. rewrite key_order by done. unfold chain_compare. destruct p as [h i t], q as [h' i' t']. cbn [p_height p_index p_txid].
  destruct (Z.compare_spec h h') as [->|?|?]; [|done..]. cbn [then_compare].
  destruct (Z.compare_spec i i') as [->|?|?]; [|done..]. cbn [then_compare].
  intros E%String.compare_eq_iff. by apply (inj bytesToHex) in E as ->.
Qed.
Lemma later_key p q : in_columns p → in_columns q → p_height p < p_height q → key_lt p q.
Proof.
  intros Hp Hq Hl. unfold key_lt. rewrite key_order by done. unfold chain_compare.
  by rewrite (proj2 (Z.compare_lt_iff _ _) Hl).
Qed.
Lemma key_lt_height p q : in_columns p → in_columns q → key_lt p q → p_height p <= p_height q.
Proof.
  intros Hp Hq. unfold key_lt. rewrite key_order by done. unfold chain_compare.
  by destruct (Z.compare_spec (p_height p) (p_height q)) as [->|?|?]; intros E; [|lia|].
Qed.

(** keys as the store lists them *)
Definition keys_ok (l : list position) : Prop := Forall in_columns l ∧ StronglySorted key_lt l.
Lemma keys_ok_nil : keys_ok [].
Proof. split; constructor. Qed.
Lemma keys_ok_app l k : keys_ok (l ++ k) → keys_ok l ∧ keys_ok k ∧ ∀ p q, p ∈ l → q ∈ k → key_lt p q.
Proof.
  intros [[Hl Hk]%Forall_app Hs]. induction l as [|p l IH].
  - split; [exact keys_ok_nil|]. split; [by split|]. intros p q []%elem_of_nil.
  - apply StronglySorted_inv in Hs as [Hs Hp]. apply Forall_cons in Hl as [Hcp Hl]. apply Forall_app in Hp as [Hpl Hpk].
    destruct (IH Hl Hs) as ([Hcl Hsl] & Hok & Hlt).
    split; [split; [by apply Forall_cons|by apply SSorted_cons]|]. split; [done|].
    intros x y [->|Hx]%elem_of_cons Hy; [|by apply Hlt]. rewrite Forall_forall in Hpk. by apply Hpk.
Qed.
Lemma keys_ok_NoDup l : keys_ok l → NoDup l.
Proof.
  intros [_ Hs]. induction Hs as [|p l _ IH Hp]; constructor; [|done]. intros Hin. rewrite Forall_forall in Hp.
  exact (key_lt_irrefl p (Hp p Hin)).
Qed.

Lemma kv_put_elem p l q : in_columns p → Forall in_columns l → q ∈ kv_put p l ↔ q = p ∨ q ∈ l.
Proof.
  intros Hp. induction l as [|x l IH]; intros Hl; cbn [kv_put]; [by rewrite elem_of_cons|].
  apply Forall_cons in Hl as [Hx Hl]. destruct (String.compare _ _) eqn:E.
  - apply (key_eq p x Hp Hx) in E as ->. rewrite !elem_of_cons. tauto.
  - by rewrite !elem_of_cons.
  - rewrite !elem_of_cons, (IH Hl). tauto.
Qed.
Lemma kv_put_ok p l : in_columns p → keys_ok l → keys_ok (kv_put p l).
Proof.
  intros Hp [Hl Hs]. split.
  { apply Forall_forall. intros q Hq. apply kv_put_elem in Hq as [->|Hq]; [done| |done|done]. rewrite Forall_forall in Hl. by apply Hl. }
  induction Hs as [|x l Hs IH Hx]; cbn [kv_put]; [by repeat constructor|]. apply Forall_cons in Hl as [Hcx Hl].
  destruct (String.compare (key_name p) (key_name x)) eqn:E.
  - apply (key_eq p x Hp Hcx) in E as ->. by constructor.
  - constructor; [by constructor|]. constructor; [done|]. eapply Forall_impl; [exact Hx|]. intros q Hq. by transitivity x.
  - constructor; [by apply IH|]. apply Forall_forall. intros q [->|Hq]%kv_put_elem; [by apply key_flip| |done|done].
    rewrite Forall_forall in Hx. by apply Hx.
Qed.
(** a key of a later block comes last *)
Lemma kv_put_last p l : Forall (λ q, key_lt q p) l → kv_put p l = l ++ [p].
Proof.
  induction 1 as [|q l Hq _ IH]; [done|]. cbn [kv_put]. unfold key_lt, key_compare in Hq.
  rewrite String.compare_antisym, Hq. cbn [CompOpp]. by rewrite IH.
Qed.
