(* ===== verification/LaunchFacts.v ===== *)
(** * Which mints and claims are credited

    The reference: of the keys deep enough, the first one of each transaction, as many as
    the cap has room for.  Every walk of the indexer computes it: the annotated list,
    the snapshot and the claims of a drop.  It only grows while the keys of later blocks
    arrive and the tip moves on. *)
From Stdlib Require Import Ascii Sorted.
From stdpp Require Import strings pretty.
From S2P Require Import Prelude Bytes Text Crypto EnvelopeScript CodecTransfer CodecIssue CodecPool CodecSlots CodecAmm.
From S2P Require Import Messages Curve Hex Merkle Mixer MixerProof CodecBridge Kernel Notes LaunchIndex LaunchOrder.

(** ** The reference *)
Definition is_deep (tip : Z) (p : position) : Prop := PMINT_CONFIRMATION_DEPTH <= depth tip (p_height p).
#[export] Instance is_deep_dec tip p : Decision (is_deep tip p).
Proof. unfold is_deep. apply _. Defined.
(** the first position of each transaction not seen yet *)
Fixpoint firsts (seen : gset bytes) (ps : list position) : list position :=
  match ps with
  | [] => []
  | p :: ps => if decide (p_txid p ∈ seen) then firsts seen ps else p :: firsts ({[ p_txid p ]} ∪ seen) ps
  end.
Definition eligible (tip : Z) (ps : list position) : list position := firsts ∅ (filter (is_deep tip) ps).
(** the number of mints the cap has room for *)
Definition room (cap limit : Z) : nat := Z.to_nat (cap / limit).
Definition credit_list (tip cap limit : Z) (ps : list position) : list position := take (room cap limit) (eligible tip ps).
Definition overflow_list (tip cap limit : Z) (ps : list position) : list position := drop (room cap limit) (eligible tip ps).

(** *** How the reference grows *)
Lemma firsts_app seen ps qs : ∃ seen', firsts seen (ps ++ qs) = firsts seen ps ++ firsts seen' qs.
Proof.
  revert seen. induction ps as [|p ps IH]; intros seen; [by exists seen|]. cbn [firsts app].
  case_decide; [apply IH|]. destruct (IH ({[ p_txid p ]} ∪ seen)) as [s E]. exists s. cbn [app]. by rewrite E.
Qed.
Lemma firsts_sub seen ps : firsts seen ps ⊆ ps.
Proof.
  revert seen. induction ps as [|p ps IH]; intros seen q; [done|]. cbn [firsts]. rewrite elem_of_cons.
  case_decide; [by intros ?%IH; right|]. rewrite elem_of_cons. intros [->|?%IH]; auto.
Qed.
Lemma firsts_seen seen ps q : q ∈ firsts seen ps → p_txid q ∉ seen.
Proof.
  revert seen. induction ps as [|p ps IH]; intros seen; [by intros ?%elem_of_nil|]. cbn [firsts].
  case_decide; [apply IH|]. intros [->|Hq%IH]%elem_of_cons; [done|set_solver].
Qed.
Lemma firsts_NoDup seen ps : NoDup (map p_txid (firsts seen ps)).
Proof.
  revert seen. induction ps as [|p ps IH]; intros seen; [constructor|]. cbn [firsts].
  case_decide; [apply IH|]. cbn [map]. constructor; [|apply IH].
  intros (q & E & Hq%firsts_seen)%list_elem_of_fmap. set_solver.
Qed.
(** one key per transaction: nothing is left out *)
Lemma firsts_all seen ps : NoDup (map p_txid ps) → (∀ p, p ∈ ps → p_txid p ∉ seen) → firsts seen ps = ps.
Proof.
  revert seen. induction ps as [|p ps IH]; intros seen Hn Hs; [done|]. cbn [firsts map] in *.
  rewrite decide_False by (apply Hs; by left). f_equal. apply NoDup_cons in Hn as [Hp Hn]. apply IH; [done|].
  intros q Hq. rewrite not_elem_of_union, not_elem_of_singleton. split; [|by apply Hs; right].
  intros E. apply Hp. rewrite <- E. by apply list_elem_of_fmap_2.
Qed.
(** every transaction with a key has its first one *)
Lemma firsts_covers seen ps p : p ∈ ps → p_txid p ∉ seen → ∃ q, q ∈ firsts seen ps ∧ p_txid q = p_txid p.
Proof.
  revert seen. induction ps as [|x ps IH]; intros seen; [by intros ?%elem_of_nil|]. intros Hp Hs. cbn [firsts].
  case_decide as Hx.
  - apply elem_of_cons in Hp as [->|Hp]; [done|]. by apply IH.
  - destruct (decide (p_txid x = p_txid p)) as [E|E]; [exists x; split; [by left|done]|].
    apply elem_of_cons in Hp as [->|Hp]; [done|]. destruct (IH ({[ p_txid x ]} ∪ seen) Hp) as (q & Hq & Eq).
    { rewrite not_elem_of_union, not_elem_of_singleton. auto. }
    exists q. split; [by right|done].
Qed.
Lemma firsts_sorted seen ps : keys_ok ps → keys_ok (firsts seen ps).
Proof.
  intros [Hc Hs]. split; [apply Forall_forall; intros q Hq%firsts_sub; rewrite Forall_forall in Hc; by apply Hc|].
  clear Hc. revert seen. induction Hs as [|p ps _ IH Hp]; intros seen; cbn [firsts]; [constructor|].
  case_decide; [apply IH|]. constructor; [apply IH|]. apply Forall_forall. intros q Hq%firsts_sub. rewrite Forall_forall in Hp. by apply Hp.
Qed.
Lemma filter_keys_ok P `{!∀ p, Decision (P p)} ps : keys_ok ps → keys_ok (filter P ps).
Proof.
  intros [Hc Hs]. split; [apply Forall_forall; intros q [_ Hq]%list_elem_of_filter; rewrite Forall_forall in Hc; by apply Hc|].
  clear Hc. induction Hs as [|p ps _ IH Hp]; [constructor|]. rewrite filter_cons. case_decide; [|done].
  constructor; [done|]. apply Forall_forall. intros q [_ Hq]%list_elem_of_filter. rewrite Forall_forall in Hp. by apply Hp.
Qed.

Lemma filter_none {A} (P : A → Prop) `{!∀ x, Decision (P x)} l : (∀ x, x ∈ l → ¬ P x) → filter P l = [].
Proof.
  induction l as [|x l IH]; intros Hn; [done|]. rewrite filter_cons, decide_False by (apply Hn; by left).
  apply IH. intros y Hy. apply Hn. by right.
Qed.
(** deep keys come first, and stay *)
Lemma deep_grows tip tip' ps qs :
  keys_ok (ps ++ qs) → tip <= tip' →
  ∃ new, filter (is_deep tip') (ps ++ qs) = filter (is_deep tip) ps ++ new.
Proof.
  intros Hok Ht. apply keys_ok_app in Hok as (Hok & _ & _). rewrite filter_app.
  enough (∃ new, filter (is_deep tip') ps = filter (is_deep tip) ps ++ new) as [new ->] by (eexists; by rewrite <- app_assoc).
  destruct Hok as [Hc Hs]. revert Hc. induction Hs as [|p ps Hs IH Hp]; intros Hc; [by exists []|].
  apply Forall_cons in Hc as [Hcp Hc]. rewrite !filter_cons.
  destruct (decide (is_deep tip p)) as [Hd|Hd].
  - rewrite decide_True by (unfold is_deep, depth in *; lia). destruct (IH Hc) as [new ->]. by exists new.
  - rewrite (filter_none (is_deep tip) ps); [by eexists|]. rewrite Forall_forall in *. intros q Hin. specialize (Hp q Hin).
    apply key_lt_height in Hp; [|done|by apply Hc]. unfold is_deep, depth, PMINT_CONFIRMATION_DEPTH in *. lia.
Qed.
Lemma credit_grows tip tip' cap limit ps qs :
  keys_ok (ps ++ qs) → tip <= tip' →
  credit_list tip cap limit ps `prefix_of` credit_list tip' cap limit (ps ++ qs).
Proof.
  intros Hok Ht. unfold credit_list, eligible. destruct (deep_grows tip tip' ps qs Hok Ht) as [new ->].
  destruct (firsts_app ∅ (filter (is_deep tip) ps) new) as [s ->]. rewrite take_app. apply prefix_app_r. done.
Qed.

(** ** The walks *)
(** what a walk has done: the transactions seen, those given a slot, those that found none *)
Record ledger := Ledger { le_seen : gset bytes; le_credited : list position; le_overflow : list position }.
Definition ledger_start : ledger := Ledger ∅ [] [].
Definition ledger_key (tip : Z) (k : nat) (s : ledger) (p : position) : ledger :=
  if decide (is_deep tip p) then
    if decide (p_txid p ∈ le_seen s) then s else
    let seen := {[ p_txid p ]} ∪ le_seen s in
    if (length (le_credited s) <? k)%nat then Ledger seen (le_credited s ++ [p]) (le_overflow s)
    else Ledger seen (le_credited s) (le_overflow s ++ [p])
  else s.

Lemma ledger_fold tip k ps s (ds := firsts (le_seen s) (filter (is_deep tip) ps)) (s' := foldl (ledger_key tip k) s ps) :
  (length (le_credited s) <= k)%nat →
  le_credited s' = le_credited s ++ take (k - length (le_credited s)) ds ∧
  le_overflow s' = le_overflow s ++ drop (k - length (le_credited s)) ds.
Proof.
  subst ds s'. revert s. induction ps as [|p ps IH]; intros s Hk; cbn [foldl].
  { rewrite filter_nil. cbn [firsts]. by rewrite take_nil, drop_nil, !app_nil_r. }
  rewrite filter_cons. unfold ledger_key at 2 4. case_decide as Hd; [|by apply IH]. cbn [firsts].
  case_decide as Hs; [by apply IH|]. destruct (Nat.ltb_spec (length (le_credited s)) k) as [Hl|Hl].
  - replace (k - length (le_credited s))%nat with (S (k - length (le_credited s ++ [p])))%nat by (rewrite length_app; cbn; lia).
    cbn [take drop]. match goal with |- context [foldl _ ?s1 ps] => destruct (IH s1) as [-> ->] end;
      cbn [le_seen le_credited le_overflow]; [rewrite length_app; cbn; lia|]. by rewrite <- app_assoc.
  - replace (k - length (le_credited s))%nat with 0%nat by lia. cbn [take drop].
    match goal with |- context [foldl _ ?s1 ps] => destruct (IH s1) as [-> ->] end; cbn [le_seen le_credited le_overflow]; [done|].
    replace (k - length (le_credited s))%nat with 0%nat by lia. cbn [take drop]. by rewrite <- app_assoc.
Qed.
Definition ledger_of (tip cap limit : Z) (ps : list position) : ledger := foldl (ledger_key tip (room cap limit)) ledger_start ps.
Lemma ledger_result tip cap limit ps :
  le_credited (ledger_of tip cap limit ps) = credit_list tip cap limit ps ∧
  le_overflow (ledger_of tip cap limit ps) = overflow_list tip cap limit ps.
Proof.
  unfold ledger_of. destruct (ledger_fold tip (room cap limit) ps ledger_start) as [-> ->]; [cbn; lia|].
  cbn [ledger_start le_credited le_overflow length le_seen app]. by rewrite Nat.sub_0_r.
Qed.

(** one more fits while there is room *)
Lemma room_left cap limit n : 0 < limit → 0 <= cap → (Z.of_nat n * limit + limit >? cap) = negb (n <? room cap limit)%nat.
Proof.
  intros Hl Hc. unfold room. rewrite Z.gtb_ltb. pose proof (Z.div_pos cap limit Hc Hl).
  pose proof (Z.mul_div_le cap limit Hl). pose proof (Z.mul_succ_div_gt cap limit Hl).
  destruct (Nat.ltb_spec n (Z.to_nat (cap / limit))); cbn [negb]; [apply Z.ltb_ge|apply Z.ltb_lt]; nia.
Qed.
Lemma credited_fits tip cap limit ps : 0 < limit → 0 <= cap → Z.of_nat (length (credit_list tip cap limit ps)) * limit <= cap.
Proof.
  intros Hl Hc. unfold credit_list, room. rewrite length_take. pose proof (Z.div_pos cap limit Hc Hl).
  pose proof (Z.mul_div_le cap limit Hl). nia.
Qed.
Lemma deep_ltb tip p : (depth tip (p_height p) <? PMINT_CONFIRMATION_DEPTH) = negb (bool_decide (is_deep tip p)).
Proof. unfold is_deep. case_bool_decide; cbn [negb]; [apply Z.ltb_ge|apply Z.ltb_lt]; lia. Qed.

(** *** The annotated list *)
Definition with_status (st : status) (l : list (position * status)) : list position := map fst (filter (λ e, e.2 = st) l).
Definition tally_of (limit : Z) (s : ledger) : tally :=
  Tally (le_seen s) (Z.of_nat (length (le_credited s)) * limit) (Z.of_nat (length (le_credited s))).

Lemma snoc_amount (l : list position) p limit : Z.of_nat (length (l ++ [p])) * limit = Z.of_nat (length l) * limit + limit.
Proof. rewrite length_app. cbn [length]. lia. Qed.
Lemma snoc_count (l : list position) p : Z.of_nat (length (l ++ [p])) = Z.of_nat (length l) + 1.
Proof. rewrite length_app. cbn [length]. lia. Qed.

Lemma annotate_key tip cap limit s p :
  0 < limit → 0 <= cap →
  let '(st, ta) := annotate (Some tip) cap limit (tally_of limit s) p in
  let s' := ledger_key tip (room cap limit) s p in
  ta = tally_of limit s' ∧
  le_credited s' = le_credited s ++ (if decide (st = credited) then [p] else []) ∧
  le_overflow s' = le_overflow s ++ (if decide (st = cap_overflow) then [p] else []).
Proof.
  intros Hl Hc. unfold annotate, ledger_key. rewrite deep_ltb. cbn [tally_of ta_seen ta_amount ta_count].
  case_bool_decide as Hd; cbn [negb]; [rewrite decide_True by done|rewrite decide_False by done; cbn; by rewrite !app_nil_r].
  case_bool_decide as Hs; [rewrite decide_True by done; cbn; by rewrite !app_nil_r|]. rewrite decide_False by done.
  rewrite room_left by done. destruct (_ <? _)%nat; cbn [negb]; unfold tally_of; cbn [le_seen le_credited le_overflow].
  - rewrite snoc_amount, snoc_count. cbn. by rewrite app_nil_r.
  - cbn. by rewrite app_nil_r.
Qed.
Lemma annotate_all_ledger tip cap limit ps s :
  0 < limit → 0 <= cap →
  let '(l, ta) := annotate_all (Some tip) cap limit (tally_of limit s) ps in
  let s' := foldl (ledger_key tip (room cap limit)) s ps in
  map fst l = ps ∧ ta = tally_of limit s' ∧
  le_credited s' = le_credited s ++ with_status credited l ∧ le_overflow s' = le_overflow s ++ with_status cap_overflow l.
Proof.
  intros Hl Hc. revert s. induction ps as [|p ps IH]; intros s; cbn [annotate_all foldl].
  { unfold with_status. cbn. by rewrite !app_nil_r. }
  pose proof (annotate_key tip cap limit s p Hl Hc) as Hk. destruct (annotate _ _ _ _ _) as [st ta]. cbv zeta in Hk.
  destruct Hk as (-> & Ec & Eo). specialize (IH (ledger_key tip (room cap limit) s p)).
  destruct (annotate_all _ _ _ _ _) as [l ta']. cbv zeta in IH |- *. destruct IH as (Em & -> & Ec' & Eo').
  split; [cbn [map fst]; by rewrite Em|]. split; [done|]. rewrite Ec', Eo', Ec, Eo. unfold with_status.
  rewrite !filter_cons. cbn [snd]. rewrite <- !app_assoc. split; repeat case_decide; done.
Qed.

(** *** Pages *)
(** the keys under a height *)
Definition on_chain (ps : list position) : list position := filter (λ p, is_orphan p = false) ps.
Lemma on_chain_all ps : Forall in_columns ps → on_chain ps = ps.
Proof.
  induction 1 as [|p ps Hp _ IH]; [done|]. unfold on_chain in *. rewrite filter_cons, decide_True by (by apply not_orphan). by rewrite IH.
Qed.
Lemma canonical_walk_all guard pages acc :
  (canonical_walk guard pages acc).2 = false → (canonical_walk guard pages acc).1 = acc ++ on_chain (concat pages).
Proof.
  revert pages acc. induction guard as [|guard IH]; intros [|pg pages] acc; cbn [canonical_walk]; try done.
  { intros _. cbn. by rewrite app_nil_r. }
  unfold on_chain. cbn [concat]. rewrite filter_app. destruct pages as [|pg' pages].
  - intros _. cbn. by rewrite !app_nil_r.
  - destruct (_ <=? _)%nat; [done|]. intros E. rewrite IH by done. by rewrite app_assoc.
Qed.
Section walks.
Context {S : Type} (step : position → S → S * bool).
Definition step_all (s : S) (ps : list position) : S := foldl (λ s p, (step p s).1) s ps.
Lemma walk_page_all ps s : (walk_page step ps s).2 = false → (walk_page step ps s).1 = step_all s ps.
Proof.
  revert s. induction ps as [|p ps IH]; intros s; cbn [walk_page]; [done|]. unfold step_all. cbn [foldl].
  destruct (step p s) as [s' []]; [done|]. cbn [fst]. apply IH.
Qed.
Lemma walk_pages_all guard pages s : (walk_pages step guard pages s).2 = false → (walk_pages step guard pages s).1 = step_all s (concat pages).
Proof.
  revert pages s. induction guard as [|guard IH]; intros [|pg pages] s; cbn [walk_pages]; try done.
  pose proof (walk_page_all pg s) as Hp. cbn [concat]. unfold step_all. rewrite foldl_app.
  destruct (walk_page step pg s) as [s' []]; [done|]. specialize (Hp eq_refl). cbn [fst] in Hp. fold (step_all s pg). rewrite <- Hp.
  destruct pages as [|pg' pages]; [done|]. apply IH.
Qed.
End walks.

(** *** The snapshot *)
Definition refresh_of (limit : Z) (s : ledger) (pend canon : Z) : refresh :=
  Refresh (le_seen s) (Z.of_nat (length (le_credited s)) * limit) (Z.of_nat (length (le_credited s)))
    (Z.of_nat (length (le_overflow s))) (take CAP_OVERFLOW_TXIDS_MAX (map p_txid (le_overflow s))) pend canon (last (le_credited s)).
Lemma take_snoc {A} n (l : list A) x : take n (l ++ [x]) = if (length (take n l) <? n)%nat then take n l ++ [x] else take n l.
Proof.
  rewrite length_take. destruct (Nat.ltb_spec (n `min` length l) n) as [Hl|Hl].
  - rewrite !take_ge by (rewrite ?length_app; cbn; lia). done.
  - by rewrite take_app_le by lia.
Qed.
Lemma refresh_key_ledger tip cap limit p s pend canon :
  0 < limit → 0 <= cap →
  ∃ pend', (refresh_key tip cap limit p (refresh_of limit s pend canon)).1 =
    if is_orphan p then refresh_of limit s pend canon
    else refresh_of limit (ledger_key tip (room cap limit) s p) pend' (canon + 1).
Proof.
  intros Hl Hc. unfold refresh_key, ledger_key. destruct (is_orphan p); [by exists pend|]. unfold refresh_of at 1.
  rewrite deep_ltb. case_bool_decide as Hd; cbn [negb]; [rewrite decide_True by done|rewrite decide_False by done; by exists (pend + 1)].
  exists pend. case_bool_decide as Hs; [by rewrite decide_True by done|]. rewrite decide_False by done.
  rewrite room_left by done. destruct (_ <? room cap limit)%nat; cbn [negb fst]; unfold refresh_of; cbn [le_seen le_credited le_overflow].
  - by rewrite snoc_amount, snoc_count, last_snoc.
  - rewrite snoc_count, map_app. change (map p_txid [p]) with [p_txid p]. by rewrite take_snoc.
Qed.
Lemma refresh_ledger tip cap limit ps s pend canon :
  0 < limit → 0 <= cap →
  ∃ pend', step_all (refresh_key tip cap limit) (refresh_of limit s pend canon) ps =
    refresh_of limit (foldl (ledger_key tip (room cap limit)) s (on_chain ps)) pend' (canon + Z.of_nat (length (on_chain ps))).
Proof.
  intros Hl Hc. unfold step_all, on_chain. revert s pend canon. induction ps as [|p ps IH]; intros s pend canon; cbn [foldl].
  { rewrite filter_nil. exists pend. cbn. by rewrite Z.add_0_r. }
  destruct (refresh_key_ledger tip cap limit p s pend canon Hl Hc) as [pend' ->]. rewrite filter_cons.
  destruct (is_orphan p) eqn:Ho; [rewrite decide_False by done|rewrite decide_True by done]; [apply IH|]. cbn [foldl].
  destruct (IH (ledger_key tip (room cap limit) s p) pend' (canon + 1)) as [pend2 ->]. exists pend2. f_equal. cbn [length]. lia.
Qed.

(** *** What the walks answer *)
Lemma load_exact pages tip cap limit (ps := on_chain (concat pages)) (r := loadCanonicalPmints pages (Some tip) cap limit) :
  0 < limit → 0 <= cap → canonical_truncated r = false →
  map fst (events r) = ps ∧ with_status credited (events r) = credit_list tip cap limit ps ∧
  with_status cap_overflow (events r) = overflow_list tip cap limit ps ∧
  cp_count r = Z.of_nat (length (credit_list tip cap limit ps)) ∧ cp_amount r = cp_count r * limit.
Proof.
  intros Hl Hc. subst r. unfold loadCanonicalPmints. pose proof (canonical_walk_all 60 pages []) as Hw.
  destruct (canonical_walk 60 pages []) as [canonical truncated]. cbn [fst snd app] in Hw.
  pose proof (annotate_all_ledger tip cap limit canonical ledger_start Hl Hc) as Ha.
  change (tally_of limit ledger_start) with no_tally in Ha. destruct (annotate_all _ _ _ _ _) as [l ta]. cbv zeta in Ha.
  cbn [events cp_count cp_amount canonical_truncated]. intros Ht. specialize (Hw Ht). fold ps in Hw. subst canonical.
  destruct Ha as (-> & -> & Ec & Eo). fold (ledger_of tip cap limit ps) in Ec, Eo |- *.
  destruct (ledger_result tip cap limit ps) as [Rc Ro]. cbn [ledger_start le_credited le_overflow app] in Ec, Eo.
  cbn [tally_of ta_count ta_amount]. rewrite <- Ec, <- Eo, Rc, Ro. split_and!; reflexivity.
Qed.

Lemma snapshot_exact pages oc sh tip petch s (ps := on_chain (concat pages))
    (cr := credit_list tip (pt_cap petch) (pt_limit petch) ps) (ov := overflow_list tip (pt_cap petch) (pt_limit petch) ps) :
  0 < pt_limit petch → 0 <= pt_cap petch → refreshPetchProgress pages oc sh (Some tip) petch = Some s → sn_truncated s = false →
  credited_count s = Z.of_nat (length cr) ∧ credited_amount s = credited_count s * pt_limit petch ∧
  cap_overflow_count s = Z.of_nat (length ov) ∧ cap_overflow_txids s = take CAP_OVERFLOW_TXIDS_MAX (map p_txid ov) ∧
  cap_overflow_truncated s = (Z.of_nat (length ov) >? Z.of_nat (length (take CAP_OVERFLOW_TXIDS_MAX (map p_txid ov)))) ∧
  last_credited s = last cr ∧ canonical_count s = Z.of_nat (length ps) ∧
  tip_at_update s = tip ∧ scanned_at_update s = Z.min tip <$> sh.
Proof.
  intros Hl Hc. unfold refreshPetchProgress. cbn [mbind option_bind]. unfold refresh_pages.
  pose proof (walk_pages_all (refresh_key tip (pt_cap petch) (pt_limit petch)) PETCH_REFRESH_MAX_PAGES pages refresh_start) as Hw.
  destruct (walk_pages _ _ _ _) as [s' t]. cbn [fst snd] in Hw. intros [= <-]. cbn [sn_truncated]. intros Ht. specialize (Hw Ht).
  change refresh_start with (refresh_of (pt_limit petch) ledger_start 0 0) in Hw.
  destruct (refresh_ledger tip (pt_cap petch) (pt_limit petch) (concat pages) ledger_start 0 0 Hl Hc) as [pend E].
  rewrite E in Hw. subst s'. fold ps. fold (ledger_of tip (pt_cap petch) (pt_limit petch) ps).
  unfold refresh_of. cbn [re_count re_amount re_overflow_count re_overflow re_last re_canonical].
  cbn [credited_count credited_amount cap_overflow_count cap_overflow_txids cap_overflow_truncated last_credited canonical_count tip_at_update scanned_at_update].
  destruct (ledger_result tip (pt_cap petch) (pt_limit petch) ps) as [-> ->]. fold cr ov. split_and!; reflexivity.
Qed.

(** *** Claims *)
Definition claims_of (s : ledger) (reached : bool) : claim_walk := ClaimWalk (le_seen s) (map p_txid (le_credited s)) reached.
Lemma claim_key_ledger tip cap per s p reached :
  ∃ reached', claim_key tip (cap / per) (claims_of s reached) p = claims_of (ledger_key tip (room cap per) s p) reached' ∧
    (reached' = true → reached = true ∨ (room cap per <= length (le_credited s))%nat).
Proof.
  unfold claim_key, ledger_key. assert (E : (tip - p_height p + 1 <? PMINT_CONFIRMATION_DEPTH) = (depth tip (p_height p) <? PMINT_CONFIRMATION_DEPTH)).
  { unfold depth, PMINT_CONFIRMATION_DEPTH. destruct (Z.ltb_spec (tip - p_height p + 1) 3), (Z.ltb_spec (Z.max 0 (tip - p_height p + 1)) 3); lia. }
  rewrite E, deep_ltb. cbn [claims_of cw_seen cw_credited cw_reached].
  case_bool_decide; cbn [negb]; [rewrite decide_True by done|rewrite decide_False by done; exists reached; auto].
  case_bool_decide; [rewrite decide_True by done; exists reached; auto|]. rewrite decide_False by done.
  rewrite length_map, Z.geb_leb. unfold room.
  destruct (Z.leb_spec (cap / per) (Z.of_nat (length (le_credited s)))), (Nat.ltb_spec (length (le_credited s)) (Z.to_nat (cap / per))); try lia.
  - exists true. split; [done|auto].
  - exists reached. unfold claims_of. cbn [le_seen le_credited]. rewrite map_app. auto.
Qed.
Lemma ledger_full tip k ps s :
  (k <= length (le_credited s))%nat → le_credited (foldl (ledger_key tip k) s ps) = le_credited s.
Proof.
  revert s. induction ps as [|p ps IH]; intros s Hk; [done|]. cbn [foldl].
  assert (E : le_credited (ledger_key tip k s p) = le_credited s).
  { unfold ledger_key. repeat case_decide; try done. by destruct (Nat.ltb_spec (length (le_credited s)) k); [lia|]. }
  rewrite IH; by rewrite E.
Qed.
Lemma claim_page_ledger tip cap per ps s reached :
  (reached = true → (room cap per <= length (le_credited s))%nat) →
  ∃ reached', foldl (claim_key tip (cap / per)) (claims_of s reached) ps = claims_of (foldl (ledger_key tip (room cap per)) s ps) reached' ∧
    (reached' = true → (room cap per <= length (le_credited (foldl (ledger_key tip (room cap per)) s ps)))%nat).
Proof.
  revert s reached. induction ps as [|p ps IH]; intros s reached Hr; cbn [foldl]; [by exists reached|].
  destruct (claim_key_ledger tip cap per s p reached) as (r' & -> & Hr'). apply IH. intros Ht.
  assert (Hf : (room cap per <= length (le_credited s))%nat) by (destruct (Hr' Ht); auto).
  pose proof (ledger_full tip (room cap per) [p] s Hf) as E. cbn [foldl] in E. by rewrite E.
Qed.
Lemma room_le cap per n : cap / per <= Z.of_nat n → (room cap per <= n)%nat.
Proof. unfold room. generalize (cap / per). lia. Qed.
Lemma claim_pages_ledger guard tip cap per pages s reached r complete :
  (reached = true → (room cap per <= length (le_credited s))%nat) →
  claim_pages guard tip (cap / per) pages (claims_of s reached) = (r, complete) → complete || cw_reached r = true →
  cw_credited r = map p_txid (le_credited (foldl (ledger_key tip (room cap per)) s (concat pages))).
Proof.
  revert pages s reached. induction guard as [|guard IH]; intros [|pg pages] s reached Hr; cbn [claim_pages concat].
  - intros [= <- <-]. done.
  - intros [= <- <-]. cbn [orb claims_of cw_reached cw_credited]. intros Ht. by rewrite ledger_full by auto.
  - intros [= <- <-]. done.
  - rewrite foldl_app. destruct (claim_page_ledger tip cap per pg s reached Hr) as (r' & -> & Hr').
    destruct pages as [|pg' pages]; [by intros [= <- <-]|]. cbn [claims_of cw_credited cw_seen]. rewrite length_map, Z.geb_leb.
    destruct (Z.leb_spec (cap / per) (Z.of_nat (length (le_credited (foldl (ledger_key tip (room cap per)) s pg))))) as [Hf|_].
    + intros [= <- <-] _. cbn [cw_credited]. rewrite (ledger_full tip _ (concat (pg' :: pages))); [done|]. by apply room_le.
    + apply IH, Hr'.
Qed.
Lemma claims_exact pages tip cap per l :
  loadCreditedDclaims pages (Some tip) cap per = Some l → l = map p_txid (credit_list tip cap per (concat pages)).
Proof.
  unfold loadCreditedDclaims. destruct (per >? 0); [|done]. cbn [mbind option_bind].
  change (ClaimWalk ∅ [] false) with (claims_of ledger_start false).
  destruct (claim_pages _ _ _ _ _) as [s complete] eqn:E. destruct (complete || cw_reached s) eqn:Hd; [|done]. intros [= <-].
  rewrite (claim_pages_ledger _ _ _ _ _ _ false _ _ ltac:(intros H; discriminate H) E Hd). fold (ledger_of tip cap per (concat pages)). by rewrite (proj1 (ledger_result _ _ _ _)).
Qed.

(** *** Progress of a drop *)
Lemma progress_fold tip ps seen n :
  (foldl (progress_key (Some tip)) (seen, n) ps).2 = n + Z.of_nat (length (firsts seen (filter (is_deep tip) ps))).
Proof.
  revert seen n. induction ps as [|p ps IH]; intros seen n; cbn [foldl]; [rewrite filter_nil; cbn; lia|].
  rewrite filter_cons. unfold progress_key at 2.
  replace (tip - p_height p + 1 <? PMINT_CONFIRMATION_DEPTH) with (negb (bool_decide (is_deep tip p))); cycle 1.
  { rewrite <- deep_ltb. unfold depth, PMINT_CONFIRMATION_DEPTH.
    destruct (Z.ltb_spec (tip - p_height p + 1) 3), (Z.ltb_spec (Z.max 0 (tip - p_height p + 1)) 3); lia. }
  case_bool_decide; cbn [negb]; [rewrite decide_True by done|rewrite decide_False by done; apply IH]. cbn [firsts fst snd].
  case_bool_decide; [rewrite decide_True by done; apply IH|]. rewrite decide_False by done. rewrite IH. cbn [length]. lia.
Qed.
Lemma progress_exact pages sh tip d (r := drop_progress pages sh (Some tip) d) (cr := credit_list tip (dr_cap d) (dr_per d) (concat pages)) :
  0 < dr_per d → 0 <= dr_cap d → list_complete r = true →
  claim_count r = Z.of_nat (length cr) ∧ claimed_amount r = claim_count r * dr_per d ∧
  claimed_amount r + remaining_amount r = dr_cap d ∧ pr_scanned r = Z.min tip <$> sh.
Proof.
  intros Hp Hc. subst r. unfold drop_progress. cbn [list_complete claim_count claimed_amount remaining_amount pr_scanned mbind option_bind].
  intros Hg%Nat.leb_le. rewrite take_ge by done. rewrite progress_fold. fold (eligible tip (concat pages)).
  assert (E : Z.min (0 + Z.of_nat (length (eligible tip (concat pages)))) (dr_cap d / dr_per d) = Z.of_nat (length cr)).
  { subst cr. unfold credit_list, room. rewrite length_take. pose proof (Z.div_pos _ _ Hc Hp). lia. }
  rewrite E. pose proof (credited_fits tip _ _ (concat pages) Hp Hc) as Hf. fold cr in Hf.
  split; [done|]. split; [done|]. split; [lia|done].
Qed.
