(* ===== verification/LaunchSteps.v ===== *)
(** * What the scan keeps

    Invariants of the indexer's launch records over any sequence of scans: the keys of
    every prefix stay sorted, in their columns and at heights already reached; keys never
    disappear; a drop's record and its claims agree with the drop's own transaction, and
    no claim is later than its expiry; the reclaim on record stands once its block is
    done. *)
From Stdlib Require Import Ascii Sorted.
From stdpp Require Import strings pretty.
From S2P Require Import Prelude Bytes Text Crypto EnvelopeScript CodecTransfer CodecIssue CodecPool CodecSlots CodecAmm.
From S2P Require Import Messages Curve Hex Merkle Mixer MixerProof CodecBridge Kernel Notes LaunchIndex LaunchOrder LaunchFacts.

Section steps.
Context `{Hash} {SE : Secp} {CH : Chain}.
(** the identifiers of the transactions of each block *)
Variable chain : Z → list bytes.

(** a transaction's place, which fits the columns of a key *)
Definition placed (p : position) : Prop := in_columns p ∧ chain (p_height p) !! Z.to_nat (p_index p) = Some (p_txid p).

(** ** What a scan writes *)
(** the terms of a drop, read off its transaction *)
Definition drop_at (id : bytes) (d : drop_rec) : Prop :=
  id = dropIdFromRevealTxid (dr_txid d) ∧
  ∃ tx e tk dc sig, fetchTx (dr_txid d) = Some tx ∧ launch_envelope tx = Some e ∧
    CDrop.decodeCDropPayload (env_payload e) =
      Ok (CDrop.Drop (dr_asset d) (dr_cap d) (dr_per d) (dr_root d) (dr_expiry d) tk dc (dr_inputs d) sig) ∧
    dr_depositor d = dropDepositorXonly tx.
Definition terms_ok (cap part : Z) : Prop := 0 < part <= cap ∧ (part | cap).
(** the terms of a launch, read off its transaction, and its height *)
Definition petch_at (aid : bytes) (r : petch_rec) : Prop :=
  ∃ t i tx e etch, placed (Pos (pt_height r) i t) ∧ aid = assetIdFor t 0 ∧ fetchTx t = Some tx ∧ launch_envelope tx = Some e ∧
    env_opcode e = T_PETCH ∧ CPetch.decodeCPetchPayload (env_payload e) = Ok etch ∧
    pt_cap r = CPetch.capAmount etch ∧ pt_limit r = CPetch.mintLimit etch ∧
    pt_start r = CPetch.mintStartHeight etch ∧ pt_end r = CPetch.mintEndHeight etch ∧
    negb (pt_start r =? 0) && (pt_start r <? pt_height r + 1) = false.
Definition claim_at (id : bytes) (p : position) : Prop :=
  ∃ d, drop_at id d ∧ (dr_expiry d = 0 ∨ p_height p <= dr_expiry d).

(** a write at height [h], over the records of [ix] *)
Inductive writes_at (h : Z) (ix : index) : write → Prop :=
| at_petch aid r : pt_height r = h → petch_at aid r → writes_at h ix (PutPetch aid r)
| at_pmint aid p : p_height p = h → placed p → writes_at h ix (PutPmint aid p)
| at_drop id d : drop_at id d → writes_at h ix (PutDrop id d)
| at_leaf id i t : writes_at h ix (PutLeaf id i t)
| at_dclaim id d p :
    drops ix !! id = Some d → p_height p = h → placed p → (dr_expiry d = 0 ∨ h <= dr_expiry d) → writes_at h ix (PutDclaim id p)
| at_reclaim id r :
    rr_height r = h → (∃ i, placed (Pos h i (rr_txid r))) →
    (∀ prior, drop_reclaims ix !! id = Some prior → rr_txid prior = rr_txid r ∨ prior_stands prior (rr_txid r) h = false) →
    writes_at h ix (PutReclaim id r).

Lemma drop_terms_ok p a c per m e tk d i k : CDrop.decodeCDropPayload p = Ok (CDrop.Drop a c per m e tk d i k) → terms_ok c per.
Proof.
  unfold CDrop.decodeCDropPayload, terms_ok. rewrite run_Ok. intros [s Hr]. rd_inv Hr.
  destruct (Z.eqb_spec a4 0) as [->|Hne].
  - unfold CDrop.read_reclaim in Hr. rd_inv Hr. discriminate.
  - unfold CDrop.read_drop in Hr. rd_inv Hr. injection Hr as -> -> -> _ _ _ _ _ _.
    assert (Hdiv : (per | c)) by (apply Z.mod_divide; lia). split; [|done]. split; [lia|]. apply Z.divide_pos_le; [lia|done].
Qed.
Lemma petch_terms aid r : petch_at aid r → terms_ok (pt_cap r) (pt_limit r).
Proof.
  intros (t & i & tx & e & etch & _ & _ & _ & _ & _ & Hd & -> & -> & _).
  destruct (CPetch.decode_launch_ok _ _ Hd) as (? & _ & ? & _). done.
Qed.
Lemma petch_branch_writes h i t tx e ix :
  placed (Pos h i t) → fetchTx t = Some tx → launch_envelope tx = Some e → env_opcode e = T_PETCH →
  Forall (writes_at h ix) (petch_branch h t (env_payload e)).
Proof.
  intros Hp Hf He Ho. unfold petch_branch. destruct (CPetch.decodeCPetchPayload (env_payload e)) as [cp| | |] eqn:Hd; cbn [decoded]; try constructor.
  destruct (_ && _) eqn:Hs; [constructor|]. apply Forall_singleton. constructor; [done|].
  exists t, i, tx, e, cp. cbn [pt_cap pt_limit pt_start pt_end pt_height]. split_and!; done.
Qed.
Lemma pmint_branch_writes h i t payload ix cache :
  placed (Pos h i t) → Forall (writes_at h ix) (pmint_branch h i t payload ix cache).1.
Proof.
  intros Hc. unfold pmint_branch. destruct (decoded _) as [cm|]; [|constructor]. cbv zeta.
  destruct (negb _); [constructor|]. destruct (_petchLookup _ _ _) as [[r|] c]; [|constructor].
  repeat match goal with |- Forall _ (if ?b then _ else _).1 => destruct b; [constructor|] end.
  apply Forall_singleton. by constructor.
Qed.
(** one write *)
Definition put (h : Z) (ix ix' : index) : Prop := ∃ w, writes_at h ix w ∧ ix' = apply_write ix w.
Lemma put_one h ix ws : Forall (writes_at h ix) ws → (length ws <= 1)%nat → rtc (put h) ix (run_writes ix ws).
Proof.
  destruct ws as [|w [|w' ws]]; intros Hw Hl; [apply rtc_refl| |cbn in Hl; lia]. apply Forall_inv in Hw.
  apply rtc_once. exists w; split; [exact Hw|reflexivity].
Qed.
Lemma dclaim_branch_puts h i t payload ix :
  placed (Pos h i t) → rtc (put h) ix (run_writes ix (dclaim_branch h i t payload ix)).
Proof.
  intros Hc. unfold dclaim_branch. destruct (decoded _) as [c|]; [|apply rtc_refl]. cbv zeta.
  destruct (drops ix !! _) as [d|] eqn:Hd; [|apply rtc_refl]. destruct (negb _); [apply rtc_refl|].
  destruct (negb (dr_expiry d =? 0) && (h >? dr_expiry d)) eqn:Hx; [apply rtc_refl|].
  assert (He : dr_expiry d = 0 ∨ h <= dr_expiry d) by (destruct (Z.eqb_spec (dr_expiry d) 0); [auto|right; cbn [negb andb] in Hx; lia]). clear Hx.
  destruct (negb _); [apply rtc_refl|]. destruct (all_zero _), (CDClaim.claim_witness c) as [w|]; try apply rtc_refl.
  - apply put_one; [|done]. apply Forall_singleton. by eapply at_dclaim.
  - case_bool_decide; [apply rtc_refl|]. eapply rtc_l; [eexists; split; [apply at_leaf|reflexivity]|].
    apply rtc_once. eexists. split; [|reflexivity]. eapply at_dclaim; [|done..]. by destruct ix.
Qed.
Lemma reclaim_writes id t a cap h i signer ix : placed (Pos h i t) → Forall (writes_at h ix) (putDropReclaim id (Reclaimed t a cap h) signer ix).
Proof.
  intros Hc. unfold putDropReclaim. destruct (drops ix !! id) as [d|]; [|constructor]. cbv zeta. destruct (negb _); [constructor|].
  cbn [rr_txid rr_height]. destruct (drop_reclaims ix !! id) as [prior|] eqn:Hp.
  - destruct (negb (bool_decide (rr_txid prior = t)) && _) eqn:Hs; [constructor|]. apply Forall_singleton. constructor; [done|by exists i|].
    cbn [rr_txid]. intros pr. rewrite Hp. intros [= <-]. apply andb_false_iff in Hs as [Hs|Hs]; [|auto].
    left. by apply negb_false_iff, bool_decide_eq_true in Hs.
  - apply Forall_singleton. constructor; [done|by exists i|]. by rewrite Hp.
Qed.
Lemma drop_branch_writes h i t tx e ix :
  placed (Pos h i t) → fetchTx t = Some tx → launch_envelope tx = Some e → Forall (writes_at h ix) (drop_branch h t tx e ix).
Proof.
  intros Hc Hf He. unfold drop_branch. destruct (decoded _) as [[a cap per root ex tk dc n sig|a cap id sig bl]|] eqn:Hd; [| |constructor].
  - apply Forall_singleton. constructor. split; [done|]. exists tx, e, tk, dc, sig. split_and!; try done.
    destruct (CDrop.decodeCDropPayload (env_payload e)); [by injection Hd as ->|done..].
  - by eapply reclaim_writes.
Qed.

Lemma drop_branch_short h t tx e ix : (length (drop_branch h t tx e ix) <= 1)%nat.
Proof.
  unfold drop_branch, putDropReclaim. destruct (decoded _) as [[]|]; cbn [length]; [lia| |lia].
  destruct (drops _ !! _); cbn [length]; [|lia]. destruct (negb _); cbn [length]; [lia|].
  destruct (drop_reclaims _ !! _); cbn [length]; [destruct (_ && _); cbn [length]|]; lia.
Qed.
Lemma petch_branch_short h t payload : (length (petch_branch h t payload) <= 1)%nat.
Proof. unfold petch_branch. destruct (decoded _); cbn [length]; [|lia]. destruct (_ && _); cbn [length]; lia. Qed.
Lemma pmint_branch_short h i t payload ix cache : (length (pmint_branch h i t payload ix cache).1 <= 1)%nat.
Proof.
  unfold pmint_branch. destruct (decoded _); cbn [length fst]; [|lia]. cbv zeta. destruct (negb _); cbn [length fst]; [lia|].
  destruct (_petchLookup _ _ _) as [[r|] c]; cbn [length fst]; [|lia].
  repeat match goal with |- context [(if ?b then _ else _).1] => destruct b; [cbn; lia|] end. cbn. lia.
Qed.

(** the writes of one transaction, whatever it is *)
Lemma scan_launch_puts h i t tx e st :
  fetchTx t = Some tx → launch_envelope tx = Some e → placed (Pos h i t) → rtc (put h) st.1 (scan_launch h i t tx e st).1.
Proof.
  destruct st as [ix cache]. intros Hf He Hc. unfold scan_launch. cbv zeta. cbn [fst].
  destruct (Z.eqb_spec (env_opcode e) T_PETCH); [apply put_one; [by eapply petch_branch_writes|apply petch_branch_short]|].
  destruct (_ =? T_PMINT).
  { pose proof (pmint_branch_writes h i t (env_payload e) ix cache Hc) as Hw.
    pose proof (pmint_branch_short h i t (env_payload e) ix cache) as Hs.
    destruct (pmint_branch _ _ _ _ _ _) as [ws c]. by apply put_one. }
  destruct (_ =? T_DROP); [apply put_one; [by eapply drop_branch_writes|apply drop_branch_short]|].
  destruct (_ =? T_DCLAIM); [by apply dclaim_branch_puts|apply rtc_refl].
Qed.

(** ** Scans *)
(** [n] blocks from height [f], and the first [k] transactions of the next *)
Definition tick (f : Z) (n k : nat) (ix : index) : Z * index :=
  scan_tick f (map chain (seqZ f (Z.of_nat n))) (take k (chain (f + Z.of_nat n))) ix.
Definition small_blocks : Prop := ∀ h, Z.of_nat (length (chain h)) <= 10 ^ 6.
Inductive launch_tick : Z * index → Z * index → Prop :=
| a_tick f n k ix : 0 < f → f + Z.of_nat n < 10 ^ 10 → launch_tick (f, ix) (tick f n k ix).

(** a write at height [f] or above *)
Definition put_from (f : Z) (ix ix' : index) : Prop := ∃ h, f <= h ∧ put h ix ix'.

Lemma scan_block_puts h f i ts st :
  0 < h < 10 ^ 10 → f <= h → 0 <= i → i + Z.of_nat (length ts) <= 10 ^ 6 →
  (∀ j t, ts !! j = Some t → chain h !! (Z.to_nat i + j)%nat = Some t) →
  rtc (put h) st.1 (scan_block h i ts st).1.
Proof.
  intros Hh Hf. revert i st. induction ts as [|t ts IH]; intros i st Hi Hl Hts; cbn [scan_block]; [apply rtc_refl|].
  cbn [length] in Hl. etrans; [|apply IH; [lia|lia|]].
  - destruct (fetchTx t) as [tx|] eqn:Et; [|apply rtc_refl]. destruct (launch_envelope tx) as [e|] eqn:He; [|apply rtc_refl].
    apply scan_launch_puts; [done..|]. split; [split; [exact Hh|cbn [p_index]; lia]|]. cbn [p_height p_index p_txid].
    rewrite <- (Hts 0%nat t eq_refl). f_equal. lia.
  - intros j t' Hj. rewrite <- (Hts (S j) t' Hj). f_equal. lia.
Qed.
Lemma scan_blocks_puts f h bs st :
  small_blocks → 0 < h → f <= h → h + Z.of_nat (length bs) <= 10 ^ 10 →
  (∀ j b, bs !! j = Some b → b `prefix_of` chain (h + Z.of_nat j)) →
  rtc (put_from f) st.1 (scan_blocks h bs st).1.
Proof.
  intros Hs. revert h st. induction bs as [|b bs IH]; intros h st Hh Hf Hl Hbs; cbn [scan_blocks]; [apply rtc_refl|].
  cbn [length] in Hl. etrans; [|apply IH; [lia..|]].
  - pose proof (Hbs 0%nat b eq_refl) as Hb. rewrite Z.add_0_r in Hb. destruct Hb as [k Hk].
    assert (Hlen : Z.of_nat (length b) <= 10 ^ 6) by (specialize (Hs h); rewrite Hk, length_app in Hs; lia).
    eapply rtc_subrel; [|eapply (scan_block_puts h f 0 b st); [lia|lia|lia|lia|]].
    + intros x y Hp. by exists h.
    + intros j t Hj. rewrite Hk. change (Z.to_nat 0 + j)%nat with j. by apply lookup_app_l_Some.
  - intros j b' Hj. replace (h + 1 + Z.of_nat j) with (h + Z.of_nat (S j)) by lia. by apply Hbs.
Qed.
Lemma tick_puts f ix f' ix' :
  small_blocks → launch_tick (f, ix) (f', ix') → f <= f' ∧ 0 < f ∧ rtc (put_from f) ix ix'.
Proof.
  intros Hs E. remember (f, ix) as a eqn:Ea. remember (f', ix') as b eqn:Eb. destruct E as [f0 n k ix0 Hf Hn].
  injection Ea as -> ->. unfold tick, scan_tick in Eb. injection Eb as <- <-. rewrite length_map, length_seqZ. split; [lia|]. split; [done|].
  apply (scan_blocks_puts f f _ (ix, ∅)); [done|done|lia| |].
  - rewrite length_app, length_map, length_seqZ. cbn [length]. lia.
  - intros j b Hj. apply lookup_app_Some in Hj as [Hj|[Hl Hj]].
    + apply list_lookup_fmap_Some in Hj as (h & -> & Hh). apply lookup_seqZ in Hh as [-> _]. done.
    + rewrite length_map, length_seqZ in Hl, Hj. apply list_lookup_singleton_Some in Hj as [Ej <-].
      replace (f + Z.of_nat j) with (f + Z.of_nat n) by lia. apply prefix_take.
Qed.
(** ** Invariants *)
Definition keys_inv (ps : list position) : Prop := keys_ok ps ∧ Forall placed ps.
Definition launch_inv (ix : index) : Prop :=
  (∀ aid, keys_inv (keys_at aid (pmints ix))) ∧
  (∀ id, keys_inv (keys_at id (dclaims ix)) ∧ Forall (claim_at id) (keys_at id (dclaims ix))) ∧
  (∀ id d, drops ix !! id = Some d → drop_at id d) ∧
  (∀ id r, drop_reclaims ix !! id = Some r → ∃ i, placed (Pos (rr_height r) i (rr_txid r))) ∧
  (∀ aid r, petches ix !! aid = Some r → petch_at aid r).

Lemma placed_columns p : placed p → in_columns p.
Proof. by intros []. Qed.
Lemma kv_put_Forall (P : position → Prop) p l : in_columns p → keys_ok l → P p → Forall P l → Forall P (kv_put p l).
Proof.
  intros Hp [Hc _] HP Hl. apply Forall_forall. intros q Hq. apply kv_put_elem in Hq as [->|Hq]; [done| |done|done].
  rewrite Forall_forall in Hl. by apply Hl.
Qed.
Lemma kv_put_inv p ps : placed p → keys_inv ps → keys_inv (kv_put p ps).
Proof.
  intros Hp [Hk Hps]. split; [apply kv_put_ok; [by apply placed_columns|done]|].
  by apply kv_put_Forall; [apply placed_columns| | |].
Qed.
Lemma keys_at_insert id id' l m : keys_at id' (<[id := l]> m) = if decide (id' = id) then l else keys_at id' m.
Proof.
  unfold keys_at. case_decide as E; [subst; by rewrite lookup_insert_eq|]. by rewrite lookup_insert_ne.
Qed.
Lemma inv_empty : launch_inv empty_index.
Proof.
  assert (Hk : ∀ id, keys_at id (∅ : gmap bytes (list position)) = []) by (intros id; unfold keys_at; by rewrite lookup_empty).
  split; [|split; [|split; [|split]]]; cbn [empty_index petches pmints dclaims drops drop_reclaims].
  - intros aid. rewrite Hk. split; [exact keys_ok_nil|constructor].
  - intros id. rewrite Hk. split; [split; [exact keys_ok_nil|constructor]|constructor].
  - intros id d E. by rewrite lookup_empty in E.
  - intros id r E. by rewrite lookup_empty in E.
  - intros aid r E. by rewrite lookup_empty in E.
Qed.
Lemma put_inv h ix ix' : launch_inv ix → put h ix ix' → launch_inv ix'.
Proof.
  intros (Hpm & Hdc & Hdr & Hre & Hpe) (w & Hw & ->). destruct ix as [pe pm dr dc le re]. cbn [petches pmints dclaims drops drop_reclaims] in *.
  destruct Hw as [aid r Hh Ht|aid p Hh Hp|id d Hd|id i t|id d p Hd Hh Hp He|id r Hh Hp Hs]; cbn [apply_write];
    (split; [|split; [|split; [|split]]]); cbn [petches pmints dclaims drops drop_reclaims] in *; try done.
  - intros aid' r'. rewrite lookup_insert_Some. intros [[<- <-]|[_ Hr]]; [done|by eapply Hpe].
  - intros aid'. rewrite keys_at_insert. case_decide; [|done]. by apply kv_put_inv.
  - intros id' d'. rewrite lookup_insert_Some. intros [[<- <-]|[_ Hd']]; [done|by apply Hdr].
  - intros id'. rewrite keys_at_insert. case_decide as E; [|done]. destruct (Hdc id) as [[Hk Hk2] Hc].
    split; [by apply kv_put_inv|]. subst id'. apply kv_put_Forall; [by apply placed_columns|done| |done].
    exists d. subst h. split; [by apply Hdr|done].
  - intros id' r'. rewrite lookup_insert_Some. intros [[<- <-]|[_ Hr]]; [|by eapply Hre]. by rewrite Hh.
Qed.
Lemma puts_inv f ix ix' : launch_inv ix → rtc (put_from f) ix ix' → launch_inv ix'.
Proof. intros Hi Hr. induction Hr as [|x y z (h & _ & Hp) _ IH]; [done|]. apply IH. by eapply put_inv. Qed.

(** *** What stays *)
Definition below (f : Z) (ps : list position) : list position := filter (λ p, p_height p < f) ps.
Lemma below_put f p l : f <= p_height p → in_columns p → Forall in_columns l → below f (kv_put p l) = below f l.
Proof.
  intros Hf Hp. unfold below. induction l as [|q l IH]; intros Hl; cbn [kv_put]; [by rewrite filter_cons, decide_False by lia|].
  apply Forall_cons in Hl as [Hq Hl]. destruct (String.compare _ _) eqn:E.
  - by apply (key_eq p q Hp Hq) in E as ->.
  - by rewrite filter_cons, decide_False by lia.
  - rewrite !filter_cons. by rewrite (IH Hl).
Qed.
Lemma below_split f ps : keys_ok ps → ps = below f ps ++ filter (λ p, ¬ p_height p < f) ps.
Proof.
  intros [Hc Hs]. unfold below. induction Hs as [|p ps Hs IH Hp]; [done|]. apply Forall_cons in Hc as [Hcp Hc].
  rewrite !filter_cons. destruct (decide (p_height p < f)) as [Hl|Hl].
  - rewrite (decide_False (P := ¬ _)) by tauto. cbn [app]. by rewrite <- IH.
  - rewrite (decide_True (P := ¬ _)) by done. rewrite (filter_none (λ p, p_height p < f) ps); [cbn [app]; f_equal|].
    + rewrite IH at 1 by done. rewrite (filter_none (λ p, p_height p < f) ps); [done|].
      intros q Hq. rewrite Forall_forall in Hp, Hc. specialize (Hp q Hq). apply key_lt_height in Hp; [lia|done|by apply Hc].
    + intros q Hq. rewrite Forall_forall in Hp, Hc. specialize (Hp q Hq). apply key_lt_height in Hp; [lia|done|by apply Hc].
Qed.
Definition earlier_keys (f : Z) (ix ix' : index) : Prop :=
  (∀ aid, below f (keys_at aid (pmints ix')) = below f (keys_at aid (pmints ix))) ∧
  (∀ id, below f (keys_at id (dclaims ix')) = below f (keys_at id (dclaims ix))).
Lemma put_earlier f h ix ix' : f <= h → launch_inv ix → put h ix ix' → earlier_keys f ix ix'.
Proof.
  intros Hf (Hpm & Hdc & _) (w & Hw & ->). destruct ix as [pe pm dr dc le re]. cbn [pmints dclaims drops drop_reclaims] in *.
  destruct Hw as [aid r Hh Ht|aid p Hh Hp|id d Hd|id i t|id d p Hd Hh Hp He|id r Hh Hp Hs]; cbn [apply_write];
    split; cbn [pmints dclaims drops drop_reclaims] in *; try done.
  - intros aid'. rewrite keys_at_insert. case_decide as E; [|done]. subst aid'. destruct (Hpm aid) as [[Hc _] _].
    apply below_put; [lia|by apply placed_columns|done].
  - intros id'. rewrite keys_at_insert. case_decide as E; [|done]. subst id'. destruct (Hdc id) as [[[Hc _] _] _].
    apply below_put; [lia|by apply placed_columns|done].
Qed.
Lemma puts_earlier f ix ix' : launch_inv ix → rtc (put_from f) ix ix' → earlier_keys f ix ix'.
Proof.
  intros Hi Hr. induction Hr as [x|x y z (h & Hh & Hp) Hr IH]; [by split|].
  destruct (put_earlier f h x y Hh Hi Hp) as [E1 E2]. destruct IH as [E3 E4]; [by eapply put_inv|].
  split; intros; [by rewrite E3, E1|by rewrite E4, E2].
Qed.
(** the reclaim of a block that is done stands *)
Lemma puts_reclaim f ix ix' id r :
  rtc (put_from f) ix ix' → drop_reclaims ix !! id = Some r → 0 < rr_height r < f →
  (∀ h, (∃ i, placed (Pos h i (rr_txid r))) → h = rr_height r) →
  drop_reclaims ix' !! id = Some r.
Proof.
  intros Hr Hd Hh Hu. induction Hr as [|x y z (h & Hf & w & Hw & ->) _ IH]; [done|]. apply IH. clear IH.
  destruct x as [pe pm dr dc le re]. cbn [drop_reclaims] in *.
  destruct Hw as [aid r' E Ht|aid p E Hp|id' d E|id' i t|id' d p E E2 Hp He|id' r' E Hp Hs]; cbn [apply_write drop_reclaims]; try done.
  cbn [drop_reclaims] in Hs. destruct (decide (id' = id)) as [->|Hne]; [|by rewrite lookup_insert_ne].
  destruct (Hs r Hd) as [Et|Hst].
  - destruct Hp as [i Hp]. rewrite <- Et in Hp. pose proof (Hu _ (ex_intro _ i Hp)). lia.
  - exfalso. unfold prior_stands in Hst. apply orb_false_iff in Hst as [Hst _].
    rewrite (proj2 (Z.gtb_lt _ _)), (proj2 (Z.ltb_lt (rr_height r) h)) in Hst by lia.
    by rewrite orb_true_r in Hst.
Qed.
(** keys are never lost *)
Lemma puts_keep_keys f ix ix' aid p :
  launch_inv ix → rtc (put_from f) ix ix' → p ∈ keys_at aid (pmints ix) → p ∈ keys_at aid (pmints ix').
Proof.
  intros Hi Hr. induction Hr as [|x y z (h & _ & Hp) _ IH]; [done|]. intros Hin. apply IH; [by eapply put_inv|]. clear IH.
  destruct Hi as (Hpm & _). destruct Hp as (w & Hw & ->). destruct x as [pe pm dr dc le re]. cbn [pmints] in *.
  destruct Hw as [aid' r Hh Ht|aid' q Hh Hq|id d Hd|id i t|id d q Hd Hh Hq He|id r Hh Hq Hs]; cbn [apply_write pmints]; try done.
  rewrite keys_at_insert. case_decide as E; [subst aid'|done]. destruct (Hpm aid) as [[Hc _] _].
  apply kv_put_elem; [by apply placed_columns|done|by right].
Qed.

(** ** One transaction, one place *)
Definition one_place : Prop := ∀ p q, placed p → placed q → p_txid p = p_txid q → p = q.
Lemma eligible_all tip ps : one_place → keys_inv ps → eligible tip ps = filter (is_deep tip) ps.
Proof.
  intros Ho [Hk Hp]. unfold eligible. apply firsts_all; [|set_solver].
  assert (Hn : NoDup (filter (is_deep tip) ps)) by (by apply keys_ok_NoDup, filter_keys_ok).
  assert (Hpl : Forall placed (filter (is_deep tip) ps)).
  { apply Forall_forall. intros q [_ Hq]%list_elem_of_filter. rewrite Forall_forall in Hp. by apply Hp. }
  induction Hn as [|q l Hq Hn IH]; cbn [map]; [constructor|]. apply Forall_cons in Hpl as [Hq' Hl]. constructor; [|by apply IH].
  intros (q2 & E & Hq2)%list_elem_of_fmap. rewrite Forall_forall in Hl. apply Hq.
  by rewrite (Ho q q2 Hq' (Hl q2 Hq2) E).
Qed.
Lemma same_drop id d d' :
  (∀ t, t ≠ dr_txid d → is_Some (fetchTx t) → dropIdFromRevealTxid t ≠ id) → drop_at id d → drop_at id d' →
  dr_cap d' = dr_cap d ∧ dr_per d' = dr_per d ∧ dr_expiry d' = dr_expiry d ∧ dr_asset d' = dr_asset d.
Proof.
  intros Hu (_ & tx & e & tk & dc & sig & Hf & He & Hd & _) (Hid & tx' & e' & tk' & dc' & sig' & Hf' & He' & Hd' & _).
  assert (E : dr_txid d' = dr_txid d).
  { destruct (decide (dr_txid d' = dr_txid d)); [done|]. exfalso. eapply Hu; [done|by eexists|by symmetry]. }
  rewrite E, Hf in Hf'. injection Hf' as <-. rewrite He in He'. injection He' as <-. rewrite Hd in Hd'. injection Hd' as Ea Ec Ep _ Ex _ _ _ _. split_and!; congruence.
Qed.
End steps.
