(* ===== verification/LaunchCheck.v ===== *)
(** * What the client makes of the indexer's answers

    A mint's verdict against the snapshot, for keys the scan may have written: it is
    credited exactly when it is among the credited ones, and a refusal is final.  And the
    rules a fair mint, a claim and a reclaim have met when their handler answers true. *)
From Stdlib Require Import Ascii Sorted.
From stdpp Require Import strings pretty.
From S2P Require Import Prelude Bytes Text Crypto EnvelopeScript CodecTransfer CodecIssue CodecPool CodecSlots CodecAmm.
From S2P Require Import Messages Curve Hex Merkle Mixer MixerProof CodecBridge Kernel Notes MixerLeaf Handlers Validator WalkFacts ValidSpec ValidShape ValidSound.
From S2P Require Import LaunchIndex Airdrop LaunchClient LaunchOrder LaunchFacts LaunchSteps.

Section check.
Context `{Hash} {SE : Secp} {CH : Chain} {MC : MixerChain} {LC : LaunchChain} {EK : EthKeys}.
Variable chain : Z → list bytes.

(** ** The verdict on a mint *)
Lemma credit_overflow tip cap limit ps : credit_list tip cap limit ps ++ overflow_list tip cap limit ps = eligible tip ps.
Proof. apply take_drop. Qed.
Lemma eligible_sorted tip ps : keys_ok ps → keys_ok (eligible tip ps).
Proof. intros Hk. by apply firsts_sorted, filter_keys_ok. Qed.
Lemma overflow_full tip cap limit ps : overflow_list tip cap limit ps ≠ [] → length (credit_list tip cap limit ps) = room cap limit.
Proof.
  unfold credit_list, overflow_list. intros Hne. apply length_take_le.
  destruct (Nat.le_gt_cases (room cap limit) (length (eligible tip ps))) as [|Hl]; [done|]. exfalso. apply Hne. apply drop_ge. lia.
Qed.
(** a key after the last credited one, or after none, is not among them *)
Lemma not_after_last (l : list position) p q : keys_ok l → last l = Some q → p ∈ l → ¬ key_lt q p.
Proof.
  intros Hk Hl Hp Hlt. apply last_Some in Hl as [l' ->]. apply keys_ok_app in Hk as (_ & _ & Hlast).
  apply elem_of_app in Hp as [Hp|Hp%list_elem_of_singleton].
  - apply (key_lt_irrefl p). etrans; [by apply Hlast; [|apply list_elem_of_singleton]|done].
  - subst. by apply (key_lt_irrefl q).
Qed.
(** what the chain's places say of two keys *)
Lemma place_lt p q :
  in_columns p → in_columns q → key_lt p q → p_height p < p_height q ∨ (p_height p = p_height q ∧ p_index p <= p_index q).
Proof.
  intros Hp Hq. unfold key_lt. rewrite key_order by done. unfold chain_compare.
  destruct (Z.compare_spec (p_height p) (p_height q)); cbn [then_compare]; [|auto|done].
  destruct (Z.compare_spec (p_index p) (p_index q)); cbn [then_compare]; intros E; [right; lia..|done].
Qed.
Lemma place_cases p q :
  placed chain p → placed chain q →
  p = q ∨ key_lt p q ∨ key_lt q p.
Proof.
  intros [Hp _] [Hq _]. unfold key_lt. destruct (key_compare p q) eqn:E.
  - left. by apply key_eq.
  - auto.
  - right; right. by apply key_flip.
Qed.
Lemma same_place p q : placed chain p → placed chain q → p_height p = p_height q → p_index p = p_index q → p = q.
Proof.
  intros [_ Hp] [_ Hq] Eh Ei. rewrite Eh, Ei, Hq in Hp. injection Hp as Et. destruct p, q. cbn in *. by subst.
Qed.

(** [p] is the place of the mint [tx], as the client finds it *)
Definition found_at (tx : txn) (p : position) : Prop :=
  placed chain p ∧ tx_height tx = Some (p_height p) ∧ txIndexOf tx (p_txid p) = Some (p_index p).

Section verdict.
Variables (pages : list (list position)) (oc : Z) (sh : option Z) (tip : Z) (petch : petch_rec) (sn : snapshot).
Hypothesis one : one_place chain.
Hypothesis terms : terms_ok (pt_cap petch) (pt_limit petch).
Hypothesis keys : keys_inv chain (concat pages).
Hypothesis taken : refreshPetchProgress pages oc sh (Some tip) petch = Some sn.
Hypothesis whole : sn_truncated sn = false.
Let ps := concat pages.
Let cr := credit_list tip (pt_cap petch) (pt_limit petch) ps.
Let ov := overflow_list tip (pt_cap petch) (pt_limit petch) ps.

Lemma snapshot_facts :
  cap_overflow_txids sn = take CAP_OVERFLOW_TXIDS_MAX (map p_txid ov) ∧
  cap_overflow_truncated sn = (Z.of_nat (length ov) >? Z.of_nat (length (take CAP_OVERFLOW_TXIDS_MAX (map p_txid ov)))) ∧
  last_credited sn = last cr ∧ tip_at_update sn = tip ∧ scanned_at_update sn = Z.min tip <$> sh ∧
  cr ++ ov = filter (is_deep tip) ps ∧ keys_ok (cr ++ ov).
Proof.
  destruct terms as [Ht _]. destruct (snapshot_exact pages oc sh tip petch sn) as (_ & _ & _ & E1 & E2 & E3 & _ & E4 & E5); [lia|lia|done..|].
  rewrite (on_chain_all (concat pages)) in E1, E2, E3 by apply keys. fold ps in E1, E2, E3. fold ov in E1, E2. fold cr in E3.
  split_and!; try done; unfold cr, ov; rewrite credit_overflow.
  - by apply (eligible_all chain).
  - apply eligible_sorted, keys.
Qed.
Lemma elem_ps_placed p : p ∈ ps → placed chain p.
Proof. destruct keys as [_ Hp]. rewrite Forall_forall in Hp. apply Hp. Qed.
Lemma elem_cr_ps p : p ∈ cr ++ ov → p ∈ ps.
Proof. destruct snapshot_facts as (_ & _ & _ & _ & _ & E & _). rewrite E. by intros [_ ?]%list_elem_of_filter. Qed.
Lemma elem_txids p : placed chain p → p_txid p ∈ map p_txid ov → p ∈ ov.
Proof.
  intros Hp (q & E & Hq)%list_elem_of_fmap. rewrite (one p q); [done|done| |done]. apply elem_ps_placed, elem_cr_ps.
  apply elem_of_app. by right.
Qed.
Lemma cr_not_ov p : p ∈ cr → p ∈ ov → False.
Proof.
  destruct snapshot_facts as (_ & _ & _ & _ & _ & _ & (_ & _ & Hlt)%keys_ok_app). intros H1 H2. exact (key_lt_irrefl p (Hlt p p H1 H2)).
Qed.

(** no mint is credited past the last one; those before it are, if they have a key *)
Lemma verdict_credited tx p :
  found_at tx p → p ∈ ps → credit_verdict (slim_credit (Some sn)) tx (p_txid p) (p_height p) = Credited ↔ p ∈ cr.
Proof.
  intros (Hp & Hh & Hi) Hin. destruct snapshot_facts as (Eo & Et & El & _ & _ & Es & Hk).
  unfold credit_verdict, slim_credit. cbn [cr_overflow cr_credited cr_truncated].
  rewrite Eo. unfold placed_before. cbn [cr_overflow_truncated cr_last]. rewrite El, Hi.
  pose proof Hk as (Hkc & _ & Hco)%keys_ok_app.
  split.
  - case_bool_decide as Hov; [done|]. rewrite bool_decide_eq_false_2 by apply not_elem_of_nil.
    destruct (last cr) as [q|] eqn:Hlast; [|done]. intros Hv.
    assert (Hq : q ∈ cr) by (apply last_Some in Hlast as [l' ->]; apply elem_of_app; right; by left).
    assert (Hqp : placed chain q) by (apply elem_ps_placed, elem_cr_ps, elem_of_app; by left).
    assert (Hle : p_height p < p_height q ∨ (p_height p = p_height q ∧ p_index p <= p_index q)).
    { destruct (Z.ltb_spec (p_height p) (p_height q)); [by left|]. destruct (Z.eqb_spec (p_height p) (p_height q)).
      - destruct (Z.leb_spec (p_index p) (p_index q)); [by right|]. by destruct (cap_overflow_truncated sn).
      - by destruct (cap_overflow_truncated sn). }
    assert (Hd : is_deep tip p).
    { assert (is_deep tip q) by (assert (Hf : q ∈ cr ++ ov) by (apply elem_of_app; by left); rewrite Es in Hf; by apply list_elem_of_filter in Hf as [? _]).
      unfold is_deep, depth, PMINT_CONFIRMATION_DEPTH in *. lia. }
    assert (Hf : p ∈ cr ++ ov) by (rewrite Es; by apply list_elem_of_filter). apply elem_of_app in Hf as [Hf|Hf]; [done|]. exfalso.
    pose proof (place_lt q p ltac:(apply Hqp) ltac:(apply Hp) (Hco q p Hq Hf)) as Hg.
    destruct Hle as [Hle|[Eh Hle]]; [lia|]. assert (E : p_index p = p_index q) by lia.
    apply (cr_not_ov p); [|done]. by rewrite (same_place p q).
  - intros Hc. rewrite bool_decide_eq_false_2; cycle 1.
    { intros Hov%elem_of_take. destruct Hov as (i & Hov & _). apply list_elem_of_lookup_2 in Hov. apply (cr_not_ov p Hc). by apply elem_txids. }
    rewrite bool_decide_eq_false_2 by apply not_elem_of_nil.
    destruct (last cr) as [q|] eqn:Hlast; [|by apply last_None in Hlast; rewrite Hlast in Hc; apply elem_of_nil in Hc].
    assert (Hqp : placed chain q).
    { apply elem_ps_placed, elem_cr_ps, elem_of_app. left. apply last_Some in Hlast as [l' ->]. apply elem_of_app; right; by left. }
    destruct (place_cases p q Hp Hqp) as [->|[Hlt|Hlt]].
    + destruct (Z.ltb_spec (p_height q) (p_height q)); [lia|]. by rewrite Z.eqb_refl, Z.leb_refl.
    + apply place_lt in Hlt; [|apply Hp|apply Hqp]. destruct (Z.ltb_spec (p_height p) (p_height q)); [done|].
      destruct (Z.eqb_spec (p_height p) (p_height q)); [|lia]. destruct (Z.leb_spec (p_index p) (p_index q)); [done|lia].
    + exfalso. by apply (not_after_last cr p q Hkc Hlast Hc).
Qed.
(** a refused mint is not credited, and no room is left *)
Lemma verdict_refused tx p :
  found_at tx p → credit_verdict (slim_credit (Some sn)) tx (p_txid p) (p_height p) = Refused →
  p ∉ cr ∧ length cr = room (pt_cap petch) (pt_limit petch).
Proof.
  intros Hf Hv. destruct snapshot_facts as (Eo & Et & El & _ & _ & Es & Hk). split.
  { intros Hin. assert (Hps : p ∈ ps) by (apply elem_cr_ps, elem_of_app; by left). apply (verdict_credited tx p Hf Hps) in Hin. by rewrite Hin in Hv. }
  apply overflow_full. fold ov. intros E. unfold credit_verdict, slim_credit in Hv. cbn [cr_overflow cr_credited cr_truncated] in Hv. rewrite Eo, E in Hv.
  change (take CAP_OVERFLOW_TXIDS_MAX (map p_txid [])) with (take CAP_OVERFLOW_TXIDS_MAX (@nil bytes)) in Hv.
  rewrite take_nil in Hv. rewrite !bool_decide_eq_false_2 in Hv by apply not_elem_of_nil.
  unfold placed_before in Hv. cbn [cr_overflow_truncated cr_last] in Hv. rewrite Et, E in Hv. cbn [map length] in Hv. rewrite take_nil in Hv.
  cbn in Hv. repeat case_match; done.
Qed.
(** a mint without a key is believed when it comes before the last credited one *)
Lemma verdict_unindexed tx p q :
  found_at tx p → p ∉ ps → last cr = Some q → p_height p < p_height q →
  credit_verdict (slim_credit (Some sn)) tx (p_txid p) (p_height p) = Credited ∧ p ∉ cr.
Proof.
  intros Hf Hn Hl Hlt. destruct snapshot_facts as (Eo & _ & El & _). split; [|intros Hc; apply Hn, elem_cr_ps, elem_of_app; by left].
  unfold credit_verdict, slim_credit. cbn [cr_overflow cr_credited cr_truncated]. rewrite Eo.
  rewrite bool_decide_eq_false_2; cycle 1.
  { intros (i & Hov & _)%elem_of_take. apply list_elem_of_lookup_2 in Hov. apply elem_txids in Hov; [|by apply Hf].
    apply Hn, elem_cr_ps, elem_of_app. by right. }
  rewrite bool_decide_eq_false_2 by apply not_elem_of_nil. unfold placed_before. cbn [cr_last]. rewrite El, Hl.
  by rewrite (proj2 (Z.ltb_lt _ _)).
Qed.
End verdict.

(** ** The handlers *)
Definition valid_state (key : outpoint) (s : vstate) : vstate :=
  VState (<[key := true]> (validatedSet s)) (validatedReasons s) (rpBatch s) (boundOutpointKeys s) (mixer s).

Lemma refuse_false key s : (refuse key s).1 = Ok false.
Proof. done. Qed.
Lemma refuse_with_false key r s : (refuse_with key r s).1 = Ok false.
Proof. done. Qed.

(** *** Fair mints *)
(** the rules a mint meets, whoever credits it *)
Definition mint_rules (key : outpoint) (tx : txn) (payload : bytes) (d : CPmint.t) (etch : CPetch.t) (h : Z) : Prop :=
  vout key = 0 ∧ CPmint.decodeCPmintPayload payload = Ok d ∧
  take 32 (assetIdFor (CPmint.etchTxid d) 0) = take 32 (CPmint.assetId d) ∧
  (∃ etchTx e eh, fetchTx (CPmint.etchTxid d) = Some etchTx ∧ parent_envelope etchTx = Some e ∧ env_opcode e = T_PETCH ∧
     CPetch.decodeCPetchPayload (env_payload e) = Ok etch ∧ tx_height etchTx = Some eh ∧ mint_window etch eh h = true) ∧
  tx_height tx = Some h ∧ CPmint.amount d = CPetch.mintLimit etch ∧
  commits_to (CPmint.amount d) (CPmint.blinding d) (CPmint.commitment d) = true.

Ltac refused E := exfalso; first
  [ done
  | match type of E with refuse ?k ?s = _ => pose proof (refuse_false k s) as Hrf; rewrite E in Hrf; discriminate Hrf end
  | match type of E with refuse_with ?k ?r ?s = _ => pose proof (refuse_with_false k r s) as Hrf; rewrite E in Hrf; discriminate Hrf end ].
Lemma pending_mint_false key tx w s s' : pending_mint key tx w s = (Ok true, s') → False.
Proof.
  unfold pending_mint, _strictUnavailable. destruct (_strictDecided _ _); [done|]. destruct strictValidation; done.
Qed.
Lemma pmint_true key tx payload s s' :
  pmint_handler key tx payload s = (Ok true, s') ↔
  ∃ d etch h c, mint_rules key tx payload d etch h ∧ _fetchPmintCredited (CPmint.assetId d) = Some c ∧
    credit_verdict c tx (txid key) h = Credited ∧ s' = valid_state key s.
Proof.
  unfold pmint_handler, mint_rules. split.
  - intros E. destruct (negb (vout key =? 0)) eqn:Hv; [refused E|]. apply negb_false_iff, Z.eqb_eq in Hv.
    destruct (CPmint.decodeCPmintPayload payload) as [d| | |] eqn:Hd; cbn [decoded] in E; try refused E.
    destruct (negb (bool_decide _)) eqn:Ha in E; [refused E|]. apply negb_false_iff, bool_decide_eq_true in Ha.
    destruct (fetchTx _) as [etchTx|] eqn:Hf; [|refused E]. destruct (parent_envelope etchTx) as [e|] eqn:He; [|refused E].
    destruct (negb (env_opcode e =? T_PETCH)) eqn:Ho; [refused E|]. apply negb_false_iff, Z.eqb_eq in Ho.
    destruct (CPetch.decodeCPetchPayload _) as [etch| | |] eqn:Hp; cbn [decoded] in E; try refused E.
    destruct (negb (_ =? _)) eqn:Hm in E; [refused E|]. apply negb_false_iff, Z.eqb_eq in Hm.
    destruct (tx_height etchTx) as [eh|] eqn:Heh; [|by apply pending_mint_false in E].
    destruct (tx_height tx) as [h|] eqn:Hh; [|by apply pending_mint_false in E].
    destruct (negb (mint_window etch eh h)) eqn:Hw; [refused E|]. apply negb_false_iff in Hw.
    destruct (negb (commits_to _ _ _)) eqn:Hc; [refused E|]. apply negb_false_iff in Hc.
    destruct (_fetchPmintCredited _) as [c|] eqn:Hcr.
    + destruct (credit_verdict c tx (txid key) h) eqn:Hvd; [|refused E|by apply pending_mint_false in E].
      injection E as <-. exists d, etch, h, c. split_and!; try done. by exists etchTx, e, eh.
    + unfold _strictUnavailable in E. destruct strictValidation; [done|]. by apply pending_mint_false in E.
  - intros (d & etch & h & c & (Hv & Hd & Ha & (etchTx & e & eh & Hf & He & Ho & Hp & Heh & Hw) & Hh & Hm & Hc) & Hcr & Hvd & ->).
    rewrite Hv, Hd. cbn [negb Z.eqb decoded]. rewrite bool_decide_eq_true_2 by done. cbn [negb]. rewrite Hf, He, Ho. cbn [negb].
    rewrite Z.eqb_refl. cbn [negb]. rewrite Hp. cbn [decoded]. rewrite Hm, Z.eqb_refl. cbn [negb]. rewrite Heh, Hh, Hw. cbn [negb].
    rewrite <- Hm, Hc. cbn [negb]. by rewrite Hcr, Hvd.
Qed.
Lemma accepted_iff key tx payload d p s :
  CPmint.decodeCPmintPayload payload = Ok d → tx_height tx = Some (p_height p) →
  pmint_handler key tx payload s = (Ok true, valid_state key s) ↔
  (∃ etch, mint_rules key tx payload d etch (p_height p)) ∧
  ∃ c, _fetchPmintCredited (CPmint.assetId d) = Some c ∧ credit_verdict c tx (txid key) (p_height p) = Credited.
Proof.
  intros Hd Hh. rewrite pmint_true. split.
  - intros (d' & etch & h & c & Hr & Hc & Hv & _). pose proof Hr as (_ & Hd' & _ & _ & Hh' & _).
    rewrite Hd in Hd'. injection Hd' as <-. rewrite Hh in Hh'. injection Hh' as <-. split; [by exists etch|by exists c].
  - intros ([etch Hr] & c & Hc & Hv). by exists d, etch, (p_height p), c.
Qed.
End check.
