(* ===== verification/LaunchSound.v ===== *)
(** * Fair mints and drops as services of the validator

    What a fair mint, a claim and a reclaim have shown when they are answered true, down to the
    notes the drop was funded with; and the validator over these branches is sound, each
    drop's funding notes being validated by the validator itself. *)
From Stdlib Require Import Ascii Sorted.
From stdpp Require Import strings pretty.
From S2P Require Import Prelude Bytes Text Crypto EnvelopeScript CodecTransfer CodecIssue CodecPool CodecSlots CodecAmm.
From S2P Require Import Messages Curve Hex Merkle Mixer MixerProof CodecBridge Kernel Notes MixerLeaf Handlers Validator WalkFacts ValidSpec ValidShape ValidSound.
From S2P Require Import BatchGrows LaunchIndex Airdrop LaunchClient LaunchOrder LaunchFacts LaunchSteps LaunchCheck.

Create HintDb launch.

Section sound.
Context `{Hash} {SE : Secp} {CH : Chain} {MC : MixerChain} {LC : LaunchChain} {EK : EthKeys}.

(** ** What they show *)
(** the note behind an input, a note of [asset] *)
Definition input_note (asset : bytes) (k : outpoint) (P : point) : Prop :=
  ∃ parent e pd, fetchTx (txid k) = Some parent ∧ _txOutputEnvelope parent = Some e ∧ getParentEnvelopeData e k = Some pd ∧
    pd.1 = asset ∧ bytesToPoint pd.2 = Ok P.
(** the drop's transaction spends notes of its asset, and their excess over the cap
    signs its terms *)
Definition funded (dropTx : txn) (d : drop_terms_of) : Prop :=
  1 + do_inputs d <= Z.of_nat (length (tx_vin dropTx)) ∧
  ∃ Ps capH msg, let E := add (foldl add ZERO Ps) (negate capH) in
    Forall2 (input_note (do_asset d)) (funding_inputs dropTx (do_inputs d)) Ps ∧ safeMult H (do_cap d) = Ok capH ∧ E ≠ ZERO ∧
    dropKernelMsg (DropTerms (do_asset d) (do_cap d) (do_per d) (do_root d) (do_expiry d) (do_inputs d))
      (funding_inputs dropTx (do_inputs d)) = Ok msg ∧
    verifySchnorr (do_sig d) msg (xonly E) = Ok true.

Definition mint_shown (key : outpoint) (tx : txn) (payload : bytes) : Prop :=
  ∃ d etch h c, mint_rules key tx payload d etch h ∧ _fetchPmintCredited (CPmint.assetId d) = Some c ∧
    credit_verdict c tx (txid key) h = Credited.
Definition claim_shown (key : outpoint) (tx : txn) (payload : bytes) (c : CDClaim.t) (dropTx : txn) (d : drop_terms_of) : Prop :=
  vout key = 0 ∧ CDClaim.decodeCDClaimPayload payload = Ok c ∧ fetchTx (CDClaim.dropRevealTxid c) = Some dropTx ∧
  drop_of_tx dropTx = Some d ∧ take 32 (CDClaim.assetId c) = take 32 (do_asset d) ∧ CDClaim.amount c = do_per d ∧
  commits_to (CDClaim.amount c) (CDClaim.blinding c) (CDClaim.commitment c) = true ∧
  eligible_claim tx d (CDClaim.claim_witness c) = true ∧ funded dropTx d ∧
  ∃ cr, _fetchDclaimCredited (dropIdFromRevealTxid (CDClaim.dropRevealTxid c)) = Some cr ∧ dc_truncated cr = false ∧
    txid key ∈ dc_credited cr.
Definition reclaim_shown (key : outpoint) (tx : txn) (env : envelope) (asset : bytes) (cap : Z) (id sig : bytes) (m : drop_served)
    (dropTx : txn) (d : drop_terms_of) : Prop :=
  dropMeta id = Some m ∧ asset = dr_asset (ds_record m) ∧ dr_expiry (ds_record m) ≠ 0 ∧
  (∃ h, tx_height tx = Some h ∧ dr_expiry (ds_record m) < h) ∧
  list_complete (ds_progress m) = true ∧ _strictDecided (pr_scanned (ds_progress m)) (Some (dr_expiry (ds_record m))) = true ∧
  cap = dr_cap (ds_record m) - claim_count (ds_progress m) * dr_per (ds_record m) ∧ 0 < cap ∧
  fetchTx (dr_txid (ds_record m)) = Some dropTx ∧ ds_reclaimed m = Some (txid key) ∧ drop_of_tx dropTx = Some d ∧ funded dropTx d ∧
  (∃ v pub msg, tx_vin dropTx !! 1%nat = Some v ∧ in_witness v !! 1%nat = Some pub ∧ blen pub = 33 ∧
     dropReclaimMsg id asset cap = Ok msg ∧ verifySchnorr sig msg (drop 1 pub) = Ok true ∧ signingPubXonly env = drop 1 pub).

Inductive creditable (svc : outpoint → Prop) : outpoint → Prop :=
| creditable_other k : svc k → creditable svc k
| creditable_mint k tx e :
    fetchTx (txid k) = Some tx → _txOutputEnvelope tx = Some e → mint_shown k tx (env_payload e) → creditable svc k
| creditable_claim k tx e c dropTx d :
    fetchTx (txid k) = Some tx → _txOutputEnvelope tx = Some e → claim_shown k tx (env_payload e) c dropTx d →
    (∀ i, i ∈ funding_inputs dropTx (do_inputs d) → valid (creditable svc) i) → creditable svc k
| creditable_reclaim k tx e asset cap id sig bl m dropTx d :
    fetchTx (txid k) = Some tx → _txOutputEnvelope tx = Some e → vout k = 0 →
    CDrop.decodeCDropPayload (env_payload e) = Ok (CDrop.Reclaim asset cap id sig bl) →
    reclaim_shown k tx e asset cap id sig m dropTx d →
    (∀ i, i ∈ funding_inputs dropTx (do_inputs d) → valid (creditable svc) i) → creditable svc k.

(** ** The handlers keep to it *)
Variable svc : outpoint → Prop.
(** what is asked of the validation of a funding note *)
Class ValidateLaws (validate : outpoint → V bool) : Prop := {
  validate_grows k : grows (validate k);
  validate_sound k s : 0 <= vout k → sound svc s →
    sound svc (validate k s).2 ∧ ((validate k s).1 = Ok true → batch_ok (validate k s).2 → valid svc k) }.

Section validate.
Variable validate : outpoint → V bool.
Context `{!ValidateLaws validate}.

Lemma funding_excess_grows asset ins P : grows (funding_excess validate asset ins P).
Proof.
  revert P. induction ins as [|k ins IH]; intros P; cbn [funding_excess]; [apply grows_ret|].
  apply grows_bind; [apply validate_grows|]. grow.
Qed.
Lemma funding_excess_sound asset ins P s r s' :
  (∀ k, k ∈ ins → 0 <= vout k) → sound svc s → funding_excess validate asset ins P s = (r, s') →
  sound svc s' ∧
  ∀ E, r = Ok (inr E) →
    (∃ Ps, Forall2 (input_note asset) ins Ps ∧ E = foldl add P Ps) ∧ (batch_ok s' → ∀ k, k ∈ ins → valid svc k).
Proof.
  revert P s. induction ins as [|k ins IH]; intros P s Hv Hs; cbn [funding_excess].
  { intros [= <- <-]. split; [done|]. intros E [= <-]. split; [exists []; by split|]. by intros _ k ?%elem_of_nil. }
  destruct (validate_sound k s ltac:(apply Hv; by left) Hs) as [Hs1 Hk]. unfold mbind at 1, V_bind at 1.
  destruct (validate k s) as [[ok| | |] s1]; cbn [fst snd] in *; try (by intros [= <- <-]).
  unfold mbind at 1, V_bind at 1, get. destruct ok; cbn [negb]; [|by intros [= <- <-]].
  destruct (fetchTx (txid k)) as [parent|] eqn:Hf; [|by intros [= <- <-]].
  destruct (_txOutputEnvelope parent) as [e|] eqn:He; cbn [mbind option_bind]; [|by intros [= <- <-]].
  destruct (getParentEnvelopeData e k) as [pd|] eqn:Hd; [|by intros [= <- <-]].
  destruct (bool_decide (pd.1 = asset)) eqn:Ha; cbn [negb]; [|by intros [= <- <-]]. apply bool_decide_eq_true in Ha.
  destruct (bytesToPoint pd.2) as [Q| | |] eqn:HQ; try (by intros [= <- <-]).
  intros E0. destruct (IH (add P Q) s1 (λ j Hj, Hv j (list_elem_of_further _ _ _ Hj)) Hs1 E0) as [Hs2 HE]. split; [done|].
  intros E ->. destruct (HE E eq_refl) as ((Ps & HPs & ->) & Hval). split.
  - exists (Q :: Ps). split; [|done]. constructor; [|done]. by exists parent, e, pd.
  - intros Hb j [->|Hj]%elem_of_cons; [|by apply Hval]. apply Hk; [done|].
    eapply extends_batch_ok; [|exact Hb]. pose proof (funding_excess_grows asset ins (add P Q) s1) as Hg. by rewrite E0 in Hg.
Qed.
Lemma fundingFailure_grows dropTx d : grows (fundingFailure validate dropTx d).
Proof.
  unfold fundingFailure, _dropFundingFailure. grow. apply funding_excess_grows.
Qed.
Lemma fundingFailure_sound dropTx d s r s' :
  (∀ k, k ∈ funding_inputs dropTx (do_inputs d) → 0 <= vout k) → sound svc s → fundingFailure validate dropTx d s = (r, s') →
  sound svc s' ∧
  (r = Ok None → funded dropTx d ∧ (batch_ok s' → ∀ k, k ∈ funding_inputs dropTx (do_inputs d) → valid svc k)).
Proof.
  intros Hv Hs. unfold fundingFailure, _dropFundingFailure.
  destruct (Z.ltb_spec (Z.of_nat (length (tx_vin dropTx))) (1 + do_inputs d)) as [_|Hlen]; [by intros [= <- <-]|]. cbv zeta.
  unfold mbind at 1, V_bind at 1. destruct (funding_excess _ _ _ _ _) as [r1 s1] eqn:E1.
  destruct (funding_excess_sound _ _ _ _ _ _ Hv Hs E1) as [Hs1 HE].
  destruct r1 as [[r1|E]| | |]; try (by intros [= <- <-]).
  destruct (safeMult H (do_cap d)) as [capH| | |] eqn:Hc; try (by intros [= <- <-]). unfold equals. case_bool_decide as Hz; [by intros [= <- <-]|].
  unfold mbind at 1, V_bind at 1, lift at 1. destruct (dropKernelMsg _ _) as [msg| | |] eqn:Hm; try (by intros [= <- <-]).
  unfold mbind, V_bind, lift. destruct (verifySchnorr _ _ _) as [[]| | |] eqn:Hg; try (by intros [= <- <-]).
  intros [= <- <-]. destruct (HE E eq_refl) as ((Ps & HPs & ->) & Hval). split; [done|]. intros _. split; [|exact Hval].
  split; [lia|]. exists Ps, capH, msg. done.
Qed.

(** *** Answers other than true *)
Definition quiet (m : V bool) : Prop := ∀ s, sound svc s → (m s).1 ≠ Ok true → sound svc (m s).2.
Lemma quiet_keeps m : keeps svc m → quiet m.
Proof. intros Hm s Hs _. by apply Hm. Qed.
Lemma quiet_accept key : quiet (set_valid key true;; mret true).
Proof. by intros s _ []. Qed.
Lemma quiet_then {A} (m : V A) (k : A → V bool) : keeps svc m → (∀ a, quiet (k a)) → quiet (m ≫= k).
Proof.
  intros Hm Hk s Hs. specialize (Hm s Hs). unfold mbind, V_bind. destruct (m s) as [[a| | |] s']; cbn [fst snd] in *; try done. by apply Hk.
Qed.
Lemma keeps_strict msg : keeps svc (_strictUnavailable msg).
Proof. unfold _strictUnavailable. destruct strictValidation; [apply keeps_lift|apply keeps_ret]. Qed.
Lemma quiet_refuse key : quiet (refuse key).
Proof. apply quiet_keeps, keeps_refuses, refuse_refuses. Qed.
Lemma quiet_refuse_with key r : quiet (refuse_with key r).
Proof. apply quiet_keeps, keeps_refuses, refuse_with_refuses. Qed.
Lemma quiet_false : quiet (mret false).
Proof. apply quiet_keeps, keeps_ret. Qed.
Hint Resolve quiet_accept quiet_refuse quiet_refuse_with quiet_false keeps_strict keeps_ret keeps_lift : launch.
Ltac quietly :=
  lazymatch goal with
  | |- forall _, _ => let x := fresh "x" in intros x; quietly
  | |- quiet (let _ := _ in _) => cbv zeta; quietly
  | |- quiet (match ?x with _ => _ end) => destruct x; quietly
  | |- keeps _ (match ?x with _ => _ end) => destruct x; quietly
  | |- quiet (_ ≫= _) => first [solve [apply quiet_accept] | apply quiet_then; [quietly|quietly]]
  | |- _ => auto with launch nocore
  end.

Lemma pmint_quiet key tx payload : quiet (pmint_handler key tx payload).
Proof. unfold pmint_handler, pending_mint. quietly. Qed.
Lemma quiet_true_keeps m : quiet m → (∀ s s', sound svc s → m s = (Ok true, s') → sound svc s') → keeps svc m.
Proof.
  intros Hq Ht s Hs. pose proof (Hq s Hs) as Hq'. pose proof (λ s', Ht s s' Hs) as Ht'.
  destruct (m s) as [[[]| | |] s']; cbn [fst snd] in *; first [by apply Ht' | by apply Hq'].
Qed.
Lemma pmint_sound key tx payload : (mint_shown key tx payload → svc key) → keeps svc (pmint_handler key tx payload).
Proof.
  intros Hk. apply quiet_true_keeps; [apply pmint_quiet|]. intros s s' Hs E.
  apply pmint_true in E as (d & etch & h & c & Hr & Hc & Hv & ->). apply (keeps_set_true svc key s Hs).
  intros _. apply valid_service, Hk. by exists d, etch, h, c.
Qed.

(** *** Claims *)
Hypothesis fetched_vouts : ∀ t tx i, fetchTx t = Some tx → i ∈ prevs (tx_vin tx) → 0 <= vout i.
Lemma funding_vouts t dropTx n k : fetchTx t = Some dropTx → k ∈ funding_inputs dropTx n → 0 <= vout k.
Proof.
  intros Hf (j & Hk & _)%elem_of_take. apply (fetched_vouts t dropTx); [done|]. apply list_elem_of_lookup_2 in Hk.
  unfold prevs in *. apply list_elem_of_fmap in Hk as (i & -> & Hi). apply list_elem_of_fmap_2.
  rewrite <- (take_drop 1 (tx_vin dropTx)). apply elem_of_app. by right.
Qed.
Lemma keeps_funding t dropTx d : fetchTx t = Some dropTx → keeps svc (fundingFailure validate dropTx d).
Proof.
  intros Hf s Hs. destruct (fundingFailure validate dropTx d s) as [r s'] eqn:E.
  by destruct (fundingFailure_sound dropTx d s r s' (λ k, funding_vouts t dropTx _ k Hf) Hs E).
Qed.
Lemma bind_inv {A B} (m : V A) (k : A → V B) s b s' :
  (m ≫= k) s = (Ok b, s') → ∃ a s1, m s = (Ok a, s1) ∧ k a s1 = (Ok b, s').
Proof. unfold mbind, V_bind. destruct (m s) as [[a| | |] s1]; intros E; try discriminate E. by exists a, s1. Qed.
Lemma refuse_true key s s' : refuse key s = (Ok true, s') → False.
Proof. done. Qed.
Lemma refuse_with_true key r s s' : refuse_with key r s = (Ok true, s') → False.
Proof. done. Qed.
Lemma strict_true msg (m : V bool) s s' : (_strictUnavailable msg;; m) s = (Ok true, s') → m s = (Ok true, s').
Proof. unfold _strictUnavailable. destruct strictValidation; done. Qed.
Ltac not_true E := exfalso; first [done | by apply refuse_true in E | by apply refuse_with_true in E | by apply strict_true, refuse_with_true in E | by apply strict_true in E].

Lemma dclaim_true key tx payload s s' :
  sound svc s → dclaim_handler validate key tx payload s = (Ok true, s') →
  ∃ c dropTx d s1, claim_shown key tx payload c dropTx d ∧ sound svc s1 ∧ s' = valid_state key s1 ∧
    (batch_ok s1 → ∀ k, k ∈ funding_inputs dropTx (do_inputs d) → valid svc k).
Proof.
  intros Hs E. unfold dclaim_handler in E.
  destruct (negb (vout key =? 0)) eqn:Hv; [not_true E|]. apply negb_false_iff, Z.eqb_eq in Hv.
  destruct (CDClaim.decodeCDClaimPayload payload) as [c| | |] eqn:Hd; cbn [decoded] in E; try not_true E.
  destruct (fetchTx _) as [dropTx|] eqn:Hf; [|not_true E]. destruct (_ <? 3)%nat; [not_true E|].
  destruct (drop_of_tx dropTx) as [d|] eqn:Hdr; [|not_true E].
  destruct (negb (bool_decide _)) eqn:Ha in E; [not_true E|]. apply negb_false_iff, bool_decide_eq_true in Ha.
  destruct (negb (_ =? _)) eqn:Hm in E; [not_true E|]. apply negb_false_iff, Z.eqb_eq in Hm.
  destruct (negb (commits_to _ _ _)) eqn:Hc; [not_true E|]. apply negb_false_iff in Hc.
  destruct (negb (eligible_claim _ _ _)) eqn:He; [not_true E|]. apply negb_false_iff in He.
  apply bind_inv in E as (f & s1 & Ef & E). destruct f as [r|]; [not_true E|]. cbv zeta in E.
  destruct (fundingFailure_sound dropTx d s _ s1 (λ k, funding_vouts _ dropTx _ k Hf) Hs Ef) as [Hs1 Hfund].
  destruct (Hfund eq_refl) as [Hfu Hval].
  destruct (_fetchDclaimCredited _) as [cr|] eqn:Hcr; [|not_true E]. destruct (dc_truncated cr) eqn:Ht; [not_true E|].
  case_bool_decide as Hin.
  - exists c, dropTx, d, s1. split; [|by injection E as <-]. split_and!; try done. by exists cr.
  - exfalso. destruct (_strictDecided _ _); [by apply bind_inv in E as (? & ? & [= <- <-] & E)|by apply strict_true in E].
Qed.
Lemma dclaim_quiet key tx payload : quiet (dclaim_handler validate key tx payload).
Proof.
  unfold dclaim_handler. destruct (negb _); [quietly|]. destruct (decoded _) as [c|]; [|quietly].
  destruct (fetchTx _) as [dropTx|] eqn:Hf; [|quietly]. destruct (_ <? _)%nat; [quietly|].
  destruct (drop_of_tx dropTx) as [d|]; [|quietly]. repeat (destruct (negb _); [quietly|]).
  apply quiet_then; [by eapply keeps_funding|]. quietly.
Qed.

(** *** Reclaims *)
Lemma keeps_signed dropTx env id asset cap sig : keeps svc (reclaim_signed dropTx env id asset cap sig).
Proof.
  unfold reclaim_signed. quietly. apply keeps_bind; [apply keeps_lift|]. intros. apply keeps_ret.
Qed.
Lemma reclaim_quiet key tx env asset cap id sig : quiet (reclaim_handler validate key tx env asset cap id sig).
Proof.
  unfold reclaim_handler. destruct (dropMeta id) as [m|]; [|quietly]. cbv zeta. destruct (negb _); [quietly|].
  destruct (_ =? 0); [quietly|]. destruct (_ || _); [quietly|]. destruct (negb _); [quietly|]. destruct (negb _); [quietly|].
  destruct (_ <=? 0); [quietly|]. destruct (fetchTx _) as [dropTx|] eqn:Hf; [|quietly].
  apply quiet_then; [apply keeps_signed|]. intros [[]|]; [|quietly..]. destruct (ds_reclaimed m); [|quietly].
  destruct (negb _); [quietly|]. destruct (drop_of_tx dropTx) as [d|]; [|quietly].
  apply quiet_then; [by eapply keeps_funding|]. quietly.
Qed.
Lemma signed_true dropTx env id asset cap sig s s' :
  reclaim_signed dropTx env id asset cap sig s = (Ok (Some true), s') →
  s' = s ∧ ∃ v pub msg, tx_vin dropTx !! 1%nat = Some v ∧ in_witness v !! 1%nat = Some pub ∧ blen pub = 33 ∧
    dropReclaimMsg id asset cap = Ok msg ∧ verifySchnorr sig msg (drop 1 pub) = Ok true ∧ signingPubXonly env = drop 1 pub.
Proof.
  unfold reclaim_signed. destruct (tx_vin dropTx !! 1%nat) as [v|] eqn:Hv; cbn [mbind option_bind]; [|done].
  destruct (in_witness v !! 1%nat) as [pub|] eqn:Hp; [|done]. destruct (Z.eqb_spec (blen pub) 33); cbn [negb]; [|done].
  cbv zeta. destruct (dropReclaimMsg id asset cap) as [msg| | |] eqn:Hm; try done.
  unfold mbind, V_bind, lift. destruct (verifySchnorr _ _ _) as [[]| | |] eqn:Hs; try done. cbn [andb].
  case_bool_decide as Hk; [|done]. intros [= <-]. split; [done|]. exists v, pub, msg. done.
Qed.
Lemma reclaim_true key tx env asset cap id sig s s' :
  sound svc s → reclaim_handler validate key tx env asset cap id sig s = (Ok true, s') →
  ∃ m dropTx d s1, reclaim_shown key tx env asset cap id sig m dropTx d ∧ sound svc s1 ∧ s' = valid_state key s1 ∧
    (batch_ok s1 → ∀ k, k ∈ funding_inputs dropTx (do_inputs d) → valid svc k).
Proof.
  intros Hs E. unfold reclaim_handler in E. destruct (dropMeta id) as [m|] eqn:Hme; [|not_true E]. cbv zeta in E.
  destruct (negb (bool_decide _)) eqn:Ha in E; [not_true E|]. apply negb_false_iff, bool_decide_eq_true in Ha.
  destruct (Z.eqb_spec (dr_expiry (ds_record m)) 0) as [|Hx]; [not_true E|].
  destruct (_ || _) eqn:Hh in E; [not_true E|]. apply orb_false_iff in Hh as [Hh1%Z.eqb_neq Hh2%Z.leb_gt].
  destruct (negb _) eqn:Hd in E; [by apply strict_true in E|]. apply negb_false_iff, andb_true_iff in Hd as [Hd1 Hd2].
  destruct (negb _) eqn:Hr in E; [not_true E|]. apply negb_false_iff, Z.eqb_eq in Hr.
  destruct (Z.leb_spec cap 0) as [|Hc]; [not_true E|].
  destruct (fetchTx _) as [dropTx|] eqn:Hf; [|not_true E].
  apply bind_inv in E as (sg & s1 & Eg & E). destruct sg as [[]|]; [|not_true E..].
  apply signed_true in Eg as [-> Hsig].
  destruct (ds_reclaimed m) as [first|] eqn:Hfr; [|by apply strict_true in E].
  destruct (negb (bool_decide _)) eqn:Hfi in E; [not_true E|]. apply negb_false_iff, bool_decide_eq_true in Hfi.
  destruct (drop_of_tx dropTx) as [d|] eqn:Hdr; [|not_true E].
  apply bind_inv in E as (f & s2 & Ef & E). destruct f as [r|]; [not_true E|].
  destruct (fundingFailure_sound dropTx d s _ s2 (λ k, funding_vouts _ dropTx _ k Hf) Hs Ef) as [Hs2 Hfund].
  destruct (Hfund eq_refl) as [Hfu Hval].
  exists m, dropTx, d, s2. split; [|by injection E as <-]. subst first.
  assert (Hht : ∃ h, tx_height tx = Some h ∧ dr_expiry (ds_record m) < h).
  { destruct (tx_height tx) as [h|]; cbn [default] in *; [by exists h|done]. }
  unfold reclaim_shown. split_and!; done.
Qed.
End validate.
End sound.

(** ** The services *)
Section services.
Context `{Hash} {SE : Secp} {CH : Chain} {MC : MixerChain} {LC : LaunchChain} {EK : EthKeys} `{!ChainLaws}.
Variable svc : outpoint → Prop.
Notation launched := (creditable svc).

Lemma launches_laws (validate : outpoint → V bool) (rest : Service) `{!ValidateLaws launched validate} :
  @ServiceLaws _ _ _ rest launched → @ServiceLaws _ _ _ (with_launches validate rest) launched.
Proof.
  intros Hrest key tx e Hf He. unfold service, with_launches. destruct (_ =? T_PMINT).
  { apply pmint_sound. by eapply creditable_mint. }
  destruct (_ =? T_DROP).
  { unfold drop_handler. destruct (negb (vout key =? 0)) eqn:Hv; [apply keeps_refuses, refuse_refuses|]. apply negb_false_iff, Z.eqb_eq in Hv.
    destruct (CDrop.decodeCDropPayload (env_payload e)) as [[|a c id sig bl]| | |] eqn:Hd; cbn [decoded]; try (apply keeps_refuses, refuse_refuses).
    apply quiet_true_keeps; [by apply reclaim_quiet|]. intros s s' Hs E.
    destruct (reclaim_true launched validate fetch_vout key tx e a c id sig s s' Hs E) as (m & dropTx & d & s1 & Hshown & Hs1 & -> & Hval).
    apply (keeps_set_true launched key s1 Hs1). intros Hb. apply valid_service.
    eapply creditable_reclaim; [exact Hf|exact He|exact Hv|exact Hd|exact Hshown|by apply Hval]. }
  destruct (_ =? T_DCLAIM); [|by apply Hrest].
  apply quiet_true_keeps; [by apply dclaim_quiet|]. intros s s' Hs E.
  destruct (dclaim_true launched validate fetch_vout key tx (env_payload e) s s' Hs E) as (c & dropTx & d & s1 & Hshown & Hs1 & -> & Hval).
  apply (keeps_set_true launched key s1 Hs1). intros Hb. apply valid_service.
  eapply creditable_claim; [exact Hf|exact He|exact Hshown|by apply Hval].
Qed.

Lemma grows_signed dropTx env id asset cap sig : grows (reclaim_signed dropTx env id asset cap sig).
Proof. unfold reclaim_signed. grow. Qed.
Hint Resolve fundingFailure_grows grows_signed : grows.
Lemma launches_grow (validate : outpoint → V bool) (rest : Service) `{!ValidateLaws launched validate} key tx e :
  (∀ key tx e, grows (rest key tx e)) → grows (with_launches validate rest key tx e).
Proof.
  intros Hr. unfold with_launches, pmint_handler, pending_mint, drop_handler, reclaim_handler, dclaim_handler. grow.
  all: by apply (fundingFailure_grows launched).
Qed.

Context (rest : Service) `{!ServiceLaws (SV := rest) launched}.
Hypothesis rest_grows : ∀ key tx e, grows (rest key tx e).
(** a validator over a sound service that only queues may validate the funding notes *)
Lemma validate_over_laws sv fuel :
  @ServiceLaws _ _ _ sv launched → (∀ key tx e, grows (sv key tx e)) → ValidateLaws launched (validate_over sv fuel).
Proof.
  intros Hsv Hg. split.
  - intros k s. unfold validate_over. destruct (validateOutpoint fuel k s) as [[r s']|] eqn:E; [|done].
    by eapply (validateOutpoint_grows (SV := sv)).
  - intros k s Hv Hs. unfold validate_over. destruct (validateOutpoint fuel k s) as [[r s']|] eqn:E; [|by split].
    by apply (validateOutpoint_sound (SV := sv) launched fuel k s r s').
Qed.
Lemma depth_laws : ValidateLaws launched (λ k, lift (Throw "depth")).
Proof. split; [intros k; apply grows_lift|by intros]. Qed.
Lemma launch_services_laws n fuel :
  @ServiceLaws _ _ _ (launch_services n fuel rest) launched ∧ ∀ key tx e, grows (launch_services n fuel rest key tx e).
Proof.
  pose proof depth_laws. induction n as [|n [IHl IHg]]; cbn [launch_services].
  - split; [by apply launches_laws|]. intros. by apply launches_grow.
  - pose proof (validate_over_laws (launch_services n fuel rest) fuel IHl IHg). split; [by apply launches_laws|]. intros. by apply launches_grow.
Qed.
Lemma launches_sound n fuel root s r s' :
  0 <= vout root → sound launched s → validateOutpoint (SV := launch_services n fuel rest) fuel root s = Some (r, s') →
  sound launched s' ∧ (r = Ok true → batch_ok s' → valid launched root).
Proof.
  intros Hv Hs E. destruct (launch_services_laws n fuel) as [Hl _].
  exact (validateOutpoint_sound (SV := launch_services n fuel rest) launched fuel root s r s' Hv Hs E).
Qed.
End services.
