(* ===== verification/LaunchDrops.v ===== *)
(** * Drops from scan to reclaim

    Over the indexer's records of a drop: after the expiry is scanned, the claims no
    longer change, the progress the indexer serves is what it credits, and an accepted
    reclaim is what the claims left.  And the indexer keys a fair mint exactly when it
    meets the client's rules. *)
From Stdlib Require Import Ascii Sorted.
From stdpp Require Import strings pretty.
From S2P Require Import Prelude Bytes Text Crypto EnvelopeScript CodecTransfer CodecIssue CodecPool CodecSlots CodecAmm.
From S2P Require Import Messages Curve Hex Merkle Mixer MixerProof CodecBridge Kernel Notes MixerLeaf Handlers Validator WalkFacts ValidSpec ValidShape ValidSound.
From S2P Require Import LaunchIndex Airdrop AirdropText LaunchClient LaunchOrder LaunchFacts LaunchSteps LaunchCheck BatchGrows LaunchSound.

Section drops.
Context `{Hash} {SE : Secp} {CH : Chain} {MC : MixerChain} {LC : LaunchChain} {EK : EthKeys}.
Variable chain : Z → list bytes.
Hypothesis small : small_blocks chain.

(** ** Reachable records *)
Lemma reach_inv f ix f' ix' :
  launch_inv chain ix → rtc (launch_tick chain) (f, ix) (f', ix') →
  launch_inv chain ix' ∧ f <= f' ∧ ∃ g, f <= g ∧ rtc (put_from chain f) ix ix'.
Proof.
  intros Hi Hr. remember (f, ix) as a eqn:Ea. remember (f', ix') as b eqn:Eb. revert f ix f' ix' Ea Eb Hi.
  induction Hr as [x|x [g iy] z Hs Hr IH]; intros f ix f' ix' -> Eb Hi.
  - injection Eb as -> ->. split; [done|]. split; [lia|]. exists f'. split; [lia|apply rtc_refl].
  - destruct (tick_puts chain f ix g iy small Hs) as (Hf & _ & Hp).
    destruct (IH g iy f' ix' eq_refl Eb (puts_inv chain f _ _ Hi Hp)) as (Hi' & Hf' & _ & _ & Hp').
    split; [done|]. split; [lia|]. exists g. split; [done|]. etrans; [exact Hp|].
    eapply rtc_subrel; [|exact Hp']. intros x y (h & Hh & Hw). exists h. split; [lia|done].
Qed.
Lemma from_start f ix : rtc (launch_tick chain) (1, empty_index) (f, ix) → launch_inv chain ix ∧ 1 <= f.
Proof. intros Hr. destruct (reach_inv 1 empty_index f ix (inv_empty chain) Hr) as (Hi & Hf & _). done. Qed.

(** ** Credits of later scans *)
(** what is deep enough at a tip the scan has nearly reached is in its past *)
Lemma eligible_below tip f ps : keys_ok ps → tip <= f + 1 → eligible tip ps = eligible tip (below f ps).
Proof.
  intros Hk Ht. unfold eligible. rewrite (below_split chain f ps Hk) at 1. rewrite filter_app, (filter_none _ (filter _ ps)).
  - by rewrite app_nil_r.
  - intros p [Hp _]%list_elem_of_filter. unfold is_deep, depth, PMINT_CONFIRMATION_DEPTH. lia.
Qed.
Lemma credits_grow f ix f' ix' aid tip tip' cap limit :
  launch_inv chain ix → rtc (launch_tick chain) (f, ix) (f', ix') → tip <= tip' → tip <= f + 1 →
  credit_list tip cap limit (keys_at aid (pmints ix)) `prefix_of` credit_list tip' cap limit (keys_at aid (pmints ix')).
Proof.
  intros Hi Hr Ht Hf. destruct (reach_inv f ix f' ix' Hi Hr) as (Hi' & _ & _ & _ & Hp).
  destruct (puts_earlier chain f ix ix' Hi Hp) as [Hbel _]. specialize (Hbel aid). destruct Hi as (Hk & _). destruct Hi' as (Hk' & _).
  pose proof (proj1 (Hk aid)) as Hok. pose proof (proj1 (Hk' aid)) as Hok'.
  assert (E : credit_list tip cap limit (keys_at aid (pmints ix)) = credit_list tip cap limit (below f (keys_at aid (pmints ix)))).
  { unfold credit_list. by rewrite (eligible_below tip f). }
  pose proof (below_split chain f _ Hok') as Hs. rewrite Hbel in Hs. rewrite E. rewrite Hs in Hok' |- *. by apply credit_grows.
Qed.
(** a full list of credits is the final one *)
Lemma credits_final f ix f' ix' aid tip tip' cap limit :
  launch_inv chain ix → rtc (launch_tick chain) (f, ix) (f', ix') → tip <= tip' → tip <= f + 1 →
  length (credit_list tip cap limit (keys_at aid (pmints ix))) = room cap limit →
  credit_list tip' cap limit (keys_at aid (pmints ix')) = credit_list tip cap limit (keys_at aid (pmints ix)).
Proof.
  intros Hi Hr Ht Hf Hfull. destruct (credits_grow f ix f' ix' aid tip tip' cap limit Hi Hr Ht Hf) as [more E].
  assert (more = []) as ->; [|by rewrite E, app_nil_r]. apply length_zero_iff_nil.
  pose proof (f_equal length E) as El. rewrite length_app in El. unfold credit_list in El, Hfull. rewrite length_take in El. lia.
Qed.

(** a credit list is in the chain's order, of deep keys at their places *)
Lemma sorted_impl {A} (R S : A → A → Prop) l :
  (∀ x y, x ∈ l → y ∈ l → R x y → S x y) → StronglySorted R l → StronglySorted S l.
Proof.
  induction 2 as [|x l Hl IH Hx]; constructor; [apply IH; intros; eapply H; try done; by right|].
  apply Forall_forall. intros y Hy. rewrite Forall_forall in Hx. apply H; [by left|by right|by apply Hx].
Qed.
Lemma credits_in_order tip cap limit ps :
  keys_inv chain ps →
  StronglySorted (λ p q, chain_compare p q = Lt) (credit_list tip cap limit ps) ∧
  Forall (λ p, placed chain p ∧ is_deep tip p) (credit_list tip cap limit ps).
Proof.
  intros [Hok Hpl].
  assert (Hall : Forall (λ p, placed chain p ∧ is_deep tip p) (credit_list tip cap limit ps)).
  { apply Forall_forall. intros p (i & Hp & _)%elem_of_take. apply list_elem_of_lookup_2, firsts_sub, list_elem_of_filter in Hp as [Hd Hp].
    rewrite Forall_forall in Hpl. split; [by apply Hpl|done]. }
  split; [|exact Hall]. pose proof (eligible_sorted tip ps Hok) as He. rewrite <- (credit_overflow tip cap limit ps) in He.
  apply keys_ok_app in He as ((_ & Hs) & _ & _). eapply sorted_impl; [|exact Hs].
  rewrite Forall_forall in Hall. intros p q Hp Hq. unfold key_lt. by rewrite key_order by (by apply Hall).
Qed.

(** ** Claims of a drop whose expiry is scanned *)
Section one_drop.
Variables (f1 : Z) (ix1 : index) (f2 : Z) (ix2 : index) (id : bytes) (d : drop_rec).
Hypothesis reached : rtc (launch_tick chain) (1, empty_index) (f1, ix1).
Hypothesis later : rtc (launch_tick chain) (f1, ix1) (f2, ix2).
Hypothesis known : drops ix1 !! id = Some d.
Hypothesis only : ∀ t, t ≠ dr_txid d → is_Some (fetchTx t) → dropIdFromRevealTxid t ≠ id.
Hypothesis expires : dr_expiry d ≠ 0.

Lemma claims_before_expiry ix : launch_inv chain ix → Forall (λ p, p_height p <= dr_expiry d) (keys_at id (dclaims ix)).
Proof.
  intros (_ & Hdc & _). destruct (Hdc id) as [_ Hc]. eapply Forall_impl; [exact Hc|]. intros p (d' & Hd' & Hx).
  destruct (from_start f1 ix1 reached) as [(_ & _ & Hdr & _) _].
  destruct (same_drop id d d' only (Hdr id d known) Hd') as (_ & _ & E & _). rewrite E in Hx. by destruct Hx.
Qed.
Lemma claims_settled : dr_expiry d < f1 → keys_at id (dclaims ix2) = keys_at id (dclaims ix1).
Proof.
  intros Hx. destruct (from_start f1 ix1 reached) as [Hi1 _]. destruct (reach_inv f1 ix1 f2 ix2 Hi1 later) as (Hi2 & _ & _ & _ & Hp).
  destruct (puts_earlier chain f1 ix1 ix2 Hi1 Hp) as [_ Hb]. specialize (Hb id).
  assert (E : ∀ ix, launch_inv chain ix → below f1 (keys_at id (dclaims ix)) = keys_at id (dclaims ix)).
  { intros ix Hi. pose proof (claims_before_expiry ix Hi) as Hall. unfold below. clear -Hall Hx.
    induction Hall as [|p l Hp _ IH]; [done|]. rewrite filter_cons, decide_True by lia. by rewrite IH. }
  by rewrite (E ix1 Hi1), (E ix2 Hi2) in Hb.
Qed.
Lemma all_deep tip ps : dr_expiry d + 2 <= tip → Forall (λ p, p_height p <= dr_expiry d) ps → filter (is_deep tip) ps = ps.
Proof.
  intros Ht Hps. induction Hps as [|p l Hp _ IH]; [done|]. rewrite filter_cons, decide_True; [by rewrite IH|].
  unfold is_deep, depth, PMINT_CONFIRMATION_DEPTH. lia.
Qed.
Lemma drop_positive : 0 < dr_per d /\ 0 <= dr_cap d.
Proof.
  destruct (from_start f1 ix1 reached) as [(_ & _ & Hdr & _) _]. destruct (Hdr id d known) as (_ & tx & e & tk & dc & sig & _ & _ & Hd & _).
  destruct (drop_terms_ok _ _ _ _ _ _ _ _ _ _ Hd) as [Ht _]. lia.
Qed.
(** what is claimed and what is left add up, now and after any later scan *)
Lemma drop_conserves pages1 tip1 pages2 tip2 l (r := drop_progress pages1 (Some (f1 - 1)) (Some tip1) d) :
  concat pages1 = keys_at id (dclaims ix1) → concat pages2 = keys_at id (dclaims ix2) → tip1 <= tip2 →
  list_complete r = true → _strictDecided (pr_scanned r) (Some (dr_expiry d)) = true →
  loadCreditedDclaims pages2 (Some tip2) (dr_cap d) (dr_per d) = Some l →
  Z.of_nat (length l) = claim_count r ∧ NoDup l.
Proof.
  intros E1 E2 Ht Hlc Hdec Hl. destruct drop_positive as [Hper Hcap].
  destruct (progress_exact pages1 (Some (f1 - 1)) tip1 d Hper Hcap Hlc) as (Hcount & _ & _ & Hsc). fold r in Hcount, Hsc.
  unfold _strictDecided, STRICT_DECIDED_DEPTH in Hdec. rewrite Hsc in Hdec. cbn [fmap option_fmap option_map] in Hdec.
  apply andb_true_iff in Hdec as [_ Hdec]. rewrite Z.geb_leb in Hdec. apply Z.leb_le in Hdec.
  apply claims_exact in Hl. subst l. rewrite length_map. assert (Hx : dr_expiry d < f1 ∧ dr_expiry d + 2 <= tip1 ∧ dr_expiry d + 2 <= tip2) by (clear -Hdec Ht; lia).
  destruct Hx as (Hx & Ht1 & Ht2). rewrite E2, (claims_settled Hx). rewrite E1 in Hcount. rewrite Hcount.
  destruct (from_start f1 ix1 reached) as [Hi1 _]. pose proof (claims_before_expiry ix1 Hi1) as Hall.
  unfold credit_list, eligible. rewrite !all_deep by assumption. split; [done|].
  unfold credit_list. rewrite <- firstn_map. eapply sublist_NoDup; [apply firsts_NoDup|apply sublist_take].
Qed.
(** the reclaim on record when its block is done stays on record *)
Lemma reclaim_stands r : one_place chain → drop_reclaims ix1 !! id = Some r → rr_height r < f1 → drop_reclaims ix2 !! id = Some r.
Proof.
  intros Ho Hr Hh. destruct (from_start f1 ix1 reached) as [Hi1 _]. destruct (reach_inv f1 ix1 f2 ix2 Hi1 later) as (_ & _ & _ & _ & Hp).
  destruct Hi1 as (_ & _ & _ & Hre & _). destruct (Hre id r Hr) as [i Hpl].
  eapply (puts_reclaim chain f1); [done|done|split; [by destruct Hpl as [[[? _] _] _]|done]|].
  intros h [j Hj]. by injection (Ho _ _ Hj Hpl eq_refl).
Qed.
End one_drop.

(** ** An accepted reclaim *)
Lemma reclaim_terms validate key tx env asset cap id sig s s' :
  reclaim_handler validate key tx env asset cap id sig s = (Ok true, s') →
  ∃ m, dropMeta id = Some m ∧ dr_expiry (ds_record m) ≠ 0 ∧ list_complete (ds_progress m) = true ∧
    _strictDecided (pr_scanned (ds_progress m)) (Some (dr_expiry (ds_record m))) = true ∧
    cap = dr_cap (ds_record m) - claim_count (ds_progress m) * dr_per (ds_record m) ∧ 0 < cap ∧ ds_reclaimed m = Some (txid key).
Proof.
  intros E. unfold reclaim_handler in E. destruct (dropMeta id) as [m|] eqn:Hme; [|by apply strict_true in E]. cbv zeta in E.
  destruct (negb (bool_decide _)) in E; [done|]. destruct (Z.eqb_spec (dr_expiry (ds_record m)) 0) as [|Hx]; [done|].
  destruct (_ || _) in E; [done|]. destruct (negb _) eqn:Hd in E; [by apply strict_true in E|]. apply negb_false_iff, andb_true_iff in Hd as [Hd1 Hd2].
  destruct (negb _) eqn:Hr in E; [done|]. apply negb_false_iff, Z.eqb_eq in Hr.
  destruct (Z.leb_spec cap 0) as [|Hc]; [done|]. destruct (fetchTx _) as [dropTx|]; [|done].
  apply bind_inv in E as (sg & s1 & _ & E). destruct sg as [[]|]; [|done..].
  destruct (ds_reclaimed m) as [first|] eqn:Hfr; [|by apply strict_true in E].
  destruct (negb (bool_decide _)) eqn:Hfi in E; [done|]. apply negb_false_iff, bool_decide_eq_true in Hfi. subst first.
  exists m. done.
Qed.

(** ** What a drop holds *)
(** its inputs hold its cap, or its kernel's key relates the generators *)
Lemma funded_conserves `{SL : !SecpLaws} cap vis e :
  0 <= cap < 2 ^ 64 → amounts_u64 vis →
  add (foldl add ZERO (map (λ o, commit o.1 o.2) vis)) (negate (smul cap H)) = smul e G →
  total_v vis = cap ∨ relation (total_v vis - cap) (e - total_r vis).
Proof.
  intros Hc Hv E. assert (Es : ∀ l v r, foldl add (commit v r) (map (λ o, commit o.1 o.2) l) = commit (v + total_v l) (r + total_r l)).
  { induction l as [|o l IH]; intros v r; cbn [map foldl]; [f_equal; cbn; lia|]. rewrite commit_add, IH. cbn [total_v total_r foldr]. unfold total_v, total_r. f_equal; lia. }
  apply public_conserves; [done..|]. rewrite <- E. unfold public_excess. rewrite commit_ZERO, Es, commit_H, commit_negate, commit_add. f_equal; lia.
Qed.
Lemma drop_cap_64 p a c per m e tk d i k : CDrop.decodeCDropPayload p = Ok (CDrop.Drop a c per m e tk d i k) → 0 <= c < 2 ^ 64.
Proof.
  unfold CDrop.decodeCDropPayload. rewrite run_Ok. intros [s Hr]. rd_inv Hr. destruct (Z.eqb_spec a4 0) as [->|Hne].
  - unfold CDrop.read_reclaim in Hr. rd_inv Hr. discriminate.
  - unfold CDrop.read_drop in Hr. rd_inv Hr. injection Hr as -> -> -> _ _ _ _ _ _. lia.
Qed.
(** the record of a drop and its transaction name one drop *)
Lemma drop_record_terms id d dropTx dt :
  drop_at id d → fetchTx (dr_txid d) = Some dropTx → drop_of_tx dropTx = Some dt →
  do_asset dt = dr_asset d ∧ do_cap dt = dr_cap d ∧ do_per dt = dr_per d ∧ do_root dt = dr_root d ∧ 0 <= dr_cap d < 2 ^ 64.
Proof.
  intros (_ & tx & e & tk & dc & sig & Hf & He & Hd & _) Hf' Ht. rewrite Hf in Hf'. injection Hf' as <-.
  unfold launch_envelope in He. unfold drop_of_tx in Ht. destruct (head (tx_vin tx)) as [i|]; [|done]. cbn [mbind option_bind] in *.
  unfold _witnessEnvelope in He. destruct (_ <? 3)%nat; [done|].
  destruct (in_witness i !! 1%nat) as [w|] eqn:Hw; [|done]. cbn [mbind option_bind] in Ht. rewrite (nth_lookup_Some _ _ _ _ Hw) in He.
  rewrite He in Ht. cbn [mbind option_bind] in Ht. destruct (negb _); [done|]. rewrite Hd in Ht. cbn [decoded] in Ht. injection Ht as <-.
  pose proof (drop_cap_64 _ _ _ _ _ _ _ _ _ _ Hd) as Hc. exact (conj eq_refl (conj eq_refl (conj eq_refl (conj eq_refl Hc)))).
Qed.

(** ** A claim of an airdrop *)
Lemma witness_true tx d w :
  witness_ok tx d w = true →
  ∃ o leaf tk dc msg, head (tx_vout tx) = Some o ∧ out_script o = [x00; x14] ++ hash160 (CDClaim.recipientPub w) ∧
    airdropLeafHash (CDClaim.ethAddress w) (do_per d) (CDClaim.leafIndex w) = Ok leaf ∧
    verifyAirdropMerkleProof leaf (CDClaim.proofPath w) (do_root d) = true ∧
    claim_name d = Some (tk, dc) ∧ buildAirdropClaimMsg (claim_terms_of d w tk dc) = Ok msg ∧
    recoverEthAddrFromSig msg ("0x" +:+ bytesToHex (CDClaim.ethSig w)) = Ok (bytesToHex (CDClaim.ethAddress w)).
Proof.
  unfold witness_ok. destruct (head (tx_vout tx)) as [o|]; [|done]. destruct (negb _); [done|].
  destruct (negb (bool_decide (take 2 _ = _))) eqn:H2; [done|]. apply negb_false_iff, bool_decide_eq_true in H2.
  destruct (negb (bool_decide (hash160 _ = _))) eqn:H3; [done|]. apply negb_false_iff, bool_decide_eq_true in H3.
  destruct (airdropLeafHash _ _ _) as [leaf| | |] eqn:Hl; [|done..]. destruct (verifyAirdropMerkleProof _ _ _) eqn:Hm; cbn [negb]; [|done].
  destruct (claim_name d) as [[tk dc]|] eqn:Hn; [|done]. case_bool_decide; [done|].
  destruct (buildAirdropClaimMsg _) as [msg| | |] eqn:Hb; [|done..]. unfold verifyAirdropClaimSig.
  destruct (recoverEthAddrFromSig _ _) as [a| | |] eqn:Hr; [|done..]. intros Ha%bool_decide_eq_true. rewrite strip0x_hex in Ha. subst a.
  exists o, leaf, tk, dc, msg. split_and!; try done. rewrite H3, <- H2. symmetry. apply take_drop.
Qed.
(** a text is for one leaf and one recipient of a drop *)
Lemma claim_text_once d w w' tk dc msg :
  buildAirdropClaimMsg (claim_terms_of d w tk dc) = Ok msg → buildAirdropClaimMsg (claim_terms_of d w' tk dc) = Ok msg →
  CDClaim.ethAddress w = CDClaim.ethAddress w' ∧ CDClaim.leafIndex w = CDClaim.leafIndex w' ∧ CDClaim.recipientPub w = CDClaim.recipientPub w'.
Proof.
  intros Hx Hy. destruct (claim_text_binds _ _ _ Hx Hy eq_refl eq_refl) as (_ & _ & Ea & El & Ep).
  cbn [claim_terms_of ct_ethAddrHex ct_leafIndex ct_tacitPubHex] in *. rewrite !strip0x_hex in Ea. rewrite !no_spaces_hex in Ep.
  split; [by apply (inj bytesToHex)|]. split; [exact El|by apply (inj bytesToHex)].
Qed.

(** ** A mint gets a key *)
Lemma petch_seen aid ix cache r :
  petches ix !! aid = Some r → cache !! aid = None ∨ cache !! aid = Some (Some r) → ∃ c, _petchLookup aid ix cache = (Some r, c).
Proof. intros Hp [Hc|Hc]; unfold _petchLookup; rewrite Hc; [rewrite Hp|]; by eexists. Qed.
Lemma decoded_asset_32 p d : CPmint.decodeCPmintPayload p = Ok d → blen (CPmint.assetId d) = 32.
Proof. unfold CPmint.decodeCPmintPayload. rewrite run_Ok. intros [s Hr]. rd_inv Hr. subst d. cbn [CPmint.assetId]. lia. Qed.
(** the client finds the transactions at the heights of the scan *)
Definition dated : Prop := ∀ p tx, placed chain p → fetchTx (p_txid p) = Some tx → tx_height tx = Some (p_height p).
(** the indexer's rules are the client's *)
Lemma mint_keyed `{!HashLen} key tx payload d h i t ix cache r (aid := assetIdFor (CPmint.etchTxid d) 0) :
  CPmint.decodeCPmintPayload payload = Ok d → vout key = 0 → tx_height tx = Some h →
  petches ix !! aid = Some r → cache !! aid = None ∨ cache !! aid = Some (Some r) → petch_at chain aid r →
  (∀ t', is_Some (fetchTx t') → assetIdFor t' 0 = aid → t' = CPmint.etchTxid d) → dated →
  (pmint_branch h i t payload ix cache).1 = [PutPmint aid (Pos h i t)] ↔ ∃ etch, mint_rules key tx payload d etch h.
Proof.
  intros Hd Hv Hh Hp Hca (t' & i' & etchTx & e & etch & Hpl & Ha & Hf & He & Ho & Hdp & _ & El & Es & Ee & Hstart) Hone Hdated.
  destruct (petch_seen aid ix cache r Hp Hca) as [c Hl].
  assert (t' = CPmint.etchTxid d) as -> by (apply Hone; [by eexists|done]). pose proof (Hdated _ _ Hpl Hf) as Heh. cbn [p_height] in Heh.
  unfold pmint_branch, mint_rules. rewrite Hd. cbn [decoded]. fold aid. rewrite Hl, El, Ee.
  assert (Htk : take 32 aid = take 32 (CPmint.assetId d) ↔ aid = CPmint.assetId d).
  { pose proof (decoded_asset_32 _ _ Hd) as Ha32. rewrite !take_ge; [done|unfold blen in Ha32; lia|].
    pose proof (sha256_len (outpoint_bytes (Outpoint (CPmint.etchTxid d) 0))) as Hs. unfold aid, assetIdFor. unfold blen in Hs. lia. }
  rewrite Es in Hstart. unfold mint_window. split.
  - intros E. case_bool_decide as Hid; cbn [negb fst] in E; [|done].
    destruct (Z.eqb_spec (CPmint.amount d) (CPetch.mintLimit etch)) as [Hm|]; cbn [negb fst] in E; [|done].
    rewrite Es in E. destruct (h <? _) eqn:Hw1; cbn [fst] in E; [done|].
    destruct (_ && _) eqn:Hw2 in E; cbn [fst] in E; [done|]. destruct (pmintCommitmentOpens _ _ _) eqn:Hc; cbn [negb fst] in E; [|done].
    exists etch. split_and!; try done; [by apply Htk|]. exists etchTx, e, (pt_height r). split_and!; try done. by rewrite Hstart, Hw1, Hw2.
  - intros (etch' & _ & _ & Hid & (etchTx' & e' & eh & Hf' & He' & _ & Hdp' & Heh' & Hw) & _ & Hm & Hc).
    rewrite Hf in Hf'. injection Hf' as <-. rewrite Heh in Heh'. injection Heh' as <-.
    unfold parent_envelope in He'. rewrite He in He'. injection He' as <-. rewrite Hdp in Hdp'. injection Hdp' as <-.
    apply andb_true_iff in Hw as [Hw Hw2%negb_true_iff]. apply andb_true_iff in Hw as [_ Hw1%negb_true_iff].
    rewrite bool_decide_eq_true_2 by (by apply Htk). cbn [negb]. rewrite Hm, Z.eqb_refl. cbn [negb]. rewrite Es, Hw1, Hw2.
    unfold commits_to in Hc. by rewrite <- Hm, Hc.
Qed.
(** a launch looked up before it is indexed is unknown for the rest of the scan *)
Lemma unknown_for_the_scan h i t payload ix ix' cache d :
  CPmint.decodeCPmintPayload payload = Ok d → assetIdFor (CPmint.etchTxid d) 0 = CPmint.assetId d →
  petches ix !! CPmint.assetId d = None → cache !! CPmint.assetId d = None →
  let cache' := (pmint_branch h i t payload ix cache).2 in
  ∀ h' i' t' payload' d', CPmint.decodeCPmintPayload payload' = Ok d' → CPmint.assetId d' = CPmint.assetId d →
    pmint_branch h' i' t' payload' ix' cache' = ([], cache').
Proof.
  intros Hd Ha Hp Hc. cbv zeta.
  assert (E : (pmint_branch h i t payload ix cache).2 = <[CPmint.assetId d := None]> cache).
  { unfold pmint_branch. rewrite Hd. cbn [decoded]. rewrite bool_decide_eq_true_2 by done. cbn [negb].
    unfold _petchLookup. by rewrite Ha, Hc, Hp. }
  rewrite E. intros h' i' t' payload' d' Hd' Ha'. unfold pmint_branch. rewrite Hd'. cbn [decoded].
  case_bool_decide as Hid; cbn [negb]; [|done]. unfold _petchLookup. rewrite Hid, Ha'. pose proof (lookup_insert_eq (M := gmap bytes) cache (CPmint.assetId d) (None : option petch_rec)) as E2. unfold petch_cache in *. by rewrite E2.
Qed.
End drops.
