(* ===== verification/LaunchModel.v ===== *)
(** * A concrete launch and a concrete drop

    A launch with room for two mints and three minters, in three blocks; a drop of five
    units in fives ones, funded with the etched note of [ChainModel], two claims of it
    and the reclaim of the rest; an airdrop list of three entries and a claim of one of
    them.  The chain is scanned, the indexer's answers are computed from the records and
    the client's branches run on them. *)
From Stdlib Require Import Ascii.
From stdpp Require Import strings pretty.
From S2P Require Import Prelude Bytes Text Crypto EnvelopeScript CodecTransfer CodecIssue CodecPool CodecSlots CodecAmm.
From S2P Require Import Messages Curve CurveModel Hex Merkle Mixer MixerProof CodecBridge Kernel Notes MixerLeaf Handlers Validator WalkFacts ValidSpec ValidShape ValidSound ValidComplete ValidFacts.
From S2P Require Import ChainModel BatchGrows LaunchIndex Airdrop AirdropFacts LaunchClient LaunchOrder LaunchFacts LaunchSteps LaunchCheck LaunchSound LaunchDrops.

(** ** Libraries *)
(** a key that signs by naming its address and the hash *)
Definition toy_recover (sig : bytes) (recovery : Z) (h : bytes) : option bytes :=
  if bool_decide (drop 20 (take 52 sig) = h) then Some (u8b 4 ++ zeros 44 ++ take 20 sig) else None.
#[export] Instance toy_eth : EthKeys := {| recoverPublicKey := toy_recover; ripemd160 b := drop 12 b |}.

(** ** The launch *)
Definition launch_id : bytes := Eval vm_compute in u8b 201 ++ zeros 31.
Definition launch_asset : bytes := Eval vm_compute in assetIdFor launch_id 0.
Definition launch_terms : CPetch.t := CPetch.Mk [76] 0 20 10 0 0 None.
Definition petch_payload : bytes := Eval vm_compute in ok_or [] (CPetch.encodeCPetchPayload launch_terms).
Definition mint_payload (r : Z) : bytes :=
  ok_or [] (CPmint.encodeCPmintPayload (CPmint.Mk launch_asset launch_id (commitment_of 10 r) 10 (be 32 r))).
Definition mint1_payload : bytes := Eval vm_compute in mint_payload 3.
Definition mint2_payload : bytes := Eval vm_compute in mint_payload 4.
Definition mint3_payload : bytes := Eval vm_compute in mint_payload 5.
Definition mint1_id : bytes := Eval vm_compute in u8b 202 ++ zeros 31.
Definition mint2_id : bytes := Eval vm_compute in u8b 203 ++ zeros 31.
Definition mint3_id : bytes := Eval vm_compute in u8b 204 ++ zeros 31.
Definition reveal (payload : bytes) (h : Z) (block : string) : txn :=
  Txn [TxIn funding (envelope_witness payload) "v1_p2tr"] [] (Some h) (Some block).
Definition launch_tx : txn := Eval vm_compute in reveal petch_payload 1 "b1".
Definition mint1_tx : txn := Eval vm_compute in reveal mint1_payload 2 "b2".
Definition mint2_tx : txn := Eval vm_compute in reveal mint2_payload 2 "b2".
Definition mint3_tx : txn := Eval vm_compute in reveal mint3_payload 3 "b3".

(** ** The drop *)
Definition the_drop : bytes := Eval vm_compute in u8b 205 ++ zeros 31.
Definition the_drop_id : bytes := Eval vm_compute in dropIdFromRevealTxid the_drop.
Definition depositor : bytes := Eval vm_compute in toRawBytes (smul 7 G).
Definition drop_kernel : bytes := Eval vm_compute in
  ok_or [] (msg ← dropKernelMsg (DropTerms asset 5 1 (zeros 32) 6 1) [Outpoint etch_id 0]; signSchnorr (zeros 32) msg (bigintToBytes32 3)).
Definition drop_payload : bytes := Eval vm_compute in
  ok_or [] (CDrop.encodeCDropPayload asset 5 1 (zeros 32) 6 None 0 1 drop_kernel).
Definition drop_tx : txn := Eval vm_compute in
  Txn [TxIn funding (envelope_witness drop_payload) "v1_p2tr"; TxIn (Outpoint etch_id 0) [zeros 64; depositor] "v0_p2wpkh"] []
    (Some 4) (Some "b4"%string).
Definition claim_payload (r : Z) : bytes :=
  ok_or [] (CDClaim.encodeCDClaimPayload asset the_drop (commitment_of 1 r) 1 (be 32 r) []).
Definition claim1_payload : bytes := Eval vm_compute in claim_payload 3.
Definition claim2_payload : bytes := Eval vm_compute in claim_payload 4.
Definition claim1_id : bytes := Eval vm_compute in u8b 206 ++ zeros 31.
Definition claim2_id : bytes := Eval vm_compute in u8b 207 ++ zeros 31.
Definition claim1_tx : txn := Eval vm_compute in reveal claim1_payload 5 "b5".
Definition claim2_tx : txn := Eval vm_compute in reveal claim2_payload 6 "b6".
Definition reclaim_sig : bytes := Eval vm_compute in
  ok_or [] (msg ← dropReclaimMsg the_drop_id asset 3; signSchnorr (zeros 32) msg (bigintToBytes32 7)).
Definition reclaim_payload : bytes := Eval vm_compute in
  ok_or [] (CDrop.encodeCDropReclaimPayload asset 3 the_drop_id reclaim_sig (be 32 1)).
Definition reclaim_id : bytes := Eval vm_compute in u8b 208 ++ zeros 31.
Definition reclaim_tx : txn := Eval vm_compute in
  Txn [TxIn funding [zeros 64; ok_or [] (encodeEnvelopeScript (drop 1 depositor) reclaim_payload); zeros 33] "v1_p2tr"] []
    (Some 9) (Some "b9"%string).

(** ** The chain *)
Definition launch_chain (h : Z) : list bytes :=
  if h =? 1 then [launch_id] else if h =? 2 then [mint1_id; mint2_id] else if h =? 3 then [mint3_id]
  else if h =? 4 then [the_drop] else if h =? 5 then [claim1_id] else if h =? 6 then [claim2_id] else if h =? 9 then [reclaim_id] else [].
Definition launch_txs : list (bytes * txn) :=
  [(launch_id, launch_tx); (mint1_id, mint1_tx); (mint2_id, mint2_tx); (mint3_id, mint3_tx); (the_drop, drop_tx);
   (claim1_id, claim1_tx); (claim2_id, claim2_tx); (reclaim_id, reclaim_tx); (etch_id, etch_tx)].
Fixpoint assoc {A} (l : list (bytes * A)) (k : bytes) : option A :=
  match l with [] => None | (k', a) :: l => if bool_decide (k = k') then Some a else assoc l k end.
Definition launches : Chain := {|
  fetchTx := assoc launch_txs; bppEnabled := true; bpRangeAggVerify _ _ := true; bppRangeVerify _ _ := true;
  trackedNotes _ := None; getAssetMeta _ := false; coordsHash _ := []; reflectedHeight := None; poolBinding := None;
  evmNullifierSpent _ := None; serviceParent _ _ := None; strictValidation := false |}.
#[local] Existing Instance launches.
Definition launch_blocks : MixerChain := {|
  _txIsRecentlyNotFound _ := false;
  blockTxids b := if bool_decide (b = "b2"%string) then Some (map bytesToHex (launch_chain 2)) else
                  if bool_decide (b = "b3"%string) then Some (map bytesToHex (launch_chain 3)) else None;
  onSignet := false; tethActiveCtx := None; tethGenList := []; bridgeAsset := None; BRIDGE_UNIT_SCALE := 1;
  keccak_256 b := be 32 (unbe b); eth_call _ _ := None |}.
#[local] Existing Instance launch_blocks.

(** the first scan: ten blocks; the second: one more *)
Definition scanned1 : Z * index := tick launch_chain 1 10 0 empty_index.
Definition records : index := scanned1.2.
Definition mint_pages : list (list position) := [keys_at launch_asset (pmints records)].
Definition claim_pages_now : list (list position) := [keys_at the_drop_id (dclaims records)].
Definition the_petch : petch_rec := Petch 20 10 0 0 1.
Definition drop_record : drop_rec := Eval vm_compute in DropRec the_drop asset 5 1 (zeros 32) 6 1 (Some (drop 1 depositor)) 4.
Example petch_recorded : petches records !! launch_asset = Some the_petch.
Proof. vm_compute. reflexivity. Qed.
Example drop_recorded : drops records !! the_drop_id = Some drop_record.
Proof. vm_compute. reflexivity. Qed.
Definition mint1_at : position := Eval vm_compute in Pos 2 0 mint1_id.
Definition mint2_at : position := Eval vm_compute in Pos 2 1 mint2_id.
Definition mint3_at : position := Eval vm_compute in Pos 3 0 mint3_id.
Example mints_recorded : keys_at launch_asset (pmints records) = [mint1_at; mint2_at; mint3_at].
Proof. vm_compute. reflexivity. Qed.
Example claims_recorded : map p_txid (keys_at the_drop_id (dclaims records)) = [claim1_id; claim2_id].
Proof. vm_compute. reflexivity. Qed.

(** ** The indexer's answers *)
Definition taken : option snapshot := refreshPetchProgress mint_pages 0 (Some 10) (Some 10) the_petch.
Definition launch_answers : LaunchChain := {|
  _fetchPmintCredited aid := if bool_decide (aid = launch_asset) then Some (slim_credit taken) else None;
  _fetchDclaimCredited id :=
    if bool_decide (id = the_drop_id)
    then l ← loadCreditedDclaims claim_pages_now (Some 10) 5 1; Some (DclaimCredit l false (Some 10)) else None;
  dropMeta id :=
    if bool_decide (id = the_drop_id)
    then Some (DropServed drop_record (drop_progress claim_pages_now (Some 10) (Some 10) drop_record)
           (rr_txid <$> drop_reclaims records !! the_drop_id)) else None;
  assetName _ := Some (Some [65], Some 8);
  networkName := "mainnet" |}.
#[local] Existing Instance launch_answers.

(** ** The client on it *)
Definition answer (k : outpoint) : option (res bool) :=
  option_map fst (validateOutpoint (SV := launch_services 1 10 no_services) 10 k empty_state).
Example two_mints : answer (Outpoint mint1_id 0) = Some (Ok true) ∧ answer (Outpoint mint2_id 0) = Some (Ok true).
Proof. vm_compute. split; reflexivity. Qed.
(** the third finds no room *)
Example no_third_mint : answer (Outpoint mint3_id 0) = Some (Ok false).
Proof. vm_compute. reflexivity. Qed.
Example two_claims : answer (Outpoint claim1_id 0) = Some (Ok true) ∧ answer (Outpoint claim2_id 0) = Some (Ok true).
Proof. vm_compute. split; reflexivity. Qed.
(** three of the five units were not claimed *)
Example the_rest : answer (Outpoint reclaim_id 0) = Some (Ok true).
Proof. vm_compute. reflexivity. Qed.

(** ** A mint looked up too early *)
(** the launch and a mint that names it before it exists are scanned together, then a
    mint that meets every rule *)
Definition decoy_chain (h : Z) : list bytes := if h =? 1 then [mint3_id; launch_id] else if h =? 2 then [mint1_id] else [].
Example looked_up_too_early : keys_at launch_asset (pmints (tick decoy_chain 1 3 0 empty_index).2) = [].
Proof. vm_compute. reflexivity. Qed.
Example scanned_apart :
  keys_at launch_asset (pmints (tick decoy_chain 2 2 0 (tick decoy_chain 1 1 0 empty_index).2).2) = [mint1_at].
Proof. vm_compute. reflexivity. Qed.

(** ** A list and a claim *)
Definition entry_at (i : Z) : entry := Entry (be 20 (300 + i)) 25 i.
Definition airdrop : list entry := Eval vm_compute in [entry_at 0; entry_at 1; entry_at 2].
Definition airdrop_tree : bytes * list (list bytes) := Eval vm_compute in
  match buildAirdropMerkle (map leaf_of airdrop) with Ok r => r | _ => ([], []) end.
Definition airdrop_drop : drop_terms_of := Eval vm_compute in
  DropTermsOf asset 75 25 airdrop_tree.1 6 (Some [65; 66]) 1 1 (zeros 64).
Definition claimant : CDClaim.witness :=
  CDClaim.Witness depositor 1 (be 20 301) [] (ok_or [] (airdropMerkleProof airdrop_tree.2 1)).
Definition claimed_text : text := ok_or [] (buildAirdropClaimMsg (claim_terms_of airdrop_drop claimant [65; 66] 1)).
Definition claim_witness : CDClaim.witness :=
  CDClaim.Witness depositor 1 (be 20 301) (be 20 301 ++ eip191Hash claimed_text ++ zeros 12 ++ [x00]) (CDClaim.proofPath claimant).
Definition paying_tx : txn := Txn [] [TxOut ([x00; x14] ++ hash160 depositor) "v0_p2wpkh" 546] (Some 5) None.
Example claim_witness_ok : witness_ok paying_tx airdrop_drop claim_witness = true.
Proof. vm_compute. reflexivity. Qed.
Example amount_shown : fmtAssetAmountPlain 25 1 = "2.5"%string.
Proof. vm_compute. reflexivity. Qed.
(** the same claim for another recipient *)
Example other_recipient : witness_ok paying_tx airdrop_drop
  (CDClaim.Witness (u8b 2 ++ zeros 32) 1 (be 20 301) (CDClaim.ethSig claim_witness) (CDClaim.proofPath claimant)) = false.
Proof. vm_compute. reflexivity. Qed.

(** ** The model meets the assumptions *)
Lemma launch_small : small_blocks launch_chain.
Proof. intros h. unfold launch_chain. repeat case_match; cbn; lia. Qed.
Lemma ticks_to_now : rtc (launch_tick launch_chain) (1, empty_index) (11, records).
Proof. apply rtc_once. refine (a_tick launch_chain 1 10 0 empty_index _ _); lia. Qed.
Lemma ticks_onward : rtc (launch_tick launch_chain) (11, records) (12, (tick launch_chain 11 1 0 records).2).
Proof. apply rtc_once. refine (a_tick launch_chain 11 1 0 records _ _); lia. Qed.
Lemma launch_places p : placed launch_chain p →
  (p_txid p, p_height p, p_index p) ∈
    [(launch_id, 1, 0); (mint1_id, 2, 0); (mint2_id, 2, 1); (mint3_id, 3, 0); (the_drop, 4, 0); (claim1_id, 5, 0); (claim2_id, 6, 0); (reclaim_id, 9, 0)].
Proof.
  destruct p as [h i t]. intros [[[Hh _] [Hi _]] Hl]. cbn [p_height p_index p_txid] in *. unfold launch_chain in Hl.
  repeat match type of Hl with context [h =? ?c] => destruct (Z.eqb_spec h c) as [->|_] end;
    try (by rewrite lookup_nil in Hl); destruct (Z.to_nat i) as [|[|n]] eqn:En; cbn in Hl; try discriminate Hl;
    injection Hl as <-; (first [assert (i = 0) as -> by lia | assert (i = 1) as -> by lia]); rewrite !elem_of_cons; tauto.
Qed.
Lemma launch_one_place : one_place launch_chain.
Proof.
  intros p q Hp%launch_places Hq%launch_places E. rewrite E in Hp. destruct p as [h i t], q as [h' i' t']. cbn [p_height p_index p_txid] in *. subst t'.
  rewrite !elem_of_cons in Hp, Hq. destruct_or! Hp; destruct_or! Hq; try (by apply elem_of_nil in Hp); try (by apply elem_of_nil in Hq);
    injection Hp as ? ? ?; injection Hq as ? ? ?; subst; solve [done | discriminate].
Qed.
Lemma assoc_in {A} (l : list (bytes * A)) k a : assoc l k = Some a → (k, a) ∈ l.
Proof.
  induction l as [|[k' b] l IH]; cbn; [done|]. case_bool_decide; [intros [= ->]; subst; by left|]. intros Hk. right. by apply IH.
Qed.
(** what holds of the nine transactions holds of what can be fetched *)
Lemma launch_fetch (P : bytes → txn → Prop) : Forall (λ x, P x.1 x.2) launch_txs → ∀ t tx, fetchTx t = Some tx → P t tx.
Proof. intros Hall t tx Hf%assoc_in. rewrite Forall_forall in Hall. exact (Hall _ Hf). Qed.
Lemma launch_vouts : ChainLaws.
Proof.
  intros t tx i Hf. revert i. refine (launch_fetch (λ _ tx, ∀ i, i ∈ prevs (tx_vin tx) → 0 <= vout i) _ t tx Hf).
  repeat constructor; cbn; intros i Hi; rewrite !elem_of_cons in Hi; destruct_or! Hi; try (by apply elem_of_nil in Hi); by rewrite Hi.
Qed.
Lemma launch_dated : dated launch_chain.
Proof.
  intros p tx Hp%launch_places Hf. rewrite !elem_of_cons in Hp.
  destruct_or! Hp; [..|by apply elem_of_nil in Hp]; injection Hp as Et -> _; rewrite Et in Hf; vm_compute in Hf; injection Hf as <-; reflexivity.
Qed.
Lemma one_launch t : is_Some (fetchTx t) → assetIdFor t 0 = launch_asset → t = launch_id.
Proof.
  intros [tx Hf]. refine (launch_fetch (λ t _, assetIdFor t 0 = launch_asset → t = launch_id) _ t tx Hf).
  repeat (apply Forall_cons; split; [cbn [fst]; intros E; first [reflexivity|exfalso; revert E; vm_compute; intros [=]]|]). constructor.
Qed.
Lemma one_drop t : t ≠ the_drop → is_Some (fetchTx t) → dropIdFromRevealTxid t ≠ the_drop_id.
Proof.
  intros Hne [tx Hf]. revert Hne. refine (launch_fetch (λ t _, t ≠ the_drop → dropIdFromRevealTxid t ≠ the_drop_id) _ t tx Hf).
  repeat (apply Forall_cons; split; [cbn [fst]; intros Hne E; first [exfalso; apply Hne; reflexivity|clear Hne; revert E; vm_compute; intros [=]]|]). constructor.
Qed.
