(* ===== verification/ValidatorProps.v ===== *)
(** * What the validator guarantees

    The properties of [validateOutpoint] and of the notes it accepts, each from the
    lemmas of its component, with witnesses on the chain of [ChainModel]. *)
From S2P Require Import Prelude Bytes Text Crypto EnvelopeScript CodecTransfer CodecIssue CodecPool CodecSlots CodecAmm.
From S2P Require Import Messages Curve CurveModel Kernel Notes Handlers Validator.
From S2P Require Import WalkFacts ValidSpec ValidShape ValidSound ValidComplete ValidFacts ChainModel.

Section props.
Context `{Hash} {SE : Secp} {CH : Chain} {SV : Service}.

(** C1: the validator is sound.  If every outpoint the map of verdicts calls true is a
    valid note, the same holds after a run, whatever its outcome; and an outpoint it
    answers true for is a valid note, once the range proofs it queued verify. *)
Theorem validator_sound (svc : outpoint → Prop) `{!ServiceLaws svc} `{!ChainLaws} fuel root s r s' :
  0 <= vout root → sound svc s → validateOutpoint fuel root s = Some (r, s') →
  sound svc s' ∧ (r = Ok true → batch_ok s' → valid svc root).
Proof. intros. by eapply validateOutpoint_sound. Qed.

(** C2: the validator is complete.  A valid note none of whose history is left to a
    service is accepted, with any amount of fuel from some bound on, when nothing has been
    refused before and no pool binds notes. *)
Theorem validator_complete root s :
  poolBinding = None → valid no_service root → clean s →
  ∃ n, ∀ fuel, (n <= fuel)%nat → ∃ s', validateOutpoint fuel root s = Some (Ok true, s').
Proof. intros Hb. by apply validateOutpoint_complete. Qed.

(** C4: every valid note descends from the etch of its asset: its asset id is the hash
    of the outpoint of a valid etch transaction. *)
Theorem note_provenance `{!HashLen} k a C :
  (∀ op, trackedNotes op = None) → valid no_service k → note_data k = Some (a, C) → etched no_service a.
Proof. apply provenance. Qed.

(** C3: a valid transfer conserves the amounts.  With 64-bit openings of its inputs, as
    their own transactions commit to them, and of its outputs, its kernel verifies under
    the commitment to the imbalance; anyone who knows the discrete logarithm of that
    point has amounts that balance, or a relation between the two generators. *)
Theorem valid_transfer_conserves `{!SecpLaws} t vos vis :
  transfer_ok t → 0 <= t_burned t < 2 ^ 64 →
  amounts_u64 vos → amounts_u64 vis → Forall2 opens (t_outs t) vos → Forall2 note_opens (t_ins t) vis →
  ∃ E sig_msg,
    verifySchnorr (t_kernelSig t) sig_msg (xonly E) = Ok true ∧
    E = commit (total_v vos + t_burned t - total_v vis) (total_r vos - total_r vis) ∧
    ∀ x, E = smul x G →
      total_v vis = total_v vos + t_burned t ∨
      relation (total_v vos + t_burned t - total_v vis) (x - (total_r vos - total_r vis)).
Proof. apply transfer_conserves_valid. Qed.




End props.

(** ** Witnesses *)
Lemma validator_sound_witness :
  ∃ s, @validateOutpoint _ _ toy_chain no_services 10 xfer_note empty_state = Some (Ok true, s) ∧
       @valid _ _ toy_chain (λ _, False) xfer_note.
Proof.
  destruct (verdict_run _ _ _ xfer_validates) as [s Hs]. exists s. split; [exact Hs|].
  refine (proj2 (@validator_sound _ _ _ no_services (λ _, False) (no_services_laws _) _ 10 _ _ _ _ _ (empty_sound _) Hs) eq_refl _).
  - done.
  - by intros C p _.
Defined.

Lemma validator_complete_witness :
  ∃ n, ∀ fuel, (n <= fuel)%nat →
    ∃ s', @validateOutpoint _ _ toy_chain no_services fuel xfer_note empty_state = Some (Ok true, s').
Proof.
  exact (@validator_complete _ _ toy_chain no_services xfer_note empty_state eq_refl xfer_valid empty_clean).
Defined.

Lemma note_provenance_witness : @etched _ _ toy_chain no_service asset.
Proof.
  apply (note_provenance (CH := toy_chain) xfer_note asset (commitment_of 3 4)).
  - done.
  - exact xfer_valid.
  - vm_compute. reflexivity.
Defined.

Lemma valid_transfer_conserves_witness : 5 = 2 + 3 ∨ relation (2 + 3 - 5) (2 - (1 + 4 - 3)).
Proof.
  destruct (valid_transfer_conserves (CH := toy_chain) toy_transfer [(2, 1); (3, 4)] [(5, 3)]) as (E & m & _ & HE & Hx).
  - exact toy_transfer_ok.
  - done.
  - split; [repeat constructor; cbn; lia|cbn; lia].
  - split; [repeat constructor; cbn; lia|cbn; lia].
  - exact toy_outs_open.
  - exact toy_ins_open.
  - apply (Hx 2). rewrite HE. apply zn_eq. vm_compute. reflexivity.
Defined.


