(* ===== verification/MixerProps.v ===== *)
(** * What the mixer guarantees

    The properties of the client's mixer: its trees, the leaves it takes up from an
    indexer, the deposits behind them and the withdrawals it accepts, each from the
    lemmas of its component, with witnesses on the pool of [MixerModel]. *)
From Stdlib Require Import Ascii.
From stdpp Require Import strings pretty.
From S2P Require Import Prelude Bytes Text Crypto EnvelopeScript CodecTransfer CodecIssue CodecPool CodecSlots CodecAmm.
From S2P Require Import Messages Curve CurveModel Hex Merkle MerkleFacts Mixer MixerProof CodecBridge Kernel Notes MixerLeaf Handlers Validator.
From S2P Require Import WalkFacts ValidSpec ValidShape ValidSound ValidComplete ValidFacts MixerWithdraw MixerSync MixerTree MixerFacts MixerLeafFacts ChainModel MixerModel.

(** ** Everything that changes the pools *)
Section steps.
Context `{Hash} {SE : Secp} {CH : Chain} {GR : Groth16} {MC : MixerChain} {PO : Poseidon}.

Inductive mixer_step : pools → pools → Prop :=
| step_register ps aid d vk ce h tx gen : mixer_step ps (mixerRegisterPool aid d vk ce h tx gen ps).2
| step_append ps aid d leaf gen : mixer_step ps (mixerAppendLeaf aid d leaf gen ps).2
| step_mark ps aid d n owner gen : mixer_step ps (mixerMarkNullifierSpent aid d n owner gen ps)
| step_scan ps l : mixer_step ps (scanPools l ps)
| step_withdraw s key payload : mixer_step (mixer s) (mixer (withdraw_handler key payload s).2).

Lemma step_changes ps ps' : mixer_step ps ps' → changes ps ps'.
Proof.
  intros []; [apply register_changes|apply append_changes|apply mark_changes|apply scanPools_changes|apply withdraw_changes].
Qed.
Lemma steps_changes ps ps' : rtc mixer_step ps ps' → changes ps ps'.
Proof. induction 1; [done|]. eapply changes_trans; [by apply step_changes|done]. Qed.
End steps.

Section props.
Context `{Hash} {SE : Secp} {CH : Chain} {GR : Groth16} {MC : MixerChain} {PO : Poseidon} {PL : PoseidonLaws}.

(** ** Trees *)

(** C12: the tree of a pool.  Over at most 2^20 leaves of 32 bytes, the root the client
    computes level by level is the root of the perfect tree of height 20 over them, padded
    with zero; the path it builds for a leaf leads from the leaf to that root, by the
    leaf's first index, and there is none for anything else; and a path that leads to the
    root starts at the leaf of its index, or two different pairs have one hash.  A leaf of
    any other length leaves the tree without a root. *)
Theorem merkle_tree ls :
  (Forall is32 ls → Z.of_nat (length ls) <= 2 ^ Z.of_nat POOL_TREE_DEPTH →
   computePoolRoot ls = Ok (be 32 (tree_root 0 POOL_TREE_DEPTH (map unbe ls))) ∧
   (∀ leaf, leaf ∈ ls → ∃ p, merkle_proof_of ls leaf = Ok (Some p) ∧
      ls !! mp_leafIndex p = Some leaf ∧ (∀ m, (m < mp_leafIndex p)%nat → ls !! m ≠ Some leaf) ∧
      length (mp_path p) = POOL_TREE_DEPTH ∧ path_index (mp_path p) = mp_leafIndex p ∧
      mp_root p = tree_root 0 POOL_TREE_DEPTH (map unbe ls) ∧ path_root (unbe leaf) (mp_path p) = mp_root p) ∧
   (∀ leaf, leaf ∉ ls → merkle_proof_of ls leaf = Ok None) ∧
   (∀ v path, length path = POOL_TREE_DEPTH → path_root v path = tree_root 0 POOL_TREE_DEPTH (map unbe ls) →
      v = default 0 (map unbe ls !! path_index path) ∨
      ∃ p q, p ∈ tree_nodes 0 POOL_TREE_DEPTH (map unbe ls) ∧ q ∈ path_nodes v path ∧ collision p q)) ∧
  (¬ Forall is32 ls → ∃ e, computePoolRoot ls = Throw e).
Proof.
  split; [|apply computePoolRoot_bad]. intros Hf Hl. split; [by apply computePoolRoot_bytes|]. split; [|split].
  - intros leaf. apply merkle_proof_complete; [done|]. apply Nat2Z.inj_le. by rewrite Nat2Z.inj_pow.
  - intros leaf Hn. unfold merkle_proof_of. by rewrite (proj2 (leaf_index_None 0 leaf ls) Hn).
  - intros v path. by apply path_sound.
Qed.

(** C11: the pools stay well-formed whatever the client does.  In every state it reaches, each tree
    has at most 2^20 leaves; the roots it remembers are those of the prefixes of its
    leaves, up to the first malformed one, and the window holds the last 32 of them; the
    three maps know the same pools; and a pool once registered keeps its keys.  So a
    root a withdrawal may name is the root of leaves the tree has. *)
Theorem pool_trees_invariant ps ps' :
  rtc mixer_step no_pools ps → rtc mixer_step ps ps' →
  (∀ k t, poolMerkleTrees ps' !! k = Some t → tree_inv t) ∧ same_keys ps' ∧
  (∀ k info, poolRegistry ps !! k = Some info → poolRegistry ps' !! k = Some info) ∧
  (∀ aid d root gen, mixerHasHistoricalRoot aid d root gen ps' = true →
     ∃ t n, poolMerkleTrees ps' !! poolKey aid d gen = Some t ∧ (0 < n <= length (leaves t))%nat ∧
       Forall is32 (take n (leaves t)) ∧ computePoolRoot (take n (leaves t)) = Ok root).
Proof.
  intros H1%steps_changes H2%steps_changes. pose proof (changes_trans _ _ _ H1 H2) as H3.
  assert (Ht : trees_inv ps') by exact (changes_trees _ _ H3 no_pools_trees).
  split; [exact Ht|]. split; [exact (changes_keys _ _ H3 no_pools_keys)|].
  split; [intros k info; by apply changes_registry|]. intros aid d root gen. unfold mixerHasHistoricalRoot.
  destruct (poolMerkleTrees ps' !! poolKey aid d gen) as [t|] eqn:Et; [|intros [=]]. intros Hr%bool_decide_eq_true.
  destruct (historical_prefix t root (Ht _ _ Et) Hr) as (n & Hn & Hf & E). exists t, n. exact (conj eq_refl (conj Hn (conj Hf E))).
Qed.

(** ** Leaves *)

(** C9: a deposit the client believes burns a note of the pool's asset.  It is a
    confirmed-or-pending transaction whose second input spends a note, and its kernel verifies under
    the excess of that note over the denomination; with a 64-bit amount behind the note
    and the excess's discrete logarithm known to the depositor, the amount is the
    denomination, or there is a relation between the generators.  The leaf is 32 bytes. *)
Theorem deposit_backed `{SL : !SecpLaws} t aid denom leaf h :
  verifyMixerDepositKernelOnChain t aid denom leaf h = Ok (Some true) →
  blen leaf = 32 ∧ ∃ d C E msg, deposit_of t aid denom leaf d ∧ height_differs h (dep_tx d) = false ∧
    bytesToPoint (dep_note d).2 = Ok C ∧ deposit_excess C denom = Ok E ∧ E ≠ ZERO ∧
    computeDepositKernelMsg (dep_asset d) denom (rev (txid (in_prev (dep_input d)))) (vout (in_prev (dep_input d))) leaf = Ok msg ∧
    verifySchnorr (dep_sig d) msg (xonly E) = Ok true ∧
    ∀ v r e, 0 <= v < 2 ^ 64 → 0 < denom < 2 ^ 64 → C = commit v r → E = smul e G →
      v = denom ∨ relation (v - denom) (e - r).
Proof.
  intros Ht. split; [by eapply deposit_leaf_32|]. destruct (deposit_true _ _ _ _ _ Ht) as (d & C & E & msg & Hd & Hh & HC & HE & Hz & Hm & Hv).
  exists d, C, E, msg. split_and!; try assumption. intros v r e Hv64 Hd64 EC EE. by eapply deposit_conserves.
Qed.

(** C13: what the bridge's leaves are checked for.  A proof of a bridge deposit is the
    transaction's alone: two leaves that name the same transaction are answered alike,
    and an answer once kept is given for every pool; a transaction that cannot be
    fetched counts as a forged leaf; an import of matching network, asset and
    denomination is believed on its own word; and a leaf of a wrong length, once in a
    tree, is never left out of it and no root is computed again. *)
Theorem bridge_leaf_unbound r r' id aid aid' d d' ctx ctx' ps :
  lr_deposit_txid r = Some id → lr_deposit_txid r' = Some id →
  (bridgeProofCache ps !! cache_key r id = None → bridgeProofCache ps !! cache_key r' id = None →
   (_verifyBridgeDepositProof r aid d ctx ps).1 = (_verifyBridgeDepositProof r' aid d ctx ps).1) ∧
  (∀ ok, bridgeProofCache ps !! cache_key r id = Some ok →
   _verifyBridgeDepositProof r aid d ctx ps = (Some ok, ps) ∧ _verifyBridgeDepositProof r aid' d' ctx' ps = (Some ok, ps)) ∧
  (∀ leaf dtxid, leaf_kind r = Some "bridge_deposit"%string → getTx id = None → bridgeProofCache ps !! cache_key r id = None →
   check_leaf r aid d leaf dtxid ctx ps = (Some false, ps)) ∧
  (∀ tx x, getTx id = Some tx → bridge_payload T_BRIDGE_IMPORT tx = Some (encodeTBridgeImportPayload x) →
   import_fits x → im_networkTag x = (if onSignet then 1 else 0) → bytesToHex (im_assetId x) = toLowerCase aid →
   unbe (im_denomWei x) = d → lr_leaf_commitment r = Some (bytesToHex (im_newCommitment x)) →
   _verifyBridgeRotateImportLeaf r aid d "bridge_import" ctx ps = Ok (Some true)) ∧
  (∀ t leaf, ¬ Forall is32 (leaves t) →
   (∃ e, (append_leaf t leaf).1 = Throw e) ∧ roots (append_leaf t leaf).2 = roots t ∧ rootHistory (append_leaf t leaf).2 = rootHistory t).
Proof.
  intros Hr Hr'. split; [by apply bridge_deposit_any_leaf|]. split; [intros ok Hc; split; by eapply bridge_deposit_cached|].
  split; [intros leaf dtxid Hk; by apply bridge_deposit_missing|].
  split; [intros tx x; by apply bridge_import_unproved|].
  intros t leaf. apply append_leaf_frozen.
Qed.

(** ** Withdrawals *)

(** C7: when a withdrawal is accepted.  Exactly when it is output 0, its payload decodes, its pool is
    registered with the canonical key and ceremony, the root it names is one the tree
    has had, its commitment is to the denomination, its proof verifies, no other
    transaction holds the nullifier unrefuted and the pool's reserve is not exhausted.
    Then its transaction owns the nullifier, registry and trees are unchanged, and the
    pool counts no more nullifiers than leaves.  The note is worth the denomination. *)
Theorem withdraw_settles `{SL : !SecpLaws} key payload s s' (us := bytesToHex (txid key)) :
  (withdraw_handler key payload s = (Ok true, s') ↔
   ∃ d ps, vout key = 0 ∧ TWithdraw.decodeTWithdrawPayload payload = Ok d ∧ withdraw_ok d (mixer s) ∧
     settled d us (mixer s) = Some ps ∧ s' = accepted_state key ps s) ∧
  (∀ d, withdraw_handler key payload s = (Ok true, s') → TWithdraw.decodeTWithdrawPayload payload = Ok d →
   let k := poolKey (bytesToHex (assetId d)) (denomination d) "" in
   (∃ o, nullifier_owner k (nullifierHash d) (mixer s') = Some o ∧ toLowerCase o = us) ∧
   poolRegistry (mixer s') = poolRegistry (mixer s) ∧ poolMerkleTrees (mixer s') = poolMerkleTrees (mixer s) ∧
   spent_count k (mixer s') <= leaf_bound (poolMerkleTrees (mixer s') !! k) ∧
   bytesToPoint (recipientCommitment d) = Ok (commit (denomination d) (unbe (rLeaf d) mod SECP_N))).
Proof.
  split.
  - split; [apply withdraw_true|]. intros (d & ps & Hv & Hd & Hok & Hs & ->).
    pose proof (withdraw_run key payload d s Hv Hd Hok) as Hrun. fold us in Hrun. by rewrite Hs in Hrun.
  - intros d E Hd k. apply withdraw_true in E as (d' & ps & _ & Hd' & Hok & Hs & ->). rewrite Hd in Hd'. injection Hd' as <-.
    cbn [mixer accepted_state]. destruct (settled_keeps _ _ _ _ Hs) as [Hreg Htr].
    split; [exact (settled_owner _ _ _ _ (bytesToHex_lower (txid key)) Hs)|]. split; [exact Hreg|]. split; [exact Htr|].
    split; [exact (settled_reserve _ _ _ _ Hs)|]. by apply recipient_commits, Hok.
Qed.

(** C8: a nullifier is withdrawn once, as it is spelled.  After a withdrawal the chain
    confirms, and any sequence of operations on the pools, no withdrawal of the same asset,
    denomination and nullifier by another transaction is accepted, and the attempt leaves
    the pools as they are.  But a nullifier below 10^64 whose 32 bytes contain a letter in
    hexadecimal has a second spelling, its decimal digits as 32 bytes: the verifier
    cannot tell the two apart, and marking the first leaves the second unspent. *)
Theorem withdraw_once `{GL : !Groth16Laws} :
  (∀ key payload d s s' key2 payload2 d2 s2,
   withdraw_handler key payload s = (Ok true, s') → TWithdraw.decodeTWithdrawPayload payload = Ok d →
   withdrawal_tx (txid key) payload → rtc mixer_step (mixer s') (mixer s2) →
   TWithdraw.decodeTWithdrawPayload payload2 = Ok d2 →
   assetId d2 = assetId d → denomination d2 = denomination d → nullifierHash d2 = nullifierHash d → txid key2 ≠ txid key →
   (withdraw_handler key2 payload2 s2).1 = Ok false ∧ mixer (withdraw_handler key2 payload2 s2).2 = mixer s2) ∧
  (∀ v, 0 <= v < 10 ^ 64 → spelled_in_letters v →
   be 32 v ≠ bcd 32 v ∧
   (∀ vk root d rl bh proof, blen root = 32 → blen rl = 32 → 0 <= d →
    verifyMixerProof vk (mixer_inputs root (be 32 v) d rl bh) proof =
    verifyMixerProof vk (mixer_inputs root (bcd 32 v) d rl bh) proof) ∧
   (∀ aid d owner ps, mixerIsNullifierSpent aid d (bcd 32 v) "" (mixerMarkNullifierSpent aid d (be 32 v) owner "" ps) =
      mixerIsNullifierSpent aid d (bcd 32 v) "" ps)).
Proof.
  split.
  - intros key payload d s s' key2 payload2 d2 s2 E Hd Ht Hch%steps_changes Hd2 Ea Ed En Hne.
    destruct (withdrawn_once _ _ _ _ _ _ E Hd Ht Hch) as (o & Hst & Hlow).
    rewrite <- Ea, <- Ed, <- En in Hst. eapply withdraw_refused; [done|exact Hst|]. rewrite Hlow. intros E2%(inj bytesToHex). congruence.
  - intros v Hv Hs. destruct (two_spellings v Hv Hs) as (Hne & E1 & E2). split; [exact Hne|]. split.
    + intros vk root d rl bh proof Hr Hl Hd. by apply same_number_same_verdict; rewrite ?blen_be, ?blen_bcd, ?E1, ?E2.
    + intros aid d owner ps. by apply mark_other.
Qed.
End props.

(** ** Witnesses *)
#[local] Existing Instance mixer_chain.

Lemma leaves_32 : Forall is32 [leaf1; leaf2].
Proof. repeat constructor. Qed.
Lemma merkle_tree_witness :
  Forall is32 [leaf1; leaf2] ∧
  (∃ p, merkle_proof_of [leaf1; leaf2] leaf2 = Ok (Some p) ∧ [leaf1; leaf2] !! mp_leafIndex p = Some leaf2) ∧
  merkle_proof_of [leaf1; leaf2] leaf3 = Ok None ∧ ∃ e, computePoolRoot [[]] = Throw e.
Proof.
  split; [exact leaves_32|]. destruct (proj1 (merkle_tree [leaf1; leaf2]) leaves_32) as (_ & Hin & Hout & _); [vm_compute; intros [=]|].
  split; [|split].
  - destruct (Hin leaf2) as (p & Hp & Hl & _); [by right; left|]. exists p. exact (conj Hp Hl).
  - apply Hout. intros [E|[E|[]%elem_of_nil]%elem_of_cons]%elem_of_cons; discriminate.
  - apply (merkle_tree [[]]). intros [E _]%Forall_cons. discriminate.
Defined.

Lemma pool_steps : rtc mixer_step no_pools pool_state.
Proof.
  unfold pool_state. cbv zeta. eapply rtc_l; [apply step_register|]. eapply rtc_l; [apply step_append|].
  apply rtc_once, step_append.
Qed.
Lemma run1_true : withdraw_handler note1 payload1 (mixed_state pool_state) = (Ok true, run1.2).
Proof. rewrite <- (proj1 both_withdrawn). exact (surjective_pairing run1). Qed.
Lemma run1_trees : poolMerkleTrees (mixer run1.2) = poolMerkleTrees pool_state.
Proof.
  destruct (withdraw_true _ _ _ _ run1_true) as (d & ps & _ & _ & _ & Hs & E). rewrite E. exact (proj2 (settled_keeps _ _ _ _ Hs)).
Qed.
Lemma the_root_known : mixerHasHistoricalRoot (bytesToHex token) denom5 the_root "" (mixer run1.2) = true.
Proof. unfold mixerHasHistoricalRoot. rewrite run1_trees. vm_compute. reflexivity. Qed.
Lemma pool_trees_invariant_witness :
  rtc mixer_step no_pools pool_state ∧
  ∃ t n, poolMerkleTrees (mixer run1.2) !! the_pool = Some t ∧ (0 < n <= length (leaves t))%nat ∧
    computePoolRoot (take n (leaves t)) = Ok the_root.
Proof.
  split; [exact pool_steps|].
  destruct (pool_trees_invariant pool_state (mixer run1.2) pool_steps) as (_ & _ & _ & Hr).
  - apply rtc_once, (step_withdraw (mixed_state pool_state)).
  - destruct (Hr (bytesToHex token) denom5 the_root ""%string) as (t & n & Ht & Hn & _ & E); [exact the_root_known|].
    exists t, n. exact (conj Ht (conj Hn E)).
Defined.


Lemma deposit_backed_witness :
  blen leaf1 = 32 ∧ ∃ d, deposit_of (CH := deposit_chain) (bytesToHex deposit_id) (bytesToHex asset) denom5 leaf1 d.
Proof.
  destruct (deposit_backed (CH := deposit_chain) _ _ _ _ _ deposit_believed) as (Hl & d & _ & _ & _ & Hd & _).
  split; [exact Hl|]. exists d. exact Hd.
Defined.

(** a second leaf that names the import's transaction *)
Definition import_again : leaf_rec := reported leaf1 import_id (Some "bridge_import"%string).
Lemma the_import_fits : import_fits the_import.
Proof. unfold import_fits. split_and!; done. Qed.
Lemma bridge_leaf_unbound_witness :
  (_verifyBridgeDepositProof (CH := deposit_chain) imported (bytesToHex token) denom5 None pool_state).1 =
    (_verifyBridgeDepositProof (CH := deposit_chain) import_again (bytesToHex token) denom5 None pool_state).1 ∧
  _verifyBridgeRotateImportLeaf (CH := deposit_chain) imported (bytesToHex token) denom5 "bridge_import" None pool_state = Ok (Some true).
Proof.
  destruct (bridge_leaf_unbound (CH := deposit_chain) imported import_again (bytesToHex import_id) (bytesToHex token) (bytesToHex token)
    denom5 denom5 None None pool_state eq_refl eq_refl) as (Hany & _ & _ & Himp & _). split.
  - apply Hany; vm_compute; reflexivity.
  - apply (Himp import_tx the_import); try exact the_import_fits; vm_compute; reflexivity.
Defined.

Definition spend1 : spend := Eval vm_compute in
  match TWithdraw.decodeTWithdrawPayload payload1 with Ok d => d | _ => Spend [] 0 [] [] [] [] [] [] end.
Lemma payload1_decodes : TWithdraw.decodeTWithdrawPayload payload1 = Ok spend1.
Proof. vm_compute. reflexivity. Qed.
Lemma tx1_withdraws : withdrawal_tx tx1_id payload1.
Proof.
  split; [reflexivity|]. exists (tx_of payload1), (Envelope (zeros 32) T_WITHDRAW payload1).
  split_and!; vm_compute; reflexivity.
Qed.

Lemma withdraw_settles_witness :
  withdraw_ok spend1 (mixer (mixed_state pool_state)) ∧ (∃ o, nullifier_owner the_pool (be 32 the_nullifier) (mixer run1.2) = Some o) ∧
  bytesToPoint recipient = Ok (commit denom5 (unbe r_leaf mod SECP_N)).
Proof.
  destruct (withdraw_settles note1 payload1 (mixed_state pool_state) run1.2) as [Hiff Hafter].
  destruct (proj1 Hiff run1_true) as (d & ps & _ & Hd & Hok & _). rewrite payload1_decodes in Hd. injection Hd as <-.
  destruct (Hafter spend1 run1_true payload1_decodes) as ((o & Ho & _) & _ & _ & _ & Hc).
  split; [exact Hok|]. split; [exists o; exact Ho|exact Hc].
Defined.

Lemma withdraw_once_witness :
  (withdraw_handler note2 payload1 run1.2).1 = Ok false ∧ be 32 the_nullifier ≠ bcd 32 the_nullifier ∧
  verifyMixerProof (Some CANONICAL_VK_CID) (mixer_inputs the_root (be 32 the_nullifier) denom5 r_leaf r_leaf) the_proof =
    verifyMixerProof (Some CANONICAL_VK_CID) (mixer_inputs the_root (bcd 32 the_nullifier) denom5 r_leaf r_leaf) the_proof ∧
  run1.1 = Ok true ∧ run2.1 = Ok true.
Proof.
  destruct withdraw_once as [Honce Htwice]. split.
  - apply (Honce note1 payload1 spend1 (mixed_state pool_state) run1.2 note2 payload1 spend1 run1.2 run1_true payload1_decodes
      tx1_withdraws ltac:(apply rtc_refl) payload1_decodes eq_refl eq_refl eq_refl).
    intros E. discriminate.
  - destruct (Htwice the_nullifier) as (Hne & Hv & _); [by split|vm_compute; reflexivity|].
    split; [exact Hne|]. split; [apply Hv; [reflexivity|reflexivity|discriminate]|exact both_withdrawn].
Defined.
