(* ===== verification/LaunchProps.v ===== *)
(** * What fair launches, drops and airdrops guarantee

    The properties of the indexer's credit lists, of the client's verdicts on them and of
    the validator over these services, from the lemmas of [LaunchFacts], [LaunchCheck],
    [LaunchSound] and [LaunchDrops]; witnesses on the launch and the drop of
    [LaunchModel]. *)
From Stdlib Require Import Ascii Sorted.
From stdpp Require Import strings pretty.
From S2P Require Import Prelude Bytes Text Crypto EnvelopeScript CodecTransfer CodecIssue CodecPool CodecSlots CodecAmm.
From S2P Require Import Messages Curve CurveModel Hex Merkle Mixer MixerProof CodecBridge Kernel Notes MixerLeaf Handlers Validator WalkFacts ValidSpec ValidShape ValidSound ValidComplete ValidFacts.
From S2P Require Import MixerWithdraw MixerFacts ChainModel MixerModel BatchGrows LaunchIndex Airdrop AirdropFacts AirdropText LaunchClient LaunchOrder LaunchFacts LaunchSteps LaunchCheck LaunchSound LaunchDrops LaunchModel.

Section launches.
Context `{Hash} {SE : Secp} {CH : Chain} {MC : MixerChain} {LC : LaunchChain} {EK : EthKeys}.
Variable chain : Z → list bytes.
Hypothesis small : small_blocks chain.

(** ** The indexer *)

(** C15: who is credited.  Of a launch's mints on record, the annotated list and the
    progress snapshot the indexer serves credit the same ones: the first [cap / limit] of
    those confirmed three deep, in the order of the chain, each transaction once; the
    next ones overflow.  Their amounts fit the cap.  And no later scan, at no later tip,
    credits another in their place: the list only grows at its end. *)
Theorem launch_credit f ix aid petch :
  rtc (launch_tick chain) (1, empty_index) (f, ix) → petches ix !! aid = Some petch →
  let ps := keys_at aid (pmints ix) in
  let credit tip := credit_list tip (pt_cap petch) (pt_limit petch) ps in
  let over tip := overflow_list tip (pt_cap petch) (pt_limit petch) ps in
  (∀ pages tip r, concat pages = ps → loadCanonicalPmints pages (Some tip) (pt_cap petch) (pt_limit petch) = r →
     canonical_truncated r = false →
     map fst (events r) = ps ∧ with_status credited (events r) = credit tip ∧ with_status cap_overflow (events r) = over tip ∧
     cp_count r = Z.of_nat (length (credit tip)) ∧ cp_amount r = cp_count r * pt_limit petch) ∧
  (∀ pages oc sh tip sn, concat pages = ps → refreshPetchProgress pages oc sh (Some tip) petch = Some sn → sn_truncated sn = false →
     credited_count sn = Z.of_nat (length (credit tip)) ∧ credited_amount sn = credited_count sn * pt_limit petch ∧
     last_credited sn = last (credit tip) ∧ cap_overflow_count sn = Z.of_nat (length (over tip)) ∧
     cap_overflow_txids sn = take CAP_OVERFLOW_TXIDS_MAX (map p_txid (over tip))) ∧
  (∀ tip, Z.of_nat (length (credit tip)) * pt_limit petch <= pt_cap petch ∧ NoDup (map p_txid (credit tip)) ∧
     StronglySorted (λ p q, chain_compare p q = Lt) (credit tip) ∧ Forall (λ p, placed chain p ∧ is_deep tip p) (credit tip)) ∧
  (∀ f' ix' tip tip', rtc (launch_tick chain) (f, ix) (f', ix') → tip <= tip' → tip <= f + 1 →
     credit tip `prefix_of` credit_list tip' (pt_cap petch) (pt_limit petch) (keys_at aid (pmints ix'))).
Proof.
  intros Hr Hp. destruct (from_start chain small f ix Hr) as [Hi _]. pose proof Hi as (Hk & _ & _ & _ & Ht).
  destruct (petch_terms chain aid petch (Ht aid petch Hp)) as [[Hl Hc] _]. destruct (Hk aid) as [Hok Hpl]. cbv zeta. split; [|split; [|split]].
  - intros pages tip r E <- Hw. destruct (load_exact pages tip (pt_cap petch) (pt_limit petch)) as (E1 & E2 & E3 & E4 & E5); [lia..|done|].
    rewrite (on_chain_all (concat pages)), E in E1, E2, E3, E4 by (rewrite E; apply Hok). done.
  - intros pages oc sh tip sn E Hs Hw. destruct (snapshot_exact pages oc sh tip petch sn) as (E1 & E2 & E3 & E4 & _ & E5 & _); [lia..|done|done|].
    rewrite (on_chain_all (concat pages)), E in E1, E3, E4, E5 by (rewrite E; apply Hok). done.
  - intros tip. split; [apply credited_fits; lia|]. pose proof (firsts_NoDup ∅ (filter (is_deep tip) (keys_at aid (pmints ix)))) as Hn.
    pose proof (credits_in_order chain tip (pt_cap petch) (pt_limit petch) _ (conj Hok Hpl)) as [Hs Ha].
    split; [|exact (conj Hs Ha)]. unfold credit_list. rewrite <- firstn_map. eapply sublist_NoDup; [exact Hn|apply sublist_take].
  - intros f' ix' tip tip' Hr' Ht1 Ht2. by apply (credits_grow chain small f ix f').
Qed.

(** C16: which mints become notes of the client.  Against a snapshot of the index taken
    near the scan, a mint with a key is answered true exactly when it meets the
    rules of its launch and is among the credited; one that is refused is never credited
    by any later scan.  But a mint without a key that comes before the last credited one
    is answered true when it meets the rules, though the indexer credits it nowhere. *)
Theorem mint_verdict f ix aid petch pages oc sh tip sn key tx payload d p s :
  one_place chain → rtc (launch_tick chain) (1, empty_index) (f, ix) → petches ix !! aid = Some petch → tip <= f + 1 →
  concat pages = keys_at aid (pmints ix) → refreshPetchProgress pages oc sh (Some tip) petch = Some sn → sn_truncated sn = false →
  _fetchPmintCredited aid = Some (slim_credit (Some sn)) → CPmint.decodeCPmintPayload payload = Ok d → CPmint.assetId d = aid →
  found_at chain tx p → txid key = p_txid p →
  let credit := credit_list tip (pt_cap petch) (pt_limit petch) (keys_at aid (pmints ix)) in
  let accepted := pmint_handler key tx payload s = (Ok true, valid_state key s) in
  let rules := ∃ etch, mint_rules key tx payload d etch (p_height p) in
  (p ∈ keys_at aid (pmints ix) → accepted ↔ rules ∧ p ∈ credit) ∧
  (credit_verdict (slim_credit (Some sn)) tx (txid key) (p_height p) = Refused →
   ∀ f' ix' tip', rtc (launch_tick chain) (f, ix) (f', ix') → tip <= tip' →
     p ∉ credit_list tip' (pt_cap petch) (pt_limit petch) (keys_at aid (pmints ix'))) ∧
  (p ∉ keys_at aid (pmints ix) → ∀ q, last credit = Some q → p_height p < p_height q → p ∉ credit ∧ (accepted ↔ rules)).
Proof.
  intros Ho Hr Hp Ht Ek Hs Hw Hf Hd Ha Hat Ek1. destruct (from_start chain small f ix Hr) as [Hi _]. pose proof Hi as (Hk & _ & _ & _ & Hte).
  pose proof (petch_terms chain aid petch (Hte aid petch Hp)) as Hterms. pose proof (Hk aid) as Hkeys. rewrite <- Ek in *. pose proof (proj1 (proj2 Hat)) as Hh. cbv zeta.
  rewrite Ek1. split; [|split].
  - intros Hin. rewrite (accepted_iff key tx payload d p s) by done. rewrite Ha, Ek1.
    rewrite <- (verdict_credited chain pages oc sh tip petch sn Ho Hterms Hkeys Hs Hw tx p Hat Hin). naive_solver.
  - intros Hv f' ix' tip' Hr' Ht'. destruct (verdict_refused chain pages oc sh tip petch sn Ho Hterms Hkeys Hs Hw tx p Hat Hv) as [Hn Hfull].
    rewrite Ek in Hn, Hfull. by rewrite (credits_final chain small f ix f' ix' aid tip tip').
  - intros Hn q Hl Hlt. destruct (verdict_unindexed chain pages oc sh tip petch sn Ho Hterms Hkeys Hs Hw tx p q Hat Hn Hl Hlt) as [Hv Hc].
    split; [exact Hc|]. rewrite (accepted_iff key tx payload d p s) by done. rewrite Ha, Ek1. naive_solver.
Qed.

(** C17: which mints get a key.  With the launch on record and its entry not read too
    early, the scan writes the key of a mint it comes to exactly when the mint meets the client's
    rules, on a chain whose transactions the client finds at the scan's heights.  But
    when a mint that names the launch is scanned before it, its absence is remembered: no
    mint of that launch gets a key in the rest of that scan, even after the launch is
    recorded. *)
Theorem mint_indexed `{!HashLen} :
  (∀ f ix cache r key tx payload d h i t,
   rtc (launch_tick chain) (1, empty_index) (f, ix) → CPmint.decodeCPmintPayload payload = Ok d →
   let aid := assetIdFor (CPmint.etchTxid d) 0 in
   petches ix !! aid = Some r → cache !! aid = None ∨ cache !! aid = Some (Some r) →
   (∀ t', is_Some (fetchTx t') → assetIdFor t' 0 = aid → t' = CPmint.etchTxid d) → dated chain →
   vout key = 0 → tx_height tx = Some h →
   (pmint_branch h i t payload ix cache).1 = [PutPmint aid (Pos h i t)] ↔ ∃ etch, mint_rules key tx payload d etch h) ∧
  (∀ h i t payload ix ix' cache d,
   CPmint.decodeCPmintPayload payload = Ok d → assetIdFor (CPmint.etchTxid d) 0 = CPmint.assetId d →
   petches ix !! CPmint.assetId d = None → cache !! CPmint.assetId d = None →
   let cache' := (pmint_branch h i t payload ix cache).2 in
   ∀ h' i' t' payload' d', CPmint.decodeCPmintPayload payload' = Ok d' → CPmint.assetId d' = CPmint.assetId d →
     pmint_branch h' i' t' payload' ix' cache' = ([], cache')).
Proof.
  split.
  - intros f ix cache r key tx payload d h i t Hr Hd aid Hp Hc Hone Hdated Hv Hh.
    destruct (from_start chain small f ix Hr) as [(_ & _ & _ & _ & Hte) _].
    exact (mint_keyed chain key tx payload d h i t ix cache r Hd Hv Hh Hp Hc (Hte _ _ Hp) Hone Hdated).
  - intros h i t payload ix ix' cache d. apply unknown_for_the_scan.
Qed.

(** ** Drops *)

(** C18: a drop pays out what it holds.  When the client accepts the depositor's reclaim,
    on the indexer's record and progress of the drop at that moment: the reclaimed
    amount and the claims credited now or by any later scan, each one once, add up to
    the drop's cap; the reclaim on record stands; and the drop's transaction signs its
    terms under the excess of the notes it spends over the cap, so, openings and discrete
    logarithm known, these notes are worth the cap, or there is a relation between the
    generators. *)
Theorem drop_accounts `{SL : !SecpLaws} `{!ChainLaws} svc validate `{!ValidateLaws svc validate}
    f1 ix1 f2 ix2 id d pages1 tip1 key tx env asset cap sig s s' :
  rtc (launch_tick chain) (1, empty_index) (f1, ix1) → rtc (launch_tick chain) (f1, ix1) (f2, ix2) → drops ix1 !! id = Some d →
  (∀ t, t ≠ dr_txid d → is_Some (fetchTx t) → dropIdFromRevealTxid t ≠ id) → concat pages1 = keys_at id (dclaims ix1) →
  dropMeta id = Some (DropServed d (drop_progress pages1 (Some (f1 - 1)) (Some tip1) d) (rr_txid <$> drop_reclaims ix1 !! id)) →
  sound svc s → reclaim_handler validate key tx env asset cap id sig s = (Ok true, s') →
  (∀ pages2 tip2 l, concat pages2 = keys_at id (dclaims ix2) → tip1 <= tip2 →
     loadCreditedDclaims pages2 (Some tip2) (dr_cap d) (dr_per d) = Some l →
     cap + Z.of_nat (length l) * dr_per d = dr_cap d ∧ NoDup l) ∧
  (∃ r, drop_reclaims ix1 !! id = Some r ∧ rr_txid r = txid key ∧
     (one_place chain → rr_height r < f1 → drop_reclaims ix2 !! id = Some r)) ∧
  (∃ dropTx dt Ps msg, let E := add (foldl add ZERO Ps) (negate (smul (dr_cap d) H)) in
     fetchTx (dr_txid d) = Some dropTx ∧ drop_of_tx dropTx = Some dt ∧
     Forall2 (input_note (dr_asset d)) (funding_inputs dropTx (do_inputs dt)) Ps ∧
     dropKernelMsg (DropTerms (dr_asset d) (dr_cap d) (dr_per d) (dr_root d) (do_expiry dt) (do_inputs dt))
       (funding_inputs dropTx (do_inputs dt)) = Ok msg ∧
     verifySchnorr (do_sig dt) msg (xonly E) = Ok true ∧
     ∀ vis e, Ps = map (λ o, commit o.1 o.2) vis → amounts_u64 vis → E = smul e G →
       total_v vis = dr_cap d ∨ relation (total_v vis - dr_cap d) (e - total_r vis)).
Proof.
  intros Hr1 Hr2 Hd Hone Ek Hm Hs E.
  destruct (reclaim_true svc validate fetch_vout key tx env asset cap id sig s s' Hs E) as (m & dropTx & dt & s1 & Hsh & _).
  destruct Hsh as (Hm' & _ & Hx & _ & Hlc & Hdec & Hcap & _ & Hf & Hrec & Hdt & Hfund & _). rewrite Hm in Hm'. injection Hm' as <-.
  cbn [ds_record ds_progress ds_reclaimed] in *. split; [|split].
  - intros pages2 tip2 l E2 Ht Hl.
    destruct (drop_conserves chain small f1 ix1 f2 ix2 id d Hr1 Hr2 Hd Hone Hx pages1 tip1 pages2 tip2 l Ek E2 Ht Hlc Hdec Hl) as [En Hn].
    split; [lia|exact Hn].
  - apply fmap_Some in Hrec as (r & Hr & ->). exists r. split; [exact Hr|]. split; [reflexivity|].
    intros Ho Hh. by apply (reclaim_stands chain small f1 ix1 f2 ix2 id Hr1 Hr2 r).
  - destruct (from_start chain small f1 ix1 Hr1) as [(_ & _ & Hdr & _) _].
    destruct (drop_record_terms id d dropTx dt (Hdr id d Hd) Hf Hdt) as (Ea & Ec & Ep & Er & H64).
    destruct Hfund as (_ & Ps & capH & msg & HPs & HcH & _ & Hmsg & Hv). rewrite safeMult_Ok in HcH. injection HcH as <-.
    rewrite Ea, Ec, Ep, Er in *. exists dropTx, dt, Ps, msg. cbv zeta. split_and!; try assumption.
    intros vis e -> Hvis. apply funded_conserves; [exact H64|exact Hvis].
Qed.

(** ** Airdrops *)

(** C19: an airdrop pays who is listed and has signed.  For the tree of a list of
    entries every entry has a path to the root; and a claim of the drop with that root
    is eligible only if its transaction pays the claim's recipient, its leaf is a listed entry, or two
    different texts of the list's tree and of its path have one hash, and the address of the leaf has signed the
    claim's text, which is the text of no other leaf or recipient of the drop. *)
Theorem airdrop_claims `{!HashLen} entries root layers :
  Forall entry_ok entries → buildAirdropMerkle (map leaf_of entries) = Ok (root, layers) →
  (∀ i e, entries !! i = Some e → ∃ proof, airdropMerkleProof layers i = Ok proof ∧ verifyAirdropMerkleProof (leaf_of e) proof root = true) ∧
  (∀ tx d w, do_root d = root → all_zero (take 32 root) = false → eligible_claim tx d (Some w) = true →
     let e := Entry (CDClaim.ethAddress w) (do_per d) (CDClaim.leafIndex w) in
     (e ∈ entries ∨ collide (tree_pres entries layers) (leaf_pre e :: path_pres (leaf_of e) (CDClaim.proofPath w))) ∧
     (∃ o, head (tx_vout tx) = Some o ∧ out_script o = [x00; x14] ++ hash160 (CDClaim.recipientPub w)) ∧
     ∃ tk dc msg, claim_name d = Some (tk, dc) ∧ buildAirdropClaimMsg (claim_terms_of d w tk dc) = Ok msg ∧
       recoverEthAddrFromSig msg ("0x" +:+ bytesToHex (CDClaim.ethSig w)) = Ok (bytesToHex (CDClaim.ethAddress w)) ∧
       ∀ w', buildAirdropClaimMsg (claim_terms_of d w' tk dc) = Ok msg →
         CDClaim.ethAddress w' = CDClaim.ethAddress w ∧ CDClaim.leafIndex w' = CDClaim.leafIndex w ∧
         CDClaim.recipientPub w' = CDClaim.recipientPub w) ∧
  (∀ tx d, all_zero (take 32 root) = false → do_root d = root → eligible_claim tx d None = false).
Proof.
  intros Hes Hb. split; [|split].
  - intros i e He. apply (airdrop_path (map leaf_of entries) root layers i (leaf_of e) Hb). by rewrite list_lookup_fmap, He.
  - intros tx d w Hr Hz. unfold eligible_claim. rewrite Hr, Hz. intros Hw.
    destruct (witness_true tx d w Hw) as (o & leaf & tk & dc & msg & Ho & Hsc & Hl & Hv & Hn & Hm & Hsig). cbv zeta.
    apply airdropLeafHash_entry in Hl as [Hok ->]. rewrite Hr in Hv. split; [by eapply airdrop_listed|].
    split; [by exists o|]. exists tk, dc, msg. split_and!; try done. intros w' Hm'. by apply (claim_text_once d w' w tk dc msg).
  - intros tx d Hz Hr. unfold eligible_claim. by rewrite Hr, Hz.
Qed.
End launches.

(** ** The validator over these services *)
Section services.
Context `{Hash} {SE : Secp} {CH : Chain} {MC : MixerChain} {LC : LaunchChain} {EK : EthKeys} {GR : Groth16} {PO : Poseidon} `{!ChainLaws}.

Lemma withdrawals_grow (rest : Service) :
  (∀ key tx e, grows (rest key tx e)) → ∀ key tx e, grows (with_withdrawals rest key tx e).
Proof.
  intros Hr key tx e. unfold with_withdrawals. destruct (_ =? _); [|apply Hr]. apply grows_same. intros s.
  destruct (withdraw_handler key (env_payload e) s) as [r s'] eqn:E. exact (proj2 (withdraw_maps _ _ _ _ _ E)).
Qed.

(** C14: the validator over fair mints, drops, claims and mixer withdrawals.  Each drop's
    funding notes are validated by the validator itself, to any depth.  What it answers
    true for derives from etches, mints, kernel-checked transfers, credited
    fair mints, claims and reclaims of drops funded with notes that derive likewise,
    and withdrawals whose proof was verified, once the other services keep to their own
    notes. *)
Theorem validator_with_services (svc : outpoint → Prop) (rest : Service) `{!ServiceLaws (SV := rest) (creditable svc)} n fuel root s r s' :
  (∀ key tx e, grows (rest key tx e)) → (∀ k, withdrawn k → svc k) → 0 <= vout root → sound (creditable svc) s →
  validateOutpoint (SV := launch_services n fuel (with_withdrawals rest)) fuel root s = Some (r, s') →
  sound (creditable svc) s' ∧ (r = Ok true → batch_ok s' → valid (creditable svc) root).
Proof.
  intros Hg Hw Hv Hs E.
  pose proof (withdrawals_laws (creditable svc) rest (λ k Hk, creditable_other svc k (Hw k Hk)) _) as HL.
  exact (launches_sound svc (with_withdrawals rest) (withdrawals_grow rest Hg) n fuel root s r s' Hv Hs E).
Qed.
End services.

(** ** Witnesses *)
#[local] Existing Instance launches.
#[local] Existing Instance launch_blocks.
#[local] Existing Instance launch_answers.
#[local] Existing Instance launch_vouts.

Definition launch_snapshot : snapshot := Eval vm_compute in
  default (Snapshot 0 0 0 [] false 0 0 None 0 None false false) taken.
Lemma launch_taken : refreshPetchProgress mint_pages 0 (Some 10) (Some 10) the_petch = Some launch_snapshot.
Proof. vm_compute. reflexivity. Qed.
Lemma mint_pages_whole : concat mint_pages = keys_at launch_asset (pmints records).
Proof. unfold mint_pages. cbn [concat]. by rewrite app_nil_r. Qed.
Lemma launch_credit_witness :
  credited_count launch_snapshot = Z.of_nat (length (credit_list 10 20 10 [mint1_at; mint2_at; mint3_at])) ∧
  credit_list 10 20 10 [mint1_at; mint2_at; mint3_at] `prefix_of`
    credit_list 11 20 10 (keys_at launch_asset (pmints (tick launch_chain 11 1 0 records).2)).
Proof.
  destruct (launch_credit launch_chain launch_small 11 records launch_asset the_petch ticks_to_now petch_recorded) as (_ & Hs & _ & Hg).
  rewrite mints_recorded in Hs, Hg. split.
  - apply (Hs mint_pages 0 (Some 10) 10 launch_snapshot); [rewrite mint_pages_whole; exact mints_recorded|exact launch_taken|reflexivity].
  - apply (Hg 12 _ 10 11 ticks_onward); lia.
Defined.

Definition decoded_mint (p : bytes) : CPmint.t := match CPmint.decodeCPmintPayload p with Ok d => d | _ => CPmint.Mk [] [] [] 0 [] end.
Definition mint1 : CPmint.t := Eval vm_compute in decoded_mint mint1_payload.
Definition mint3 : CPmint.t := Eval vm_compute in decoded_mint mint3_payload.
Lemma mint1_found : found_at launch_chain mint1_tx mint1_at.
Proof. unfold found_at, placed, in_columns. cbn [p_height p_index]. split_and!; try lia; reflexivity. Qed.
Lemma mint3_found : found_at launch_chain mint3_tx mint3_at.
Proof. unfold found_at, placed, in_columns. cbn [p_height p_index]. split_and!; try lia; reflexivity. Qed.
Lemma mint1_accepted : pmint_handler (Outpoint mint1_id 0) mint1_tx mint1_payload empty_state =
  (Ok true, valid_state (Outpoint mint1_id 0) empty_state).
Proof.
  destruct (pmint_handler (Outpoint mint1_id 0) mint1_tx mint1_payload empty_state) as [r s'] eqn:E.
  assert (Er : (pmint_handler (Outpoint mint1_id 0) mint1_tx mint1_payload empty_state).1 = Ok true) by (vm_compute; reflexivity).
  rewrite E in Er. cbn [fst] in Er. subst r. pose proof (proj1 (pmint_true _ _ _ _ _) E) as (_ & _ & _ & _ & _ & _ & _ & ->). reflexivity.
Qed.
Lemma mints_served : _fetchPmintCredited launch_asset = Some (slim_credit (Some launch_snapshot)).
Proof. vm_compute. reflexivity. Qed.
Lemma mint1_decodes : CPmint.decodeCPmintPayload mint1_payload = Ok mint1.
Proof. vm_compute. reflexivity. Qed.
Lemma mint3_decodes : CPmint.decodeCPmintPayload mint3_payload = Ok mint3.
Proof. vm_compute. reflexivity. Qed.
Lemma mint_verdict_witness :
  mint1_at ∈ credit_list 10 20 10 (keys_at launch_asset (pmints records)) ∧
  mint3_at ∉ credit_list 11 20 10 (keys_at launch_asset (pmints (tick launch_chain 11 1 0 records).2)).
Proof.
  split.
  - destruct (mint_verdict (LC := launch_answers) launch_chain launch_small 11 records launch_asset the_petch mint_pages 0 (Some 10) 10 launch_snapshot
      (Outpoint mint1_id 0) mint1_tx mint1_payload mint1 mint1_at empty_state launch_one_place ticks_to_now petch_recorded ltac:(lia)
      mint_pages_whole launch_taken eq_refl mints_served mint1_decodes eq_refl mint1_found eq_refl) as (Hin & _).
    refine (proj2 (proj1 (Hin _) mint1_accepted)). rewrite mints_recorded. by left.
  - destruct (mint_verdict (LC := launch_answers) launch_chain launch_small 11 records launch_asset the_petch mint_pages 0 (Some 10) 10 launch_snapshot
      (Outpoint mint3_id 0) mint3_tx mint3_payload mint3 mint3_at empty_state launch_one_place ticks_to_now petch_recorded ltac:(lia)
      mint_pages_whole launch_taken eq_refl mints_served mint3_decodes eq_refl mint3_found eq_refl) as (_ & Hr & _).
    apply (Hr ltac:(vm_compute; reflexivity) 12 _ 11 ticks_onward). lia.
Defined.

(** the scan that saw the mint before its launch *)
Definition seen_early : petch_cache := (pmint_branch 1 0 mint3_id mint3_payload empty_index ∅).2.
Lemma mint_indexed_witness :
  (∃ etch, mint_rules (Outpoint mint1_id 0) mint1_tx mint1_payload mint1 etch 2) ∧
  pmint_branch 2 0 mint1_id mint1_payload records seen_early = ([], seen_early).
Proof.
  destruct (mint_indexed launch_chain launch_small) as [Hkey Hearly]. split.
  - apply (Hkey 11 records ∅ the_petch (Outpoint mint1_id 0) mint1_tx mint1_payload mint1 2 0 mint1_id ticks_to_now).
    + exact mint1_decodes.
    + exact petch_recorded.
    + left. reflexivity.
    + exact one_launch.
    + exact launch_dated.
    + reflexivity.
    + reflexivity.
    + vm_compute. reflexivity.
  - apply (Hearly 1 0 mint3_id mint3_payload empty_index records ∅ mint3 mint3_decodes ltac:(vm_compute; reflexivity)
      (lookup_empty _) (lookup_empty _)
      2 0 mint1_id mint1_payload mint1); [exact mint1_decodes|reflexivity].
Defined.

(** the services as they answer the reclaim *)
Definition reclaim_key : outpoint := Outpoint reclaim_id 0.
Definition fund_services : Service := launch_services 0 10 no_services.
Definition reclaim_env : envelope := Eval vm_compute in default (Envelope [] 0 []) (launch_envelope reclaim_tx).
Definition reclaim_run : res bool * vstate :=
  reclaim_handler (validate_over fund_services 10) reclaim_key reclaim_tx reclaim_env asset 3 the_drop_id reclaim_sig empty_state.
Lemma reclaim_accepted : reclaim_run = (Ok true, reclaim_run.2).
Proof.
  assert (E : reclaim_run.1 = Ok true) by (vm_compute; reflexivity). rewrite <- E. apply surjective_pairing.
Qed.
Lemma no_services_launched : ServiceLaws (SV := no_services) (creditable (λ _, False)).
Proof. intros key tx e _ _. apply keeps_refuses, refuse_refuses. Qed.
Lemma no_services_grow : ∀ key tx e, grows (no_services key tx e).
Proof. intros key tx e. apply grows_refuse. Qed.
Lemma fund_laws : ValidateLaws (creditable (λ _, False)) (validate_over fund_services 10).
Proof.
  pose proof no_services_launched.
  destruct (launch_services_laws (λ _, False) no_services no_services_grow 0 10) as [Hl Hg].
  exact (validate_over_laws (λ _, False) fund_services 10 Hl Hg).
Qed.
Lemma launch_empty_sound svc : sound svc empty_state.
Proof. intros _ k Hk. cbn [empty_state validatedSet] in Hk. by rewrite lookup_empty in Hk. Qed.
Lemma drop_served_now : dropMeta the_drop_id =
  Some (DropServed drop_record (drop_progress claim_pages_now (Some (11 - 1)) (Some 10) drop_record) (rr_txid <$> drop_reclaims records !! the_drop_id)).
Proof. vm_compute. reflexivity. Qed.
Lemma claim_pages_whole : concat claim_pages_now = keys_at the_drop_id (dclaims records).
Proof. unfold claim_pages_now. cbn [concat]. by rewrite app_nil_r. Qed.
Lemma drop_accounts_witness :
  (∃ l, loadCreditedDclaims [keys_at the_drop_id (dclaims (tick launch_chain 11 1 0 records).2)] (Some 11) 5 1 = Some l ∧
     3 + Z.of_nat (length l) * 1 = 5) ∧
  ∃ r, drop_reclaims records !! the_drop_id = Some r ∧ rr_txid r = reclaim_id.
Proof.
  destruct (drop_accounts (LC := launch_answers) launch_chain launch_small (creditable (λ _, False)) (validate_over fund_services 10) (ValidateLaws0 := fund_laws)
    11 records 12 _ the_drop_id drop_record claim_pages_now 10 reclaim_key reclaim_tx reclaim_env asset 3 reclaim_sig empty_state reclaim_run.2
    ticks_to_now ticks_onward drop_recorded one_drop claim_pages_whole drop_served_now (launch_empty_sound _) reclaim_accepted) as (Hl & (r & Hr & Ht & _) & _).
  split; [|exists r; exact (conj Hr Ht)].
  destruct (loadCreditedDclaims [keys_at the_drop_id (dclaims (tick launch_chain 11 1 0 records).2)] (Some 11) 5 1) as [l|] eqn:E;
    [|vm_compute in E; discriminate E].
  exists l. split; [reflexivity|]. refine (proj1 (Hl _ 11 l _ _ E)); [cbn [concat]; by rewrite app_nil_r|lia].
Defined.

Lemma airdrop_entries_ok : Forall entry_ok airdrop.
Proof. unfold entry_ok. repeat (apply Forall_cons; split; [split_and!; vm_compute; first [reflexivity|discriminate]|]). constructor. Qed.
Lemma airdrop_built : buildAirdropMerkle (map leaf_of airdrop) = Ok (airdrop_tree.1, airdrop_tree.2).
Proof. vm_compute. reflexivity. Qed.
Lemma airdrop_claims_witness :
  (∃ proof, airdropMerkleProof airdrop_tree.2 1 = Ok proof ∧ verifyAirdropMerkleProof (leaf_of (entry_at 1)) proof airdrop_tree.1 = true) ∧
  (∃ o, head (tx_vout paying_tx) = Some o ∧ out_script o = [x00; x14] ++ hash160 depositor) ∧
  eligible_claim paying_tx airdrop_drop None = false.
Proof.
  destruct (airdrop_claims (LC := launch_answers) airdrop airdrop_tree.1 airdrop_tree.2 airdrop_entries_ok airdrop_built) as (Hp & Hc & Hn).
  split; [exact (Hp 1%nat (entry_at 1) eq_refl)|]. split.
  - destruct (Hc paying_tx airdrop_drop claim_witness eq_refl ltac:(vm_compute; reflexivity)) as (_ & Ho & _); [|exact Ho].
    unfold eligible_claim. rewrite claim_witness_ok. vm_compute. reflexivity.
  - apply Hn; [vm_compute; reflexivity|reflexivity].
Defined.

Lemma no_services_credited : ServiceLaws (SV := no_services) (creditable withdrawn).
Proof. intros key tx e _ _. apply keeps_refuses, refuse_refuses. Qed.
Definition all_services : Service := launch_services 1 10 (with_withdrawals no_services).
Lemma reclaim_run_services : ∃ s, validateOutpoint (SV := all_services) 10 reclaim_key empty_state = Some (Ok true, s) ∧ batch_ok s.
Proof.
  assert (E : option_map (λ p, (p.1, forallb (λ x, @bpRangeAggVerify _ launches x.1 x.2) (queued p.2)))
    (validateOutpoint (SV := all_services) 10 reclaim_key empty_state) = Some (Ok true, true)) by (vm_compute; reflexivity).
  destruct (validateOutpoint _ _ _) as [[x s]|]; [|discriminate E]. cbn [option_map fst snd] in E. injection E as -> Eb.
  exists s. split; [reflexivity|]. intros C q Hq. unfold queued in Eb. rewrite forallb_forall in Eb. apply (Eb (C, q)). by apply list_elem_of_In.
Qed.
Lemma validator_with_services_witness : valid (creditable withdrawn) reclaim_key.
Proof.
  destruct reclaim_run_services as (s & E & Hb). pose proof no_services_credited as HL.
  refine (proj2 (validator_with_services withdrawn no_services 1 10 reclaim_key empty_state (Ok true) s no_services_grow (λ k Hk, Hk) _
    (launch_empty_sound _) E) eq_refl Hb). discriminate.
Defined.
