(* ===== verification/CodecProps.v ===== *)
(** * What the envelope codecs guarantee

    The properties of the wire formats, each from the lemmas of its component. *)
From S2P Require Import Prelude Bytes Text Crypto Bitmap EnvelopeScript CodecTransfer.
From S2P Require Import CodecIssue CodecPool CodecSlots CodecAmm CodecBatch Curve Hex Merkle Mixer MixerProof CodecBridge.

(** A transfer used as a concrete input. *)
Definition sample_output : output := Output (x02 :: zeros 32) (zeros 8).
Definition sample_cxfer : Cxfer.t := Cxfer.Mk (zeros 32) (zeros 64) [sample_output; sample_output] [x01; x02].

(** C24: a message sent in an envelope is received as it was: for every wire format that
    implements [WireCodec], wrapping the encoding of a sendable message in an envelope
    script and dispatching the decoded envelope on its opcode gives the message back. *)
Theorem client_round_trip {A} (W : WireCodec A) pk x s :
  0 <= wire_op < 256 → sendable x → send pk x = Ok s → receive s = Ok x.
Proof. apply send_receive. Qed.

Lemma client_round_trip_witness :
  ∃ s, @send _ cxfer_wire (zeros 32) sample_cxfer = Ok s ∧ @receive _ cxfer_wire s = Ok sample_cxfer.
Proof.
  eexists. split; [vm_compute; reflexivity|].
  apply (client_round_trip cxfer_wire (zeros 32)); [done|done|]. vm_compute. reflexivity.
Defined.

Section protocol.
Context `{Hash} `{PointParser}.

(** C26: the formats of payloads.  Each transfer decoder accepts exactly the payloads its
    encoder writes, and reads back the fields that were written; a bound transfer is
    accepted exactly when it is a plain transfer with a 32-byte chain binding in front.  A
    fixed bid is accepted exactly when the encoder writes it and its amounts fit 64 bits
    (the encoder wraps them); a variable bid exactly when the encoder writes it and its
    worst case fits 64 bits, save that the decoder also accepts a bid whose price per unit
    is zero, which the encoder refuses.  Mints, burns, permissionless mints and drop claims
    are accepted exactly when their encoders write them.  What the encoder writes for an
    etch, a launch or a drop whose text has no leading byte-order mark decodes to the same
    record, and an accepted payload no longer than its record needs is the encoder's; a
    launch's cap is a whole number of mints.

    Of the mixer and the slots: deposits decode exactly as written; withdrawals and
    slot burns exactly when written and bound to their recipient by the bind hash; splits
    exactly when written, on curve points, without creating denomination; mints, rotations
    and merges decode as written, and conversely up to the bytes around their notes.  The
    bridge's deposits and burns decode as written, and what the leaf checks cut out of a
    rotation and of an import are the fields that were written. *)
Theorem payload_formats p :
  (((∀ x, decodeCXferPayload p = Ok x ↔ encodeCXferPayload x = Ok p) ∧
   (∀ x, decodeCXferBppPayload p = Ok x ↔ encodeCXferBppPayload x = Ok p) ∧
   (∀ x, decodeAxferPayload p = Ok x ↔ encodeAxferPayload x = Ok p) ∧
   (∀ x, decodeAxferBppPayload p = Ok x ↔ encodeAxferBppPayload x = Ok p) ∧
   (∀ x, decodeAxferVarPayload p = Ok (AxferVar.of_cxfer x) ↔ encodeAxferVarPayload x = Ok p) ∧
   (∀ x, decodeAxferVarBppPayload p = Ok (AxferVar.of_cxfer x) ↔ encodeAxferVarBppPayload x = Ok p) ∧
   (∀ x, CxferBound.decodeCXferBoundPayload p = Ok x ↔
      blen (CxferBound.targetChainBinding x) = 32 ∧
      ∃ body, p = u8b T_CXFER_BOUND ++ CxferBound.targetChainBinding x ++ body ∧
        decodeCXferPayload (u8b T_CXFER ++ body) =
          Ok (Cxfer.Mk (CxferBound.assetId x) (CxferBound.kernelSig x) (CxferBound.outputs x) (CxferBound.rangeproof x)))) ∧
  ((∀ x, PreauthBid.decodePreauthBidPayload p = Ok x ↔
         PreauthBid.encodePreauthBidPayload x = Ok p ∧ PreauthBid.fits x) ∧
   (∀ x, PreauthBidVar.pricePerUnit x ≠ 0 →
      PreauthBidVar.decodePreauthBidVarPayload p = Ok x ↔
      PreauthBidVar.encodePreauthBidVarPayload x = Ok p ∧ PreauthBidVar.fits x) ∧
   (∀ x q, PreauthBidVar.pricePerUnit x = 0 → PreauthBidVar.encodePreauthBidVarPayload x ≠ Ok q)) ∧
  ((∀ x, CMint.decodeCMintPayload p = Ok x ↔ CMint.encodeCMintPayload x = Ok p) ∧
   (∀ x, CBurn.decodeCBurnPayload p = Ok x ↔ CBurn.encodeCBurnPayload x = Ok p) ∧
   (∀ x, CPmint.decodeCPmintPayload p = Ok x ↔ CPmint.encodeCPmintPayload x = Ok p) ∧
   (∀ x, CDClaim.decodeCDClaimPayload p = Ok x ↔ CDClaim.encode x = Ok p)) ∧
  ((∀ x, CEtch.encodeCEtchPayload x = Ok p → CEtch.fits x →
      CEtch.decodeCEtchPayload p = Ok (x, negb (CEtch.isZeroAuth (default CEtch.MINT_AUTH_NONE (CEtch.mintAuthority x))))) ∧
   (∀ x b, CEtch.decodeCEtchPayload p = Ok (x, b) → blen p = CEtch.wire_len x → CEtch.encodeCEtchPayload x = Ok p) ∧
   (∀ x, CPetch.encodeCPetchPayload x = Ok p → CPetch.fits x → CPetch.decodeCPetchPayload p = Ok x) ∧
   (∀ x, CPetch.decodeCPetchPayload p = Ok x →
      CPetch.launch_ok x ∧ (blen p = CPetch.wire_len x → CPetch.encodeCPetchPayload x = Ok p)) ∧
   (∀ x, CDrop.encode x = Ok p → CDrop.fits x → CDrop.decodeCDropPayload p = Ok x) ∧
   (∀ x, CDrop.decodeCDropPayload p = Ok x → blen p = CDrop.wire_len x → CDrop.encode x = Ok p))) ∧
  ((∀ x, TDeposit.decodeTDepositPayload p = Ok x ↔ TDeposit.encode x = Ok p) ∧
   (∀ x, TWithdraw.decodeTWithdrawPayload p = Ok x ↔ TWithdraw.encodeTWithdrawPayload x = Ok p ∧ bound x) ∧
   (∀ x, SlotBurn.decodeTSlotBurnPayload p = Ok x ↔ SlotBurn.encodeTSlotBurnPayload x = Ok p ∧ SlotBurn.fits x) ∧
   (∀ x, SlotSplit.decodeTSlotSplitPayload p = Ok x ↔ SlotSplit.encodeTSlotSplitPayload x = Ok p ∧ SlotSplit.fits x) ∧
   (∀ x, SlotMint.encodeTSlotMintPayload x = Ok p → SlotMint.fits x → SlotMint.decodeTSlotMintPayload p = Ok x) ∧
   (∀ x, SlotMint.decodeTSlotMintPayload p = Ok x → blen p ≠ 277 → SlotMint.encodeTSlotMintPayload x = Ok p ∧ SlotMint.fits x) ∧
   (∀ x, SlotRotate.encodeTSlotRotatePayload x = Ok p → SlotRotate.fits x → SlotRotate.decodeTSlotRotatePayload p = Ok x) ∧
   (∀ x, SlotMerge.encodeTSlotMergePayload x = Ok p → SlotMerge.fits x → SlotMerge.decodeTSlotMergePayload p = Ok x) ∧
   (∀ x, SlotMerge.decodeTSlotMergePayload p = Ok x →
      SlotMerge.fits x ∧ (blen p = SlotMerge.wire_len x → SlotMerge.encodeTSlotMergePayload x = Ok p)) ∧
   (∀ x, BridgeDeposit.fits x → BridgeDeposit.decodeTBridgeDepositPayload (BridgeDeposit.encodeTBridgeDepositPayload x) = Ok x) ∧
   (∀ x, BridgeBurn.fits x → BridgeBurn.decodeTBridgeBurnPayload (BridgeBurn.encodeTBridgeBurnPayload x) = Ok x) ∧
   (∀ x, rotation_fits x → p = encodeTBridgeRotatePayload x →
      cut 2 34 p = ro_assetId x ∧ cut 34 66 p = ro_denomWei x ∧ cut 66 98 p = ro_merkleRoot x ∧
      cut 98 130 p = ro_nullifierHash x ∧ cut 130 162 p = ro_commitment x ∧ cut 162 194 p = ro_rLeaf x ∧
      cut 194 226 p = ro_bindHash x ∧ cut 226 228 p = le 2 (blen (ro_proof x)) ∧
      cut 228 (228 + length (ro_proof x)) p = ro_proof x ∧ blen p = 228 + blen (ro_proof x)) ∧
   (∀ x, import_fits x → p = encodeTBridgeImportPayload x →
      cut 2 34 p = im_assetId x ∧ cut 34 66 p = im_denomWei x ∧ cut 66 98 p = im_newCommitment x ∧ blen p = 164)).
Proof.
  split.
  { split; [|split; [|split]]; split_and!; intros x;
    try first [ by apply Cxfer.cxfer_codec | by apply Axfer.axfer_codec | by apply AxferVar.axferVar_codec
    | apply CxferBound.bound_is_cxfer | apply PreauthBid.preauthBid_codec | apply CMint.cMint_codec | apply CBurn.cBurn_codec
    | apply CPmint.cPmint_codec | apply CDClaim.cDClaim_codec | apply CEtch.cEtch_encode_decode
    | apply CPetch.cPetch_encode_decode | apply CDrop.cDrop_encode_decode | apply CDrop.cDrop_decode_encode ].
    - intros Hx. split.
      + intros E. pose proof (PreauthBidVar.preauthBidVar_price _ _ E).
        apply PreauthBidVar.preauthBidVar_decode_encode in E as [? He]. split; [apply He; lia|done].
      + intros []. by apply PreauthBidVar.preauthBidVar_encode_decode.
    - intros q Hx. by apply PreauthBidVar.preauthBidVar_free.
    - intros b E. apply (CEtch.cEtch_decode_encode p x b E).
    - intros E. split; [by eapply CPetch.decode_launch_ok|by apply CPetch.cPetch_decode_encode]. }
  split_and!; intros x.
  - apply TDeposit.tDeposit_codec.
  - apply TWithdraw.tWithdraw_codec.
  - apply SlotBurn.slotBurn_codec.
  - split; [apply SlotSplit.slotSplit_decode_encode|]. intros []. by apply SlotSplit.slotSplit_encode_decode.
  - apply SlotMint.slotMint_encode_decode.
  - apply SlotMint.slotMint_decode_encode.
  - apply SlotRotate.slotRotate_encode_decode.
  - apply SlotMerge.slotMerge_encode_decode.
  - apply SlotMerge.slotMerge_decode_encode.
  - apply bridgeDeposit_round.
  - apply bridgeBurn_round.
  - intros Hf ->. by apply rotate_layout.
  - intros Hf ->. by apply import_layout.
Qed.


(** The two decoders of a swap.  The dapp accepts a payload exactly when the worker
    does and the amounts are in order: [deltaInMin <= deltaIn <= deltaInMax] and
    [minOut <= deltaOut]. *)
Theorem swap_decoders_differ p x :
  SwapVar.decodeTSwapVarPayload p = Ok x ↔ SwapVar.decodeTSwapVarPayloadWorker p = Ok x ∧ SwapVar.ordered x.
Proof.
  unfold SwapVar.decodeTSwapVarPayload, SwapVar.decodeTSwapVarPayloadWorker.
  rewrite !SwapVar.swapVar_decode_Ok. unfold SwapVar.decodable. naive_solver.
Qed.

(** C25: decoding never throws and never reads past the end, on any bytes whatsoever: the
    envelope reader and every payload decoder answer a record or null. *)
Theorem decoders_total p :
  total (decodeEnvelopeScript p) ∧
  (total (decodeCXferPayload p) ∧ total (decodeCXferBppPayload p) ∧ total (CxferBound.decodeCXferBoundPayload p) ∧
   total (decodeAxferPayload p) ∧ total (decodeAxferBppPayload p) ∧ total (decodeAxferVarPayload p) ∧
   total (decodeAxferVarBppPayload p) ∧ total (PreauthBid.decodePreauthBidPayload p) ∧
   total (PreauthBidVar.decodePreauthBidVarPayload p)) ∧
  (total (CEtch.decodeCEtchPayload p) ∧ total (CMint.decodeCMintPayload p) ∧ total (CBurn.decodeCBurnPayload p) ∧
   total (CPetch.decodeCPetchPayload p) ∧ total (CPmint.decodeCPmintPayload p) ∧ total (CDrop.decodeCDropPayload p) ∧
   total (CDClaim.decodeCDClaimPayload p)) ∧
  (total (TDeposit.decodeTDepositPayload p) ∧ total (TWithdraw.decodeTWithdrawPayload p) ∧
   total (SlotBurn.decodeTSlotBurnPayload p) ∧ total (SlotMint.decodeTSlotMintPayload p) ∧
   total (SlotRotate.decodeTSlotRotatePayload p) ∧ total (SlotSplit.decodeTSlotSplitPayload p) ∧
   total (SlotMerge.decodeTSlotMergePayload p) ∧ total (BridgeDeposit.decodeTBridgeDepositPayload p) ∧
   total (BridgeBurn.decodeTBridgeBurnPayload p)) ∧
  (total (LpAdd.decodeTLpAddPayload p) ∧ total (LpRemove.decodeTLpRemovePayload p) ∧
   total (SwapVar.decodeTSwapVarPayload p) ∧ total (SwapVar.decodeTSwapVarPayloadWorker p) ∧
   total (SwapRoute.decodeTSwapRoutePayload p) ∧ total (FeeClaim.decodeTProtocolFeeClaimPayload p) ∧
   total (FarmInit.decodeTFarmInitPayload p) ∧ total (LpBond.decodeTLpBondPayload p) ∧
   total (LpUnbond.decodeTLpUnbondPayload p) ∧ total (LpHarvest.decodeTLpHarvestPayload p) ∧
   total (FarmRefund.decodeTFarmRefundPayload p) ∧ total (SwapBatch.decodeTSwapBatchPayload p true) ∧
   total (SwapBatch.decodeTSwapBatchPayload p false)).
Proof. split_and!; first [ apply decodeEnvelopeScript_total | by apply Cxfer.cxfer_decode_total | apply CxferBound.cxferBound_decode_total
    | by apply Axfer.axfer_decode_total | by apply AxferVar.axferVar_decode_total | apply PreauthBid.preauthBid_decode_total
    | apply PreauthBidVar.preauthBidVar_decode_total | apply CEtch.cEtch_decode_total | apply CMint.cMint_decode_total
    | apply CBurn.cBurn_decode_total | apply CPetch.cPetch_decode_total | apply CPmint.cPmint_decode_total
    | apply CDrop.cDrop_decode_total | apply CDClaim.cDClaim_decode_total | apply TDeposit.tDeposit_decode_total
    | apply TWithdraw.tWithdraw_decode_total | apply SlotBurn.slotBurn_decode_total | apply SlotMint.slotMint_decode_total
    | apply SlotRotate.slotRotate_decode_total | apply SlotSplit.slotSplit_decode_total | apply SlotMerge.slotMerge_decode_total
    | apply bridgeDeposit_total | apply bridgeBurn_total
    | apply LpAdd.lpAdd_decode_total | apply LpRemove.lpRemove_decode_total | apply SwapVar.swapVar_decode_total
    | apply SwapRoute.swapRoute_decode_total | apply FeeClaim.feeClaim_decode_total | apply FarmInit.farmInit_decode_total
    | apply LpBond.lpBond_decode_total | apply LpUnbond.lpUnbond_decode_total | apply LpHarvest.lpHarvest_decode_total
    | apply FarmRefund.farmRefund_decode_total | apply SwapBatch.swapBatch_decode_total ]. Qed.
End protocol.

(** A byte-order mark is lost: every etch whose ticker leaves room for the three
    bytes of the mark has a second payload, three bytes longer, that decodes to the same
    record, so a decoded etch does not determine its payload. *)
Theorem etch_mark_lost p x :
  CEtch.encodeCEtchPayload x = Ok p → CEtch.fits x → blen (text_encode (CEtch.ticker x)) <= 13 →
  ∃ q, blen q = blen p + 3 ∧ CEtch.decodeCEtchPayload q = CEtch.decodeCEtchPayload p.
Proof.
  intros E Hf Hl. destruct (CEtch.cEtch_mark p x E Hf Hl) as (q & Hq & Hd). exists q. split; [done|]. rewrite Hd.
  symmetry. by apply CEtch.cEtch_encode_decode.
Qed.

(** An etch used as a concrete input. *)
Definition sample_etch : CEtch.t :=
  CEtch.Mk [65] 2 (x02 :: zeros 32) (zeros 4) (zeros 8) (Some (zeros 32)) None.

Lemma etch_mark_lost_witness :
  ∃ p q, CEtch.encodeCEtchPayload sample_etch = Ok p ∧ blen q = blen p + 3 ∧
    CEtch.decodeCEtchPayload q = CEtch.decodeCEtchPayload p.
Proof.
  destruct (CEtch.encodeCEtchPayload sample_etch) as [p| | |] eqn:E; [|vm_compute in E; discriminate..].
  destruct (etch_mark_lost p sample_etch E) as [q Hq].
  - split; [|split].
    + split; [repeat constructor|vm_compute; discriminate].
    + exact I.
    + by eexists.
  - vm_compute. discriminate.
  - exists p, q. destruct Hq. repeat split; auto.
Defined.
