(* ===== verification/WorkerNotes.v ===== *)
(** * The notes the indexer reads back

    The indexer resolves an input to the asset and commitment its own transaction
    declares ([commitmentForUtxo] of [worker/src/index.js]), with structural decoders
    that keep only the commitments.  They are shown to accept the payloads the dapp's
    decoders accept and to read the same commitments; the resolution is compared with
    the client's [getParentEnvelopeData]. *)
From S2P Require Import Prelude Bytes Text Crypto EnvelopeScript CodecTransfer CodecIssue CodecPool CodecSlots CodecAmm.
From S2P Require Import Messages Curve Notes.

(** ** Structural decoders *)

(** [const commitment = payload.slice(p, p + 33); p += 33; p += 8;] *)
Definition read_commitment : rd bytes := c ← slice 33; _ ← slice 8; mret c.

(** from the output count to the end of the payload *)
Definition read_commitments (ok : Z → bool) : rd (list bytes) :=
  n ← u8;
  null_if (negb (ok n));;
  room (n * (33 + 8) + 2);;
  cs ← repeatM (Z.to_nat n) read_commitment;
  rpLen ← u16;
  ends_at rpLen;;
  mret cs.

(** [{ asset_id, outputs }] *)
Record outputs_view := View { v_assetId : bytes; v_commitments : list bytes }.

Module W.
Definition cxfer_with (op : Z) (payload : bytes) : res outputs_view :=
  run (
    null_if (blen payload <? 1 + 32 + 64 + 1);;
    opcode op;;
    assetId ← slice 32;
    _ ← slice 64;
    cs ← read_commitments (includes [1; 2; 4; 8]);
    mret (View assetId cs)) payload.

Definition decodeCXferPayload := cxfer_with T_CXFER.
Definition decodeCXferBppPayload := cxfer_with T_CXFER_BPP.

Definition decodeCXferBoundPayload (payload : bytes) : res outputs_view :=
  run (
    null_if (blen payload <? 1 + 32 + 32 + 64 + 1);;
    opcode T_CXFER_BOUND;;
    _ ← slice 32;
    assetId ← slice 32;
    _ ← slice 64;
    cs ← read_commitments (includes [1; 2; 4; 8]);
    mret (View assetId cs)) payload.

Definition decodeAxferPayload (payload : bytes) : res outputs_view :=
  run (
    null_if (blen payload <? 1 + 32 + 1 + 64 + 1);;
    opcode T_AXFER;;
    assetId ← slice 32;
    assetInputCount ← u8;
    null_if (assetInputCount <? 1);;
    _ ← slice 64;
    cs ← read_commitments (includes [1; 2; 4; 8]);
    mret (View assetId cs)) payload.

Definition axfer_var_with (op : Z) (payload : bytes) : res outputs_view :=
  run (
    opcode op;;
    null_if (blen payload <? 1 + 32 + 1 + 64 + 1 + 2 * (33 + 8) + 2);;
    assetId ← slice 32;
    assetInputCount ← u8;
    null_if (negb (assetInputCount =? 1));;
    _ ← slice 64;
    cs ← read_commitments (λ n, n =? 2);
    mret (View assetId cs)) payload.

Definition decodeAxferVarPayload := axfer_var_with T_AXFER_VAR.
Definition decodeAxferVarBppPayload := axfer_var_with T_AXFER_VAR_BPP.
End W.

Lemma read_commitment_Ok s c s' :
  read_commitment s = Ok (c, s') ↔ ∃ o, s = output_bytes o ++ s' ∧ output_wf o ∧ c = commitment o.
Proof.
  unfold read_commitment, output_bytes. split.
  - intros H. rd_inv H. subst. exists (Output c a0). cbn. by rewrite <- app_assoc.
  - intros (o & -> & [Hc He] & ->). rewrite <- app_assoc. rd_run; done.
Qed.

(** Reading commitments alone is reading outputs and forgetting the rest. *)
Lemma repeat_commitment_Ok n s cs s' :
  repeatM n read_commitment s = Ok (cs, s') ↔
  ∃ outs, s = outputs_bytes outs ++ s' ∧ length outs = n ∧ Forall output_wf outs ∧ cs = map commitment outs.
Proof.
  revert s cs; induction n as [|n IH]; intros s cs; cbn [repeatM].
  - split.
    + intros [<- ->]%rd_ret_Ok. by exists [].
    + intros ([|o outs] & -> & Hl & _ & ->); [|done]. by apply rd_ret_Ok.
  - split.
    + intros H. rd_inv H. subst cs.
      match goal with H : repeatM _ _ _ = _ |- _ => apply IH in H as (outs & -> & Hl & Hwf & ->) end.
      match goal with H : read_commitment _ = _ |- _ => apply read_commitment_Ok in H as (o & -> & Ho & ->) end.
      exists (o :: outs). unfold outputs_bytes. cbn [map concat]. rewrite <- app_assoc.
      split; [done|]. split; [by cbn; rewrite Hl|]. split; [by constructor|done].
    + intros ([|o outs] & -> & Hl & Hwf & ->); [done|]. injection Hl as Hl.
      apply Forall_cons in Hwf as [Ho Hwf]. unfold outputs_bytes. cbn [map concat]. rewrite <- app_assoc.
      apply rd_bind_Ok. exists (commitment o), (outputs_bytes outs ++ s'). split; [apply read_commitment_Ok; eauto|].
      apply rd_bind_Ok. exists (map commitment outs), s'. split; [|done]. apply IH. eauto.
Qed.

Lemma read_commitments_Ok ok s cs s' :
  read_commitments ok s = Ok (cs, s') ↔
  ∃ n outs, ok n = true ∧ 0 <= n < 256 ∧ length outs = Z.to_nat n ∧ Forall output_wf outs ∧
    cs = map commitment outs ∧ blen s' < 65536 ∧
    s = u8b n ++ outputs_bytes outs ++ le 2 (blen s') ++ s' ++ [].
Proof.
  unfold read_commitments. split.
  - intros H. rd_inv H. subst.
    match goal with H : repeatM _ _ _ = _ |- _ => apply repeat_commitment_Ok in H as (outs & -> & Hl & Hwf & ->) end.
    bool_to_prop. exists a, outs. rewrite app_nil_r. repeat split; auto; lia.
  - intros (n & outs & Hok & Hn & Hl & Hwf & -> & Hs & ->). pose proof (blen_outputs _ Hwf). rewrite app_nil_r.
    rd_step; [rd_run; done|]. rd_step; [rd_run; by rewrite Hok|]. rd_step; [rd_run; len_lia|].
    apply rd_bind_Ok. exists (map commitment outs), (le 2 (blen s') ++ s'). split; [apply repeat_commitment_Ok; eauto|].
    rd_run; done || (pose proof (blen_nonneg s'); lia).
Qed.

(** ** The structural decoders and the dapp's *)
Ltac view_inv H :=
  rd_inv H; subst;
  match goal with
  | Hr : read_commitments _ _ = Ok _ |- _ =>
      let Hwf := fresh "Hwf" in
      apply read_commitments_Ok in Hr as (? & ? & ? & ? & ? & Hwf & -> & ? & ->);
      pose proof (blen_outputs _ Hwf)
  end.
Ltac rd_inv_hook H ::=
  lazymatch type of H with
  | repeatM _ read_output _ = Ok _ => let Hwf := fresh "Hwf" in apply repeat_output_Ok in H as (-> & ? & Hwf)
  | _ => idtac
  end.
Ltac rd_step_hook ::=
  lazymatch goal with
  | |- repeatM _ read_output _ = Ok _ => apply repeat_output_Ok; split; [reflexivity|]
  | _ => idtac
  end.
Ltac view_guard :=
  first [ guard_solve | match goal with H : includes _ _ = true |- _ => unfold includes in *; cbn [existsb] in *; bool_to_prop; len_lia end ].

(** Both directions: the run of one decoder gives the run of the other. *)
Ltac view_fwd mk :=
  rewrite run_Ok; let H := fresh "H" in intros [? H]; view_inv H;
  match goal with Hw : Forall output_wf ?o, _ : blen ?rp < 65536 |- _ =>
    pose proof (blen_nonneg rp); mk o rp end;
  split; [|reflexivity]; apply run_Ok; eexists; rd_run; view_guard.
Ltac view_bwd :=
  let H := fresh "H" in intros (? & H & ->); apply run_Ok in H as [? H]; rd_inv H; subst; rd_close; subst;
  rewrite ?app_nil_r in *;
  match goal with Hw : Forall output_wf ?o, Hl : length ?o = Z.to_nat ?n, _ : 0 <= blen ?rp < 65536 |- _ =>
    pose proof (blen_outputs _ Hw); apply run_Ok; exists rp; rd_run;
    try lazymatch goal with
    | |- read_commitments _ _ = Ok _ =>
        apply read_commitments_Ok; exists n, o; rewrite app_nil_r; split_and!; try reflexivity
    end;
    try first [exact Hl | exact Hw | by apply negb_false_iff | view_guard]
  end.

Lemma cxfer_view op p v :
  0 <= op < 256 →
  W.cxfer_with op p = Ok v ↔
  ∃ x, Cxfer.decode_with op p = Ok x ∧ v = View (Cxfer.assetId x) (map commitment (Cxfer.outputs x)).
Proof.
  intros Hop. unfold W.cxfer_with, Cxfer.decode_with. split.
  - view_fwd ltac:(fun o rp => eexists (Cxfer.Mk _ _ o rp)).
  - view_bwd.
Qed.

Lemma cxferBound_view p v :
  W.decodeCXferBoundPayload p = Ok v ↔
  ∃ x, CxferBound.decodeCXferBoundPayload p = Ok x ∧
       v = View (CxferBound.assetId x) (map commitment (CxferBound.outputs x)).
Proof.
  unfold W.decodeCXferBoundPayload, CxferBound.decodeCXferBoundPayload. split.
  - view_fwd ltac:(fun o rp => eexists (CxferBound.Mk _ _ _ o rp)).
  - view_bwd.
Qed.

Lemma axfer_view p v :
  W.decodeAxferPayload p = Ok v ↔
  ∃ x, decodeAxferPayload p = Ok x ∧ v = View (Axfer.assetId x) (map commitment (Axfer.outputs x)).
Proof.
  unfold W.decodeAxferPayload, decodeAxferPayload, Axfer.decode_with. split.
  - view_fwd ltac:(fun o rp => eexists (Axfer.Mk _ _ _ o rp)).
  - view_bwd.
Qed.

Lemma axferVar_view op p v :
  0 <= op < 256 →
  W.axfer_var_with op p = Ok v ↔
  ∃ x, AxferVar.decode_with op p = Ok x ∧ v = View (Axfer.assetId x) (map commitment (Axfer.outputs x)).
Proof.
  intros Hop. unfold W.axfer_var_with, AxferVar.decode_with. split.
  - view_fwd ltac:(fun o rp => eexists (Axfer.Mk _ _ _ o rp)).
  - view_bwd.
Qed.

(** ** The note behind an outpoint *)

(** a commitment as the decoders hand it on: a hex string, or bytes where the branch
    converts it itself *)
Inductive declared := Hex (c : bytes) | Raw (c : bytes).
Definition declared_bytes (d : declared) : bytes := match d with Hex c => c | Raw c => c end.
Record parent_note := ParentNote { pn_commitment : declared; pn_asset : bytes }.

(** The two kinds of note the envelope alone does not settle: mints from Ethereum
    ([decodeCrossoutMint]) and exits from the Bitcoin pool (a service's records). *)
Class Records := { crossoutNote : bytes → res (bytes * bytes); poolExit : outpoint → res (bytes * bytes) }.

Section resolve.
Context `{Hash} {SE : Secp} {CH : Chain} {RC : Records}.

(** [if (!x) throw new Error(msg);] *)
Definition or_throw {A} (r : res A) (msg : string) : res A := match r with Ok a => mret a | _ => Throw msg end.

(** [if (vout >= outputs.length) throw ...; outputs[vout].commitment] *)
Definition output_commitment (v : outputs_view) (i : Z) : res parent_note :=
  match (if i <? 0 then None else v_commitments v !! Z.to_nat i) with
  | Some c => mret (ParentNote (Hex c) (v_assetId v))
  | None => Throw "vout out of range"
  end.

(** the branches on the envelope of the transaction that made the note *)
Definition envelope_note (decoded : envelope) (op : outpoint) : res parent_note :=
  let v := vout op in
  let t := env_opcode decoded in
  let p := env_payload decoded in
  if t =? T_CETCH then
    throw_if (negb (v =? 0)) "CETCH supply lives at vout 0 only";;
    ce ← or_throw (CEtch.decodeCEtchPayload p) "invalid CETCH payload";
    mret (ParentNote (Hex (CEtch.commitment ce.1)) (assetIdFor (txid op) 0))
  else if t =? T_MINT then
    throw_if (negb (v =? 0)) "T_MINT supply lives at vout 0 only";;
    cm ← or_throw (CMint.decodeCMintPayload p) "invalid T_MINT payload";
    mret (ParentNote (Hex (CMint.commitment cm)) (CMint.assetId cm))
  else if t =? T_CXFER then
    cx ← or_throw (W.decodeCXferPayload p) "invalid CXFER payload"; output_commitment cx v
  else if t =? T_CXFER_BPP then
    cx ← or_throw (W.decodeCXferBppPayload p) "invalid T_CXFER_BPP payload"; output_commitment cx v
  else if t =? T_CXFER_BOUND then
    cx ← or_throw (W.decodeCXferBoundPayload p) "invalid T_CXFER_BOUND payload"; output_commitment cx v
  else if t =? T_AXFER then
    cx ← or_throw (W.decodeAxferPayload p) "invalid T_AXFER payload"; output_commitment cx v
  else if (t =? T_AXFER_VAR) || (t =? T_AXFER_VAR_BPP) then
    cv ← or_throw (if t =? T_AXFER_VAR_BPP then W.decodeAxferVarBppPayload p else W.decodeAxferVarPayload p)
           "invalid T_AXFER_VAR payload";
    match (if v =? 0 then Some 0 else if v =? 2 then Some 1 else None) with
    | Some outIdx => output_commitment cv outIdx
    | None => Throw "not a tacit-asset output"
    end
  else if t =? T_PREAUTH_BID then
    pb ← or_throw (PreauthBid.decodePreauthBidPayload p) "invalid T_PREAUTH_BID payload";
    match PreauthBid.outputs pb with
    | o0 :: l =>
        if v =? 0 then mret (ParentNote (Raw (commitment o0)) (PreauthBid.assetId pb))
        else match l with
             | [o1] => if v =? 3 then mret (ParentNote (Raw (commitment o1)) (PreauthBid.assetId pb))
                       else Throw "not a tacit-asset output"
             | _ => Throw "not a tacit-asset output"
             end
    | [] => Throw "not a tacit-asset output"
    end
  else if t =? T_BURN then
    cb ← or_throw (CBurn.decodeCBurnPayload p) "invalid T_BURN payload";
    output_commitment (View (CBurn.assetId cb) (map commitment (CBurn.outputs cb))) v
  else if t =? T_PMINT then
    throw_if (negb (v =? 0)) "T_PMINT supply lives at vout 0 only";;
    pm ← or_throw (CPmint.decodeCPmintPayload p) "invalid T_PMINT payload";
    mret (ParentNote (Hex (CPmint.commitment pm)) (CPmint.assetId pm))
  else if t =? T_CROSSOUT_MINT then
    throw_if (negb (v =? 0)) "T_CROSSOUT_MINT note lives at vout 0 only";;
    cm ← or_throw (crossoutNote p) "invalid T_CROSSOUT_MINT payload";
    mret (ParentNote (Hex cm.1) cm.2)
  else if t =? T_BTC_SPEND then
    rec ← or_throw (poolExit op) "not an accepted pool exit";
    mret (ParentNote (Hex rec.1) rec.2)
  else Throw "unsupported envelope opcode".

Definition commitmentForUtxo (op : outpoint) : res parent_note :=
  decoded ←
    match fetchTx (txid op) with
    | Some tx =>
        match tx_vin tx with
        | i0 :: _ =>
            throw_if (length (in_witness i0) <? 3)%nat "parent tx has no taproot script-path witness";;
            or_throw (decodeEnvelopeScript (nth 1 (in_witness i0) [])) "parent tx is not a tacit envelope"
        | [] => Throw "parent tx has no taproot script-path witness"
        end
    | None => Throw "fetch failed"
    end;
  envelope_note decoded op.

(** ** The indexer's reading and the client's *)
Lemma or_throw_Ok {A} (r : res A) msg a : or_throw r msg = Ok a ↔ r = Ok a.
Proof. destruct r; cbn; naive_solver. Qed.

Lemma output_commitment_Ok v i n :
  0 <= i → output_commitment v i = Ok n ↔ ∃ c, v_commitments v !! Z.to_nat i = Some c ∧ n = ParentNote (Hex c) (v_assetId v).
Proof.
  intros Hi. unfold output_commitment. rewrite (proj2 (Z.ltb_ge i 0)) by done.
  destruct (v_commitments v !! Z.to_nat i); cbn.
  - split; [intros [= <-]; eauto|by intros (? & [= <-] & ->)].
  - split; [done|by intros (? & ? & _)].
Qed.

Lemma output_at_lookup outs v : 0 <= v → output_at outs v = outs !! Z.to_nat v.
Proof.
  intros Hv. unfold output_at. rewrite Z.geb_leb. destruct (Z.leb_spec (Z.of_nat (length outs)) v); [|done].
  by rewrite lookup_ge_None_2 by lia.
Qed.

Lemma note_of_Some a o x : note_of a o = Some x ↔ ∃ o', o = Some o' ∧ x = (a, commitment o').
Proof. unfold note_of. destruct o; cbn; naive_solver. Qed.

(** a list of outputs read in full, and their commitments alone *)
Lemma output_both a outs v a' c :
  0 <= v →
  note_of a (output_at outs v) = Some (a', c) ↔
  ∃ d, output_commitment (View a (map commitment outs)) v = Ok (ParentNote d a') ∧ declared_bytes d = c.
Proof.
  intros Hv. unfold output_commitment. cbn [v_commitments v_assetId].
  rewrite (proj2 (Z.ltb_ge v 0)) by done.
  assert (El : map commitment outs !! Z.to_nat v = commitment <$> outs !! Z.to_nat v) by apply list_lookup_fmap.
  rewrite El. clear El. unfold note_of, output_at. rewrite Z.geb_leb.
  destruct (Z.leb_spec (Z.of_nat (length outs)) v).
  - rewrite lookup_ge_None_2 by lia. cbn. naive_solver.
  - destruct (outs !! Z.to_nat v) as [o|]; cbn; [|naive_solver].
    split; [intros [= <- <-]; by exists (Hex (commitment o))|by intros (d & [= <- <-] & <-)].
Qed.

(** the opcodes whose notes both read from the envelope *)
Definition resolved_opcodes : list Z :=
  [T_CETCH; T_MINT; T_CXFER; T_CXFER_BPP; T_CXFER_BOUND; T_AXFER; T_AXFER_VAR; T_AXFER_VAR_BPP; T_PREAUTH_BID; T_BURN].

(** The structural view of a payload, against the full decoding. *)
Lemma view_both {A} (dv : res outputs_view) (d : res A) (get : A → bytes * list output) msg v a c :
  0 <= v →
  (∀ w, dv = Ok w ↔ ∃ x, d = Ok x ∧ w = View (get x).1 (map commitment (get x).2)) →
  (x ← decoded d; note_of (get x).1 (output_at (get x).2 v)) = Some (a, c) ↔
  ∃ k, (w ← or_throw dv msg; output_commitment w v) = Ok (ParentNote k a) ∧ declared_bytes k = c.
Proof.
  intros Hv Hd. split.
  - intros E. destruct d as [x| | |]; try done. cbn in E.
    assert (Ew : dv = Ok (View (get x).1 (map commitment (get x).2))) by (apply Hd; eauto).
    rewrite Ew. cbn. by apply output_both in E.
  - intros (k & E & Ek). apply res_bind_Ok in E as (w & Ew & E).
    apply or_throw_Ok, Hd in Ew as (x & -> & ->).
    cbn. apply output_both; eauto.
Qed.

Lemma hex_note x y a c :
  Some (y, x) = Some (a, c) ↔
  ∃ d, (mret (ParentNote (Hex x) y) : res parent_note) = Ok (ParentNote d a) ∧ declared_bytes d = c.
Proof. cbn. split; [intros [= -> ->]; by exists (Hex c)|by intros (d & [= <- ->] & <-)]. Qed.
Lemma raw_note x y a c :
  Some (y, x) = Some (a, c) ↔
  ∃ d, (mret (ParentNote (Raw x) y) : res parent_note) = Ok (ParentNote d a) ∧ declared_bytes d = c.
Proof. cbn. split; [intros [= -> ->]; by exists (Raw c)|by intros (d & [= <- ->] & <-)]. Qed.
Lemma no_note msg a c :
  (None : option (bytes * bytes)) = Some (a, c) ↔ ∃ d, (Throw msg : res parent_note) = Ok (ParentNote d a) ∧ declared_bytes d = c.
Proof. split; [done|by intros (? & ? & _)]. Qed.

Lemma axferVar_both op p v msg a c :
  0 <= op < 256 →
  (d ← decoded (AxferVar.decode_with op p); i ← axferVarOutputIndexForVout v;
   note_of (Axfer.assetId d) (Axfer.outputs d !! Z.to_nat i)) = Some (a, c) ↔
  ∃ k, (w ← or_throw (W.axfer_var_with op p) msg;
        match (if v =? 0 then Some 0 else if v =? 2 then Some 1 else None) with
        | Some i => output_commitment w i
        | None => Throw "not a tacit-asset output"
        end) = Ok (ParentNote k a) ∧ declared_bytes k = c.
Proof.
  intros Hop. unfold axferVarOutputIndexForVout. set (i := if v =? 0 then Some 0 else _).
  assert (Hi : ∀ j, i = Some j → 0 <= j) by (subst i; intros j; repeat case_match; naive_solver lia).
  split.
  - intros E. destruct (AxferVar.decode_with op p) as [x| | |] eqn:Ed; try done. cbn in E.
    assert (Ew : W.axfer_var_with op p = Ok (View (Axfer.assetId x) (map commitment (Axfer.outputs x))))
      by (apply axferVar_view; eauto).
    rewrite Ew. cbn. destruct i as [j|]; [|done]. cbn in E. specialize (Hi j eq_refl).
    apply output_both; [done|]. by rewrite output_at_lookup.
  - intros (k & E & Ek). apply res_bind_Ok in E as (w & Ew & E).
    apply or_throw_Ok, axferVar_view in Ew as (x & -> & ->); [|done].
    destruct i as [j|]; [|done]. cbn. specialize (Hi j eq_refl). rewrite <- output_at_lookup by done.
    apply output_both; eauto.
Qed.

(** One equivalence per kind of envelope. *)
Lemma envelope_note_client e op a c :
  0 <= vout op → env_opcode e ∈ resolved_opcodes →
  getParentEnvelopeData e op = Some (a, c) ↔
  ∃ d, envelope_note e op = Ok (ParentNote d a) ∧ declared_bytes d = c.
Proof.
  intros Hv Ht. destruct e as [pk t p]. unfold getParentEnvelopeData, envelope_note.
  cbn [env_opcode env_payload] in *. unfold resolved_opcodes in Ht.
  repeat (apply elem_of_cons in Ht as [->|Ht]); [..|by apply elem_of_nil in Ht].
  all: cbn [Z.eqb Pos.eqb T_CETCH T_MINT T_CXFER T_CXFER_BPP T_CXFER_BOUND T_AXFER T_AXFER_BPP T_AXFER_VAR T_AXFER_VAR_BPP T_PREAUTH_BID T_BURN orb].
  - destruct (vout op =? 0); [|by apply no_note]. cbn.
    destruct (CEtch.decodeCEtchPayload p); cbn; [apply hex_note|by apply no_note..].
  - destruct (vout op =? 0); [|by apply no_note]. cbn.
    destruct (CMint.decodeCMintPayload p); cbn; [apply hex_note|by apply no_note..].
  - apply (view_both _ _ (λ x, (Cxfer.assetId x, Cxfer.outputs x))); [done|]. intros w. by apply cxfer_view.
  - apply (view_both _ _ (λ x, (Cxfer.assetId x, Cxfer.outputs x))); [done|]. intros w. by apply cxfer_view.
  - apply (view_both _ _ (λ x, (CxferBound.assetId x, CxferBound.outputs x))); [done|]. intros w. by apply cxferBound_view.
  - apply (view_both _ _ (λ x, (Axfer.assetId x, Axfer.outputs x))); [done|]. intros w. by apply axfer_view.
  - by apply axferVar_both.
  - by apply axferVar_both.
  - destruct (PreauthBid.decodePreauthBidPayload p) as [x| | |]; cbn; [|by apply no_note..].
    unfold bid_index. destruct (vout op =? 0), (vout op =? 3), (PreauthBid.outputs x) as [|o0 [|o1 [|? ?]]]; cbn;
      by first [apply raw_note|apply no_note].
  - destruct (CBurn.decodeCBurnPayload p) as [x| | |]; cbn; [by apply output_both|by apply no_note..].
Qed.
End resolve.
