(* ===== verification/AmmPool.v ===== *)
(** * The indexer's liquidity pools

    The pool handlers of [scanForEtches] in [worker/src/index.js]: pool creation and
    liquidity additions (T_LP_ADD), removals (T_LP_REMOVE), protocol-fee claims, swaps
    (T_SWAP_VAR) and routes (T_SWAP_ROUTE), over the key-value store they read and write.
    A handler is a function from the store to an outcome: [Null] is the code's
    [continue], which leaves the store alone; [Throw] leaves the scan loop. *)
From S2P Require Import Prelude Bytes Crypto CodecTransfer CodecPool CodecSlots CodecAmm CodecBatch.
From S2P Require Import Messages AmmMath Curve Kernel Notes WorkerNotes.

Definition AMM_CAPABILITY_FLAGS_MAX : Z := 255.
Definition AMM_INITIAL_LP_LOCK_BLOCKS : Z := 6.
Definition AMM_SWAP_ROUTE_U64_MAX : Z := 2 ^ 64 - 1.
Definition CANONICAL_AMM_VK_CID : bytes :=
  ascii_bytes "bafkreibjpe4xfqtq2ziki4uupydnkeiakqi76m674xtdhmxnfbrn4iomp4".

(** ** Data *)

(** A pool record; the fields that only describe it (URIs, CIDs, the last transactions)
    are left out. *)
Record pool := Pool {
  asset_a : bytes; asset_b : bytes; lp_asset_id : bytes;
  reserve_a : Z; reserve_b : Z; lp_total_shares : Z;
  fee_bps : Z; protocol_fee_address : bytes; protocol_fee_bps : Z; protocol_fee_accrued : Z;
  capability_flags : Z; k_last : Z; init_height : Z; validation : string;
  arbiter_pubkeys : list bytes; arbiter_threshold_m : Z }.

(** [{ ...pool, <fields> }] *)
Definition with_reserves (p : pool) (ra rb : Z) : pool :=
  Pool (asset_a p) (asset_b p) (lp_asset_id p) ra rb (lp_total_shares p) (fee_bps p) (protocol_fee_address p)
       (protocol_fee_bps p) (protocol_fee_accrued p) (capability_flags p) (k_last p) (init_height p) (validation p)
       (arbiter_pubkeys p) (arbiter_threshold_m p).
Definition with_shares (p : pool) (n : Z) : pool :=
  Pool (asset_a p) (asset_b p) (lp_asset_id p) (reserve_a p) (reserve_b p) n (fee_bps p) (protocol_fee_address p)
       (protocol_fee_bps p) (protocol_fee_accrued p) (capability_flags p) (k_last p) (init_height p) (validation p)
       (arbiter_pubkeys p) (arbiter_threshold_m p).
Definition with_k_last (p : pool) (k : Z) : pool :=
  Pool (asset_a p) (asset_b p) (lp_asset_id p) (reserve_a p) (reserve_b p) (lp_total_shares p) (fee_bps p)
       (protocol_fee_address p) (protocol_fee_bps p) (protocol_fee_accrued p) (capability_flags p) k
       (init_height p) (validation p)
       (arbiter_pubkeys p) (arbiter_threshold_m p).
Definition with_accrued (p : pool) (n : Z) : pool :=
  Pool (asset_a p) (asset_b p) (lp_asset_id p) (reserve_a p) (reserve_b p) (lp_total_shares p) (fee_bps p)
       (protocol_fee_address p) (protocol_fee_bps p) n (capability_flags p) (k_last p) (init_height p) (validation p)
       (arbiter_pubkeys p) (arbiter_threshold_m p).
Definition verified (p : pool) : pool :=
  Pool (asset_a p) (asset_b p) (lp_asset_id p) (reserve_a p) (reserve_b p) (lp_total_shares p) (fee_bps p)
       (protocol_fee_address p) (protocol_fee_bps p) (protocol_fee_accrued p) (capability_flags p) (k_last p)
       (init_height p) "verified" (arbiter_pubkeys p) (arbiter_threshold_m p).

Inductive op_kind := PoolInitOp | LpAddOp | LpRemoveOp | FeeClaimOp.
Record op_record := OpRecord { op_h : Z; op_op : op_kind; op_pool : bytes }.

Inductive outcome :=
| Execute (delta_out_actual quoted_delta_out : Z)
| Passthrough (pass_reason : string) (refund_amount : Z)
| Route.
(** an asset id and a commitment *)
Record credit := Credit { cr_asset : bytes; cr_commitment : bytes }.
Record swap_record := SwapRecord { sr_h : Z; sr_outcome : outcome; sr_receipt : option credit; sr_change : option credit }.

(** The keys of [REGISTRY_KV] the handlers use: pools by id, pool ids by asset pair, the
    index of operations, and the records of applied operations and swaps by txid. *)
Record store := Store {
  pools : gmap bytes pool;
  pairs : gmap (bytes * bytes) (list bytes);
  op_index : gset (bytes * Z * Z * bytes);
  op_accepted : gmap bytes op_record;
  swap_accepted : gmap bytes swap_record }.

Definition ammPoolPut (pid : bytes) (p : pool) (s : store) : store :=
  Store (<[pid := p]> (pools s)) (pairs s) (op_index s) (op_accepted s) (swap_accepted s).
Definition ammPairGet (s : store) (low high : bytes) : list bytes := default [] (pairs s !! (low, high)).
Definition ammPairAppend (low high pid : bytes) (s : store) : store :=
  let l := ammPairGet s low high in
  if bool_decide (pid ∈ l) then s
  else Store (pools s) (<[(low, high) := l ++ [pid]]> (pairs s)) (op_index s) (op_accepted s) (swap_accepted s).
Definition recordAmmOp (pid : bytes) (h txIndex : Z) (txid : bytes) (s : store) : store :=
  if negb (blen pid =? 32) then s
  else Store (pools s) (pairs s) ({[(pid, h, txIndex, txid)]} ∪ op_index s) (op_accepted s) (swap_accepted s).
Definition ammOpAcceptedPut (txid : bytes) (r : op_record) (s : store) : store :=
  Store (pools s) (pairs s) (op_index s) (<[txid := r]> (op_accepted s)) (swap_accepted s).
Definition ammSwapAcceptedPut (txid : bytes) (r : swap_record) (s : store) : store :=
  Store (pools s) (pairs s) (op_index s) (op_accepted s) (<[txid := r]> (swap_accepted s)).

(** A confirmed transaction as the explorer returns it: its id, the outpoints it spends
    and the scripts of its outputs. *)
Record wtx := WTx { wtxid : bytes; wvin : list outpoint; wvout : list bytes }.

Inductive gate := NoGate | Gated (pubkey : bytes) | FetchFailed.

(** ** What the handlers ask of the outside *)
Class Indexer := {
  mainnet : bool;                                          (* network === 'mainnet' *)
  ammFetchLauncherPubkeyForAsset : bytes → gate;           (* an asset's pinned metadata *)
  verifyXCurve : bytes → bytes → bytes → bool;             (* the cross-curve proof *)
  bpRangeVerify : bytes → bytes → bool;                    (* of dapp/bulletproofs.js; false when it throws *)
  keccak_256 : bytes → bytes;
  hash160 : bytes → bytes }.

Section handlers.
Context `{Hash} {SE : Secp} {CH : Chain} {RC : Records} {IX : Indexer}.

(** ** Ids *)
Fixpoint lex_lt (a b : bytes) : option bool :=
  match a, b with
  | x :: a, y :: b => if byteZ x <? byteZ y then Some true else if byteZ x >? byteZ y then Some false else lex_lt a b
  | _, _ => None
  end.
Definition ammCanonicalAssetPair (a b : bytes) : res (bytes * bytes) :=
  throw_if (negb (blen a =? 32) || negb (blen b =? 32)) "asset_id must be 32 bytes";;
  match lex_lt a b with
  | Some true => mret (a, b)
  | Some false => mret (b, a)
  | None => Throw "canonical pair: identical asset_ids"
  end.

Definition ammDerivePoolId (idA idB : bytes) (feeBps capabilityFlags : Z) (pfAddr : bytes) (pfBps : Z) : res bytes :=
  canon ← ammCanonicalAssetPair idA idB;
  throw_if ((feeBps <? 0) || (feeBps >? AMM_FEE_BPS_MAX)) "fee_bps out of range";;
  throw_if ((capabilityFlags <? 0) || (capabilityFlags >? AMM_CAPABILITY_FLAGS_MAX)) "capability_flags out of range u8";;
  throw_if ((pfBps <? 0) || (pfBps >? AMM_PROTOCOL_FEE_BPS_MAX)) "protocol_fee_bps out of range";;
  throw_if (negb (blen pfAddr =? 33)) "protocol_fee_address must be 33 bytes";;
  throw_if (negb (eqb (pfBps =? 0) (all_zero pfAddr)))
    "protocol_fee_address and protocol_fee_bps must be joint-zero or joint-non-zero";;
  if pfBps =? 0 then
    mret (sha256 (concatBytes [AMM_POOL_ID_DOMAIN; canon.1; canon.2; le 2 feeBps; u8b capabilityFlags]))
  else
    mret (sha256 (concatBytes [AMM_POOL_ID_DOMAIN; canon.1; canon.2; le 2 feeBps; u8b capabilityFlags; pfAddr; le 2 pfBps])).

Definition ammDeriveLpAssetId (pid : bytes) : res bytes :=
  throw_if (negb (blen pid =? 32)) "pool_id must be 32 bytes";;
  mret (sha256 (concatBytes [AMM_LP_ASSET_DOMAIN; pid])).

(** ** The protocol fee *)
Definition _ammIsZeroAddressHex (addr : bytes) : bool := (blen addr =? 33) && all_zero addr.

Definition ammCrystallizeProtocolFee (p : pool) : res pool :=
  if _ammIsZeroAddressHex (protocol_fee_address p) then mret p
  else if protocol_fee_bps p =? 0 then mret p
  else
    let k_now := reserve_a p * reserve_b p in
    let k_pre := k_last p in
    if k_now <=? k_pre then mret (with_k_last p k_now)
    else
      newShares ← ammComputeProtocolShares (lp_total_shares p) k_pre k_now (protocol_fee_bps p);
      mret (with_k_last (with_shares (with_accrued p (protocol_fee_accrued p + newShares))
                                     (lp_total_shares p + newShares)) k_now).

(** ** Inputs and outputs of the transaction *)
Record side := Side { side_inputs : list outpoint; side_commitments : list bytes }.

Fixpoint collect (ins : list outpoint) (byAsset : gmap bytes side) : res (gmap bytes side) :=
  match ins with
  | [] => mret byAsset
  | i :: ins =>
      match commitmentForUtxo i with
      | Ok n =>
          match pn_commitment n with
          | Hex c =>
              let e := default (Side [] []) (byAsset !! pn_asset n) in
              collect ins (<[pn_asset n := Side (side_inputs e ++ [i]) (side_commitments e ++ [c])]> byAsset)
          | Raw _ => Throw "hex string expected"
          end
      | _ => collect ins byAsset
      end
  end.
Definition ammCollectAssetInputs (tx : wtx) (startVin : nat) : res (gmap bytes side) :=
  collect (drop startVin (wvin tx)) ∅.

(** [if (!side || side.inputs.length === 0) continue;] *)
Definition get_side (m : gmap bytes side) (asset : bytes) : res side :=
  match m !! asset with
  | Some e => null_when (length (side_inputs e) =? 0)%nat;; mret e
  | None => Null
  end.

(** [/^5120[0-9a-f]{64}$/] on the script's hex *)
Definition p2trXonly (tx : wtx) (i : nat) : bytes :=
  match wvout tx !! i with
  | Some spk => if (blen spk =? 34) && bool_decide (take 2 spk = u8b 0x51 ++ u8b 0x20) then drop 2 spk else zeros 32
  | None => zeros 32
  end.

Record refunds := Refunds { rf_expiry : Z; rf_xonlyA : bytes; rf_xonlyB : bytes; rf_blindingA : bytes; rf_blindingB : bytes }.
(** wire order mapped to canonical order; outputs 2 and 3 for a pool's creation, 1 and 2
    for an addition *)
Definition lp_refunds (voutA voutB : nat) (tx : wtx) (lp : LpAdd.t) (swapped : bool) : refunds :=
  let wireA := p2trXonly tx voutA in
  let wireB := p2trXonly tx voutB in
  Refunds (LpAdd.expiryHeight lp)
    (if swapped then wireB else wireA) (if swapped then wireA else wireB)
    (if swapped then LpAdd.refundBBlinding lp else LpAdd.refundABlinding lp)
    (if swapped then LpAdd.refundABlinding lp else LpAdd.refundBBlinding lp).
Definition ammPoolInitRefunds := lp_refunds 2 3.

(** ** The locked minimum liquidity *)
Definition MIN_LIQ_DOMAIN_PUBKEY : bytes := ascii_bytes "tacit-amm-min-liq-pubkey-v1".

Fixpoint nums_loop (fuel : nat) (counter : Z) (pid : bytes) : res bytes :=
  match fuel with
  | O => Throw "MIN_LIQ NUMS recipient derivation exhausted"
  | S fuel =>
      let xHash := sha256 (concatBytes [MIN_LIQ_DOMAIN_PUBKEY; pid; u8b (Z.land counter 0xff)]) in
      let candidate := u8b 0x02 ++ xHash in
      if bytes32ToBigint xHash >=? SECP_P then nums_loop fuel (counter + 1) pid
      else match bytesToPoint candidate with
           | Ok pt => if equals pt ZERO then nums_loop fuel (counter + 1) pid else mret (hash160 candidate)
           | _ => nums_loop fuel (counter + 1) pid
           end
  end.
Definition ammDeriveMinLiqNumsP2wpkh (pid : bytes) : res bytes := nums_loop 256 0 pid.

Definition ammVerifyMinLiqVoutStructural (tx : wtx) (pid : bytes) : bool :=
  match wvout tx !! 1%nat with
  | None => false
  | Some spk =>
      if negb (blen spk =? 22) || negb (bool_decide (take 2 spk = u8b 0x00 ++ u8b 0x14)) then false
      else match ammDeriveMinLiqNumsP2wpkh pid with
           | Ok e => (blen e =? 20) && bool_decide (drop 2 spk = e)
           | _ => false
           end
  end.

(** ** Launcher gates *)
Fixpoint gates_ok (gates sigs : list bytes) (gateMsg : bytes) : res bool :=
  match gates, sigs with
  | [], _ => mret true
  | pk :: gates, sig :: sigs =>
      if negb (blen sig =? 64) then mret false
      else match bytesToPoint pk with
           | Ok P =>
               ok ← verifySchnorrWorker sig gateMsg (xonly P);
               if ok : bool then gates_ok gates sigs gateMsg else mret false
           | _ => mret false
           end
  | _ :: _, [] => mret false
  end.
Definition gate_keys (g : gate) : list bytes := match g with Gated pk => [pk] | _ => [] end.
Definition fetch_failed (g : gate) : bool := match g with FetchFailed => true | _ => false end.

(** ** Liquidity *)
Definition tradable (p : pool) : bool :=
  String.eqb (validation p) "xcurve-verified" || String.eqb (validation p) "verified".

Definition kernel_of (variant : Z) (pid asset : bytes) (delta : Z) (lp : LpAdd.t) (sd : side)
    (expiry : Z) (refundXonly refundBlinding : bytes) : lp_add_kernel :=
  LpAddKernel variant pid asset delta (LpAdd.shareAmount lp) (LpAdd.shareCSecp lp) (side_inputs sd)
              expiry refundXonly refundBlinding.

(** T_LP_ADD, variant 1: a new pool. *)
Definition lp_init_handler (h txIndex : Z) (tx : wtx) (lp : LpAdd.t) (i : LpAdd.init) (s : store) : res store :=
  null_when (mainnet && negb (bool_decide (LpAdd.vkCid i = CANONICAL_AMM_VK_CID)));;
  canon ← tryc (ammCanonicalAssetPair (LpAdd.assetA lp) (LpAdd.assetB lp));
  let '(a, b) := canon in
  let swapped := negb (bool_decide (a = LpAdd.assetA lp)) in
  let deltaA := if swapped then LpAdd.deltaB lp else LpAdd.deltaA lp in
  let deltaB := if swapped then LpAdd.deltaA lp else LpAdd.deltaB lp in
  null_when (negb (LpAdd.poolCapabilityFlags i =? 0));;
  null_when (negb (length (LpAdd.arbiterPubkeys i) =? 0)%nat);;
  null_when (negb (LpAdd.arbiterThresholdM i =? 0));;
  pid ← tryc (ammDerivePoolId a b (LpAdd.feeBps i) (LpAdd.poolCapabilityFlags i)
                (LpAdd.protocolFeeAddress i) (LpAdd.protocolFeeBps i));
  null_when (bool_decide (is_Some (pools s !! pid)));;
  init ← tryc (ammLpInitShares deltaA deltaB);
  null_when (negb (founder_shares init =? LpAdd.shareAmount lp));;
  let gateA := ammFetchLauncherPubkeyForAsset a in
  let gateB := ammFetchLauncherPubkeyForAsset b in
  null_when (fetch_failed gateA || fetch_failed gateB);;
  let gates := gate_keys gateA ++ gate_keys gateB in
  null_when (negb (length gates =? length (LpAdd.launcherSigs i))%nat);;
  allOk ← gates_ok gates (LpAdd.launcherSigs i) (ammLauncherGateMsg pid (LpAdd.vkCid i) (LpAdd.feeBps i));
  null_when (negb allOk);;
  null_when (negb (verifyXCurve (LpAdd.shareXcurveSigma lp) (LpAdd.shareCSecp lp) (LpAdd.shareCBJJ lp)));;
  byAsset ← ammCollectAssetInputs tx 1;
  aSide ← get_side byAsset a;
  bSide ← get_side byAsset b;
  let r := ammPoolInitRefunds tx lp swapped in
  okA ← ammLpAddKernelVerify (kernel_of 1 pid a deltaA lp aSide (rf_expiry r) (rf_xonlyA r) (rf_blindingA r))
          (side_commitments aSide) (LpAdd.kernelSigA lp);
  null_when (negb okA);;
  okB ← ammLpAddKernelVerify (kernel_of 1 pid b deltaB lp bSide (rf_expiry r) (rf_xonlyB r) (rf_blindingB r))
          (side_commitments bSide) (LpAdd.kernelSigB lp);
  null_when (negb okB);;
  null_when (negb (ammVerifyMinLiqVoutStructural tx pid));;
  lpAssetId ← ammDeriveLpAssetId pid;
  mret (ammPairAppend a b pid
       (ammPoolPut pid
          (Pool a b lpAssetId deltaA deltaB (total_shares init) (LpAdd.feeBps i) (LpAdd.protocolFeeAddress i)
                (LpAdd.protocolFeeBps i) 0 (LpAdd.poolCapabilityFlags i) (deltaA * deltaB) h "xcurve-verified"
                (LpAdd.arbiterPubkeys i) (LpAdd.arbiterThresholdM i))
       (ammOpAcceptedPut (wtxid tx) (OpRecord h PoolInitOp pid)
       (recordAmmOp pid h txIndex (wtxid tx) s)))).

(** The first candidate whose id is derived from its record and under which the A-side
    kernel verifies. *)
Fixpoint add_candidate (a b : bytes) (dA : Z) (lp : LpAdd.t) (aSide : side) (r : refunds)
    (s : store) (l : list bytes) : res (bytes * pool) :=
  match l with
  | [] => Null
  | candidate :: l =>
      let next := add_candidate a b dA lp aSide r s l in
      match pools s !! candidate with
      | None => next
      | Some p =>
          if negb (tradable p) then next else
          match ammDerivePoolId a b (fee_bps p) (capability_flags p) (protocol_fee_address p) (protocol_fee_bps p) with
          | Ok pid =>
              if negb (bool_decide (pid = candidate)) then next else
              trialOk ← ammLpAddKernelVerify (kernel_of 0 pid a dA lp aSide (rf_expiry r) (rf_xonlyA r) (rf_blindingA r))
                          (side_commitments aSide) (LpAdd.kernelSigA lp);
              if trialOk : bool then mret (pid, p) else next
          | _ => next
          end
      end
  end.

(** T_LP_ADD, variant 0: liquidity for a pool that exists. *)
Definition lp_add_handler (h txIndex : Z) (tx : wtx) (lp : LpAdd.t) (s : store) : res store :=
  canon ← tryc (ammCanonicalAssetPair (LpAdd.assetA lp) (LpAdd.assetB lp));
  let '(a, b) := canon in
  let swapped := negb (bool_decide (a = LpAdd.assetA lp)) in
  let dA := if swapped then LpAdd.deltaB lp else LpAdd.deltaA lp in
  let dB := if swapped then LpAdd.deltaA lp else LpAdd.deltaB lp in
  let candidates := ammPairGet s a b in
  null_when (length candidates =? 0)%nat;;
  byAsset ← ammCollectAssetInputs tx 1;
  let r := lp_refunds 1 2 tx lp swapped in
  aSide ← get_side byAsset a;
  bSide ← get_side byAsset b;
  found ← add_candidate a b dA lp aSide r s candidates;
  let '(pid, p) := found in
  null_when (h <? init_height p + AMM_INITIAL_LP_LOCK_BLOCKS);;
  x ← ammCrystallizeProtocolFee p;
  expectedShares ← tryc (ammLpAddShares dA dB (reserve_a x) (reserve_b x) (lp_total_shares x));
  null_when (expectedShares =? 0);;
  null_when (negb (expectedShares =? LpAdd.shareAmount lp));;
  null_when (negb (verifyXCurve (LpAdd.shareXcurveSigma lp) (LpAdd.shareCSecp lp) (LpAdd.shareCBJJ lp)));;
  okB ← ammLpAddKernelVerify (kernel_of 0 pid b dB lp bSide (rf_expiry r) (rf_xonlyB r) (rf_blindingB r))
          (side_commitments bSide) (LpAdd.kernelSigB lp);
  null_when (negb okB);;
  let newReserveA := reserve_a x + dA in
  let newReserveB := reserve_b x + dB in
  null_when ((newReserveA >=? Z.shiftl 1 64) || (newReserveB >=? Z.shiftl 1 64));;
  mret (ammPoolPut pid
          (with_k_last (with_shares (with_reserves x newReserveA newReserveB) (lp_total_shares x + expectedShares))
                       (newReserveA * newReserveB))
       (ammOpAcceptedPut (wtxid tx) (OpRecord h LpAddOp pid)
       (recordAmmOp pid h txIndex (wtxid tx) s))).

(** The pool a removal names, by the kernel that verifies; the pool comes back with its
    protocol fee crystallized and the amounts the shares are worth. *)
Fixpoint remove_candidate (a b : bytes) (dA dB : Z) (rm : LpRemove.t) (refundXonly : bytes) (byAsset : gmap bytes side)
    (s : store) (l : list bytes) : res (bytes * pool) :=
  match l with
  | [] => Null
  | candidate :: l =>
      let next := remove_candidate a b dA dB rm refundXonly byAsset s l in
      let shareAmount := LpRemove.shareAmount rm in
      match pools s !! candidate with
      | None => next
      | Some p =>
          if negb (tradable p) then next else
          match ammDerivePoolId a b (fee_bps p) (capability_flags p) (protocol_fee_address p) (protocol_fee_bps p) with
          | Ok pid =>
              if negb (bool_decide (pid = candidate)) then next else
              match get_side byAsset (lp_asset_id p) with
              | Ok lpSide =>
                  x ← ammCrystallizeProtocolFee p;
                  if (shareAmount =? 0) || (shareAmount >? lp_total_shares x) then next else
                  match ammLpRemoveOutputs shareAmount (reserve_a x) (reserve_b x) (lp_total_shares x) with
                  | Ok expected =>
                      if negb (expected.1 =? dA) || negb (expected.2 =? dB) then next else
                      if (expected.1 =? 0) || (expected.2 =? 0) then next else
                      trialOk ← ammLpRemoveKernelVerify
                        (LpRemoveKernel pid shareAmount expected.1 expected.2 (LpRemove.recvACSecp rm)
                           (LpRemove.recvBCSecp rm) (side_inputs lpSide) refundXonly)
                        (side_commitments lpSide) (LpRemove.kernelSigLP rm);
                      if trialOk : bool then mret (pid, x) else next
                  | _ => next
                  end
              | _ => next
              end
          | _ => next
          end
      end
  end.

(** T_LP_REMOVE *)
Definition lp_remove_handler (h txIndex : Z) (tx : wtx) (rm : LpRemove.t) (s : store) : res store :=
  canon ← tryc (ammCanonicalAssetPair (LpRemove.assetA rm) (LpRemove.assetB rm));
  let '(a, b) := canon in
  let swapped := negb (bool_decide (a = LpRemove.assetA rm)) in
  let dA := if swapped then LpRemove.deltaB rm else LpRemove.deltaA rm in
  let dB := if swapped then LpRemove.deltaA rm else LpRemove.deltaB rm in
  let candidates := ammPairGet s a b in
  null_when (length candidates =? 0)%nat;;
  byAsset ← ammCollectAssetInputs tx 1;
  found ← remove_candidate a b dA dB rm (p2trXonly tx 2) byAsset s candidates;
  let '(pid, x) := found in
  null_when (negb (verifyXCurve (LpRemove.recvAXcurveSigma rm) (LpRemove.recvACSecp rm) (LpRemove.recvACBJJ rm)));;
  null_when (negb (verifyXCurve (LpRemove.recvBXcurveSigma rm) (LpRemove.recvBCSecp rm) (LpRemove.recvBCBJJ rm)));;
  let newReserveA := reserve_a x - dA in
  let newReserveB := reserve_b x - dB in
  null_when ((newReserveA <=? 0) || (newReserveB <=? 0));;
  mret (ammPoolPut pid
          (with_k_last (with_shares (with_reserves x newReserveA newReserveB) (lp_total_shares x - LpRemove.shareAmount rm))
                       (newReserveA * newReserveB))
       (ammOpAcceptedPut (wtxid tx) (OpRecord h LpRemoveOp pid)
       (recordAmmOp pid h txIndex (wtxid tx) s))).

(** ** The protocol-fee claim *)
Definition buildProtocolFeeClaimMsg (pid : bytes) (claimAmount : Z) (claimCSecp claimBlinding destSpk : bytes) : bytes :=
  keccak_256 (concatBytes [PROTOCOL_FEE_CLAIM_DOMAIN; pid; be 8 claimAmount; claimCSecp; claimBlinding; destSpk]).

Definition fee_claim_handler (h txIndex : Z) (tx : wtx) (cl : FeeClaim.t) (s : store) : res store :=
  p ← (match pools s !! FeeClaim.poolId cl with Some p => mret p | None => Null end);
  null_when (negb (tradable p));;
  null_when (_ammIsZeroAddressHex (protocol_fee_address p));;
  null_when (protocol_fee_bps p =? 0);;
  null_when (negb (bool_decide (FeeClaim.claimerPubkey cl = protocol_fee_address p)));;
  x ← ammCrystallizeProtocolFee p;
  null_when (negb (FeeClaim.claimAmount cl =? protocol_fee_accrued x));;
  null_when (FeeClaim.claimAmount cl =? 0);;
  let destSpk := default [] (wvout tx !! 0%nat) in
  let claimMsg := buildProtocolFeeClaimMsg (FeeClaim.poolId cl) (FeeClaim.claimAmount cl) (FeeClaim.claimCSecp cl)
                    (FeeClaim.claimBlinding cl) destSpk in
  sigOk ← verifySchnorrWorker (FeeClaim.claimSig cl) claimMsg (drop 1 (FeeClaim.claimerPubkey cl));
  null_when (negb sigOk);;
  let r := bytes32ToBigint (FeeClaim.claimBlinding cl) in
  null_when (r >=? SECP_N);;
  expected ← pedersenCommit (FeeClaim.claimAmount cl) (modN r);
  actual ← tryc (bytesToPoint (FeeClaim.claimCSecp cl));
  null_when (negb (equals expected actual));;
  mret (ammPoolPut (FeeClaim.poolId cl) (with_accrued x 0)
       (ammOpAcceptedPut (wtxid tx) (OpRecord h FeeClaimOp (FeeClaim.poolId cl))
       (recordAmmOp (FeeClaim.poolId cl) h txIndex (wtxid tx) s))).

(** ** Swaps *)

(** the 32 bytes after [6a20] in output 0 *)
Definition op_return_hash (tx : wtx) : option bytes :=
  spk ← wvout tx !! 0%nat;
  if negb (blen spk =? 34) || negb (bool_decide (take 2 spk = u8b 0x6a ++ u8b 0x20)) then None else Some (drop 2 spk).

(** What Stage A hands to Stage B: the asset of the input, the amount that left it, and
    the receipt's blinding. *)
Record swap_auth := SwapAuth { au_asset : bytes; au_total : Z; au_rReceipt : Z }.

(** Stage A: any failure means the swap is invalid. *)
Definition swap_authenticate (tx : wtx) (payload : bytes) (sv : SwapVar.t) : res swap_auth :=
  opReturn ← (match op_return_hash tx with Some b => mret b | None => Null end);
  null_when (negb (bool_decide (take 32 opReturn = sha256 payload)));;
  inp ← (match wvin tx !! 1%nat with Some i => mret i | None => Null end);
  parent ← tryc (commitmentForUtxo inp);
  null_when (negb (match pn_commitment parent with Hex c => bool_decide (c = SwapVar.cInSecp sv) | Raw _ => false end));;
  let rReceipt := bytes32ToBigint (SwapVar.rReceipt sv) in
  null_when ((rReceipt =? 0) || (rReceipt >=? SECP_N));;
  let deltaInTotal := SwapVar.deltaIn sv + SwapVar.tipAmount sv in
  null_when (deltaInTotal >=? Z.shiftl 1 64);;
  kernelPoint ← tryc (ammSwapVarKernelVerifyPoint (SwapVar.cChangeOrSentinel sv) (SwapVar.cInSecp sv) deltaInTotal);
  null_when (equals kernelPoint ZERO);;
  kernelMsg ← computeKernelMsg (pn_asset parent) [inp] [SwapVar.cChangeOrSentinel sv] deltaInTotal;
  kernelOk ← verifySchnorrWorker (SwapVar.kernelSig sv) kernelMsg (xonly kernelPoint);
  null_when (negb kernelOk);;
  receiveSpk ← (match wvout tx !! 1%nat with Some b => mret b | None => Null end);
  changeSpk ← (if isSentinelChange (SwapVar.cChangeOrSentinel sv) then mret []
               else match wvout tx !! 2%nat with Some b => mret b | None => Null end);
  refundSpk ← (match wvout tx !! 3%nat with Some b => mret b | None => Null end);
  intentMsg ← ammSwapVarIntentMsg
    (SwapIntent (SwapVar.poolId sv) (SwapVar.direction sv) (SwapVar.deltaIn sv) (SwapVar.deltaInMin sv)
       (SwapVar.deltaInMax sv) (SwapVar.minOut sv) (SwapVar.tipAmount sv) (SwapVar.tipAsset sv)
       (SwapVar.expiryHeight sv) (SwapVar.traderPubkey sv) (outpoint_bytes inp) receiveSpk (SwapVar.rReceipt sv)
       (SwapVar.cChangeOrSentinel sv) changeSpk refundSpk);
  trader ← tryc (bytesToPoint (SwapVar.traderPubkey sv));
  intentOk ← verifySchnorrWorker (SwapVar.intentSig sv) intentMsg (xonly trader);
  null_when (negb intentOk);;
  _ ← tryc (bytesToPoint (SwapVar.cReceiptSecp sv));
  (if all_zero (take 33 (SwapVar.cChangeOrSentinel sv)) then mret tt
   else change ← tryc (bytesToPoint (SwapVar.cChangeOrSentinel sv));
        null_when (negb (bppRangeVerify [change] (SwapVar.rangeProof sv))));;
  mret (SwapAuth (pn_asset parent) deltaInTotal rReceipt).

(** Stage B: the fill at the pool's running reserves, or the reason to refund. *)
Definition swap_execute (h : Z) (p : option pool) (asset : bytes) (sv : SwapVar.t) : string + (pool * curve) :=
  match p with
  | None => inl "pool not registered"%string
  | Some p =>
      let d := SwapVar.direction sv in
      if negb (tradable p) then inl "pool validation tag not verified"%string
      else if negb (d =? 0) && negb (d =? 1) then inl "direction out of range"%string
      else if negb (bool_decide (asset = if d =? 0 then asset_a p else asset_b p))
      then inl "input asset != pool's direction-side asset"%string
      else if negb (SwapVar.tipAsset sv =? d) then inl "tip_asset != input side"%string
      else if SwapVar.deltaIn sv =? 0 then inl "delta_in must be > 0"%string
      else if (SwapVar.deltaIn sv <? SwapVar.deltaInMin sv) || (SwapVar.deltaIn sv >? SwapVar.deltaInMax sv)
      then inl "delta_in outside [delta_in_min, delta_in_max]"%string
      else if h >=? SwapVar.expiryHeight sv then inl "expired"%string
      else match ammCurveDeltaOut d (reserve_a p) (reserve_b p) (SwapVar.deltaIn sv) (fee_bps p) with
           | Ok c =>
               if (raPost c <=? 0) || (rbPost c <=? 0) then inl "post-reserve non-positive"%string
               else
                 let floor := if SwapVar.minOut sv >? 1 then SwapVar.minOut sv else 1 in
                 if deltaOut c <? floor then inl "slippage: delta_out_actual < max(1, min_out)"%string
                 else inr (p, c)
           | Throw e => inl (String.append "curve at actual reserves: " e)
           | _ => inl "curve at actual reserves: "%string
           end
  end.

Definition change_record (asset : bytes) (sv : SwapVar.t) : option credit :=
  if all_zero (take 33 (SwapVar.cChangeOrSentinel sv)) then None
  else Some (Credit asset (SwapVar.cChangeOrSentinel sv)).

(** T_SWAP_VAR *)
Definition swap_var_handler (h txIndex : Z) (tx : wtx) (payload : bytes) (sv : SwapVar.t) (s : store) : res store :=
  au ← swap_authenticate tx payload sv;
  let change := change_record (au_asset au) sv in
  match swap_execute h (pools s !! SwapVar.poolId sv) (au_asset au) sv with
  | inl passReason =>
      refundC ← pedersenCommit (au_total au) (au_rReceipt au);
      mret (ammSwapAcceptedPut (wtxid tx)
        (SwapRecord h (Passthrough passReason (au_total au)) (Some (Credit (au_asset au) (toRawBytes refundC))) change) s)
  | inr (p, c) =>
      let receiptAsset := if SwapVar.direction sv =? 0 then asset_b p else asset_a p in
      receiptC ← pedersenCommit (deltaOut c) (au_rReceipt au);
      mret (ammSwapAcceptedPut (wtxid tx)
        (SwapRecord h (Execute (deltaOut c) (SwapVar.deltaOut sv)) (Some (Credit receiptAsset (toRawBytes receiptC))) change)
        (ammPoolPut (SwapVar.poolId sv) (verified (with_reserves p (raPost c) (rbPost c)))
        (recordAmmOp (SwapVar.poolId sv) h txIndex (wtxid tx) s)))
  end.

(** ** Routes *)

Definition route_delta_in (hops : list SwapRoute.hop) : Z :=
  match hops with
  | [] => 0
  | hop0 :: _ => if SwapRoute.direction hop0 =? 0 then SwapRoute.deltaANetMag hop0 else SwapRoute.deltaBNetMag hop0
  end.

Definition ammSwapRouteIntentMsg (sr : SwapRoute.t) (spk rspk : bytes) : res bytes :=
  throw_if (blen rspk =? 0) "swap-route intent: refund script required";;
  mret (sha256 (concatBytes
    [SWAP_ROUTE_INTENT_DOMAIN; SwapRoute.traderPubkey sr; SwapRoute.traderInputAssetId sr;
     SwapRoute.traderOutputAssetId sr; le 8 (route_delta_in (SwapRoute.hops sr)); le 8 (SwapRoute.minOut sr);
     le 4 (SwapRoute.expiryHeight sr); u8b (Z.of_nat (length (SwapRoute.hops sr)));
     concat (map (λ h, SwapRoute.poolId h ++ u8b (Z.land (SwapRoute.direction h) 0xff)) (SwapRoute.hops sr));
     SwapRoute.cInSecp sr; SwapRoute.rReceipt sr;
     le 2 (blen spk); spk; le 2 (blen rspk); rspk])).

Definition ammSwapRouteHop0KernelMsg (sr : SwapRoute.t) (deltaIn0 : Z) : bytes :=
  sha256 (concatBytes [KERNEL_DOMAIN; SwapRoute.traderInputAssetId sr; u8b 1; SwapRoute.traderInputTxidBE sr;
                       le 4 (SwapRoute.traderInputVout sr); u8b 1; zeros 33; u64_halves deltaIn0]).

(** the pools a route touches, with the reserves it moves along; [None] when one is
    missing or not verified *)
Fixpoint route_snapshot (hops : list SwapRoute.hop) (s : store) (snap : gmap bytes pool) : option (gmap bytes pool) :=
  match hops with
  | [] => Some snap
  | k :: hops =>
      if bool_decide (is_Some (snap !! SwapRoute.poolId k)) then route_snapshot hops s snap
      else match pools s !! SwapRoute.poolId k with
           | Some p => if negb (tradable p) then None else route_snapshot hops s (<[SwapRoute.poolId k := p]> snap)
           | None => None
           end
  end.

(** what the loop over the hops carries: the asset that comes next, the amount the last
    hop paid (none yet at the first), and the snapshots *)
Record route_state := RouteState { rs_asset : bytes; rs_prev : option Z; rs_snap : gmap bytes pool }.

(** One hop: freshness, continuity, bounds and the curve's floor; [None] is [routeOk = false]. *)
Definition route_hop (k : SwapRoute.hop) (st : route_state) : option route_state :=
  p ← rs_snap st !! SwapRoute.poolId k;
  if negb (SwapRoute.feeBps k =? fee_bps p) then None else
  if negb (SwapRoute.R_A_pre k =? reserve_a p) then None else
  if negb (SwapRoute.R_B_pre k =? reserve_b p) then None else
  let fwd := SwapRoute.direction k =? 0 in
  let assetIn := if fwd then asset_a p else asset_b p in
  let assetOut := if fwd then asset_b p else asset_a p in
  let R_in := if fwd then reserve_a p else reserve_b p in
  let R_out := if fwd then reserve_b p else reserve_a p in
  let delta_in := if fwd then SwapRoute.deltaANetMag k else SwapRoute.deltaBNetMag k in
  let delta_out := if fwd then SwapRoute.deltaBNetMag k else SwapRoute.deltaANetMag k in
  if (delta_in <=? 0) || (delta_out <=? 0) then None else
  if negb (bool_decide (assetIn = rs_asset st)) then None else
  if (match rs_prev st with Some d => negb (delta_in =? d) | None => false end) then None else
  if R_in + delta_in >? AMM_SWAP_ROUTE_U64_MAX then None else
  if R_out <? delta_out then None else
  let gNum := 10000 - fee_bps p in
  if delta_out * (R_in * 10000 + gNum * delta_in) >? R_out * gNum * delta_in then None else
  let p' := if fwd then with_reserves p (R_in + delta_in) (R_out - delta_out)
            else with_reserves p (R_out - delta_out) (R_in + delta_in) in
  Some (RouteState assetOut (Some delta_out) (<[SwapRoute.poolId k := p']> (rs_snap st))).

Fixpoint route_hops (hops : list SwapRoute.hop) (st : route_state) : option route_state :=
  match hops with
  | [] => Some st
  | k :: hops => st' ← route_hop k st; route_hops hops st'
  end.

Definition p2tr_script (tx : wtx) (i : nat) : option bytes :=
  spk ← wvout tx !! i;
  if negb (blen spk =? 34) || negb (bool_decide (take 2 spk = u8b 0x51 ++ u8b 0x20)) then None else Some spk.

(** [for (const [pid, snap] of poolSnapshot) { recordAmmOp(...); ammPoolPut(...); }] *)
Definition commit_route (h txIndex : Z) (txid : bytes) (snap : gmap bytes pool) (s : store) : store :=
  map_fold (λ pid p s, ammPoolPut pid (verified p) (recordAmmOp pid h txIndex txid s)) s snap.

(** T_SWAP_ROUTE *)
Definition swap_route_handler (h txIndex : Z) (tx : wtx) (payload : bytes) (sr : SwapRoute.t) (s : store) : res store :=
  opReturn ← (match op_return_hash tx with Some b => mret b | None => Null end);
  null_when (negb (bool_decide (take 32 opReturn = sha256 payload)));;
  null_when (negb (SwapRoute.expiryHeight sr =? 0) && (h >? SwapRoute.expiryHeight sr));;
  snap ← (match route_snapshot (SwapRoute.hops sr) s ∅ with Some m => mret m | None => Null end);
  final ← (match route_hops (SwapRoute.hops sr) (RouteState (SwapRoute.traderInputAssetId sr) None snap) with
           | Some st => mret st | None => Null end);
  null_when (negb (bool_decide (rs_asset final = SwapRoute.traderOutputAssetId sr)));;
  deltaOutLast ← (match rs_prev final with Some d => mret d | None => Null end);
  null_when (deltaOutLast <? SwapRoute.minOut sr);;
  let rReceipt := modN (bytes32ToBigint (SwapRoute.rReceipt sr)) in
  null_when (rReceipt =? 0);;
  expectedReceipt ← pedersenCommit deltaOutLast rReceipt;
  cReceipt ← tryc (bytesToPoint (SwapRoute.cReceiptSecp sr));
  null_when (negb (equals cReceipt expectedReceipt));;
  inp ← (match wvin tx !! 1%nat with Some i => mret i | None => Null end);
  parent ← tryc (commitmentForUtxo inp);
  null_when (negb (bool_decide (pn_asset parent = SwapRoute.traderInputAssetId sr)));;
  null_when (negb (match pn_commitment parent with Hex c => bool_decide (c = SwapRoute.cInSecp sr) | Raw _ => false end));;
  rcptSpk ← (match p2tr_script tx 1 with Some b => mret b | None => Null end);
  rfndSpk ← (match p2tr_script tx 2 with Some b => mret b | None => Null end);
  intentMsg ← tryc (ammSwapRouteIntentMsg sr rcptSpk rfndSpk);
  trader ← tryc (bytesToPoint (SwapRoute.traderPubkey sr));
  intentOk ← verifySchnorrWorker (SwapRoute.intentSig sr) intentMsg (xonly trader);
  null_when (negb intentOk);;
  let deltaIn0 := route_delta_in (SwapRoute.hops sr) in
  cIn ← tryc (bytesToPoint (SwapRoute.cInSecp sr));
  dH ← tryc (multiply_or_zero H deltaIn0);
  let Pkernel := add cIn (negate dH) in
  null_when (equals Pkernel ZERO);;
  kernelOk ← verifySchnorrWorker (SwapRoute.kernelSig sr) (ammSwapRouteHop0KernelMsg sr deltaIn0) (xonly Pkernel);
  null_when (negb kernelOk);;
  null_when (negb (bpRangeAggVerify [ZERO; cReceipt] (SwapRoute.rangeProof sr)));;
  mret (ammSwapAcceptedPut (wtxid tx) (SwapRecord h Route None None)
          (commit_route h txIndex (wtxid tx) (rs_snap final) s)).

End handlers.
