(* ===== verification/AmmBatch.v ===== *)
(** * The batched swap

    The T_SWAP_BATCH branch of [scanForEtches] in [worker/src/index.js]: several traders'
    intents settled at once against one pool.  The branch checks everything but the
    Groth16 proof of the clearing, which the client checks. *)
From S2P Require Import Prelude Bytes Crypto CodecTransfer CodecPool CodecSlots CodecAmm CodecBatch.
From S2P Require Import Messages AmmMath Curve Kernel Notes WorkerNotes AmmPool.

Definition AMM_MIN_BATCH_SIZE : Z := 2.
Definition POOL_CAP_SOLO_INTENT_ALLOWED : Z := 0x02.
(** Byte length of a Bulletproof for [m] commitments of 64 bits ([dapp/bulletproofs.js]). *)
Definition bpClassicProofLen (m : Z) : Z :=
  let log_nm := Z.log2 (64 * m) in
  if negb (64 * m =? 2 ^ log_nm) then -1 else 33 * 4 + 32 * 3 + log_nm * 33 * 2 + 32 * 2.

Section batch.
Context `{Hash} {SE : Secp} {CH : Chain} {RC : Records} {IX : Indexer}.

(** ** The qualifying set *)
(** [intentIds] ascending and distinct *)
Fixpoint ids_ascending (l : list bytes) : bool :=
  match l with
  | a :: ((b :: _) as l) => match lex_lt a b with Some true => ids_ascending l | _ => false end
  | _ => true
  end.
Definition ammComputeQualifyingSetHash (poolId : bytes) (height : Z) (intentIds : list bytes) : res bytes :=
  throw_if (negb (blen poolId =? 32)) "poolId must be 32 bytes";;
  throw_if (Z.of_nat (length intentIds) >? 0xff) "intentIds must be 0..255";;
  throw_if (negb (ids_ascending intentIds)) "intentIds must be ascending and distinct";;
  throw_if (existsb (λ id, negb (blen id =? 32)) intentIds) "intent_id must be 32 bytes";;
  mret (sha256 (concatBytes [QSET_DOMAIN; poolId; le 4 height; u8b (Z.of_nat (length intentIds)); concat intentIds])).

(** ** Arbiters *)
(** the pinned keys of the signers, each index in range and above the one before *)
Fixpoint signer_keys (prev : option Z) (pinned : list bytes) (idx : list Z) : option (list bytes) :=
  match idx with
  | [] => Some []
  | i :: idx =>
      if (i <? 0) || (i >=? Z.of_nat (length pinned)) then None
      else if match prev with Some p => i <=? p | None => false end then None
      else pk ← pinned !! Z.to_nat i; ks ← signer_keys (Some i) pinned idx; Some (pk :: ks)
  end.
Fixpoint verify_each (msg : bytes) (keys : list bytes) (sigs : bytes) : res bool :=
  match keys with
  | [] => mret true
  | pk :: keys =>
      if negb (blen pk =? 33) then mret false
      else
        ok ← verifySchnorrWorker (take 64 sigs) msg (drop 1 pk);
        if ok : bool then verify_each msg keys (drop 64 sigs) else mret false
  end.
Definition ammVerifyArbiterSigs (qset : bytes) (idx : list Z) (sigs : bytes) (pinned : list bytes) (m : Z) : res bool :=
  if (length pinned =? 0)%nat then mret false
  else if (m <? 1) || (m >? Z.of_nat (length pinned)) then mret false
  else if negb (blen qset =? 32) then mret false
  else if negb (Z.of_nat (length idx) =? m) then mret false
  else if negb (blen sigs =? 64 * m) then mret false
  else match signer_keys None pinned idx with
       | Some keys => verify_each qset keys sigs
       | None => mret false
       end.

(** ** Openings and sums *)
(** pedersenCommit(amount, r) is the declared point *)
Definition ammVerifyTipOpening (amount : Z) (rBytes cSecpBytes : bytes) : res bool :=
  let r := bytes32ToBigint rBytes in
  if r >=? SECP_N then mret false
  else match bytesToPoint cSecpBytes with
       | Ok cActual => cExpected ← pedersenCommit amount (modN r); mret (equals cExpected cActual)
       | _ => mret false
       end.

(** The inputs of the traders who pay in X, less the receipts of those who are paid in X. *)
Fixpoint side_sum (assetXIsA : bool) (its : list SwapBatch.intent) (ins : list point) (rcs : list SwapBatch.receipt)
    (sum : point) : res point :=
  match its, ins, rcs with
  | it :: its, cIn :: ins, rc :: rcs =>
      sum' ← (if eqb assetXIsA (SwapBatch.direction it =? 0) then mret (add sum cIn)
              else cOut ← bytesToPoint (SwapBatch.cOutSecp rc); mret (add sum (negate cOut)));
      side_sum assetXIsA its ins rcs sum'
  | _, _, _ => mret sum
  end.
Definition ammCheckAggregatePedersen (b : SwapBatch.t) (ins : list point) (assetXIsA : bool) (deltaXSigned : Z)
    (tipXCSecp rNetX : bytes) : res bool :=
  sum ← side_sum assetXIsA (SwapBatch.intents b) ins (SwapBatch.receipts b) ZERO;
  match bytesToPoint tipXCSecp with
  | Ok tip =>
      let sum := add sum (negate tip) in
      sum ← (if deltaXSigned =? 0 then mret sum
             else dH ← multiply H (Z.abs deltaXSigned);
                  mret (if deltaXSigned >? 0 then add sum (negate dH) else add sum dH));
      let rNetMod := modN (bytes32ToBigint rNetX) in
      rG ← (if rNetMod =? 0 then mret ZERO else multiply G rNetMod);
      mret (equals sum rG)
  | _ => mret false
  end.

(** ** The pool *)
(** the fee and the pair, from a decode without arbiters or from the fixed prefix *)
Definition probe (payload : bytes) : option (Z * (bytes * bytes)) :=
  let pair feeBps a b := match ammCanonicalAssetPair a b with Ok ab => Some (feeBps, ab) | _ => None end in
  match SwapBatch.decodeTSwapBatchPayload payload false with
  | Ok x => pair (SwapBatch.feeBpsAtSettle x) (SwapBatch.assetA x) (SwapBatch.assetB x)
  | _ =>
      if blen payload <? 1 + 32 + 32 + 1 + 9 + 9 + 32 + 32 + 2 then None
      else pair (unle (take 2 (drop 148 payload))) (take 32 (drop 1 payload)) (take 32 (drop 33 payload))
  end.

Fixpoint batch_candidate (a b : bytes) (feeBps : Z) (s : store) (l : list bytes) : option (bytes * pool) :=
  match l with
  | [] => None
  | cand :: l =>
      let next := batch_candidate a b feeBps s l in
      match pools s !! cand with
      | None => next
      | Some p =>
          if negb (fee_bps p =? feeBps) then next
          else match ammDerivePoolId a b (fee_bps p) (capability_flags p) (protocol_fee_address p) (protocol_fee_bps p) with
               | Ok pid => if negb (bool_decide (pid = cand)) then next else Some (pid, p)
               | _ => next
               end
      end
  end.

Definition arbiter_ok (h : Z) (p : pool) (hasArbiter : bool) (o : option SwapBatch.arbiter) : res unit :=
  if hasArbiter then
    a ← (match o with Some a => mret a | None => Null end);
    null_when (negb (SwapBatch.expectedHeight a =? h));;
    null_when (negb (SwapBatch.arbiter_m a =? arbiter_threshold_m p));;
    ok ← ammVerifyArbiterSigs (SwapBatch.qualifyingSetHash a) (SwapBatch.signerIndices a) (SwapBatch.sigs a)
           (arbiter_pubkeys p) (arbiter_threshold_m p);
    null_when (negb ok)
  else null_when (match o with Some _ => true | None => false end).

(** ** The intents *)
(** the commitments the traders' inputs spend *)
Fixpoint batch_inputs (ins : list outpoint) : res (list point) :=
  match ins with
  | [] => mret []
  | i :: ins =>
      n ← tryc (commitmentForUtxo i);
      C ← tryc (bytesToPoint (declared_bytes (pn_commitment n)));
      l ← batch_inputs ins; mret (C :: l)
  end.

(** Intent [i]: output [1 + i] is its receipt, output [n + 1 + i] its refund.  The ids of
    the intents, in order. *)
Fixpoint batch_intents (h : Z) (pid : bytes) (tx : wtx) (n i : nat) (prev : option bytes)
    (its : list SwapBatch.intent) (ins : list outpoint) (cs : list point) : res (list bytes) :=
  match its, ins, cs with
  | it :: its, inp :: ins, cIn :: cs =>
      receive ← (match wvout tx !! (1 + i)%nat with Some b => mret b | None => Null end);
      refund ← (match wvout tx !! (n + 1 + i)%nat with Some b => mret b | None => Null end);
      iid ← tryc (ammBuildIntentMsg
        (BatchIntent pid (SwapBatch.direction it) [inp] (SwapBatch.cInSecp it) (SwapBatch.cInBjj it)
           (SwapBatch.inXcurveSigma it) receive (SwapBatch.minOut it) (SwapBatch.tipAmount it) (SwapBatch.direction it)
           (SwapBatch.expiryHeight it) (SwapBatch.traderPubkey it) refund));
      null_when (match prev with Some p => negb (bool_decide (lex_lt p iid = Some true)) | None => false end);;
      sigOk ← verifySchnorrWorker (SwapBatch.intentSig it) iid (drop 1 (SwapBatch.traderPubkey it));
      null_when (negb sigOk);;
      null_when (negb (verifyXCurve (SwapBatch.inXcurveSigma it) (SwapBatch.cInSecp it) (SwapBatch.cInBjj it)));;
      claimedC ← tryc (bytesToPoint (SwapBatch.cInSecp it));
      null_when (negb (equals (add ZERO cIn) claimedC));;
      null_when (SwapBatch.expiryHeight it <? h);;
      ids ← batch_intents h pid tx n (S i) (Some iid) its ins cs;
      mret (iid :: ids)
  | _, _, _ => mret []
  end.

Fixpoint receipts_ok (l : list SwapBatch.receipt) : bool :=
  match l with
  | [] => true
  | r :: l =>
      verifyXCurve (SwapBatch.outXcurveSigma r) (SwapBatch.cOutSecp r) (SwapBatch.cOutBjj r) &&
      (if blen (SwapBatch.rangeProof r) =? bpClassicProofLen 1 then bpRangeVerify (SwapBatch.cOutSecp r) (SwapBatch.rangeProof r)
       else match bytesToPoint (SwapBatch.cOutSecp r) with Ok P => bppRangeVerify [P] (SwapBatch.rangeProof r) | _ => false end) &&
      receipts_ok l
  end.

(** ** The reserves *)
(** What the net amounts do to the reserves, when the curve allows it. *)
Definition batch_reserves (p : pool) (dA dB : Z) : option (Z * Z) :=
  if negb ((dA =? 0) && (dB =? 0)) && negb ((dA >? 0) && (dB <? 0)) && negb ((dA <? 0) && (dB >? 0)) then None
  else
    let newA := if (dA >? 0) || (dA <? 0) then reserve_a p + dA else reserve_a p in
    let newB := if (dA >? 0) || (dA <? 0) then reserve_b p + dB else reserve_b p in
    if (dA >? 0) && (newB <=? 0) then None
    else if (dA <? 0) && (newA <=? 0) then None
    else if (newA >=? Z.shiftl 1 64) || (newB >=? Z.shiftl 1 64) then None
    else if newA * newB <? reserve_a p * reserve_b p then None
    else
      let gNum := 10000 - fee_bps p in
      let gDen := 10000 in
      if negb (dA =? 0) || negb (dB =? 0) then
        if dA >? 0 then
          if - dB * (reserve_a p * gDen + gNum * dA) >? reserve_b p * gNum * dA then None else Some (newA, newB)
        else
          if - dA * (reserve_b p * gDen + gNum * dB) >? reserve_a p * gNum * dB then None else Some (newA, newB)
      else Some (newA, newB).

(** ** T_SWAP_BATCH *)
Definition swap_batch_handler (h txIndex : Z) (tx : wtx) (payload : bytes) (s : store) : res store :=
  feePair ← (match probe payload with Some x => mret x | None => Null end);
  let '(feeBps, (a, b)) := feePair in
  pidPool ← (match batch_candidate a b feeBps s (ammPairGet s a b) with Some x => mret x | None => Null end);
  let '(pid, p) := pidPool in
  null_when (negb (tradable p));;
  let hasArbiter := negb (length (arbiter_pubkeys p) =? 0)%nat in
  env ← SwapBatch.decodeTSwapBatchPayload payload hasArbiter;
  opReturn ← (match op_return_hash tx with Some b => mret b | None => Null end);
  null_when (negb (bool_decide (take 32 opReturn = sha256 payload)));;
  null_when (negb (SwapBatch.feeBpsAtSettle env =? fee_bps p));;
  let soloAllowed := negb (Z.land (capability_flags p) POOL_CAP_SOLO_INTENT_ALLOWED =? 0) in
  null_when (negb soloAllowed && (SwapBatch.nIntents env <? AMM_MIN_BATCH_SIZE));;
  arbiter_ok h p hasArbiter (SwapBatch.arbiterBlock env);;
  null_when (negb (Z.of_nat (length (wvin tx)) =? 1 + SwapBatch.nIntents env));;
  let n := length (SwapBatch.intents env) in
  let ins := drop 1 (wvin tx) in
  cs ← batch_inputs ins;
  ids ← batch_intents h pid tx n 0 None (SwapBatch.intents env) ins cs;
  (match SwapBatch.arbiterBlock env with
   | Some ar =>
       qset ← tryc (ammComputeQualifyingSetHash pid (SwapBatch.expectedHeight ar) ids);
       null_when (negb (bool_decide (take 32 qset = take 32 (SwapBatch.qualifyingSetHash ar))))
   | None => mret tt
   end);;
  null_when (negb (receipts_ok (SwapBatch.receipts env)));;
  tipA ← ammVerifyTipOpening (SwapBatch.tipAAmount env) (SwapBatch.rTipA env) (SwapBatch.tipACSecp env);
  null_when (negb tipA);;
  tipB ← ammVerifyTipOpening (SwapBatch.tipBAmount env) (SwapBatch.rTipB env) (SwapBatch.tipBCSecp env);
  null_when (negb tipB);;
  sumA ← ammCheckAggregatePedersen env cs true (SwapBatch.deltaANetSigned env) (SwapBatch.tipACSecp env) (SwapBatch.rNetA env);
  null_when (negb sumA);;
  sumB ← ammCheckAggregatePedersen env cs false (SwapBatch.deltaBNetSigned env) (SwapBatch.tipBCSecp env) (SwapBatch.rNetB env);
  null_when (negb sumB);;
  reserves ← (match batch_reserves p (SwapBatch.deltaANetSigned env) (SwapBatch.deltaBNetSigned env) with Some x => mret x | None => Null end);
  mret (ammPoolPut pid (with_reserves p reserves.1 reserves.2) (recordAmmOp pid h txIndex (wtxid tx) s)).
End batch.
