(* ===== verification/AmmScan.v ===== *)
(** * One transaction of the indexer's scan

    The dispatch of [scanForEtches] in [worker/src/index.js] over the opcodes of the
    pools. *)
From S2P Require Import Prelude Bytes Crypto CodecTransfer CodecPool CodecSlots CodecAmm CodecBatch.
From S2P Require Import Messages AmmMath Curve Kernel Notes WorkerNotes AmmPool AmmBatch.

Section scan.
Context `{Hash} {SE : Secp} {CH : Chain} {RC : Records} {IX : Indexer}.

(** [if (!x) continue;] on a decoder, and the handler of the opcode *)
Definition amm_handler (h txIndex : Z) (tx : wtx) (op : Z) (payload : bytes) (s : store) : res store :=
  if op =? T_LP_ADD then
    lp ← tryc (LpAdd.decodeTLpAddPayload payload);
    match LpAdd.pool_init lp with
    | Some i => lp_init_handler h txIndex tx lp i s
    | None => lp_add_handler h txIndex tx lp s
    end
  else if op =? T_LP_REMOVE then
    rm ← tryc (LpRemove.decodeTLpRemovePayload payload); lp_remove_handler h txIndex tx rm s
  else if op =? T_SWAP_BATCH then swap_batch_handler h txIndex tx payload s
  else if op =? T_PROTOCOL_FEE_CLAIM then
    cl ← tryc (FeeClaim.decodeTProtocolFeeClaimPayload payload); fee_claim_handler h txIndex tx cl s
  else if op =? T_SWAP_VAR then
    sv ← tryc (SwapVar.decodeTSwapVarPayloadWorker payload); swap_var_handler h txIndex tx payload sv s
  else if op =? T_SWAP_ROUTE then
    sr ← tryc (SwapRoute.decodeTSwapRoutePayload payload); swap_route_handler h txIndex tx payload sr s
  else Null.

(** [continue] leaves the store as it is. *)
Definition scan_tx (h txIndex : Z) (tx : wtx) (op : Z) (payload : bytes) (s : store) : res store :=
  match amm_handler h txIndex tx op payload s with Null => Ok s | r => r end.
End scan.
