(* ===== verification/AmmPoolFacts.v ===== *)
(** * The pools keep their invariant

    Every pool record keeps positive 64-bit reserves whose product covers the square of
    the shares, through every handler; the ids listed under a pair are pools of that
    pair.  The lemmas here say what each handler writes. *)
From S2P Require Import Prelude Bytes Crypto CodecTransfer CodecPool CodecSlots CodecAmm CodecBatch.
From S2P Require Import Messages AmmMath Curve Kernel Notes WorkerNotes AmmPool.

(** ** Reading a handler *)
Lemma some_or_null {A} (o : option A) a : match o with Some x => mret x | None => (Null : res A) end = Ok a ↔ o = Some a.
Proof. destruct o; cbn; unfold mret, res_ret; split; congruence. Qed.

(** Every step of a handler that answered, as a hypothesis. *)
Ltac hstep H :=
  lazymatch type of H with
  | (_ ≫= _) = Ok _ => let E := fresh "E" in apply res_bind_Ok in H as (? & E & H); hstep E; hstep H
  | null_when _ = Ok _ => apply (proj1 (null_when_Ok _ _)) in H
  | tryc _ = Ok _ => apply (proj1 (tryc_Ok _ _)) in H; hstep H
  | match ?o with Some _ => _ | None => Null end = Ok _ => apply (proj1 (some_or_null _ _)) in H
  | mret ?x = Ok ?y => injection H as H
  | (let '(_, _) := ?p in _) = Ok _ => let a := fresh "a" in let b := fresh "b" in destruct p as [a b]; hstep H
  | _ => idtac
  end.
Ltac hinv H := hstep H; bool_to_prop.

Create Rewrite HintDb amm.

Section facts.
Context `{Hash} {SE : Secp} {CH : Chain} {RC : Records} {IX : Indexer}.

(** ** The invariant *)
Record pool_ok (pid : bytes) (p : pool) : Prop := PoolOk {
  po_a : u64_pos (reserve_a p);
  po_b : u64_pos (reserve_b p);
  po_shares : 0 < lp_total_shares p;
  po_root : lp_total_shares p * lp_total_shares p <= k_last p;
  po_k : k_last p <= reserve_a p * reserve_b p;
  po_accrued : 0 <= protocol_fee_accrued p;
  po_fee : 0 <= fee_bps p <= AMM_FEE_BPS_MAX;
  po_pfee : 0 <= protocol_fee_bps p <= AMM_PROTOCOL_FEE_BPS_MAX;
  po_id : ammDerivePoolId (asset_a p) (asset_b p) (fee_bps p) (capability_flags p)
            (protocol_fee_address p) (protocol_fee_bps p) = Ok pid;
  po_plain : capability_flags p = 0 ∧ arbiter_pubkeys p = [] ∧ arbiter_threshold_m p = 0 }.

Record store_ok (s : store) : Prop := StoreOk {
  so_pools : ∀ pid p, pools s !! pid = Some p → pool_ok pid p;
  so_pairs : ∀ a b pid, pid ∈ ammPairGet s a b → ∃ p, pools s !! pid = Some p ∧ asset_a p = a ∧ asset_b p = b }.

Definition empty_store : store := Store ∅ ∅ ∅ ∅ ∅.

(** two records of the same pool *)
Definition same_pool (p q : pool) : Prop :=
  asset_a q = asset_a p ∧ asset_b q = asset_b p ∧ lp_asset_id q = lp_asset_id p ∧ fee_bps q = fee_bps p ∧
  capability_flags q = capability_flags p ∧ protocol_fee_address q = protocol_fee_address p ∧
  protocol_fee_bps q = protocol_fee_bps p ∧ init_height q = init_height p ∧
  arbiter_pubkeys q = arbiter_pubkeys p ∧ arbiter_threshold_m q = arbiter_threshold_m p.

Lemma same_pool_refl p : same_pool p p.
Proof. repeat split. Qed.

(** ** Updates of the store *)
Lemma pools_put pid p s : pools (ammPoolPut pid p s) = <[pid := p]> (pools s).
Proof. done. Qed.
Lemma pools_record pid h i t s : pools (recordAmmOp pid h i t s) = pools s.
Proof. unfold recordAmmOp. by destruct (negb _). Qed.
Lemma pools_accepted t r s : pools (ammOpAcceptedPut t r s) = pools s.
Proof. done. Qed.
Lemma pools_swap t r s : pools (ammSwapAcceptedPut t r s) = pools s.
Proof. done. Qed.
Lemma pools_append a b pid s : pools (ammPairAppend a b pid s) = pools s.
Proof. unfold ammPairAppend. by case_bool_decide. Qed.

Lemma pair_put pid p s a b : ammPairGet (ammPoolPut pid p s) a b = ammPairGet s a b.
Proof. done. Qed.
Lemma pair_record pid h i t s a b : ammPairGet (recordAmmOp pid h i t s) a b = ammPairGet s a b.
Proof. unfold recordAmmOp. by destruct (negb _). Qed.
Lemma pair_accepted t r s a b : ammPairGet (ammOpAcceptedPut t r s) a b = ammPairGet s a b.
Proof. done. Qed.
Lemma pair_swap t r s a b : ammPairGet (ammSwapAcceptedPut t r s) a b = ammPairGet s a b.
Proof. done. Qed.
Lemma pair_append a b pid s a' b' q :
  q ∈ ammPairGet (ammPairAppend a b pid s) a' b' → q ∈ ammPairGet s a' b' ∨ (a' = a ∧ b' = b ∧ q = pid).
Proof.
  unfold ammPairAppend. case_bool_decide; [by left|]. unfold ammPairGet at 1. cbn [pairs].
  destruct (decide ((a', b') = (a, b))) as [[= -> ->]|Hne].
  - rewrite lookup_insert_eq. cbn. rewrite elem_of_app, list_elem_of_singleton. naive_solver.
  - rewrite lookup_insert_ne by congruence. by left.
Qed.
#[local] Hint Rewrite pools_put pools_record pools_accepted pools_swap pools_append pair_put pair_record pair_accepted pair_swap : amm.

Lemma empty_store_ok : store_ok empty_store.
Proof. split; [done|]. intros a b pid Hin. by apply elem_of_nil in Hin. Qed.

(** Replacing a pool's record by one of the same pool that is fine keeps the store fine. *)
Lemma store_ok_put s pid p q :
  store_ok s → pools s !! pid = Some p → same_pool p q → pool_ok pid q → store_ok (ammPoolPut pid q s).
Proof.
  intros [Hp Hl] E (Ea & Eb & _) Hq. split.
  - intros pid' p' E'. autorewrite with amm in E'. apply lookup_insert_Some in E' as [[-> ->]|[_ E']]; eauto.
  - intros a b pid' Hin. autorewrite with amm in *. destruct (Hl _ _ _ Hin) as (p' & E' & <- & <-).
    destruct (decide (pid' = pid)) as [->|Hne].
    + rewrite lookup_insert_eq. rewrite E in E'. injection E' as <-. eauto.
    + rewrite lookup_insert_ne by done. eauto.
Qed.

Lemma store_ok_records s s' :
  pools s' = pools s → (∀ a b, ammPairGet s' a b = ammPairGet s a b) → store_ok s → store_ok s'.
Proof.
  intros Ep Ea [Hp Hl]. split; [rewrite Ep; exact Hp|]. intros a b pid. rewrite Ea, Ep. apply Hl.
Qed.

(** What a handler writes besides the pools and the pairs. *)
Lemma store_ok_record pid h i t s : store_ok s → store_ok (recordAmmOp pid h i t s).
Proof. apply store_ok_records; intros; by autorewrite with amm. Qed.
Lemma store_ok_accepted t r s : store_ok s → store_ok (ammOpAcceptedPut t r s).
Proof. by apply store_ok_records. Qed.
Lemma store_ok_swap t r s : store_ok s → store_ok (ammSwapAcceptedPut t r s).
Proof. by apply store_ok_records. Qed.

(** ** Arithmetic of the invariant *)
Lemma crystallize_root s x p w bps :
  0 < s <= p → 0 <= x → p < w → 0 <= bps <= 1000 → x * 10000 * w <= (s + x) * bps * (w - p) → s + x <= w.
Proof.
  intros Hs Hx Hw Hb Hbound. destruct (Z.le_gt_cases (s + x) w) as [|Hgt]; [done|exfalso].
  assert (x * 10 * w <= (s + x) * (w - p)).
  { assert ((s + x) * bps * (w - p) <= (s + x) * 1000 * (w - p)).
    { apply Z.mul_le_mono_nonneg_r; [lia|]. apply Z.mul_le_mono_nonneg_l; lia. }
    nia. }
  assert (x * (9 * w + p) <= s * (w - p)) by nia.
  assert (s * (w - p) <= p * (w - p)) by (apply Z.mul_le_mono_nonneg_r; lia).
  assert ((w - p) * (9 * w + p) <= x * (9 * w + p)) by (apply Z.mul_le_mono_nonneg_r; lia).
  nia.
Qed.

Lemma square_le_sqrt s k : 0 <= s → s * s <= k → s <= Z.sqrt k.
Proof. intros Hs Hk. apply Z.sqrt_le_square; lia. Qed.

(** Collecting the protocol fee keeps the reserves and the invariant, and never throws. *)
Lemma crystallize_ok pid p :
  pool_ok pid p →
  ∃ x, ammCrystallizeProtocolFee p = Ok x ∧ pool_ok pid x ∧ same_pool p x ∧
       reserve_a x = reserve_a p ∧ reserve_b x = reserve_b p ∧ validation x = validation p ∧
       lp_total_shares p <= lp_total_shares x ∧
       lp_total_shares x - lp_total_shares p = protocol_fee_accrued x - protocol_fee_accrued p.
Proof.
  intros Hok. pose proof Hok as [Ha Hb Hs Hr Hk Hac Hf Hpf Hid Hpl]. unfold ammCrystallizeProtocolFee.
  destruct (_ammIsZeroAddressHex _); [exists p; unfold same_pool; split_and!; done || lia|].
  destruct (protocol_fee_bps p =? 0); [exists p; unfold same_pool; split_and!; done || lia|].
  destruct (Z.leb_spec (reserve_a p * reserve_b p) (k_last p)) as [Hle|Hgt].
  - eexists. split; [reflexivity|]. split; [|unfold same_pool; cbn; split_and!; done || lia].
    split; cbn; try done; lia.
  - destruct (protocol_shares_bound (lp_total_shares p) (k_last p) (reserve_a p * reserve_b p) (protocol_fee_bps p))
      as (x & -> & Hx & Hbound); [lia|nia|done|].
    cbn [mbind res_bind]. eexists. split; [reflexivity|]. split; [|unfold same_pool; cbn; split_and!; done || lia].
    split; cbn; try done; try lia. unfold AMM_PROTOCOL_FEE_BPS_MAX in Hpf.
    assert (Hs' : lp_total_shares p <= Z.sqrt (k_last p)) by (apply square_le_sqrt; lia).
    assert (Hp : Z.sqrt (k_last p) <= Z.sqrt (reserve_a p * reserve_b p)) by (apply Z.sqrt_le_mono; lia).
    assert (Hsq : Z.sqrt (reserve_a p * reserve_b p) * Z.sqrt (reserve_a p * reserve_b p) <= reserve_a p * reserve_b p)
      by (apply Z.sqrt_spec; lia).
    set (w := Z.sqrt (reserve_a p * reserve_b p)) in *. set (v := Z.sqrt (k_last p)) in *. clearbody w v.
    assert (lp_total_shares p + x <= w); [|nia].
    destruct (Z.eq_dec v w) as [->|Hne].
    + rewrite Z.sub_diag, Z.max_id, Z.mul_0_r in Hbound. assert (x = 0) by nia. lia.
    + rewrite Z.max_r in Hbound by lia. eapply (crystallize_root _ _ v w); eauto; lia.
Qed.

(** ** Canonical pairs *)
Lemma lex_lt_swap a b : lex_lt b a = negb <$> lex_lt a b.
Proof.
  revert b; induction a as [|x a IH]; intros [|y b]; cbn; try done.
  rewrite !Z.gtb_ltb. destruct (Z.ltb_spec (byteZ x) (byteZ y)), (Z.ltb_spec (byteZ y) (byteZ x)); cbn; done || lia || apply IH.
Qed.

Lemma canonical_pair x y a b :
  ammCanonicalAssetPair x y = Ok (a, b) →
  (a = x ∧ b = y ∨ a = y ∧ b = x) ∧ ammCanonicalAssetPair a b = Ok (a, b) ∧ a ≠ b.
Proof.
  unfold ammCanonicalAssetPair. intros E. enc_inv E. bool_to_prop.
  destruct (lex_lt x y) as [[]|] eqn:El; [injection E as <- <-..|done].
  - split; [by left|]. enc_run lia. rewrite El. split; [done|]. intros ->.
    pose proof (lex_lt_swap y y) as Es. by rewrite El in Es.
  - split; [by right|]. enc_run lia. pose proof (lex_lt_swap x y) as Es. rewrite El in Es. cbn in Es. rewrite Es.
    split; [done|]. intros ->. by rewrite El in Es.
Qed.

Lemma derive_ranges a b f fl pa pf pid :
  ammDerivePoolId a b f fl pa pf = Ok pid →
  0 <= f <= AMM_FEE_BPS_MAX ∧ 0 <= pf <= AMM_PROTOCOL_FEE_BPS_MAX.
Proof. unfold ammDerivePoolId. intros E. apply res_bind_Ok in E as (? & _ & E). enc_inv E. bool_to_prop. lia. Qed.

(** What each side of a liquidity operation put in: the notes of that asset the transaction
    spends, and a kernel signed for the amount. *)
Definition side_paid (variant : Z) (tx : wtx) (lp : LpAdd.t) (pid asset : bytes) (delta : Z) (sig : bytes) : Prop :=
  ∃ byAsset sd expiry xonly blinding,
    ammCollectAssetInputs tx 1 = Ok byAsset ∧ byAsset !! asset = Some sd ∧ side_inputs sd ≠ [] ∧
    ammLpAddKernelVerify (kernel_of variant pid asset delta lp sd expiry xonly blinding) (side_commitments sd) sig = Ok true.

Lemma get_side_Ok m a e : get_side m a = Ok e → m !! a = Some e ∧ side_inputs e ≠ [].
Proof.
  unfold get_side. destruct (m !! a) as [x|]; [|done]. intros E. hinv E. subst x.
  split; [done|]. by destruct (side_inputs e).
Qed.

(** ** Pool creation *)
Lemma lp_init_effect h i tx lp ini s s' :
  lp_init_handler h i tx lp ini s = Ok s' →
  ∃ a b (sw : bool) pid lpid init,
    let dA := if sw then LpAdd.deltaB lp else LpAdd.deltaA lp in
    let dB := if sw then LpAdd.deltaA lp else LpAdd.deltaB lp in
    ammCanonicalAssetPair (LpAdd.assetA lp) (LpAdd.assetB lp) = Ok (a, b) ∧
    pools s !! pid = None ∧
    ammDerivePoolId a b (LpAdd.feeBps ini) (LpAdd.poolCapabilityFlags ini) (LpAdd.protocolFeeAddress ini)
      (LpAdd.protocolFeeBps ini) = Ok pid ∧
    ammLpInitShares dA dB = Ok init ∧ founder_shares init = LpAdd.shareAmount lp ∧
    side_paid 1 tx lp pid a dA (LpAdd.kernelSigA lp) ∧ side_paid 1 tx lp pid b dB (LpAdd.kernelSigB lp) ∧
    ammVerifyMinLiqVoutStructural tx pid = true ∧
    (LpAdd.poolCapabilityFlags ini = 0 ∧ LpAdd.arbiterPubkeys ini = [] ∧ LpAdd.arbiterThresholdM ini = 0) ∧
    s' = ammPairAppend a b pid
      (ammPoolPut pid
         (Pool a b lpid dA dB (total_shares init) (LpAdd.feeBps ini) (LpAdd.protocolFeeAddress ini)
            (LpAdd.protocolFeeBps ini) 0 (LpAdd.poolCapabilityFlags ini) (dA * dB) h "xcurve-verified"
            (LpAdd.arbiterPubkeys ini) (LpAdd.arbiterThresholdM ini))
      (ammOpAcceptedPut (wtxid tx) (OpRecord h PoolInitOp pid) (recordAmmOp pid h i (wtxid tx) s))).
Proof.
  unfold lp_init_handler. intros E. hinv E. subst s'.
  match goal with E1 : get_side _ a = Ok _, E2 : get_side _ b = Ok _ |- _ =>
    apply get_side_Ok in E1 as [??], E2 as [??] end.
  eexists a, b, (negb (bool_decide (a = LpAdd.assetA lp))), _, _, _. cbv zeta.
  split_and!; try eassumption; try reflexivity.
  - apply eq_None_not_Some. done.
  - do 5 eexists; split_and!; try eassumption. subst. eassumption.
  - do 5 eexists; split_and!; try eassumption. subst. eassumption.
  - by apply nil_length_inv, Nat.eqb_eq.
Qed.

(** A fresh pool under a fresh id. *)
Lemma store_ok_new s a b pid p :
  store_ok s → pools s !! pid = None → asset_a p = a → asset_b p = b → pool_ok pid p →
  store_ok (ammPairAppend a b pid (ammPoolPut pid p s)).
Proof.
  intros [Hp Hl] En Ea Eb Hok. split.
  - intros pid' p' E'. autorewrite with amm in E'. apply lookup_insert_Some in E' as [[-> ->]|[_ E']]; eauto.
  - intros a' b' pid' Hin. autorewrite with amm.
    apply pair_append in Hin as [Hin|(-> & -> & ->)].
    + autorewrite with amm in Hin. destruct (Hl _ _ _ Hin) as (p' & E' & ? & ?).
      exists p'. rewrite lookup_insert_ne by congruence. done.
    + exists p. rewrite lookup_insert_eq. done.
Qed.

Lemma lp_init_ok h i tx lp ini s s' :
  LpAdd.amounts lp → store_ok s → lp_init_handler h i tx lp ini s = Ok s' → store_ok s'.
Proof.
  intros (HA & HB & _) Hs (a & b & sw & pid & lpid & init & E)%lp_init_effect.
  set (dA := if sw then _ else _) in E. set (dB := if sw then LpAdd.deltaA lp else _) in E.
  assert (0 <= dA < 2 ^ 64 ∧ 0 <= dB < 2 ^ 64) as [HdA HdB] by (subst dA dB; destruct sw; lia). clearbody dA dB.
  destruct E as (Ec & En & Ei & Es & _ & _ & _ & _ & Hplain & ->). cbv zeta in *.
  destruct (canonical_pair _ _ _ _ Ec) as (_ & Ec' & _).
  apply ammLpInitShares_Ok in Es as [Hmin ->]; [|lia..]. unfold AMM_MINIMUM_LIQUIDITY in Hmin.
  destruct (derive_ranges _ _ _ _ _ _ _ Ei) as [Hf Hpf].
  assert (Hsq := Z.sqrt_spec (dA * dB) ltac:(nia)).
  apply store_ok_new; [|by autorewrite with amm|done|done|].
  - by apply store_ok_accepted, store_ok_record.
  - assert (0 < dA ∧ 0 < dB) as [? ?].
    { assert (dA ≠ 0) by (intros ->; rewrite Z.mul_0_l in Hmin; cbn in Hmin; lia).
      assert (dB ≠ 0) by (intros ->; rewrite Z.mul_0_r in Hmin; cbn in Hmin; lia). lia. }
    split; cbn; unfold u64_pos, U64; try done; try lia. apply Hsq.
Qed.

(** ** Additions *)
Lemma add_candidate_Ok a b dA lp sd r s l pid p :
  add_candidate a b dA lp sd r s l = Ok (pid, p) →
  pid ∈ l ∧ pools s !! pid = Some p ∧ tradable p = true ∧
  ammDerivePoolId a b (fee_bps p) (capability_flags p) (protocol_fee_address p) (protocol_fee_bps p) = Ok pid ∧
  ammLpAddKernelVerify (kernel_of 0 pid a dA lp sd (rf_expiry r) (rf_xonlyA r) (rf_blindingA r))
    (side_commitments sd) (LpAdd.kernelSigA lp) = Ok true.
Proof.
  induction l as [|c l IH]; cbn [add_candidate]; [done|]. intros E.
  match goal with |- ?G => assert (Hnext : add_candidate a b dA lp sd r s l = Ok (pid, p) → G)
    by (intros [? ?]%IH; split; [by right|done]) end.
  destruct (pools s !! c) as [q|] eqn:Ep; [|by apply Hnext].
  destruct (tradable q) eqn:Et; cbn [negb] in E; [|by apply Hnext].
  destruct (ammDerivePoolId a b (fee_bps q) (capability_flags q) (protocol_fee_address q) (protocol_fee_bps q))
    as [pid'| | |] eqn:Ei; try by apply Hnext.
  destruct (bool_decide_reflect (pid' = c)) as [->|_]; cbn [negb] in E; [|by apply Hnext].
  apply res_bind_Ok in E as ([] & Ek & E); [|by apply Hnext]. injection E as <- <-.
  split; [by left|]. done.
Qed.

Lemma lp_add_effect h i tx lp s s' :
  lp_add_handler h i tx lp s = Ok s' →
  ∃ a b (sw : bool) pid p x shares,
    let dA := if sw then LpAdd.deltaB lp else LpAdd.deltaA lp in
    let dB := if sw then LpAdd.deltaA lp else LpAdd.deltaB lp in
    ammCanonicalAssetPair (LpAdd.assetA lp) (LpAdd.assetB lp) = Ok (a, b) ∧
    pid ∈ ammPairGet s a b ∧ pools s !! pid = Some p ∧ tradable p = true ∧
    init_height p + AMM_INITIAL_LP_LOCK_BLOCKS <= h ∧
    ammCrystallizeProtocolFee p = Ok x ∧
    ammLpAddShares dA dB (reserve_a x) (reserve_b x) (lp_total_shares x) = Ok shares ∧
    shares ≠ 0 ∧ shares = LpAdd.shareAmount lp ∧
    side_paid 0 tx lp pid a dA (LpAdd.kernelSigA lp) ∧ side_paid 0 tx lp pid b dB (LpAdd.kernelSigB lp) ∧
    reserve_a x + dA < U64 ∧ reserve_b x + dB < U64 ∧
    s' = ammPoolPut pid
      (with_k_last (with_shares (with_reserves x (reserve_a x + dA) (reserve_b x + dB)) (lp_total_shares x + shares))
                   ((reserve_a x + dA) * (reserve_b x + dB)))
      (ammOpAcceptedPut (wtxid tx) (OpRecord h LpAddOp pid) (recordAmmOp pid h i (wtxid tx) s)).
Proof.
  unfold lp_add_handler. intros E. hinv E. subst s'.
  match goal with E1 : get_side _ a = Ok _, E2 : get_side _ b = Ok _ |- _ =>
    apply get_side_Ok in E1 as [??], E2 as [??] end.
  match goal with E1 : add_candidate _ _ _ _ _ _ _ _ = Ok _ |- _ => apply add_candidate_Ok in E1 as (?&?&?&?&?) end.
  change (Z.shiftl 1 64) with U64 in *.
  eexists a, b, (negb (bool_decide (a = LpAdd.assetA lp))), _, _, _, _. cbv zeta.
  split_and!; try eassumption; try reflexivity.
  - do 5 eexists; split_and!; eassumption.
  - do 5 eexists; split_and!; try eassumption. subst. eassumption.
Qed.

(** Adding in proportion keeps the root above the shares. *)
Lemma add_root ra rb s k da db x :
  0 < ra → 0 < rb → 0 < s → s * s <= k → k <= ra * rb → 0 <= x →
  x * ra <= da * s → x * rb <= db * s → (s + x) * (s + x) <= (ra + da) * (rb + db).
Proof.
  intros Ha Hb Hs Hr Hk Hx HA HB.
  assert (H1 : (s + x) * ra <= (ra + da) * s) by lia. assert (H2 : (s + x) * rb <= (rb + db) * s) by lia.
  assert (H3 : ((s + x) * ra) * ((s + x) * rb) <= ((ra + da) * s) * ((rb + db) * s)).
  { apply Z.mul_le_mono_nonneg; nia. }
  assert (H4 : (s + x) * (s + x) * (ra * rb) <= (ra + da) * (rb + db) * (ra * rb)); [|nia].
  assert (0 <= (ra + da) * (rb + db)) by nia.
  assert ((ra + da) * (rb + db) * (s * s) <= (ra + da) * (rb + db) * (ra * rb)) by (apply Z.mul_le_mono_nonneg_l; lia).
  nia.
Qed.

Lemma lp_add_ok h i tx lp s s' :
  LpAdd.amounts lp → store_ok s → lp_add_handler h i tx lp s = Ok s' → store_ok s'.
Proof.
  intros (HA & HB & _) Hs (a & b & sw & pid & p & x & n & E)%lp_add_effect.
  set (dA := if sw then _ else _) in E. set (dB := if sw then LpAdd.deltaA lp else _) in E.
  assert (0 <= dA < 2 ^ 64 ∧ 0 <= dB < 2 ^ 64) as [HdA HdB] by (subst dA dB; destruct sw; lia). clearbody dA dB.
  destruct E as (_ & _ & Ep & _ & _ & Ex & Es & Hn & _ & _ & _ & HoA & HoB & ->).
  destruct (crystallize_ok _ _ (so_pools _ Hs _ _ Ep)) as (x' & Ex' & Hx & Hsame & _). rewrite Ex in Ex'. injection Ex' as <-.
  pose proof Hx as [Ha Hb Hsh Hr Hk Hac Hf Hpf Hid Hpl]. unfold u64_pos in *.
  destruct (lp_add_fair dA dB (reserve_a x) (reserve_b x) (lp_total_shares x) n (proj1 HdA) (proj1 HdB) ltac:(lia) ltac:(lia) ltac:(lia) Es) as (Hn0 & HnA & HnB).
  eapply store_ok_put; [| |exact Hsame|].
  - by apply store_ok_accepted, store_ok_record.
  - by autorewrite with amm.
  - split; cbn; unfold u64_pos; try done; try lia. eapply add_root; eauto; lia.
Qed.

(** ** Removals *)
Lemma remove_candidate_Ok a b dA dB rm rx m s l pid x :
  remove_candidate a b dA dB rm rx m s l = Ok (pid, x) →
  ∃ p sd,
    pid ∈ l ∧ pools s !! pid = Some p ∧ tradable p = true ∧
    ammDerivePoolId a b (fee_bps p) (capability_flags p) (protocol_fee_address p) (protocol_fee_bps p) = Ok pid ∧
    ammCrystallizeProtocolFee p = Ok x ∧ m !! lp_asset_id p = Some sd ∧ side_inputs sd ≠ [] ∧
    LpRemove.shareAmount rm ≠ 0 ∧
    ammLpRemoveOutputs (LpRemove.shareAmount rm) (reserve_a x) (reserve_b x) (lp_total_shares x) = Ok (dA, dB) ∧
    dA ≠ 0 ∧ dB ≠ 0 ∧
    ammLpRemoveKernelVerify
      (LpRemoveKernel pid (LpRemove.shareAmount rm) dA dB (LpRemove.recvACSecp rm) (LpRemove.recvBCSecp rm)
         (side_inputs sd) rx) (side_commitments sd) (LpRemove.kernelSigLP rm) = Ok true.
Proof.
  induction l as [|c l IH]; cbn [remove_candidate]; [done|]. intros E.
  match goal with |- ?G => assert (Hnext : remove_candidate a b dA dB rm rx m s l = Ok (pid, x) → G) end.
  { intros (p & sd & ? & ?)%IH. exists p, sd. split; [by right|done]. }
  destruct (pools s !! c) as [q|] eqn:Ep; [|by apply Hnext].
  destruct (tradable q) eqn:Et; cbn [negb] in E; [|by apply Hnext].
  destruct (ammDerivePoolId a b (fee_bps q) (capability_flags q) (protocol_fee_address q) (protocol_fee_bps q))
    as [pid'| | |] eqn:Ei; try by apply Hnext.
  destruct (bool_decide_reflect (pid' = c)) as [->|_]; cbn [negb] in E; [|by apply Hnext].
  destruct (get_side m (lp_asset_id q)) as [sd| | |] eqn:Es; try by apply Hnext.
  apply get_side_Ok in Es as [Em Hne]. apply res_bind_Ok in E as (y & Ey & E).
  destruct ((_ =? 0) || (_ >? _)) eqn:Eb in E; [by apply Hnext|].
  destruct (ammLpRemoveOutputs (LpRemove.shareAmount rm) (reserve_a y) (reserve_b y) (lp_total_shares y))
    as [[oa ob]| | |] eqn:Eo; try by apply Hnext.
  cbn [fst snd] in E. destruct (_ || _) eqn:E1 in E; [by apply Hnext|]. destruct (_ || _) eqn:E2 in E; [by apply Hnext|].
  apply res_bind_Ok in E as ([] & Ek & E); [|by apply Hnext]. injection E as <- <-.
  bool_to_prop. subst oa ob. exists q, sd. split; [by left|]. split_and!; try done; lia.
Qed.

Lemma lp_remove_effect h i tx rm s s' :
  lp_remove_handler h i tx rm s = Ok s' →
  ∃ a b (sw : bool) pid p x byAsset sd,
    let dA := if sw then LpRemove.deltaB rm else LpRemove.deltaA rm in
    let dB := if sw then LpRemove.deltaA rm else LpRemove.deltaB rm in
    pid ∈ ammPairGet s a b ∧ pools s !! pid = Some p ∧ tradable p = true ∧
    ammCrystallizeProtocolFee p = Ok x ∧
    ammCollectAssetInputs tx 1 = Ok byAsset ∧ byAsset !! lp_asset_id p = Some sd ∧ side_inputs sd ≠ [] ∧
    LpRemove.shareAmount rm ≠ 0 ∧
    ammLpRemoveOutputs (LpRemove.shareAmount rm) (reserve_a x) (reserve_b x) (lp_total_shares x) = Ok (dA, dB) ∧
    ammLpRemoveKernelVerify
      (LpRemoveKernel pid (LpRemove.shareAmount rm) dA dB (LpRemove.recvACSecp rm) (LpRemove.recvBCSecp rm)
         (side_inputs sd) (p2trXonly tx 2)) (side_commitments sd) (LpRemove.kernelSigLP rm) = Ok true ∧
    0 < reserve_a x - dA ∧ 0 < reserve_b x - dB ∧
    s' = ammPoolPut pid
      (with_k_last (with_shares (with_reserves x (reserve_a x - dA) (reserve_b x - dB))
                                (lp_total_shares x - LpRemove.shareAmount rm))
                   ((reserve_a x - dA) * (reserve_b x - dB)))
      (ammOpAcceptedPut (wtxid tx) (OpRecord h LpRemoveOp pid) (recordAmmOp pid h i (wtxid tx) s)).
Proof.
  unfold lp_remove_handler. intros E. hinv E. subst s'.
  match goal with E1 : remove_candidate _ _ _ _ _ _ _ _ _ = Ok _ |- _ =>
    apply remove_candidate_Ok in E1 as (p & sd & ?&?&?&?&?&?&?&?&?&?&?&?) end.
  exists a, b, (negb (bool_decide (a = LpRemove.assetA rm))). do 5 eexists. cbv zeta.
  split_and!; try eassumption; try reflexivity; lia.
Qed.

(** Removing in proportion keeps the root above the shares, and some shares remain. *)
Lemma remove_root ra rb s k x da db :
  0 < s → s * s <= k → k <= ra * rb → 0 <= x <= s →
  0 < ra - da → 0 < rb - db → 0 <= ra → 0 <= rb →
  da * s <= ra * x → db * s <= rb * x → da = ra * x / s →
  0 < s - x ∧ (s - x) * (s - x) <= (ra - da) * (rb - db).
Proof.
  intros Hs Hr Hk Hx HA HB Hra Hrb H1 H2 Ed.
  assert (0 < s - x).
  { assert (x ≠ s); [|lia]. intros ->. rewrite Z.div_mul in Ed by lia. lia. }
  split; [done|].
  assert (Ha : ra * (s - x) <= (ra - da) * s) by lia. assert (Hb : rb * (s - x) <= (rb - db) * s) by lia.
  assert (H3 : (ra * (s - x)) * (rb * (s - x)) <= ((ra - da) * s) * ((rb - db) * s)) by (apply Z.mul_le_mono_nonneg; nia).
  assert ((s * s) * ((s - x) * (s - x)) <= (ra * rb) * ((s - x) * (s - x))) by (apply Z.mul_le_mono_nonneg_r; nia).
  assert (Hfin : (s * s) * ((s - x) * (s - x)) <= (s * s) * ((ra - da) * (rb - db))) by lia.
  apply Z.mul_le_mono_pos_l in Hfin; [done|nia].
Qed.

Lemma lp_remove_ok h i tx rm s s' :
  LpRemove.amounts rm → store_ok s → lp_remove_handler h i tx rm s = Ok s' → store_ok s'.
Proof.
  intros (HS & HA & HB) Hs (a & b & sw & pid & p & x & m & sd & E)%lp_remove_effect.
  set (dA := if sw then _ else _) in E. set (dB := if sw then LpRemove.deltaA rm else _) in E.
  assert (0 <= dA < 2 ^ 64 ∧ 0 <= dB < 2 ^ 64) as [HdA HdB] by (subst dA dB; destruct sw; lia). clearbody dA dB.
  destruct E as (_ & Ep & _ & Ex & _ & _ & _ & Hn & Eo & _ & HrA & HrB & ->).
  destruct (crystallize_ok _ _ (so_pools _ Hs _ _ Ep)) as (x' & Ex' & Hx & Hsame & _). rewrite Ex in Ex'. injection Ex' as <-.
  pose proof Hx as [Ha Hb Hsh Hr Hk Hac Hf Hpf Hid Hpl]. unfold u64_pos in *.
  pose proof Eo as (? & ? & EdA & EdB)%ammLpRemoveOutputs_Ok; [|lia..].
  pose proof Eo as (? & ? & ? & ?)%lp_remove_fair; [|lia..].
  destruct (remove_root (reserve_a x) (reserve_b x) (lp_total_shares x) (k_last x) (LpRemove.shareAmount rm) dA dB)
    as [? ?]; try done || lia.
  eapply store_ok_put; [| |exact Hsame|].
  - by apply store_ok_accepted, store_ok_record.
  - by autorewrite with amm.
  - split; cbn; unfold u64_pos; try done; lia.
Qed.

(** ** Fee claims *)
Lemma fee_claim_effect h i tx cl s s' :
  fee_claim_handler h i tx cl s = Ok s' →
  ∃ p x expected,
    pools s !! FeeClaim.poolId cl = Some p ∧ tradable p = true ∧ protocol_fee_bps p ≠ 0 ∧
    FeeClaim.claimerPubkey cl = protocol_fee_address p ∧
    ammCrystallizeProtocolFee p = Ok x ∧
    FeeClaim.claimAmount cl = protocol_fee_accrued x ∧ FeeClaim.claimAmount cl ≠ 0 ∧
    verifySchnorrWorker (FeeClaim.claimSig cl)
      (buildProtocolFeeClaimMsg (FeeClaim.poolId cl) (FeeClaim.claimAmount cl) (FeeClaim.claimCSecp cl)
         (FeeClaim.claimBlinding cl) (default [] (wvout tx !! 0%nat))) (drop 1 (FeeClaim.claimerPubkey cl)) = Ok true ∧
    pedersenCommit (FeeClaim.claimAmount cl) (modN (bytes32ToBigint (FeeClaim.claimBlinding cl))) = Ok expected ∧
    s' = ammPoolPut (FeeClaim.poolId cl) (with_accrued x 0)
      (ammOpAcceptedPut (wtxid tx) (OpRecord h FeeClaimOp (FeeClaim.poolId cl))
      (recordAmmOp (FeeClaim.poolId cl) h i (wtxid tx) s)).
Proof.
  unfold fee_claim_handler. intros E. hinv E. subst s'.
  do 3 eexists. split_and!; try eassumption; try reflexivity; try (by subst).
Qed.

Lemma fee_claim_ok h i tx cl s s' : store_ok s → fee_claim_handler h i tx cl s = Ok s' → store_ok s'.
Proof.
  intros Hs (p & x & e & Ep & _ & _ & _ & Ex & _ & _ & _ & _ & ->)%fee_claim_effect.
  destruct (crystallize_ok _ _ (so_pools _ Hs _ _ Ep)) as (x' & Ex' & [] & Hsame & _). rewrite Ex in Ex'. injection Ex' as <-.
  eapply store_ok_put; [| |exact Hsame|].
  - by apply store_ok_accepted, store_ok_record.
  - by autorewrite with amm.
  - by split.
Qed.

(** ** Swaps *)
Lemma pool_ok_trade pid p ra rb :
  pool_ok pid p → u64_pos ra → u64_pos rb → reserve_a p * reserve_b p <= ra * rb →
  pool_ok pid (with_reserves p ra rb) ∧ same_pool p (with_reserves p ra rb).
Proof. intros [] Ha Hb Hk. split; [split; cbn; done || lia|repeat split]. Qed.

Lemma pool_ok_verified pid p : pool_ok pid p → pool_ok pid (verified p).
Proof. intros []. by split. Qed.
Lemma same_pool_verified p q : same_pool p q → same_pool p (verified q).
Proof. done. Qed.
Lemma same_pool_trans p q r : same_pool p q → same_pool q r → same_pool p r.
Proof. unfold same_pool. intuition congruence. Qed.

(** When the fill is taken, and what it is. *)
Lemma swap_execute_fill h o asset sv p c :
  swap_execute h o asset sv = inr (p, c) →
  o = Some p ∧ tradable p = true ∧ (SwapVar.direction sv = 0 ∨ SwapVar.direction sv = 1) ∧
  asset = (if SwapVar.direction sv =? 0 then asset_a p else asset_b p) ∧
  SwapVar.tipAsset sv = SwapVar.direction sv ∧
  SwapVar.deltaInMin sv <= SwapVar.deltaIn sv <= SwapVar.deltaInMax sv ∧
  h < SwapVar.expiryHeight sv ∧
  ammCurveDeltaOut (SwapVar.direction sv) (reserve_a p) (reserve_b p) (SwapVar.deltaIn sv) (fee_bps p) = Ok c ∧
  Z.max 1 (SwapVar.minOut sv) <= deltaOut c.
Proof.
  unfold swap_execute. intros E. destruct o as [q|]; [|done].
  repeat match type of E with (if ?b then _ else _) = _ => destruct b eqn:?; [done|] end.
  destruct (ammCurveDeltaOut _ _ _ _ _) as [c'| | |] eqn:Ec; try done.
  repeat match type of E with (if ?b then _ else _) = _ => destruct b eqn:?; [done|] end.
  injection E as -> ->. bool_to_prop. split_and!; try done; try lia.
  destruct (Z.gtb_spec (SwapVar.minOut sv) 1); lia.
Qed.

(** The conditions of a fill in the trader's terms: the pool trades, the input is its
    direction's side, the amount is in the range the trader set, the block is before the
    deadline, the input reserve stays in 64 bits, and the floor of the constant product
    formula pays at least the trader's minimum. *)
Definition swap_in (p : pool) (sv : SwapVar.t) : Z := if SwapVar.direction sv =? 0 then reserve_a p else reserve_b p.
Definition swap_out (p : pool) (sv : SwapVar.t) : Z := if SwapVar.direction sv =? 0 then reserve_b p else reserve_a p.
Definition fills (h : Z) (o : option pool) (asset : bytes) (sv : SwapVar.t) (p : pool) (d : Z) : Prop :=
  o = Some p ∧ tradable p = true ∧ (SwapVar.direction sv = 0 ∨ SwapVar.direction sv = 1) ∧
  asset = (if SwapVar.direction sv =? 0 then asset_a p else asset_b p) ∧
  SwapVar.tipAsset sv = SwapVar.direction sv ∧
  0 < SwapVar.deltaIn sv ∧ SwapVar.deltaInMin sv <= SwapVar.deltaIn sv <= SwapVar.deltaInMax sv ∧
  h < SwapVar.expiryHeight sv ∧ swap_in p sv + SwapVar.deltaIn sv < U64 ∧
  d = curve_out (swap_in p sv) (swap_out p sv) (SwapVar.deltaIn sv) (fee_bps p) ∧
  Z.max 1 (SwapVar.minOut sv) <= d.
(** the pool after a fill *)
Definition filled (p : pool) (sv : SwapVar.t) (d : Z) : pool :=
  verified (if SwapVar.direction sv =? 0 then with_reserves p (reserve_a p + SwapVar.deltaIn sv) (reserve_b p - d)
            else with_reserves p (reserve_a p - d) (reserve_b p + SwapVar.deltaIn sv)).

Lemma swap_execute_sound h o asset sv p c :
  swap_execute h o asset sv = inr (p, c) →
  fills h o asset sv p (deltaOut c) ∧ verified (with_reserves p (raPost c) (rbPost c)) = filled p sv (deltaOut c).
Proof.
  intros (Eo & Ht & Hd & Ha & Htip & Hr & Hx & Hc & Hm)%swap_execute_fill. unfold fills, filled, swap_in, swap_out.
  apply ammCurveDeltaOut_Ok in Hc as ((_ & _ & [? _] & _) & [(Ed & Hov & ->)|(Ed & Hov & ->)]);
    rewrite Ed in *; cbn [Z.eqb deltaOut raPost rbPost] in *; (split; [split_and!; done || lia || (by left) || by right|done]).
Qed.

(** A swap that could fill is not refunded. *)
Lemma swap_execute_complete pid h o asset sv p d r :
  pool_ok pid p → SwapVar.deltaIn sv < 2 ^ 64 → fills h o asset sv p d → swap_execute h o asset sv ≠ inl r.
Proof.
  intros Hp Hu (-> & Ht & Hd & -> & Htip & H0' & Hr & Hx & Hov & Ed & Hm) E. destruct Hp as [Ha Hb _ _ _ _ Hf _ _ _].
  assert (Hc : ∃ c, ammCurveDeltaOut (SwapVar.direction sv) (reserve_a p) (reserve_b p) (SwapVar.deltaIn sv) (fee_bps p) = Ok c ∧ deltaOut c = d).
  { unfold swap_in, swap_out, u64_pos in *.
    destruct Hd as [Hd|Hd]; rewrite Hd in *; cbn [Z.eqb] in *; subst d; eexists; (split; [apply ammCurveDeltaOut_Ok|]).
    1: split; [repeat split; unfold U64 in *; lia|left; split_and!; done]. 2: split; [repeat split; unfold U64 in *; lia|right; split_and!; done].
    all: done. }
  destruct Hc as (c & Ec & Eout). pose proof Ec as (HcA & HcB & _)%curve_fill. unfold u64_pos in *.
  unfold swap_execute in E. rewrite Ht in E. cbn [negb] in E.
  replace (if SwapVar.minOut sv >? 1 then SwapVar.minOut sv else 1) with (Z.max 1 (SwapVar.minOut sv)) in E
    by (destruct (Z.gtb_spec (SwapVar.minOut sv) 1); lia).
  rewrite Ec, bool_decide_eq_true_2 in E by done. cbn [negb] in E.
  repeat match type of E with (if ?b then _ else _) = _ => destruct b eqn:Hb'; [clear E; bool_to_prop; lia|clear Hb'] end.
  done.
Qed.

Lemma swap_var_effect h i tx payload sv s s' :
  swap_var_handler h i tx payload sv s = Ok s' →
  ∃ au, swap_authenticate tx payload sv = Ok au ∧
    ((∃ r C, swap_execute h (pools s !! SwapVar.poolId sv) (au_asset au) sv = inl r ∧
        pedersenCommit (au_total au) (au_rReceipt au) = Ok C ∧
        s' = ammSwapAcceptedPut (wtxid tx)
          (SwapRecord h (Passthrough r (au_total au)) (Some (Credit (au_asset au) (toRawBytes C)))
             (change_record (au_asset au) sv)) s) ∨
     (∃ p c C, swap_execute h (pools s !! SwapVar.poolId sv) (au_asset au) sv = inr (p, c) ∧
        pedersenCommit (deltaOut c) (au_rReceipt au) = Ok C ∧
        s' = ammSwapAcceptedPut (wtxid tx)
          (SwapRecord h (Execute (deltaOut c) (SwapVar.deltaOut sv))
             (Some (Credit (if SwapVar.direction sv =? 0 then asset_b p else asset_a p) (toRawBytes C)))
             (change_record (au_asset au) sv))
          (ammPoolPut (SwapVar.poolId sv) (verified (with_reserves p (raPost c) (rbPost c)))
          (recordAmmOp (SwapVar.poolId sv) h i (wtxid tx) s)))).
Proof.
  unfold swap_var_handler. intros E. apply res_bind_Ok in E as (au & Ea & E). cbv zeta in E.
  exists au. split; [done|].
  destruct (swap_execute _ _ _ _) as [r|[p c]] eqn:Ex; apply res_bind_Ok in E as (C & EC & E); injection E as <-.
  - left. by exists r, C.
  - right. by exists p, c, C.
Qed.

Lemma swap_var_ok h i tx payload sv s s' : store_ok s → swap_var_handler h i tx payload sv s = Ok s' → store_ok s'.
Proof.
  intros Hs (au & _ & [(r & C & _ & _ & ->)|(p & c & C & Ex & _ & ->)])%swap_var_effect.
  - by apply store_ok_swap.
  - apply swap_execute_fill in Ex as (Ep & _ & _ & _ & _ & _ & _ & Hc & _). apply curve_fill in Hc as (Ha & Hb & _ & Hk & _).
    destruct (pool_ok_trade _ _ _ _ (so_pools _ Hs _ _ Ep) Ha Hb Hk) as [Hok Hsame].
    apply store_ok_swap.
    eapply store_ok_put; [| |apply same_pool_verified, Hsame|by apply pool_ok_verified].
    + by apply store_ok_record.
    + by autorewrite with amm.
Qed.
End facts.
#[export] Hint Rewrite @pools_put @pools_record @pools_accepted @pools_swap @pools_append @pair_put @pair_record
  @pair_accepted @pair_swap : amm.
#[export] Hint Resolve store_ok_record store_ok_accepted store_ok_swap empty_store_ok : core.
