(* ===== verification/AmmScanFacts.v ===== *)
(** * Routes, and the scan as a whole

    A route moves a snapshot of the pools it names, hop by hop, and writes the snapshot
    back; every step of the scan then keeps the pools' invariant, never removes a pool,
    and never lowers what a share is worth in a pool that collects no protocol fee. *)
From S2P Require Import Prelude Bytes Crypto CodecTransfer CodecPool CodecSlots CodecAmm CodecBatch.
From S2P Require Import Messages AmmMath Curve Kernel Notes WorkerNotes AmmPool AmmBatch AmmScan AmmPoolFacts.

Section facts.
Context `{Hash} {SE : Secp} {CH : Chain} {RC : Records} {IX : Indexer}.

(** ** One trade *)
(** [q] is [p] after trades: the same pool and shares, reserves that multiply to no less. *)
Definition traded (pid : bytes) (p q : pool) : Prop :=
  same_pool p q ∧ lp_total_shares q = lp_total_shares p ∧ pool_ok pid q ∧
  reserve_a p * reserve_b p <= reserve_a q * reserve_b q.

Lemma traded_trans pid p q r : traded pid p q → traded pid q r → traded pid p r.
Proof.
  intros (S1 & T1 & _ & K1) (S2 & T2 & O2 & K2).
  split; [by eapply same_pool_trans|]. split_and!; congruence || lia.
Qed.
Lemma traded_refl pid p : pool_ok pid p → traded pid p p.
Proof. intros Hok. split; [apply same_pool_refl|]. split_and!; done || lia. Qed.
Lemma traded_reserves pid p ra rb :
  pool_ok pid p → u64_pos ra → u64_pos rb → reserve_a p * reserve_b p <= ra * rb →
  traded pid p (with_reserves p ra rb).
Proof. intros Hok Ha Hb Hk. by destruct (pool_ok_trade _ _ _ _ Hok Ha Hb Hk). Qed.
Lemma traded_verified pid p q : traded pid p q → traded pid p (verified q).
Proof. intros (S & T & O & K). split_and!; try done. by apply pool_ok_verified. Qed.

(** The floor a hop checks: paying at most the curve's share keeps the product. *)
Lemma hop_floor ri ro g d o :
  0 < ri → 0 < ro → 9000 <= g <= 10000 → 0 < d → 0 < o →
  o * (ri * 10000 + g * d) <= ro * g * d → o < ro ∧ ri * ro <= (ri + d) * (ro - o).
Proof.
  intros Hi Ho Hg Hd Hp Hf.
  assert (o < ro).
  { destruct (Z.lt_ge_cases o ro) as [|Hge]; [done|exfalso].
    assert (0 < g * d) by nia. assert (ro * (g * d) <= o * (g * d)) by (apply Z.mul_le_mono_nonneg_r; lia).
    assert (0 < o * (ri * 10000)) by nia. nia. }
  split; [done|].
  assert (ri * o <= d * (ro - o)); [|nia].
  assert (10000 * (ri * o) <= g * (d * (ro - o))) by nia.
  assert (g * (d * (ro - o)) <= 10000 * (d * (ro - o))) by (apply Z.mul_le_mono_nonneg_r; nia). lia.
Qed.

(** ** Snapshots *)
Definition snap_ok (s : store) (snap : gmap bytes pool) : Prop :=
  ∀ pid q, snap !! pid = Some q → ∃ p, pools s !! pid = Some p ∧ traded pid p q.

Lemma route_snapshot_ok hops s snap snap' :
  store_ok s → snap_ok s snap → route_snapshot hops s snap = Some snap' → snap_ok s snap'.
Proof.
  intros Hs. revert snap. induction hops as [|k hops IH]; intros snap Hsn E; cbn [route_snapshot] in E; [by simplify_eq|].
  case_bool_decide; [by eapply IH|]. destruct (pools s !! SwapRoute.poolId k) as [p|] eqn:Ep; [|done].
  destruct (tradable p); [|done]. cbn [negb] in E. eapply IH; [|exact E].
  intros pid q [[<- <-]|[_ Eq]]%lookup_insert_Some; [|by apply Hsn].
  exists p. split; [done|]. apply traded_refl, (so_pools _ Hs _ _ Ep).
Qed.

(** What one hop does to the pool it names. *)
Lemma route_hop_effect k st st' :
  route_hop k st = Some st' →
  ∃ p (fwd : bool) d o,
    fwd = (SwapRoute.direction k =? 0) ∧
    rs_snap st !! SwapRoute.poolId k = Some p ∧
    SwapRoute.R_A_pre k = reserve_a p ∧ SwapRoute.R_B_pre k = reserve_b p ∧ SwapRoute.feeBps k = fee_bps p ∧
    rs_asset st = (if fwd then asset_a p else asset_b p) ∧
    (∀ d0, rs_prev st = Some d0 → d = d0) ∧ 0 < d ∧ 0 < o ∧
    d = (if fwd then SwapRoute.deltaANetMag k else SwapRoute.deltaBNetMag k) ∧
    (if fwd then reserve_a p else reserve_b p) + d < U64 ∧
    o * ((if fwd then reserve_a p else reserve_b p) * 10000 + (10000 - fee_bps p) * d)
      <= (if fwd then reserve_b p else reserve_a p) * (10000 - fee_bps p) * d ∧
    st' = RouteState (if fwd then asset_b p else asset_a p) (Some o)
      (<[SwapRoute.poolId k := if fwd then with_reserves p (reserve_a p + d) (reserve_b p - o)
                               else with_reserves p (reserve_a p - o) (reserve_b p + d)]> (rs_snap st)).
Proof.
  unfold route_hop. destruct (rs_snap st !! SwapRoute.poolId k) as [p|] eqn:Ep; cbn [mbind option_bind]; [|done].
  cbv zeta. intros E. repeat match type of E with (if ?b then None else _) = _ => destruct b eqn:?; [done|] end.
  exists p, (SwapRoute.direction k =? 0).
  exists (if SwapRoute.direction k =? 0 then SwapRoute.deltaANetMag k else SwapRoute.deltaBNetMag k).
  exists (if SwapRoute.direction k =? 0 then SwapRoute.deltaBNetMag k else SwapRoute.deltaANetMag k).
  split; [done|]. split; [done|].
  injection E as <-. bool_to_prop. unfold AMM_SWAP_ROUTE_U64_MAX, U64 in *.
  split_and!; try done; try lia; try (by symmetry).
  - intros d0 E0. rewrite E0 in *. bool_to_prop. lia.
  - by destruct (SwapRoute.direction k =? 0).
Qed.

Lemma route_hop_ok s k st st' : snap_ok s (rs_snap st) → route_hop k st = Some st' → snap_ok s (rs_snap st').
Proof.
  intros Hsn (p & fwd & d & o & _ & Ep & _ & _ & _ & _ & _ & Hd & Ho & _ & Hov & Hfl & ->)%route_hop_effect.
  cbn [rs_snap]. intros pid q [[<- <-]|[_ Eq]]%lookup_insert_Some; [|by apply Hsn].
  destruct (Hsn _ _ Ep) as (p0 & Ep0 & Htr). exists p0. split; [done|]. eapply traded_trans; [exact Htr|].
  destruct Htr as (_ & _ & Hok & _). pose proof Hok as [Ha Hb _ _ _ _ Hf _ _ _]. unfold u64_pos, AMM_FEE_BPS_MAX in *.
  destruct fwd; apply traded_reserves; try done; unfold u64_pos; try lia;
    (apply hop_floor in Hfl; [|lia..]); lia.
Qed.

Lemma route_hops_ok s hops st st' : snap_ok s (rs_snap st) → route_hops hops st = Some st' → snap_ok s (rs_snap st').
Proof.
  revert st. induction hops as [|k hops IH]; intros st Hsn E; cbn [route_hops] in E; [by simplify_eq|].
  destruct (route_hop k st) as [st1|] eqn:E1; cbn [mbind option_bind] in E; [|done]. eauto using route_hop_ok.
Qed.

(** ** Writing the snapshot back *)
Lemma commit_route_pools h i t snap s pid :
  pools (commit_route h i t snap s) !! pid = match snap !! pid with Some q => Some (verified q) | None => pools s !! pid end.
Proof.
  unfold commit_route. apply (map_fold_weak_ind (λ r m, pools r !! pid = match m !! pid with Some q => Some (verified q) | None => pools s !! pid end)).
  - by rewrite lookup_empty.
  - intros pid' q m r _ IH. autorewrite with amm.
    destruct (decide (pid' = pid)) as [->|Hne]; [by rewrite !lookup_insert_eq|by rewrite !lookup_insert_ne].
Qed.
Lemma commit_route_pairs h i t snap s a b : ammPairGet (commit_route h i t snap s) a b = ammPairGet s a b.
Proof.
  unfold commit_route. apply (map_fold_weak_ind (λ r _, ammPairGet r a b = ammPairGet s a b)); [done|].
  intros pid q m r _ IH. by autorewrite with amm.
Qed.

(** Replacing pools by traded ones keeps the store. *)
Lemma commit_route_ok h i t snap s : store_ok s → snap_ok s snap → store_ok (commit_route h i t snap s).
Proof.
  intros [Hp Hl] Hsn. split.
  - intros pid q. rewrite commit_route_pools. destruct (snap !! pid) as [q'|] eqn:Eq; [|apply Hp].
    intros [= <-]. destruct (Hsn _ _ Eq) as (p & _ & _ & _ & Hok & _). by apply pool_ok_verified.
  - intros a b pid. rewrite commit_route_pairs. intros (p & Ep & <- & <-)%Hl. rewrite commit_route_pools.
    destruct (snap !! pid) as [q|] eqn:Eq; [|eauto]. destruct (Hsn _ _ Eq) as (p' & Ep' & (Ea & Eb & _) & _).
    rewrite Ep in Ep'. injection Ep' as <-. exists (verified q). by rewrite <- Ea, <- Eb.
Qed.

Lemma swap_route_effect h i tx payload sr s s' :
  swap_route_handler h i tx payload sr s = Ok s' →
  ∃ snap0 st o,
    route_snapshot (SwapRoute.hops sr) s ∅ = Some snap0 ∧
    route_hops (SwapRoute.hops sr) (RouteState (SwapRoute.traderInputAssetId sr) None snap0) = Some st ∧
    rs_asset st = SwapRoute.traderOutputAssetId sr ∧ rs_prev st = Some o ∧ SwapRoute.minOut sr <= o ∧
    s' = ammSwapAcceptedPut (wtxid tx) (SwapRecord h Route None None) (commit_route h i (wtxid tx) (rs_snap st) s).
Proof.
  unfold swap_route_handler. intros E. hinv E. subst s'.
  do 3 eexists. split_and!; try eassumption; try reflexivity; lia.
Qed.

Lemma swap_route_ok h i tx payload sr s s' :
  store_ok s → swap_route_handler h i tx payload sr s = Ok s' → store_ok s'.
Proof.
  intros Hs (snap0 & st & o & E0 & E1 & _ & _ & _ & ->)%swap_route_effect.
  apply store_ok_swap, commit_route_ok; [done|]. eapply route_hops_ok; [|exact E1].
  eapply route_snapshot_ok; [done| |exact E0]. by intros pid q.
Qed.

(** ** A batch *)
(** What the curve allows: nothing moves, or one side grows by [d] and the other gives
    out at most the curve's amount for [d] less the fee. *)
Lemma batch_reserves_Ok p dA dB ra rb :
  u64_pos (reserve_a p) → u64_pos (reserve_b p) → 0 <= fee_bps p <= AMM_FEE_BPS_MAX →
  batch_reserves p dA dB = Some (ra, rb) ↔
  ra = reserve_a p + dA ∧ rb = reserve_b p + dB ∧ ra < U64 ∧ rb < U64 ∧
  (dA = 0 ∧ dB = 0 ∨
   0 < dA ∧ dB < 0 ∧ - dB * (reserve_a p * 10000 + (10000 - fee_bps p) * dA) <= reserve_b p * (10000 - fee_bps p) * dA ∨
   0 < dB ∧ dA < 0 ∧ - dA * (reserve_b p * 10000 + (10000 - fee_bps p) * dB) <= reserve_a p * (10000 - fee_bps p) * dB).
Proof.
  intros Ha Hb Hf. unfold batch_reserves. change (Z.shiftl 1 64) with U64. unfold u64_pos, AMM_FEE_BPS_MAX in *.
  assert (Hin : ∀ d o ri ro, 0 < ri → 0 < ro → 0 < d → o < 0 →
    - o * (ri * 10000 + (10000 - fee_bps p) * d) <= ro * (10000 - fee_bps p) * d → 0 < ro + o ∧ ri * ro <= (ri + d) * (ro + o)).
  { intros d o ri ro Hi Ho Hd Hp Hfl. apply hop_floor in Hfl; lia. }
  cbv zeta. generalize dependent (10000 - fee_bps p). intros g Hin.
  destruct (Z.eqb_spec dA 0), (Z.eqb_spec dB 0), (Z.gtb_spec dA 0), (Z.ltb_spec dB 0), (Z.ltb_spec dA 0), (Z.gtb_spec dB 0);
    try lia; cbn [negb andb orb].
  all: try (split; [done | lia]).
  all: repeat (case_match; bool_to_prop); try match goal with H : _ || _ = true |- _ => apply orb_true_iff in H as [H|H]; bool_to_prop end.
  all: split; [intros E; first [discriminate E | injection E as <- <-; lia] | intros (-> & -> & ? & ? & Hc)].
  all: try (f_equal; f_equal; lia); exfalso; try lia.
  - assert (0 < reserve_b p + dB) by (apply (Hin dA dB (reserve_a p) (reserve_b p)); lia). lia.
  - assert (reserve_a p * reserve_b p <= (reserve_a p + dA) * (reserve_b p + dB)) by (apply Hin; lia). lia.
  - assert (0 < reserve_a p + dA) by (apply (Hin dB dA (reserve_b p) (reserve_a p)); lia). lia.
  - assert (reserve_b p * reserve_a p <= (reserve_b p + dB) * (reserve_a p + dA)) by (apply Hin; lia). lia.
Qed.

(** What an accepted batch passed, and what it writes. *)
Record batch_settled (h : Z) (tx : wtx) (payload : bytes) (s : store) (pid : bytes) (p : pool) (env : SwapBatch.t)
    (cs : list point) (ids : list bytes) (ra rb : Z) : Prop := BatchSettled {
  bs_pool : pools s !! pid = Some p;
  bs_pair : ∃ fee a b, probe payload = Some (fee, (a, b)) ∧ batch_candidate a b fee s (ammPairGet s a b) = Some (pid, p);
  bs_tradable : tradable p = true;
  bs_decode : SwapBatch.decodeTSwapBatchPayload payload (negb (length (arbiter_pubkeys p) =? 0)%nat) = Ok env;
  bs_hash : ∃ o, op_return_hash tx = Some o ∧ take 32 o = sha256 payload;
  bs_fee : SwapBatch.feeBpsAtSettle env = fee_bps p;
  bs_size : Z.land (capability_flags p) POOL_CAP_SOLO_INTENT_ALLOWED = 0 → AMM_MIN_BATCH_SIZE <= SwapBatch.nIntents env;
  bs_arbiter : arbiter_ok h p (negb (length (arbiter_pubkeys p) =? 0)%nat) (SwapBatch.arbiterBlock env) = Ok tt;
  bs_inputs : Z.of_nat (length (wvin tx)) = 1 + SwapBatch.nIntents env;
  bs_spends : batch_inputs (drop 1 (wvin tx)) = Ok cs;
  bs_intents : batch_intents h pid tx (length (SwapBatch.intents env)) 0 None (SwapBatch.intents env) (drop 1 (wvin tx)) cs = Ok ids;
  bs_qset : ∀ ar, SwapBatch.arbiterBlock env = Some ar →
    ∃ q, ammComputeQualifyingSetHash pid (SwapBatch.expectedHeight ar) ids = Ok q ∧
         take 32 q = take 32 (SwapBatch.qualifyingSetHash ar);
  bs_receipts : receipts_ok (SwapBatch.receipts env) = true;
  bs_tipA : ammVerifyTipOpening (SwapBatch.tipAAmount env) (SwapBatch.rTipA env) (SwapBatch.tipACSecp env) = Ok true;
  bs_tipB : ammVerifyTipOpening (SwapBatch.tipBAmount env) (SwapBatch.rTipB env) (SwapBatch.tipBCSecp env) = Ok true;
  bs_sumA : ammCheckAggregatePedersen env cs true (SwapBatch.deltaANetSigned env) (SwapBatch.tipACSecp env) (SwapBatch.rNetA env) = Ok true;
  bs_sumB : ammCheckAggregatePedersen env cs false (SwapBatch.deltaBNetSigned env) (SwapBatch.tipBCSecp env) (SwapBatch.rNetB env) = Ok true;
  bs_reserves : batch_reserves p (SwapBatch.deltaANetSigned env) (SwapBatch.deltaBNetSigned env) = Some (ra, rb) }.

Lemma batch_candidate_Some a b fee s l pid p :
  batch_candidate a b fee s l = Some (pid, p) → pid ∈ l ∧ pools s !! pid = Some p ∧ fee_bps p = fee.
Proof.
  induction l as [|c l IH]; cbn [batch_candidate]; [done|]. cbv zeta. intros E.
  assert (Hnext : batch_candidate a b fee s l = Some (pid, p) → pid ∈ c :: l ∧ pools s !! pid = Some p ∧ fee_bps p = fee).
  { intros [? ?]%IH. split; [by right|done]. }
  destruct (pools s !! c) as [q|] eqn:Ep; [|auto]. destruct (Z.eqb_spec (fee_bps q) fee); cbn [negb] in E; [|auto].
  destruct (ammDerivePoolId _ _ _ _ _ _) as [pid'| | |]; [|auto..].
  case_bool_decide as Hc; cbn [negb] in E; [|auto]. injection E as <- <-. subst c. split; [by left|done].
Qed.

Lemma swap_batch_effect h i tx payload s s' :
  swap_batch_handler h i tx payload s = Ok s' →
  ∃ pid p env cs ids ra rb, batch_settled h tx payload s pid p env cs ids ra rb ∧
    s' = ammPoolPut pid (with_reserves p ra rb) (recordAmmOp pid h i (wtxid tx) s).
Proof.
  unfold swap_batch_handler. intros E. hinv E. subst s'.
  match goal with E1 : batch_candidate _ _ _ _ _ = Some _ |- _ => pose proof (batch_candidate_Some _ _ _ _ _ _ _ E1) as (?&?&?) end.
  match goal with E1 : batch_reserves _ _ _ = Some ?r |- _ => destruct r end.
  repeat match goal with u : () |- _ => destruct u end.
  do 7 eexists. split; [|reflexivity]. split; try eassumption; try congruence; eauto 6.
  - intros Ez. match goal with E1 : _ && _ = false |- _ => rewrite Ez in E1; apply andb_false_iff in E1 as [E1|E1]; by bool_to_prop end.
  - intros ar Ear. match goal with E1 : context [ammComputeQualifyingSetHash] |- _ => rewrite Ear in E1; hinv E1; eauto end.
Qed.

Lemma swap_batch_traded h tx payload s pid p env cs ids ra rb :
  store_ok s → batch_settled h tx payload s pid p env cs ids ra rb → traded pid p (with_reserves p ra rb).
Proof.
  intros Hs Hb. pose proof (so_pools _ Hs _ _ (bs_pool _ _ _ _ _ _ _ _ _ _ _ Hb)) as Hp.
  pose proof Hp as [Ha' Hb' _ _ _ _ Hf _ _ _].
  pose proof (bs_reserves _ _ _ _ _ _ _ _ _ _ _ Hb) as (-> & -> & Hra & Hrb & Hc)%batch_reserves_Ok; [|done..].
  unfold u64_pos, AMM_FEE_BPS_MAX in *.
  destruct Hc as [[-> ->] | [(HA & HB & Hfl) | (HB & HA & Hfl)]].
  - apply traded_reserves; unfold u64_pos; done || lia.
  - apply hop_floor in Hfl as [? ?]; [|lia..]. apply traded_reserves; unfold u64_pos; done || lia.
  - apply hop_floor in Hfl as [? ?]; [|lia..]. apply traded_reserves; unfold u64_pos; done || lia.
Qed.

Lemma swap_batch_ok h i tx payload s s' :
  store_ok s → swap_batch_handler h i tx payload s = Ok s' → store_ok s'.
Proof.
  intros Hs (pid & p & env & cs & ids & ra & rb & Hb & ->)%swap_batch_effect.
  pose proof (swap_batch_traded _ _ _ _ _ _ _ _ _ _ _ Hs Hb) as (Hsame & _ & Hok & _).
  eapply store_ok_put; [by apply store_ok_record| |exact Hsame|exact Hok].
  autorewrite with amm. apply Hb.
Qed.

(** ** What a share is worth *)
(** [q] is the same pool as [p]; where no protocol fee is collected, the product of the
    reserves over the square of the shares is no less. *)
Definition worth (p q : pool) : Prop :=
  same_pool p q ∧
  (protocol_fee_bps p = 0 →
   reserve_a p * reserve_b p * (lp_total_shares q * lp_total_shares q)
     <= reserve_a q * reserve_b q * (lp_total_shares p * lp_total_shares p)).

(** No pool disappears, and none loses worth. *)
Definition evolves (s s' : store) : Prop :=
  ∀ pid p, pools s !! pid = Some p → ∃ q, pools s' !! pid = Some q ∧ worth p q.

Lemma worth_refl p : worth p p.
Proof. split; [apply same_pool_refl|lia]. Qed.
Lemma traded_worth pid p q : traded pid p q → worth p q.
Proof. intros (Hs & Hn & _ & Hk). split; [done|]. intros _. rewrite Hn. apply Z.mul_le_mono_nonneg_r; nia. Qed.

Lemma worth_trans p q r : 0 < lp_total_shares q → worth p q → worth q r → worth p r.
Proof.
  intros Hq [S1 W1] [S2 W2]. split; [by eapply same_pool_trans|]. intros Hz.
  assert (Hz' : protocol_fee_bps q = 0) by (destruct S1 as (?&?&?&?&?&?&Ez&?); congruence).
  specialize (W1 Hz). specialize (W2 Hz'). revert W1 W2 Hq.
  generalize (reserve_a p * reserve_b p) (reserve_a q * reserve_b q) (reserve_a r * reserve_b r).
  generalize (lp_total_shares p) (lp_total_shares q) (lp_total_shares r). intros s t u A B C W1 W2 Ht.
  assert ((A * (t * t)) * (u * u) <= (B * (s * s)) * (u * u)) by (apply Z.mul_le_mono_nonneg_r; nia).
  assert ((B * (u * u)) * (s * s) <= (C * (t * t)) * (s * s)) by (apply Z.mul_le_mono_nonneg_r; nia).
  assert (Hfin : (t * t) * (A * (u * u)) <= (t * t) * (C * (s * s))) by lia.
  apply Z.mul_le_mono_pos_l in Hfin; [done|nia].
Qed.

Lemma evolves_refl s : evolves s s.
Proof. intros pid p Ep. exists p. split; [done|apply worth_refl]. Qed.
Lemma evolves_trans s s1 s2 : store_ok s1 → evolves s s1 → evolves s1 s2 → evolves s s2.
Proof.
  intros Hs H1 H2 pid p (q & Eq & Wq)%H1. destruct (H2 _ _ Eq) as (r & Er & Wr). exists r. split; [done|].
  eapply worth_trans; [|done..]. by destruct (so_pools _ Hs _ _ Eq).
Qed.
Lemma evolves_pools s s' s'' : pools s'' = pools s' → evolves s s' → evolves s s''.
Proof. intros E He pid p. rewrite E. apply He. Qed.
Lemma evolves_put s s1 pid p q :
  pools s1 = pools s → pools s !! pid = Some p → worth p q → evolves s (ammPoolPut pid q s1).
Proof.
  intros E1 Ep Hw pid' p' Ep'. autorewrite with amm. rewrite E1. destruct (decide (pid' = pid)) as [->|Hne].
  - rewrite lookup_insert_eq. rewrite Ep in Ep'. injection Ep' as <-. eauto.
  - rewrite lookup_insert_ne by done. eauto using worth_refl.
Qed.

(** Liquidity in or out at the shares' price, rounded for the pool. *)
Lemma worth_liquidity pid p x ra rb n k :
  pool_ok pid p → ammCrystallizeProtocolFee p = Ok x → 0 <= n → 0 <= ra → 0 <= rb →
  n * reserve_a x <= ra * lp_total_shares x → n * reserve_b x <= rb * lp_total_shares x →
  worth p (with_k_last (with_shares (with_reserves x ra rb) n) k).
Proof.
  intros Hok Ex Hn Hra Hrb HA HB. destruct (crystallize_ok _ _ Hok) as (x' & Ex' & Hx & Hsame & _).
  rewrite Ex in Ex'. injection Ex' as <-. split; [by destruct Hsame as (?&?&?&?&?&?&?&?&?&?)|]. intros Hz.
  assert (x = p) as ->.
  { revert Ex. unfold ammCrystallizeProtocolFee. rewrite Hz. by destruct (_ammIsZeroAddressHex _); intros [= <-]. }
  cbn. destruct Hok as [[Ha _] [Hb _] _ _ _ _ _ _ _ _].
  assert ((n * reserve_a p) * (n * reserve_b p) <= (ra * lp_total_shares p) * (rb * lp_total_shares p))
    by (apply Z.mul_le_mono_nonneg; nia).
  lia.
Qed.

Lemma lp_init_evolves h i tx lp ini s s' : lp_init_handler h i tx lp ini s = Ok s' → evolves s s'.
Proof.
  intros (a & b & sw & pid & lpid & init & E)%lp_init_effect. cbv zeta in E.
  destruct E as (_ & En & _ & _ & _ & _ & _ & _ & _ & ->). intros pid' p' Ep'. autorewrite with amm.
  rewrite lookup_insert_ne by congruence. eauto using worth_refl.
Qed.

Lemma lp_add_evolves h i tx lp s s' :
  LpAdd.amounts lp → store_ok s → lp_add_handler h i tx lp s = Ok s' → evolves s s'.
Proof.
  intros (HA & HB & _) Hs (a & b & sw & pid & p & x & n & E)%lp_add_effect.
  set (dA := if sw then _ else _) in E. set (dB := if sw then LpAdd.deltaA lp else _) in E.
  assert (0 <= dA ∧ 0 <= dB) as [HdA HdB] by (subst dA dB; destruct sw; lia). clearbody dA dB.
  destruct E as (_ & _ & Ep & _ & _ & Ex & Es & Hn & _ & _ & _ & HoA & HoB & ->).
  pose proof (so_pools _ Hs _ _ Ep) as Hp.
  destruct (crystallize_ok _ _ Hp) as (x' & Ex' & Hx & _). rewrite Ex in Ex'. injection Ex' as <-.
  destruct Hx as [[? _] [? _] ? _ _ _ _ _ _ _].
  destruct (lp_add_fair dA dB (reserve_a x) (reserve_b x) (lp_total_shares x) n) as (? & ? & ?); [lia..|done|].
  eapply evolves_put; [|exact Ep|eapply worth_liquidity; eauto; nia]. by autorewrite with amm.
Qed.

Lemma lp_remove_evolves h i tx rm s s' :
  LpRemove.amounts rm → store_ok s → lp_remove_handler h i tx rm s = Ok s' → evolves s s'.
Proof.
  intros (HS & HA & HB) Hs (a & b & sw & pid & p & x & m & sd & E)%lp_remove_effect. cbv zeta in E.
  destruct E as (_ & Ep & _ & Ex & _ & _ & _ & Hn & Eo & _ & HrA & HrB & ->).
  pose proof (so_pools _ Hs _ _ Ep) as Hp.
  destruct (crystallize_ok _ _ Hp) as (x' & Ex' & Hx & _). rewrite Ex in Ex'. injection Ex' as <-.
  destruct Hx as [[? _] [? _] ? _ _ _ _ _ _ _].
  pose proof Eo as (? & ? & _ & _)%ammLpRemoveOutputs_Ok; [|lia..].
  apply lp_remove_fair in Eo as (? & ? & ? & ?); [|lia..].
  eapply evolves_put; [|exact Ep|eapply worth_liquidity; eauto; nia]. by autorewrite with amm.
Qed.

Lemma fee_claim_evolves h i tx cl s s' : store_ok s → fee_claim_handler h i tx cl s = Ok s' → evolves s s'.
Proof.
  intros Hs (p & x & e & Ep & _ & Hb & _ & Ex & _ & _ & _ & _ & ->)%fee_claim_effect.
  destruct (crystallize_ok _ _ (so_pools _ Hs _ _ Ep)) as (x' & Ex' & _ & Hsame & _). rewrite Ex in Ex'. injection Ex' as <-.
  eapply evolves_put; [|exact Ep|by split]. by autorewrite with amm.
Qed.

Lemma swap_var_evolves h i tx payload sv s s' :
  store_ok s → swap_var_handler h i tx payload sv s = Ok s' → evolves s s'.
Proof.
  intros Hs (au & _ & [(r & C & _ & _ & ->)|(p & c & C & Ex & _ & ->)])%swap_var_effect.
  - eapply evolves_pools, evolves_refl; apply pools_swap.
  - apply swap_execute_fill in Ex as (Ep & _ & _ & _ & _ & _ & _ & Hc & _). apply curve_fill in Hc as (Ha & Hb & _ & Hk & _).
    eapply evolves_pools; [apply pools_swap|]. eapply evolves_put; [|exact Ep|]; [by autorewrite with amm|].
    eapply traded_worth, traded_verified, traded_reserves; eauto using so_pools.
Qed.

Lemma swap_route_evolves h i tx payload sr s s' :
  store_ok s → swap_route_handler h i tx payload sr s = Ok s' → evolves s s'.
Proof.
  intros Hs (snap0 & st & o & E0 & E1 & _ & _ & _ & ->)%swap_route_effect.
  assert (Hsn : snap_ok s (rs_snap st)).
  { eapply route_hops_ok; [|exact E1]. eapply route_snapshot_ok; [done| |exact E0]. by intros pid q. }
  eapply evolves_pools; [apply pools_swap|]. intros pid p Ep. rewrite commit_route_pools.
  destruct (rs_snap st !! pid) as [q|] eqn:Eq; [|eauto using worth_refl].
  destruct (Hsn _ _ Eq) as (p' & Ep' & Htr). rewrite Ep in Ep'. injection Ep' as <-.
  exists (verified q). split; [done|]. by eapply traded_worth, traded_verified.
Qed.

Lemma swap_batch_evolves h i tx payload s s' :
  store_ok s → swap_batch_handler h i tx payload s = Ok s' → evolves s s'.
Proof.
  intros Hs (pid & p & env & cs & ids & ra & rb & Hb & ->)%swap_batch_effect.
  eapply evolves_put; [apply pools_record|apply Hb|]. eapply traded_worth, swap_batch_traded; eauto.
Qed.

(** ** One step of the scan *)
Definition step (s s' : store) : Prop := ∃ h i tx op payload, scan_tx h i tx op payload s = Ok s'.

Lemma scan_tx_keeps h i tx op payload s s' :
  store_ok s → scan_tx h i tx op payload s = Ok s' → store_ok s' ∧ evolves s s'.
Proof.
  intros Hs. unfold scan_tx. destruct (amm_handler _ _ _ _ _ _) as [r| | |] eqn:E; try done; intros [= <-];
    [|split; [done|apply evolves_refl]].
  unfold amm_handler in E. repeat case_match; try done.
  - hinv E. apply LpAdd.lpAdd_decode_Ok in E0 as (_ & Hd). case_match.
    all: unfold LpAdd.decodable in Hd; destruct Hd as (_ & Ham & _).
    + eauto using lp_init_ok, lp_init_evolves.
    + eauto using lp_add_ok, lp_add_evolves.
  - hinv E. apply LpRemove.lpRemove_decode_Ok in E0 as (_ & _ & _ & _ & Ham & _). eauto using lp_remove_ok, lp_remove_evolves.
  - eauto using swap_batch_ok, swap_batch_evolves.
  - hinv E. eauto using fee_claim_ok, fee_claim_evolves.
  - hinv E. eauto using swap_var_ok, swap_var_evolves.
  - hinv E. eauto using swap_route_ok, swap_route_evolves.
Qed.

(** A run of the scan from an empty store. *)
Definition reachable (s : store) : Prop := rtc step empty_store s.

Lemma steps_keep s s' : store_ok s → rtc step s s' → store_ok s' ∧ evolves s s'.
Proof.
  intros Hs Hst. revert Hs. induction Hst as [s|s s1 s2 (h & i & tx & op & payload & E) _ IH]; intros Hs.
  - split; [done|apply evolves_refl].
  - destruct (scan_tx_keeps _ _ _ _ _ _ _ Hs E) as [Hs1 He]. destruct (IH Hs1) as [Hs2 He2].
    split; [done|]. by apply (evolves_trans _ s1).
Qed.
End facts.
