(* ===== verification/AmmErrors.v ===== *)
(** * What can stop the scan

    The pool handlers run inside [scanForEtches] without a [try] of their own: an
    exception ends the scan of the block.  Every outcome of every handler is followed
    here, and the causes of an exception are the ones of [stops]. *)
From S2P Require Import Prelude Bytes Text Crypto EnvelopeScript CodecTransfer CodecIssue CodecPool CodecSlots CodecAmm CodecBatch.
From S2P Require Import Messages AmmMath Curve Kernel Notes WorkerNotes AmmPool AmmBatch AmmScan AmmPoolFacts AmmScanFacts.

(** [r] answers or skips, unless [P] holds. *)
Definition quiet {A} (P : Prop) (r : res A) : Prop := match r with Ok _ | Null => True | _ => P end.

Lemma quiet_bind {A B} (P : Prop) (r : res A) (k : A → res B) :
  quiet P r → (∀ a, r = Ok a → quiet P (k a)) → quiet P (r ≫= k).
Proof. destruct r; cbn; auto. Qed.
Lemma quiet_null_when P b : quiet P (null_when b).
Proof. by destruct b. Qed.
Lemma quiet_tryc {A} P (r : res A) : quiet P (tryc r).
Proof. by destruct r. Qed.
Lemma quiet_total {A} P (r : res A) : (∃ a, r = Ok a) → quiet P r.
Proof. by intros [a ->]. Qed.
Lemma quiet_option {A} P (o : option A) : quiet P (match o with Some a => mret a | None => Null end : res A).
Proof. by destruct o. Qed.
Lemma quiet_mono {A} (P Q : Prop) (r : res A) : (P → Q) → quiet P r → quiet Q r.
Proof. destruct r; cbn; auto. Qed.
Create HintDb quiet.
#[export] Hint Resolve quiet_null_when quiet_tryc quiet_option : quiet.

(** One step of a handler: what it reads is quiet by a hint, or left as a goal. *)
Ltac qstep :=
  lazymatch goal with
  | |- quiet _ (_ ≫= _) => apply quiet_bind; [try by eauto with quiet|intros ? ?]
  | |- quiet _ (mret _) => exact I
  | |- quiet _ (let '(_, _) := ?p in _) => destruct p
  | |- quiet _ (if ?b then _ else _) => destruct b eqn:?
  | |- quiet _ _ => by eauto with quiet
  end.

(** ** The declared asset *)
(** What the two parameters return is an asset id of 32 bytes: the decoder of a mint from
    Ethereum reads 32 bytes, and an exit's record is checked against a pattern. *)
Class RecordsLen `{RC : Records} := {
  crossout_len p c a : crossoutNote p = Ok (c, a) → blen a = 32;
  exit_len o c a : poolExit o = Ok (c, a) → blen a = 32 }.

Section facts.
Context `{Hash} {HL : HashLen} {SE : Secp} {SL : SecpLaws} {CH : Chain} {RC : Records} {RL : RecordsLen} {IX : Indexer}.

Lemma output_commitment_asset v i n : output_commitment v i = Ok n → pn_asset n = v_assetId v.
Proof. unfold output_commitment. destruct (if i <? 0 then _ else _); [by intros [= <-]|done]. Qed.

Lemma view_asset (dec : res outputs_view) msg i n :
  (∀ v, dec = Ok v → blen (v_assetId v) = 32) →
  (v ← or_throw dec msg; output_commitment v i) = Ok n → blen (pn_asset n) = 32.
Proof.
  intros Hd E. apply res_bind_Ok in E as (v & Ev & E). apply or_throw_Ok in Ev.
  rewrite (output_commitment_asset _ _ _ E). auto.
Qed.

Ltac rd_inv_hook H ::= idtac.
(** the 32 bytes a decoder slices off first *)
Ltac sliced := let Hd := fresh in intros ? Hd; apply run_Ok in Hd as [? Hd]; rd_inv Hd; subst; done.
(** the length the encoder demands of what was decoded *)
Ltac encoded lem x := let Hd := fresh in intros Hd; apply lem in Hd; destruct x; enc_inv Hd; bool_to_prop; done.

Lemma cxfer_asset op p v : 0 <= op < 256 → W.cxfer_with op p = Ok v → blen (v_assetId v) = 32.
Proof. intros Hop. revert v. unfold W.cxfer_with. sliced. Qed.
Lemma bound_asset p v : W.decodeCXferBoundPayload p = Ok v → blen (v_assetId v) = 32.
Proof. revert v. unfold W.decodeCXferBoundPayload. sliced. Qed.
Lemma axfer_asset p v : W.decodeAxferPayload p = Ok v → blen (v_assetId v) = 32.
Proof. revert v. unfold W.decodeAxferPayload. sliced. Qed.
Lemma axferVar_asset op p v : 0 <= op < 256 → W.axfer_var_with op p = Ok v → blen (v_assetId v) = 32.
Proof. intros Hop. revert v. unfold W.axfer_var_with. sliced. Qed.
Lemma mint_asset p x : CMint.decodeCMintPayload p = Ok x → blen (CMint.assetId x) = 32.
Proof. unfold CMint.decodeCMintPayload. revert x. sliced. Qed.
Lemma bid_asset p x : PreauthBid.decodePreauthBidPayload p = Ok x → blen (PreauthBid.assetId x) = 32.
Proof. unfold PreauthBid.decodePreauthBidPayload. revert x. sliced. Qed.
Lemma burn_asset p x : CBurn.decodeCBurnPayload p = Ok x → blen (CBurn.assetId x) = 32.
Proof. unfold CBurn.decodeCBurnPayload. revert x. sliced. Qed.
Lemma pmint_asset p x : CPmint.decodeCPmintPayload p = Ok x → blen (CPmint.assetId x) = 32.
Proof. unfold CPmint.decodeCPmintPayload. revert x. sliced. Qed.

(** Every note resolves to an asset id of 32 bytes. *)
Lemma envelope_note_asset e o n : envelope_note e o = Ok n → blen (pn_asset n) = 32.
Proof.
  unfold envelope_note. intros E.
  repeat match type of E with (if ?b then _ else _) = _ => destruct b; [|] end; try done.
  - enc_inv E. apply res_bind_Ok in E as (? & _ & [= <-]). cbn. unfold assetIdFor. apply HL.
  - enc_inv E. apply res_bind_Ok in E as (x & Ex%or_throw_Ok & [= <-]). by apply mint_asset in Ex.
  - revert E. apply view_asset. intros v. by apply cxfer_asset.
  - revert E. apply view_asset. intros v. by apply cxfer_asset.
  - revert E. apply view_asset, bound_asset.
  - revert E. apply view_asset, axfer_asset.
  - apply res_bind_Ok in E as (w & Ew%or_throw_Ok & E). destruct (if vout o =? 0 then _ else _); [|done].
    rewrite (output_commitment_asset _ _ _ E). destruct (env_opcode e =? T_AXFER_VAR_BPP); by apply axferVar_asset in Ew.
  - apply res_bind_Ok in E as (x & Ex%or_throw_Ok & E). apply bid_asset in Ex.
    destruct (PreauthBid.outputs x) as [|o0 l]; [done|]. destruct (vout o =? 0); [by injection E as <-|].
    destruct l as [|o1 [|? ?]]; try done. destruct (vout o =? 3); [by injection E as <-|done].
  - apply res_bind_Ok in E as (x & Ex%or_throw_Ok & E). rewrite (output_commitment_asset _ _ _ E). by apply burn_asset in Ex.
  - enc_inv E. apply res_bind_Ok in E as (x & Ex%or_throw_Ok & [= <-]). by apply pmint_asset in Ex.
  - enc_inv E. apply res_bind_Ok in E as ([c a] & Ex%or_throw_Ok & [= <-]). by apply crossout_len in Ex.
  - apply res_bind_Ok in E as ([c a] & Ex%or_throw_Ok & [= <-]). by apply exit_len in Ex.
Qed.

Lemma commitment_asset o n : commitmentForUtxo o = Ok n → blen (pn_asset n) = 32.
Proof. unfold commitmentForUtxo. intros E. apply res_bind_Ok in E as (e & _ & E). by apply envelope_note_asset in E. Qed.

(** ** Inputs *)
(** an input whose commitment the indexer resolves to bytes, which [hexToBytes] refuses *)
Definition raw_input (tx : wtx) : Prop :=
  ∃ o c a, o ∈ drop 1 (wvin tx) ∧ commitmentForUtxo o = Ok (ParentNote (Raw c) a).

Lemma collect_quiet ins m : quiet (∃ o c a, o ∈ ins ∧ commitmentForUtxo o = Ok (ParentNote (Raw c) a)) (collect ins m).
Proof.
  revert m. induction ins as [|i ins IH]; intros m; cbn [collect]; [exact I|].
  assert (Hnext : ∀ m', quiet (∃ o c a, o ∈ i :: ins ∧ commitmentForUtxo o = Ok (ParentNote (Raw c) a)) (collect ins m')).
  { intros m'. eapply quiet_mono; [|apply IH]. intros (o & c & a & ? & ?). exists o, c, a. split; [by right|done]. }
  destruct (commitmentForUtxo i) as [[[c|c] a]| | |] eqn:E; try apply Hnext.
  exists i, c, a. split; [by left|done].
Qed.
Lemma collect_inputs_quiet tx : quiet (raw_input tx) (ammCollectAssetInputs tx 1).
Proof. apply collect_quiet. Qed.

(** No side has more inputs than the transaction. *)
Lemma collect_length ins m m' n a sd :
  (∀ a sd, m !! a = Some sd → (length (side_inputs sd) <= n)%nat) →
  collect ins m = Ok m' → m' !! a = Some sd → (length (side_inputs sd) <= n + length ins)%nat.
Proof.
  revert m n. induction ins as [|i ins IH]; intros m n Hm E Ea; cbn [collect] in E.
  - injection E as <-. cbn. specialize (Hm _ _ Ea). lia.
  - cbn [length]. replace (n + S (length ins))%nat with (S n + length ins)%nat by lia.
    destruct (commitmentForUtxo i) as [[[c|c] a']| | |]; try done.
    all: eapply IH; [|exact E|exact Ea]; intros b s Eb.
    2-4: specialize (Hm _ _ Eb); lia.
    cbn [pn_asset] in Eb. apply lookup_insert_Some in Eb as [[-> <-]|[_ Eb]].
    + cbn. rewrite length_app. cbn. destruct (m !! b) as [s|] eqn:Es; cbn; [specialize (Hm _ _ Es)|]; lia.
    + specialize (Hm _ _ Eb). lia.
Qed.
Lemma side_length tx m a sd :
  ammCollectAssetInputs tx 1 = Ok m → get_side m a = Ok sd → (length (side_inputs sd) <= length (wvin tx) - 1)%nat.
Proof.
  intros E [Ea _]%get_side_Ok. unfold ammCollectAssetInputs in E.
  eapply (collect_length _ _ _ 0) in E; [|done|exact Ea]. rewrite length_drop in E. lia.
Qed.

Lemma blen_zeros n : blen (zeros n) = Z.of_nat n.
Proof. unfold blen, zeros. by rewrite length_replicate. Qed.
Lemma p2trXonly_len tx i : blen (p2trXonly tx i) = 32.
Proof.
  unfold p2trXonly. destruct (wvout tx !! i) as [spk|]; [|apply blen_zeros].
  destruct (_ && _) eqn:E; [|apply blen_zeros]. bool_to_prop. unfold blen in *. rewrite length_drop. lia.
Qed.
Lemma get_side_quiet P m a : quiet P (get_side m a).
Proof. unfold get_side. destruct (m !! a); [|done]. by destruct (length _ =? 0)%nat. Qed.

(** ** Verifiers *)
Lemma schnorr_quiet P sig m pk : quiet P (verifySchnorrWorker sig m pk).
Proof. apply quiet_total, verifyWorker_total. Qed.
Lemma lpAdd_quiet P k ins sig : quiet P (ammLpAddKernelVerify k ins sig).
Proof. apply quiet_total, lpAdd_verify_total. Qed.
Lemma pedersen_quiet P v r : quiet P (pedersenCommit v r).
Proof. apply quiet_total. eexists. apply pedersenCommit_Ok. Qed.
Lemma gates_quiet P gates sigs m : quiet P (gates_ok gates sigs m).
Proof.
  revert sigs. induction gates as [|pk gates IH]; intros [|sig sigs]; cbn [gates_ok]; try exact I.
  destruct (negb _); [exact I|]. destruct (bytesToPoint pk); try exact I.
  apply quiet_bind; [apply schnorr_quiet|]. intros [] _; [apply IH|exact I].
Qed.
Lemma lpRemove_quiet k ins sig :
  blen (rk_refundDestXonly k) = 32 → rk_lpInputs k ≠ [] →
  quiet (255 < length (rk_lpInputs k))%nat (ammLpRemoveKernelVerify k ins sig).
Proof.
  intros Hx Hne. unfold ammLpRemoveKernelVerify. destruct (ammLpRemoveKernelKey _ _); try exact I.
  apply quiet_bind; [|intros; apply schnorr_quiet]. unfold ammLpRemoveKernelMsg.
  rewrite throw_if_run by (by destruct (rk_lpInputs k)). rewrite Hx.
  destruct (Z.gtb_spec (Z.of_nat (length (rk_lpInputs k))) 255); cbn; [lia|exact I].
Qed.
Lemma crystallize_quiet P pid p s : store_ok s → pools s !! pid = Some p → quiet P (ammCrystallizeProtocolFee p).
Proof. intros Hs Ep. destruct (crystallize_ok _ _ (so_pools _ Hs _ _ Ep)) as (x & -> & _). exact I. Qed.
#[local] Hint Resolve schnorr_quiet lpAdd_quiet pedersen_quiet gates_quiet get_side_quiet collect_inputs_quiet : quiet.

(** ** Handlers *)
Lemma derive_len a b f fl pa pf pid : ammDerivePoolId a b f fl pa pf = Ok pid → blen pid = 32.
Proof.
  unfold ammDerivePoolId. intros E. apply res_bind_Ok in E as (? & _ & E). enc_inv E.
  destruct (pf =? 0); injection E as <-; apply HL.
Qed.

Lemma lp_init_quiet h i tx lp ini s : quiet (raw_input tx) (lp_init_handler h i tx lp ini s).
Proof.
  unfold lp_init_handler. repeat qstep.
  match goal with E : tryc (ammDerivePoolId _ _ _ _ _ _) = Ok ?pid |- _ => apply tryc_Ok, derive_len in E end.
  unfold ammDeriveLpAssetId. rewrite throw_if_run by lia. exact I.
Qed.

Lemma add_candidate_quiet P a b dA lp sd r s l : quiet P (add_candidate a b dA lp sd r s l).
Proof.
  induction l as [|c l IH]; cbn [add_candidate]; [exact I|].
  destruct (pools s !! c) as [q|]; [|exact IH]. destruct (negb (tradable q)); [exact IH|].
  destruct (ammDerivePoolId a b (fee_bps q) (capability_flags q) (protocol_fee_address q) (protocol_fee_bps q)); try exact IH.
  destruct (negb _); [exact IH|]. apply quiet_bind; [apply lpAdd_quiet|]. intros [] _; [exact I|exact IH].
Qed.
#[local] Hint Resolve add_candidate_quiet : quiet.

Lemma lp_add_quiet h i tx lp s : store_ok s → quiet (raw_input tx) (lp_add_handler h i tx lp s).
Proof.
  intros Hs. unfold lp_add_handler. repeat qstep.
  match goal with E : add_candidate _ _ _ _ _ _ _ _ = Ok _ |- _ => apply add_candidate_Ok in E as (_ & E & _) end.
  eauto using crystallize_quiet.
Qed.

Lemma remove_candidate_quiet tx a b dA dB rm m s l :
  store_ok s → ammCollectAssetInputs tx 1 = Ok m →
  quiet (256 < length (wvin tx))%nat (remove_candidate a b dA dB rm (p2trXonly tx 2) m s l).
Proof.
  intros Hs Em. induction l as [|c l IH]; cbn [remove_candidate]; [exact I|].
  destruct (pools s !! c) as [q|] eqn:Eq; [|exact IH]. destruct (negb (tradable q)); [exact IH|].
  destruct (ammDerivePoolId a b (fee_bps q) (capability_flags q) (protocol_fee_address q) (protocol_fee_bps q)); try exact IH.
  destruct (negb _); [exact IH|]. destruct (get_side m (lp_asset_id q)) as [sd| | |] eqn:Es; try exact IH.
  apply quiet_bind; [by eapply crystallize_quiet|]. intros x _. destruct (_ || _); [exact IH|].
  destruct (ammLpRemoveOutputs _ _ _ _); try exact IH. do 2 (destruct (_ || _); [exact IH|]).
  pose proof (side_length _ _ _ _ Em Es). apply get_side_Ok in Es as [_ Hne].
  apply quiet_bind; [|intros [] _; [exact I|exact IH]].
  eapply quiet_mono; [|apply lpRemove_quiet; [apply p2trXonly_len|exact Hne]]. cbn. lia.
Qed.

Lemma lp_remove_quiet h i tx rm s :
  store_ok s → quiet (raw_input tx ∨ (256 < length (wvin tx))%nat) (lp_remove_handler h i tx rm s).
Proof.
  intros Hs. unfold lp_remove_handler. repeat qstep.
  - eapply quiet_mono; [|apply collect_inputs_quiet]. by left.
  - eapply quiet_mono; [|by apply remove_candidate_quiet]. by right.
Qed.

Lemma fee_claim_quiet h i tx cl s : store_ok s → quiet False (fee_claim_handler h i tx cl s).
Proof.
  intros Hs. unfold fee_claim_handler. repeat qstep.
  match goal with E : match ?o with _ => _ end = Ok _ |- _ => apply (proj1 (some_or_null _ _)) in E end.
  eauto using crystallize_quiet.
Qed.

(** the destination of a refund has no script *)
Definition no_refund_script (tx : wtx) : Prop := wvout tx !! 3%nat = Some [].

Lemma swap_authenticate_quiet tx payload sv : quiet (no_refund_script tx) (swap_authenticate tx payload sv).
Proof.
  unfold swap_authenticate. repeat qstep.
  - match goal with E : tryc (commitmentForUtxo _) = Ok _ |- _ => apply tryc_Ok, commitment_asset in E end.
    unfold computeKernelMsg. rewrite !throw_if_run by (cbn; lia). exact I.
  - match goal with E : match wvout tx !! 3%nat with _ => _ end = Ok _ |- _ => apply (proj1 (some_or_null _ _)) in E; revert E end.
    unfold ammSwapVarIntentMsg. cbn [si_refundScriptPubKey]. intros E.
    match type of E with _ = Some ?spk => destruct (Z.eqb_spec (blen spk) 0) as [Hb|]; [|exact I];
      unfold no_refund_script, quiet; cbn; rewrite E; f_equal; apply length_zero_iff_nil; unfold blen in Hb; lia end.
Qed.

Lemma swap_var_quiet h i tx payload sv s : quiet (no_refund_script tx) (swap_var_handler h i tx payload sv s).
Proof.
  unfold swap_var_handler. apply quiet_bind; [apply swap_authenticate_quiet|]. intros au _. cbv zeta.
  destruct (swap_execute _ _ _ _) as [r|[p c]]; repeat qstep.
Qed.

Lemma swap_route_quiet h i tx payload sr s : quiet False (swap_route_handler h i tx payload sr s).
Proof. unfold swap_route_handler. repeat qstep. Qed.

(** *** Batches *)
Lemma compressed_parse C P : bytesToPoint C = Ok P → fromHex C = Some P.
Proof. unfold bytesToPoint. intros E. enc_inv E. destruct (fromHex C); [|done]. by injection E as ->. Qed.

Lemma verify_each_quiet P msg keys sigs : quiet P (verify_each msg keys sigs).
Proof.
  revert sigs. induction keys as [|pk keys IH]; intros sigs; cbn [verify_each]; [exact I|].
  destruct (negb _); [exact I|]. apply quiet_bind; [apply schnorr_quiet|]. intros [] _; [apply IH|exact I].
Qed.
Lemma arbiter_sigs_quiet P q idx sigs pinned m : quiet P (ammVerifyArbiterSigs q idx sigs pinned m).
Proof.
  unfold ammVerifyArbiterSigs. repeat (case_match; [exact I|]). case_match; [apply verify_each_quiet|exact I].
Qed.
Lemma arbiter_quiet P h p has o : quiet P (arbiter_ok h p has o).
Proof. unfold arbiter_ok. destruct has; repeat qstep. apply arbiter_sigs_quiet. Qed.
Lemma batch_inputs_quiet P ins : quiet P (batch_inputs ins).
Proof. induction ins as [|i ins IH]; cbn [batch_inputs]; [exact I|]. repeat qstep. Qed.
Lemma batch_intents_quiet P h pid tx n i prev its ins cs : quiet P (batch_intents h pid tx n i prev its ins cs).
Proof.
  revert i prev ins cs. induction its as [|it its IH]; intros i prev [|inp ins] [|c cs]; cbn [batch_intents]; try exact I.
  repeat qstep.
Qed.
Lemma tip_quiet P v r C : quiet P (ammVerifyTipOpening v r C).
Proof. unfold ammVerifyTipOpening. cbv zeta. destruct (_ >=? _); [exact I|]. destruct (bytesToPoint C); try exact I. repeat qstep. Qed.

(** The decoder asked every receipt for a point, and the amounts for 64 bits. *)
Lemma decoded_receipts p b x :
  SwapBatch.decodeTSwapBatchPayload p b = Ok x →
  Forall (λ r, ∃ P, bytesToPoint (SwapBatch.cOutSecp r) = Ok P) (SwapBatch.receipts x).
Proof.
  intros (sa & sb & _ & Hd)%SwapBatch.swapBatch_decode_Ok. unfold SwapBatch.decodable in Hd.
  destruct Hd as (_&_&_&_&_&_&_&_&_&_&_&_&_&_&_&_&_&Hr&_). eapply Forall_impl; [exact Hr|].
  intros r (_ & Hp & _). unfold is_point, bytesToPoint_parser in Hp. destruct (bytesToPoint _); [eauto|done..].
Qed.
Lemma decoded_nets p b x :
  SwapBatch.decodeTSwapBatchPayload p b = Ok x →
  Z.abs (SwapBatch.deltaANetSigned x) < 2 ^ 64 ∧ Z.abs (SwapBatch.deltaBNetSigned x) < 2 ^ 64.
Proof.
  intros (sa & sb & _ & Hd)%SwapBatch.swapBatch_decode_Ok. unfold SwapBatch.decodable, SwapBatch.sign_of in Hd. lia.
Qed.

Lemma side_sum_quiet P isA its ins rcs sum :
  Forall (λ r, ∃ P, bytesToPoint (SwapBatch.cOutSecp r) = Ok P) rcs → quiet P (side_sum isA its ins rcs sum).
Proof.
  intros Hf. revert its ins sum. induction Hf as [|r rcs [C HC] _ IH]; intros [|it its] [|i ins] sum; cbn [side_sum]; try exact I.
  destruct (eqb _ _); [|rewrite HC]; apply IH.
Qed.
Lemma aggregate_quiet P b ins isA d tip r :
  Forall (λ r, ∃ P, bytesToPoint (SwapBatch.cOutSecp r) = Ok P) (SwapBatch.receipts b) → Z.abs d < SECP_N →
  quiet P (ammCheckAggregatePedersen b ins isA d tip r).
Proof.
  intros Hf Hd. unfold ammCheckAggregatePedersen. apply quiet_bind; [by apply side_sum_quiet|]. intros sum _.
  destruct (bytesToPoint tip); try exact I. assert (multiplied : ∀ Q n, 0 < n < SECP_N → quiet P (multiply Q n)).
  { intros Q n Hn. apply quiet_total. exists (smul n Q). by apply multiply_Ok. }
  cbv zeta. apply quiet_bind.
  - destruct (Z.eqb_spec d 0); [exact I|]. apply quiet_bind; [apply multiplied; lia|done].
  - intros sum' _. apply quiet_bind; [|done]. pose proof (modN_range (bytes32ToBigint r)).
    destruct (Z.eqb_spec (modN (bytes32ToBigint r)) 0); [exact I|apply multiplied; lia].
Qed.

Lemma swap_batch_quiet h i tx payload s : quiet False (swap_batch_handler h i tx payload s).
Proof.
  unfold swap_batch_handler. apply quiet_bind; [by eauto with quiet|]. intros [fee [a b]] _.
  apply quiet_bind; [by eauto with quiet|]. intros [pid p] _. apply quiet_bind; [by eauto with quiet|]. intros _ _. cbv zeta.
  apply quiet_bind; [unfold SwapBatch.decodeTSwapBatchPayload; by eauto with quiet|]. intros env Henv.
  assert (HN : 2 ^ 64 < SECP_N) by done. pose proof (decoded_receipts _ _ _ Henv) as Hr. pose proof (decoded_nets _ _ _ Henv) as [HA HB].
  repeat first [ apply quiet_null_when | apply arbiter_quiet | apply batch_inputs_quiet | apply batch_intents_quiet
    | apply tip_quiet | apply aggregate_quiet; [exact Hr|lia] | qstep ].
  all: destruct (SwapBatch.arbiterBlock env); repeat qstep.
Qed.

(** ** The scan *)
(** Why a transaction stops the scan. *)
Definition stops (op : Z) (tx : wtx) : Prop :=
  op = T_LP_ADD ∧ raw_input tx ∨
  op = T_LP_REMOVE ∧ (raw_input tx ∨ (256 < length (wvin tx))%nat) ∨
  op = T_SWAP_VAR ∧ no_refund_script tx.

Lemma scan_tx_quiet h i tx op payload s : store_ok s → quiet (stops op tx) (scan_tx h i tx op payload s).
Proof.
  intros Hs. unfold scan_tx. enough (quiet (stops op tx) (amm_handler h i tx op payload s)) as Hq.
  { destruct (amm_handler _ _ _ _ _ _); exact Hq || exact I. }
  unfold amm_handler, stops. repeat qstep; bool_to_prop.
  - destruct (LpAdd.pool_init _); (eapply quiet_mono; [|apply lp_init_quiet || by apply lp_add_quiet]); auto.
  - eapply quiet_mono; [|by apply lp_remove_quiet]. auto.
  - eapply quiet_mono; [|apply swap_batch_quiet]. done.
  - eapply quiet_mono; [|by apply fee_claim_quiet]. done.
  - eapply quiet_mono; [|apply swap_var_quiet]. auto.
  - eapply quiet_mono; [|apply swap_route_quiet]. done.
Qed.
End facts.
