(* ===== verification/AmmModel.v ===== *)
(** * A concrete run of the pool handlers

    Two notes fund a pool, a swap fills at its reserves, and the same transactions are
    scanned again, over the group of [CurveModel].  The witnesses of the pool theorems
    are evaluated on this run. *)
From S2P Require Import Prelude Bytes Crypto EnvelopeScript CodecTransfer CodecPool CodecSlots CodecAmm CodecBatch.
From S2P Require Import Messages AmmMath Curve CurveModel Kernel Notes ChainModel WorkerNotes.
From S2P Require Import AmmPool AmmBatch AmmScan AmmPoolFacts AmmScanFacts AmmErrors.

Definition coinA : bytes := be 32 1.
Definition coinB : bytes := be 32 2.

(** ** Funding *)
Definition fundA : outpoint := Outpoint (be 32 11) 0.
Definition tradeA : outpoint := Outpoint (be 32 11) 1.
Definition fundB : outpoint := Outpoint (be 32 12) 0.
Definition bid_note : outpoint := Outpoint (be 32 13) 0.

Definition funding_payload (a : bytes) (cs : list bytes) : bytes :=
  ok_or [] (encodeCXferPayload (Cxfer.Mk a (zeros 64) (map (λ C, Output C (zeros 8)) cs) (zeros 8))).
Definition funding_tx (payload : bytes) : txn := Txn [TxIn funding (envelope_witness payload) "v1_p2tr"] [] (Some 100) None.
Definition toy_bid : PreauthBid.t :=
  PreauthBid.Mk coinA 1 (zeros 16) (commitment_of 0 4) 2000 (bigintToBytes32 3) 1000 (zeros 64)
    [Output (commitment_of 2000 3) []] (zeros 8).

#[export] Instance amm_chain : Chain := {|
  fetchTx id :=
    if bool_decide (id = be 32 11) then Some (funding_tx (funding_payload coinA [commitment_of 2000 3; commitment_of 100 7]))
    else if bool_decide (id = be 32 12) then Some (funding_tx (funding_payload coinB [commitment_of 2000 5]))
    else if bool_decide (id = be 32 13) then Some (funding_tx (ok_or [] (PreauthBid.encodePreauthBidPayload toy_bid)))
    else None;
  bppEnabled := true; bpRangeAggVerify _ _ := true; bppRangeVerify _ _ := true; trackedNotes _ := None;
  getAssetMeta _ := false; coordsHash _ := []; reflectedHeight := None; poolBinding := None;
  evmNullifierSpent _ := None; serviceParent _ _ := None; strictValidation := false |}.
#[export] Instance no_records : Records := {| crossoutNote _ := Null; poolExit _ := Null |}.
#[export] Instance toy_indexer : Indexer := {|
  mainnet := false;
  ammFetchLauncherPubkeyForAsset _ := NoGate;
  verifyXCurve _ _ _ := true; bpRangeVerify _ _ := true;
  keccak_256 := toy_sha256;
  hash160 m := be 20 (unbe m) |}.

Definition sign (secret : Z) (msg : bytes) : bytes := ok_or [] (signSchnorr (zeros 32) msg (bigintToBytes32 secret)).

(** ** Pool creation *)
Definition toy_pid : bytes := Eval vm_compute in ok_or [] (ammDerivePoolId coinA coinB 30 0 (zeros 33) 0).
Definition toy_init : LpAdd.init := LpAdd.Init 30 [x01] [x01] 0 [] [] (zeros 33) 0 [] 0.
Definition init_with (sa sb : bytes) : LpAdd.t :=
  LpAdd.Mk coinA coinB 2000 2000 1000 (commitment_of 1000 9) (zeros 32) (zeros 169) sa sb (zeros 32) (Some toy_init) 0 (zeros 32) (zeros 32).
Definition init_sig (a : bytes) (o : outpoint) (secret : Z) : bytes :=
  sign secret (ok_or [] (ammLpAddKernelMsg (kernel_of 1 toy_pid a 2000 (init_with [] []) (Side [o] []) 0 (zeros 32) (zeros 32)))).
Definition toy_add : LpAdd.t := Eval vm_compute in init_with (init_sig coinA fundA 3) (init_sig coinB fundB 5).
Definition init_payload : bytes := Eval vm_compute in ok_or [] (LpAdd.encodeLpAdd toy_add).
Definition min_liq_out : bytes := Eval vm_compute in u8b 0x00 ++ u8b 0x14 ++ ok_or [] (ammDeriveMinLiqNumsP2wpkh toy_pid).
Definition init_tx : wtx := WTx (be 32 21) [funding; fundA; fundB] [[]; min_liq_out; []].

(** ** A swap of 100 *)
Definition swap_with (minOut expiry : Z) (ks sg : bytes) : SwapVar.t :=
  SwapVar.Mk toy_pid 0 2000 2000 100 100 100 94 minOut 0 0 expiry (commitment_of 0 4) (commitment_of 100 7) (zeros 33)
    (commitment_of 94 6) (bigintToBytes32 6) [x00] ks sg.
Definition swap_outs (payload refund : bytes) : list bytes :=
  [u8b 0x6a ++ u8b 0x20 ++ sha256 payload; [x51]; []; refund].
Definition swap_ksig : bytes := Eval vm_compute in sign (SECP_N - 7) (ok_or [] (computeKernelMsg coinA [tradeA] [zeros 33] 100)).
Definition swap_isig (minOut expiry : Z) : bytes :=
  let sv := swap_with minOut expiry [] [] in
  sign 4 (ok_or [] (ammSwapVarIntentMsg
    (SwapIntent toy_pid 0 100 100 100 minOut 0 0 expiry (SwapVar.traderPubkey sv) (outpoint_bytes tradeA) [x51]
       (SwapVar.rReceipt sv) (zeros 33) [] [x52]))).
Definition toy_swap (minOut expiry : Z) : SwapVar.t := swap_with minOut expiry swap_ksig (swap_isig minOut expiry).
Definition swap_tx (payload refund : bytes) : wtx := WTx (be 32 22) [funding; tradeA] (swap_outs payload refund).
(** a swap that asks for 80 at least before height 200, and one that expires at 110 *)
Definition swap_in_time : SwapVar.t := Eval vm_compute in toy_swap 80 200.
Definition swap_late : SwapVar.t := Eval vm_compute in toy_swap 80 110.
Definition toy_payload : bytes := Eval vm_compute in ok_or [] (SwapVar.encodeTSwapVarPayload swap_in_time).
Definition late_payload : bytes := Eval vm_compute in ok_or [] (SwapVar.encodeTSwapVarPayload swap_late).

(** ** The run *)
Definition scan_swap (payload refund : bytes) (s : store) : res store :=
  scan_tx 110 2 (swap_tx payload refund) T_SWAP_VAR payload s.
Definition init_store : res store := scan_tx 100 1 init_tx T_LP_ADD init_payload empty_store.
Definition reserves_in (r : res store) : option (Z * Z * Z) :=
  match r with Ok s => option_map (λ p, (reserve_a p, reserve_b p, lp_total_shares p)) (pools s !! toy_pid) | _ => None end.

(** the pool the creation leaves *)
Definition toy_pool : pool := Eval vm_compute in
  Pool coinA coinB (ok_or [] (ammDeriveLpAssetId toy_pid)) 2000 2000 2000 30 (zeros 33) 0 0 0 4000000 100 "xcurve-verified" [] 0.
Lemma init_creates : (match init_store with Ok s => pools s !! toy_pid | _ => None end) = Some toy_pool.
Proof. vm_compute. reflexivity. Qed.

Definition pool_store : store := ammPoolPut toy_pid toy_pool empty_store.
Example swap_fills : reserves_in (scan_swap toy_payload [x52] pool_store) = Some (2100, 1906, 2000).
Proof. vm_compute. reflexivity. Qed.
(** past its expiry the swap refunds, and the pool stays *)
Example swap_expired : reserves_in (scan_swap late_payload [x52] pool_store) = Some (2000, 2000, 2000).
Proof. vm_compute. reflexivity. Qed.
(** scanned twice it moves the pool twice *)
Example swap_twice : reserves_in (s ← scan_swap toy_payload [x52] pool_store; scan_swap toy_payload [x52] s) = Some (2200, 1820, 2000).
Proof. vm_compute. reflexivity. Qed.

(** *** What stops the scan *)
Definition bid_tx : wtx := WTx (be 32 23) [funding; bid_note; fundB] [].
Example bid_input_throws : scan_tx 100 1 bid_tx T_LP_ADD init_payload empty_store = Throw "hex string expected".
Proof. vm_compute. reflexivity. Qed.
Example empty_refund_throws : scan_swap toy_payload [] pool_store = Throw "swap-var intent: refund script required".
Proof. vm_compute. reflexivity. Qed.

(** *** The run as steps *)
Lemma is_Ok_Ok {A} (r : res A) : is_Ok r = true → ∃ a, r = Ok a.
Proof. destruct r as [a| | |]; try discriminate. intros _. by exists a. Qed.
Lemma run_both {A B} (r : res A) (f : A → res B) : is_Ok (r ≫= f) = true → ∃ a b, r = Ok a ∧ f a = Ok b.
Proof. destruct r as [a| | |]; cbn; try discriminate. intros [b Eb]%is_Ok_Ok. exists a, b. split; [reflexivity|exact Eb]. Qed.
Lemma swap_run : ∃ s s', init_store = Ok s ∧ scan_swap toy_payload [x52] s = Ok s'.
Proof. apply run_both. vm_compute. reflexivity. Qed.
Lemma init_pool s : init_store = Ok s → pools s !! toy_pid = Some toy_pool.
Proof. intros E. pose proof init_creates as Ep. by rewrite E in Ep. Qed.
Lemma init_reachable s : init_store = Ok s → reachable s.
Proof.
  unfold init_store. intros E. apply rtc_once. exists 100, 1, init_tx, T_LP_ADD, init_payload. exact E.
Qed.
Lemma swap_step payload r s s' : scan_swap payload r s = Ok s' → step s s'.
Proof. unfold scan_swap. intros E. do 5 eexists. exact E. Qed.

#[export] Instance no_records_len : RecordsLen.
Proof. by split. Qed.

(** *** The swap handler by itself *)
Abbreviation toy_swap_handler := (swap_var_handler 110 2 (swap_tx toy_payload [x52]) toy_payload swap_in_time).
Lemma toy_swap_decodes : SwapVar.decodeTSwapVarPayloadWorker toy_payload = Ok swap_in_time.
Proof. vm_compute. reflexivity. Qed.
Lemma handler_run : ∃ s s', init_store = Ok s ∧ toy_swap_handler s = Ok s'.
Proof. apply (run_both init_store toy_swap_handler). vm_compute. reflexivity. Qed.
