(* ===== verification/AmmBatchFacts.v ===== *)
(** * What an accepted batch amounts to

    The intents the handler went through one by one, as facts about each of them; and the
    aggregate Pedersen identity of each asset as a balance of amounts. *)
From Stdlib Require Import Sorted.
From S2P Require Import Prelude Bytes Crypto CodecTransfer CodecPool CodecSlots CodecAmm CodecBatch.
From S2P Require Import Messages AmmMath Curve Kernel Notes WorkerNotes AmmPool AmmBatch AmmScan AmmPoolFacts AmmScanFacts.

Section facts.
Context `{Hash} {SE : Secp} {SL : SecpLaws} {CH : Chain} {RC : Records} {IX : Indexer}.

(** ** Intents *)
(** The intent a trader signed, for the input it is settled against and the outputs its
    receipt and its refund go to. *)
Definition signed_intent (pid : bytes) (it : SwapBatch.intent) (inp : outpoint) (receive refund : bytes) : batch_intent :=
  BatchIntent pid (SwapBatch.direction it) [inp] (SwapBatch.cInSecp it) (SwapBatch.cInBjj it)
    (SwapBatch.inXcurveSigma it) receive (SwapBatch.minOut it) (SwapBatch.tipAmount it) (SwapBatch.direction it)
    (SwapBatch.expiryHeight it) (SwapBatch.traderPubkey it) refund.

(** What holds of intent [it], settled at output [1 + i] of [n] against input [inp], whose
    note commits to [C]; its id is [iid]. *)
Definition intent_settled (h : Z) (pid : bytes) (tx : wtx) (n i : nat) (it : SwapBatch.intent) (inp : outpoint)
    (C : point) (iid : bytes) : Prop :=
  ∃ receive refund,
    wvout tx !! (1 + i)%nat = Some receive ∧ wvout tx !! (n + 1 + i)%nat = Some refund ∧
    ammBuildIntentMsg (signed_intent pid it inp receive refund) = Ok iid ∧
    verifySchnorrWorker (SwapBatch.intentSig it) iid (drop 1 (SwapBatch.traderPubkey it)) = Ok true ∧
    verifyXCurve (SwapBatch.inXcurveSigma it) (SwapBatch.cInSecp it) (SwapBatch.cInBjj it) = true ∧
    bytesToPoint (SwapBatch.cInSecp it) = Ok C ∧ h <= SwapBatch.expiryHeight it.

Definition id_lt (a b : bytes) : Prop := lex_lt a b = Some true.

Lemma batch_intents_Ok h pid tx n i prev its ins cs ids :
  batch_intents h pid tx n i prev its ins cs = Ok ids →
  (∀ j it inp C, its !! j = Some it → ins !! j = Some inp → cs !! j = Some C →
     ∃ iid, ids !! j = Some iid ∧ intent_settled h pid tx n (i + j) it inp C iid) ∧
  Sorted id_lt ids ∧ (∀ p, prev = Some p → HdRel id_lt p ids).
Proof.
  revert i prev ins cs ids. induction its as [|it its IH]; intros i prev [|inp ins] [|c cs] ids E; cbn [batch_intents] in E;
    try (injection E as <-; split; [intros [] *; done|split; constructor]).
  hinv E. subst ids.
  match goal with E1 : batch_intents _ _ _ _ _ _ _ _ _ = Ok _ |- _ => apply IH in E1 as (Hall & Hs & Hh) end. split; [|split].
  - intros [|j] it' inp' C' Hit Hinp HC; cbn in Hit, Hinp, HC.
    + injection Hit as <-. injection Hinp as <-. injection HC as <-. eexists. split; [reflexivity|].
      rewrite Nat.add_0_r. unfold equals in *. rewrite add_zero in *. bool_to_prop. subst.
      do 2 eexists. split_and!; try eassumption.
    + destruct (Hall j _ _ _ Hit Hinp HC) as (iid & ? & Hi). exists iid. by rewrite Nat.add_succ_r in *.
  - constructor; [done|by apply Hh].
  - intros p ->. constructor. unfold id_lt. by bool_to_prop.
Qed.

Lemma id_lt_trans : Relations_1.Transitive id_lt.
Proof.
  unfold id_lt. intros a. induction a as [|x a IH]; intros [|y b] [|z c]; cbn; try done. rewrite !Z.gtb_ltb.
  destruct (Z.ltb_spec (byteZ x) (byteZ y)), (Z.ltb_spec (byteZ y) (byteZ x)), (Z.ltb_spec (byteZ y) (byteZ z)),
    (Z.ltb_spec (byteZ z) (byteZ y)), (Z.ltb_spec (byteZ x) (byteZ z)), (Z.ltb_spec (byteZ z) (byteZ x)); try done; try lia.
  apply IH.
Qed.
Lemma ids_distinct ids : Sorted id_lt ids → NoDup ids.
Proof.
  intros Hs%Sorted_StronglySorted; [|exact id_lt_trans]. induction Hs as [|a ids _ IH Ha]; constructor; [|done].
  intros Hin. rewrite Forall_forall in Ha. specialize (Ha _ Hin). unfold id_lt in Ha. clear -Ha.
  induction a as [|x a IH]; [done|]. cbn in Ha. rewrite Z.gtb_ltb, Z.ltb_irrefl in Ha. auto.
Qed.

Lemma batch_inputs_Ok ins cs :
  batch_inputs ins = Ok cs →
  Forall2 (λ inp C, ∃ n, commitmentForUtxo inp = Ok n ∧ bytesToPoint (declared_bytes (pn_commitment n)) = Ok C) ins cs.
Proof.
  revert cs. induction ins as [|i ins IH]; intros cs E; cbn [batch_inputs] in E; [injection E as <-; constructor|].
  hinv E. subst cs. constructor; [eauto|auto].
Qed.

(** ** Acceptance *)
(** What [batch_settled] lists is all the handler asks. *)
Lemma swap_batch_complete h i tx payload s pid p env cs ids ra rb :
  batch_settled h tx payload s pid p env cs ids ra rb →
  swap_batch_handler h i tx payload s = Ok (ammPoolPut pid (with_reserves p ra rb) (recordAmmOp pid h i (wtxid tx) s)).
Proof.
  intros [Hp (fee & a & b & Hpr & Hc) Ht Hd (o & Ho & Hh) Hf Hs Har Hn Hi Hits Hq Hr HtA HtB HsA HsB Hres].
  assert (Hsize : negb (negb (Z.land (capability_flags p) POOL_CAP_SOLO_INTENT_ALLOWED =? 0)) &&
    (SwapBatch.nIntents env <? AMM_MIN_BATCH_SIZE) = false).
  { destruct (Z.eqb_spec (Z.land (capability_flags p) POOL_CAP_SOLO_INTENT_ALLOWED) 0) as [E|]; [|done].
    cbn [negb andb]. apply Z.ltb_ge. auto. }
  unfold swap_batch_handler. rewrite Hpr. cbn [mbind res_bind mret res_ret]. rewrite Hc. cbn [mbind res_bind mret res_ret].
  rewrite Ht. cbn [negb null_when mbind res_bind]. cbv zeta. rewrite Hd. cbn [mbind res_bind]. rewrite Ho.
  cbn [mbind res_bind mret res_ret]. rewrite Hh, bool_decide_eq_true_2, Hf, Z.eqb_refl by done. cbn [negb null_when mbind res_bind].
  rewrite Hsize. cbn [null_when mbind res_bind]. rewrite Har. cbn [mbind res_bind]. rewrite Hn, Z.eqb_refl.
  cbn [negb null_when mbind res_bind]. rewrite Hi. cbn [mbind res_bind]. rewrite Hits. cbn [mbind res_bind].
  assert (Eq : (match SwapBatch.arbiterBlock env with
    | Some ar => qset ← tryc (ammComputeQualifyingSetHash pid (SwapBatch.expectedHeight ar) ids);
                 null_when (negb (bool_decide (take 32 qset = take 32 (SwapBatch.qualifyingSetHash ar))))
    | None => mret tt end) = Ok tt).
  { destruct (SwapBatch.arbiterBlock env) as [ar|] eqn:Ea; [|done]. destruct (Hq ar eq_refl) as (q & -> & Eq).
    cbn [tryc mbind res_bind]. by rewrite Eq, bool_decide_eq_true_2. }
  rewrite Eq. cbn [mbind res_bind]. rewrite Hr. cbn [negb null_when mbind res_bind].
  rewrite HtA, HtB. cbn [negb null_when mbind res_bind]. rewrite HsA, HsB. cbn [negb null_when mbind res_bind].
  by rewrite Hres.
Qed.

(** The envelope with its assets in the other order. *)
Definition assets_swapped (x : SwapBatch.t) : SwapBatch.t :=
  SwapBatch.Mk (SwapBatch.assetB x) (SwapBatch.assetA x) (SwapBatch.deltaANetSigned x) (SwapBatch.deltaBNetSigned x)
    (SwapBatch.rNetA x) (SwapBatch.rNetB x) (SwapBatch.feeBpsAtSettle x) (SwapBatch.tipAAmount x) (SwapBatch.tipBAmount x)
    (SwapBatch.tipACSecp x) (SwapBatch.tipBCSecp x) (SwapBatch.rTipA x) (SwapBatch.rTipB x) (SwapBatch.arbiterBlock x)
    (SwapBatch.intents x) (SwapBatch.receipts x) (SwapBatch.proof x) (SwapBatch.settlerMetaUri x).

Lemma canonical_sym a b : a ≠ b → blen a = 32 → blen b = 32 → ammCanonicalAssetPair a b = ammCanonicalAssetPair b a.
Proof.
  intros Hne Ha Hb. unfold ammCanonicalAssetPair. rewrite Ha, Hb. cbn [negb orb Z.eqb].
  rewrite (lex_lt_swap b a). destruct (lex_lt b a) as [[]|]; done.
Qed.

(** the transaction with output 0 committing to [payload] instead *)
Definition recommitted (tx : wtx) (payload : bytes) : wtx :=
  WTx (wtxid tx) (wvin tx) ((u8b 0x6a ++ u8b 0x20 ++ sha256 payload) :: drop 1 (wvout tx)).

Lemma recommitted_hash `{!HashLen} tx payload : op_return_hash (recommitted tx payload) = Some (sha256 payload).
Proof.
  unfold op_return_hash, recommitted. cbn [wvout lookup list_lookup mbind option_bind].
  assert (E : blen (u8b 0x6a ++ u8b 0x20 ++ sha256 payload) = 34).
  { rewrite !blen_app. change (blen (u8b 0x6a)) with 1. change (blen (u8b 0x20)) with 1. by rewrite (sha256_len payload). }
  rewrite E. cbn [negb orb Z.eqb Pos.eqb]. change (take 2 (u8b 0x6a ++ u8b 0x20 ++ sha256 payload)) with (u8b 0x6a ++ u8b 0x20).
  by rewrite bool_decide_eq_true_2.
Qed.
Lemma recommitted_out tx payload j : wvout (recommitted tx payload) !! S j = wvout tx !! S j.
Proof. unfold recommitted. cbn [wvout lookup list_lookup]. apply lookup_drop. Qed.

Lemma res_bind_cong {A B} (r : res A) (k k' : A → res B) : (∀ a, k a = k' a) → r ≫= k = r ≫= k'.
Proof. intros E. destruct r; cbn; auto. Qed.
Lemma batch_intents_outs h pid tx tx' n i prev its ins cs :
  (∀ j, wvout tx' !! S j = wvout tx !! S j) →
  batch_intents h pid tx' n i prev its ins cs = batch_intents h pid tx n i prev its ins cs.
Proof.
  intros Ho. revert i prev ins cs. induction its as [|it its IH]; intros i prev [|inp ins] [|c cs]; cbn [batch_intents]; try done.
  replace (n + 1 + i)%nat with (S (n + i)) by lia. cbn [Nat.add]. rewrite !Ho.
  repeat (apply res_bind_cong; intros ?). by rewrite IH.
Qed.

Lemma canonical_sides x y a b : ammCanonicalAssetPair x y = Ok (a, b) → x ≠ y ∧ blen x = 32 ∧ blen y = 32.
Proof.
  intros E. pose proof (canonical_pair _ _ _ _ E) as (Hc & _ & Hne). unfold ammCanonicalAssetPair in E. enc_inv E. bool_to_prop.
  split; [|lia]. intros ->. by destruct Hc as [[-> ->]|[-> ->]].
Qed.

(** A batch whose payload names the pool's assets in the other order is accepted all the
    same, with the same effect: the amounts keep the sides they had. *)
Lemma swap_batch_swapped `{!HashLen} h tx payload s pid p env cs ids ra rb :
  store_ok s → batch_settled h tx payload s pid p env cs ids ra rb →
  ∃ payload', SwapBatch.decodeTSwapBatchPayload payload false = Ok env ∧
    SwapBatch.decodeTSwapBatchPayload payload' false = Ok (assets_swapped env) ∧
    SwapBatch.assetA env ≠ SwapBatch.assetB env ∧
    batch_settled h (recommitted tx payload') payload' s pid p (assets_swapped env) cs ids ra rb.
Proof.
  intros Hs [Hp (fee & a & b & Hpr & Hc) Ht Hd (o & Ho & Hh) Hf Hsz Har Hn Hi Hits Hq Hr HtA HtB HsA HsB Hres].
  destruct (po_plain _ _ (so_pools _ Hs _ _ Hp)) as (_ & Epk & _). rewrite Epk in *. cbn [length Nat.eqb negb] in *.
  pose proof (proj1 (SwapBatch.swapBatch_decode_Ok _ _ _) Hd) as (sa & sb & _ & Hwf).
  exists (SwapBatch.layout sa sb (assets_swapped env)).
  assert (Hd' : SwapBatch.decodeTSwapBatchPayload (SwapBatch.layout sa sb (assets_swapped env)) false = Ok (assets_swapped env)).
  { apply SwapBatch.swapBatch_decode_Ok. exists sa, sb. split; [done|]. unfold SwapBatch.decodable in *. cbn. tauto. }
  unfold probe in Hpr. rewrite Hd in Hpr.
  destruct (ammCanonicalAssetPair (SwapBatch.assetA env) (SwapBatch.assetB env)) as [ab| | |] eqn:Ec; try done.
  injection Hpr as <- ->. destruct (canonical_sides _ _ _ _ Ec) as (Hne & HlA & HlB).
  split; [done|]. split; [done|]. split; [done|]. split; try done.
  - do 3 eexists. split; [|exact Hc]. unfold probe. rewrite Hd'. cbn. by rewrite canonical_sym, Ec by done.
  - rewrite Epk. exact Hd'.
  - eexists. split; [apply recommitted_hash|]. rewrite take_ge; [done|]. pose proof (sha256_len (SwapBatch.layout sa sb (assets_swapped env))).
    unfold blen in *. lia.
  - by rewrite Epk.
  - cbn. rewrite (batch_intents_outs _ _ tx); [exact Hits|]. intros j. apply recommitted_out.
Qed.

(** ** Balances *)
(** The amounts of the intents that pay in A ([payA]), or in B. *)
Fixpoint side (payA : bool) (its : list SwapBatch.intent) (os : list (Z * Z)) : list (Z * Z) :=
  match its, os with
  | it :: its, o :: os => if eqb payA (SwapBatch.direction it =? 0) then o :: side payA its os else side payA its os
  | _, _ => []
  end.

Lemma side_sum_opens isA its ins rcs vis vos v r :
  length its = length ins → length its = length rcs →
  Forall2 (λ C o, C = commit o.1 o.2) ins vis → Forall2 (λ rc o, opens (SwapBatch.cOutSecp rc) o) rcs vos →
  side_sum isA its ins rcs (commit v r) =
    Ok (commit (v + total_v (side isA its vis) - total_v (side (negb isA) its vos))
               (r + total_r (side isA its vis) - total_r (side (negb isA) its vos))).
Proof.
  intros Hi Hr Hf. revert its rcs vos v r Hi Hr. induction Hf as [|C o ins vis -> _ IH]; intros [|it its] rcs vos v r Hi Hr Hg; try done.
  - cbn. rewrite !Z.add_0_r, !Z.sub_0_r. done.
  - destruct Hg as [|rc o' rcs vos Ho Hg]; [done|]. cbn [length] in *. cbn [side_sum side].
    assert (Ex : eqb (negb isA) (SwapBatch.direction it =? 0) = negb (eqb isA (SwapBatch.direction it =? 0)))
      by (by destruct isA, (SwapBatch.direction it =? 0)).
    rewrite Ex. unfold opens in Ho. destruct (eqb isA (SwapBatch.direction it =? 0)); cbn [negb mbind res_bind mret res_ret].
    + rewrite commit_add, (IH its rcs vos) by (done || lia). rewrite total_v_cons, total_r_cons. do 2 f_equal; lia.
    + rewrite Ho. cbn [mbind res_bind mret res_ret]. rewrite commit_negate, commit_add, (IH its rcs vos) by (done || lia).
      rewrite total_v_cons, total_r_cons. do 2 f_equal; lia.
Qed.

Lemma side_amounts isA its os : amounts_u64 os → amounts_u64 (side isA its os).
Proof.
  intros [Hf Hl]. assert (Hsub : Forall (λ o : Z * Z, 0 <= o.1 < 2 ^ 64) (side isA its os) ∧ (length (side isA its os) <= length os)%nat); [|destruct Hsub; split; [done|lia]].
  clear Hl. revert its. induction Hf as [|o os Ho _ IH]; intros [|it its]; cbn [side]; try (split; [constructor|cbn; lia]).
  destruct (IH its). destruct (eqb _ _); cbn [length]; (split; [by try constructor|lia]).
Qed.

(** The declared tip opens the tip note. *)
Lemma tip_opens v r C : ammVerifyTipOpening v r C = Ok true → bytesToPoint C = Ok (commit v (unbe r)).
Proof.
  unfold ammVerifyTipOpening. cbv zeta. destruct (_ >=? _); [done|]. destruct (bytesToPoint C) as [P| | |]; try done.
  rewrite pedersenCommit_Ok. cbn. unfold equals. intros [= E]. bool_to_prop. subst P.
  f_equal. rewrite modN_mod. unfold commit. by rewrite smul_mod.
Qed.

Lemma aggregate_conserves env cs isA d tip tipV rTip rNet vis vos :
  ammCheckAggregatePedersen env cs isA d tip rNet = Ok true →
  bytesToPoint tip = Ok (commit tipV rTip) → 0 <= tipV < 2 ^ 64 → Z.abs d < 2 ^ 64 →
  length (SwapBatch.intents env) = length cs → length (SwapBatch.receipts env) = length (SwapBatch.intents env) →
  Forall2 (λ C o, C = commit o.1 o.2) cs vis → Forall2 (λ rc o, opens (SwapBatch.cOutSecp rc) o) (SwapBatch.receipts env) vos →
  amounts_u64 vis → amounts_u64 vos →
  total_v (side isA (SwapBatch.intents env) vis) = total_v (side (negb isA) (SwapBatch.intents env) vos) + tipV + d ∨
  ∃ x y, relation x y.
Proof.
  intros E Ht HtV Hd Hi Hr Hvi Hvo Hai Hao. unfold ammCheckAggregatePedersen in E.
  rewrite commit_ZERO, (side_sum_opens _ _ _ _ vis vos) in E by (done || lia). cbn [mbind res_bind] in E. rewrite Ht in E.
  rewrite commit_negate, commit_add in E. cbv zeta in E.
  set (V := 0 + _ - _) in E. set (R := 0 + _ - _) in E.
  assert (HN : 1000 * 2 ^ 64 < SECP_N) by done.
  assert (Ed : (if d =? 0 then mret (commit (V + - tipV) (R + - rTip))
    else dH ← multiply H (Z.abs d); mret (if d >? 0 then add (commit (V + - tipV) (R + - rTip)) (negate dH) else add (commit (V + - tipV) (R + - rTip)) dH))
    = (Ok (commit (V - tipV - d) (R - rTip)) : res point)).
  { destruct (Z.eqb_spec d 0) as [->|Hd0]; [by rewrite Z.sub_0_r|].
    rewrite (proj2 (multiply_Ok H (Z.abs d) (smul (Z.abs d) H))) by (split; [lia|done]). cbn [mbind res_bind mret res_ret].
    destruct (Z.gtb_spec d 0); rewrite commit_H, ?commit_negate, commit_add; do 2 f_equal; lia. }
  rewrite Ed in E. cbn [mbind res_bind] in E. apply res_bind_Ok in E as (rG & EG & E).
  assert (rG = smul (modN (bytes32ToBigint rNet)) G) as ->.
  { revert EG. destruct (Z.eqb_spec (modN (bytes32ToBigint rNet)) 0) as [->|]; [intros [= <-]; by rewrite <- commit_ZERO, smul_0|].
    intros [_ ->]%multiply_Ok. done. }
  unfold equals in E. injection E as E. bool_to_prop.
  apply excess_conserves in E as [E|E]; [left; subst V; lia|right; eauto|].
  pose proof (total_v_bound _ (side_amounts isA (SwapBatch.intents env) _ Hai)).
  pose proof (total_v_bound _ (side_amounts (negb isA) (SwapBatch.intents env) _ Hao)). subst V. lia.
Qed.
(** ** The settled batch on a store the scan reaches *)
(** Its pool has no arbiters and no solo intents. *)
Lemma batch_plain h tx payload s pid p env cs ids ra rb :
  store_ok s → batch_settled h tx payload s pid p env cs ids ra rb →
  SwapBatch.decodeTSwapBatchPayload payload false = Ok env ∧
  ammCanonicalAssetPair (SwapBatch.assetA env) (SwapBatch.assetB env) = Ok (asset_a p, asset_b p) ∧
  (2 <= length (SwapBatch.intents env) <= 16)%nat.
Proof.
  intros Hs [Hp (fee & a & b & Hpr & Hc) Ht Hd _ _ Hsz _ _ _ _ _ _ _ _ _ _ _].
  destruct (po_plain _ _ (so_pools _ Hs _ _ Hp)) as (Ef & Epk & _). rewrite Epk in *. cbn [length Nat.eqb negb] in *.
  split; [done|]. split.
  - unfold probe in Hpr. rewrite Hd in Hpr. destruct (ammCanonicalAssetPair _ _) as [ab| | |]; try done. injection Hpr as <- ->.
    apply batch_candidate_Some in Hc as (Hin & _ & _). destruct (so_pairs _ Hs _ _ _ Hin) as (p' & Ep' & <- & <-). by simplify_eq.
  - apply SwapBatch.swapBatch_decode_Ok in Hd as (sa & sb & _ & Hwf). unfold SwapBatch.decodable in Hwf.
    rewrite Ef in Hsz. specialize (Hsz eq_refl).
    unfold SwapBatch.nIntents, AMM_MIN_BATCH_SIZE, SwapBatch.SWAP_BATCH_N_MAX in *. lia.
Qed.

Lemma batch_intents_settled h tx payload s pid p env cs ids ra rb :
  SwapBatch.decodeTSwapBatchPayload payload false = Ok env →
  batch_settled h tx payload s pid p env cs ids ra rb →
  length (wvin tx) = S (length (SwapBatch.intents env)) ∧
  (∀ j it, SwapBatch.intents env !! j = Some it →
     ∃ inp note C iid, wvin tx !! S j = Some inp ∧ commitmentForUtxo inp = Ok note ∧
       bytesToPoint (declared_bytes (pn_commitment note)) = Ok C ∧ ids !! j = Some iid ∧
       intent_settled h pid tx (length (SwapBatch.intents env)) j it inp C iid) ∧
  Sorted id_lt ids.
Proof.
  intros Hd Hb. pose proof (bs_inputs _ _ _ _ _ _ _ _ _ _ _ Hb) as Hn.
  pose proof (batch_inputs_Ok _ _ (bs_spends _ _ _ _ _ _ _ _ _ _ _ Hb)) as Hi.
  destruct (batch_intents_Ok _ _ _ _ _ _ _ _ _ _ (bs_intents _ _ _ _ _ _ _ _ _ _ _ Hb)) as (Hall & Hso & _).
  unfold SwapBatch.nIntents in Hn. split; [lia|]. split; [|exact Hso]. intros j it Hit.
  pose proof (lookup_lt_Some _ _ _ Hit) as Hj.
  destruct (lookup_lt_is_Some_2 (drop 1 (wvin tx)) j) as [inp Hinp]; [rewrite length_drop; lia|].
  destruct (Forall2_lookup_l _ _ _ _ _ Hi Hinp) as (C & HC & note & Hnote & HP).
  destruct (Hall _ _ _ _ Hit Hinp HC) as (iid & Hid & Hset). rewrite lookup_drop in Hinp.
  exists inp, note, C, iid. done.
Qed.

Lemma batch_balances h tx payload s pid p env cs ids ra rb vis vos :
  SwapBatch.decodeTSwapBatchPayload payload false = Ok env →
  batch_settled h tx payload s pid p env cs ids ra rb →
  Forall2 (λ inp o, ∃ n, commitmentForUtxo inp = Ok n ∧ opens (declared_bytes (pn_commitment n)) o) (drop 1 (wvin tx)) vis →
  Forall2 (λ rc o, opens (SwapBatch.cOutSecp rc) o) (SwapBatch.receipts env) vos →
  amounts_u64 vis → amounts_u64 vos →
  (total_v (side true (SwapBatch.intents env) vis)
     = total_v (side false (SwapBatch.intents env) vos) + SwapBatch.tipAAmount env + SwapBatch.deltaANetSigned env ∨
   ∃ x y, relation x y) ∧
  (total_v (side false (SwapBatch.intents env) vis)
     = total_v (side true (SwapBatch.intents env) vos) + SwapBatch.tipBAmount env + SwapBatch.deltaBNetSigned env ∨
   ∃ x y, relation x y).
Proof.
  intros Hd Hb Hvi Hvo Hai Hao.
  pose proof (batch_inputs_Ok _ _ (bs_spends _ _ _ _ _ _ _ _ _ _ _ Hb)) as Hi.
  assert (Hcs : Forall2 (λ C o, C = commit o.1 o.2) cs vis).
  { revert Hi Hvi. generalize (drop 1 (wvin tx)). clear. intros ins Hi. revert vis. induction Hi as [|inp C ins cs (n & En & EC) _ IH];
      intros vis Hvi; inversion_clear Hvi as [|? ? ? vis' (n' & En' & Ho) Hvi']; constructor; [|auto].
    rewrite En in En'. injection En' as <-. unfold opens in Ho. congruence. }
  pose proof (bs_inputs _ _ _ _ _ _ _ _ _ _ _ Hb) as Hn. unfold SwapBatch.nIntents in Hn.
  pose proof (Forall2_length _ _ _ Hi) as Hl. rewrite length_drop in Hl.
  apply SwapBatch.swapBatch_decode_Ok in Hd as (sa & sb & _ & Hwf). unfold SwapBatch.decodable, SwapBatch.sign_of in Hwf.
  split; (eapply aggregate_conserves; [apply Hb|apply tip_opens, Hb|lia..|exact Hcs|exact Hvo|done|done]).
Qed.
End facts.

(** ** Assets *)
(** The handler reads only the commitments of the notes a batch spends. *)
Definition same_commitments `{Hash} `{SE : Secp} (CH1 CH2 : Chain) (RC1 RC2 : Records) : Prop :=
  ∀ o c, (∃ a, @commitmentForUtxo _ _ CH1 RC1 o = Ok (ParentNote c a)) ↔
         (∃ a, @commitmentForUtxo _ _ CH2 RC2 o = Ok (ParentNote c a)).

Lemma batch_inputs_commitments `{Hash} `{SE : Secp} (CH1 CH2 : Chain) (RC1 RC2 : Records) ins :
  same_commitments CH1 CH2 RC1 RC2 →
  @batch_inputs _ _ CH1 RC1 ins = @batch_inputs _ _ CH2 RC2 ins.
Proof.
  intros Hc. induction ins as [|i ins IH]; [done|]. cbn [batch_inputs]. specialize (Hc i).
  destruct (@commitmentForUtxo _ _ CH1 RC1 i) as [[c a]| | |] eqn:E1.
  - destruct (proj1 (Hc c) ltac:(by eexists)) as [a' ->]. cbn [tryc mbind res_bind pn_commitment].
    apply res_bind_cong. intros C. by rewrite IH.
  - destruct (@commitmentForUtxo _ _ CH2 RC2 i) as [[c a]| | |] eqn:E2; [|done..]. by destruct (proj2 (Hc c) ltac:(by eexists)).
  - destruct (@commitmentForUtxo _ _ CH2 RC2 i) as [[c a]| | |] eqn:E2; [|done..]. by destruct (proj2 (Hc c) ltac:(by eexists)).
  - destruct (@commitmentForUtxo _ _ CH2 RC2 i) as [[c a]| | |] eqn:E2; [|done..]. by destruct (proj2 (Hc c) ltac:(by eexists)).
Qed.

Lemma receipts_ok_chain `{Hash} `{SE : Secp} `{IX : Indexer} (CH1 CH2 : Chain) rcs :
  (∀ cs pi, @bppRangeVerify _ CH1 cs pi = @bppRangeVerify _ CH2 cs pi) →
  @receipts_ok _ CH1 IX rcs = @receipts_ok _ CH2 IX rcs.
Proof.
  intros Hb. induction rcs as [|r rcs IH]; [done|]. cbn [receipts_ok]. rewrite IH.
  by destruct (bytesToPoint (SwapBatch.cOutSecp r)); rewrite ?Hb.
Qed.

Lemma swap_batch_commitments `{Hash} `{SE : Secp} `{IX : Indexer} (CH1 CH2 : Chain) (RC1 RC2 : Records) h i tx payload s :
  same_commitments CH1 CH2 RC1 RC2 → (∀ cs pi, @bppRangeVerify _ CH1 cs pi = @bppRangeVerify _ CH2 cs pi) →
  @swap_batch_handler _ _ CH1 RC1 IX h i tx payload s = @swap_batch_handler _ _ CH2 RC2 IX h i tx payload s.
Proof.
  intros Hc Hb. unfold swap_batch_handler.
  apply res_bind_cong. intros [fee [a b]]. apply res_bind_cong. intros [pid p]. cbv zeta.
  repeat (apply res_bind_cong; intros ?). rewrite (batch_inputs_commitments CH1 CH2 RC1 RC2) by done.
  repeat (apply res_bind_cong; intros ?). rewrite (receipts_ok_chain CH1 CH2) by done. done.
Qed.
