(* ===== verification/BatchModel.v ===== *)
(** * A concrete batch

    Two traders settle against the pool of [AmmModel]: one pays 100 of the first coin for
    90 of the second, one pays 40 of the second for 38 of the first.  The chain is a
    parameter of the asset of the first trader's note, so that the same batch can be run
    with a note of another coin. *)
From S2P Require Import Prelude Bytes Crypto EnvelopeScript CodecTransfer CodecPool CodecSlots CodecAmm CodecBatch.
From S2P Require Import Messages AmmMath Curve CurveModel Kernel Notes ChainModel WorkerNotes.
From S2P Require Import AmmPool AmmBatch AmmScan AmmPoolFacts AmmScanFacts AmmErrors AmmModel AmmBatchFacts.

Definition coinC : bytes := be 32 99.
Definition noteA : outpoint := Outpoint (be 32 14) 0.
Definition noteB : outpoint := Outpoint (be 32 15) 0.

Definition batch_chain (coin : bytes) : Chain := {|
  fetchTx id :=
    if bool_decide (id = be 32 14) then Some (funding_tx (funding_payload coin [commitment_of 100 7]))
    else if bool_decide (id = be 32 15) then Some (funding_tx (funding_payload coinB [commitment_of 40 8]))
    else @fetchTx _ amm_chain id;
  bppEnabled := true; bpRangeAggVerify _ _ := true; bppRangeVerify _ _ := true; trackedNotes _ := None;
  getAssetMeta _ := false; coordsHash _ := []; reflectedHeight := None; poolBinding := None;
  evmNullifierSpent _ := None; serviceParent _ _ := None; strictValidation := false |}.

(** ** The intents *)
Definition intent_with (dir key : Z) (C : bytes) (minOut : Z) (sg : bytes) : SwapBatch.intent :=
  SwapBatch.Intent dir (commitment_of 0 key) C (zeros 32) (zeros 169) minOut 0 200 sg.
Definition signed (dir key : Z) (C : bytes) (minOut : Z) (inp : outpoint) (receive refund : bytes) : SwapBatch.intent :=
  let it := intent_with dir key C minOut [] in
  intent_with dir key C minOut (sign key (ok_or [] (ammBuildIntentMsg (signed_intent toy_pid it inp receive refund)))).
Definition intent1 : SwapBatch.intent := Eval vm_compute in signed 0 4 (commitment_of 100 7) 80 noteA [x51] [x53].
Definition intent2 : SwapBatch.intent := Eval vm_compute in signed 1 5 (commitment_of 40 8) 30 noteB [x52] [x54].
Definition iid1 := Eval vm_compute in ammBuildIntentMsg (signed_intent toy_pid intent1 noteA [x51] [x53]).
Definition iid2 := Eval vm_compute in ammBuildIntentMsg (signed_intent toy_pid intent2 noteB [x52] [x54]).

Definition receipt_of (v r : Z) : SwapBatch.receipt := SwapBatch.Receipt (commitment_of v r) (zeros 32) (zeros 169) [].
Definition toy_batch : SwapBatch.t := Eval vm_compute in
  SwapBatch.Mk coinA coinB 62 (-50) (bigintToBytes32 4) (bigintToBytes32 4) 30 0 0 (commitment_of 0 1) (commitment_of 0 1)
    (bigintToBytes32 1) (bigintToBytes32 1) None [intent1; intent2] [receipt_of 90 3; receipt_of 38 2] [] [].
Definition batch_payload : bytes := Eval vm_compute in SwapBatch.layout 0 1 toy_batch.
Definition batch_tx (payload : bytes) : wtx :=
  WTx (be 32 24) [funding; noteA; noteB] [u8b 0x6a ++ u8b 0x20 ++ sha256 payload; [x51]; [x52]; [x53]; [x54]].

Definition pair_store : store := ammPairAppend coinA coinB toy_pid pool_store.
Definition run_batch (coin payload : bytes) (s : store) : res store :=
  @swap_batch_handler _ _ (batch_chain coin) _ _ 110 3 (batch_tx payload) payload s.

Example batch_settles_run : reserves_in (run_batch coinA batch_payload pair_store) = Some (2062, 1950, 2000).
Proof. vm_compute. reflexivity. Qed.
(** paid with a note of another coin, it settles all the same *)
Example batch_other_coin : reserves_in (run_batch coinC batch_payload pair_store) = Some (2062, 1950, 2000).
Proof. vm_compute. reflexivity. Qed.
(** scanned twice it moves the pool twice *)
Example batch_twice :
  reserves_in (s ← run_batch coinA batch_payload pair_store; run_batch coinA batch_payload s) = Some (2124, 1900, 2000).
Proof. vm_compute. reflexivity. Qed.

(** ** The run on a reachable store *)
Abbreviation batch_handler coin := (@swap_batch_handler _ _ (batch_chain coin) no_records toy_indexer 110 3 (batch_tx batch_payload) batch_payload).
Abbreviation batch_init := (@scan_tx _ _ (batch_chain coinA) no_records toy_indexer 100 1 init_tx T_LP_ADD init_payload empty_store).
Lemma batch_run :
  ∃ s s', @reachable _ _ (batch_chain coinA) no_records toy_indexer s ∧ batch_handler coinA s = Ok s'.
Proof.
  destruct (run_both batch_init (batch_handler coinA)) as (s & s' & E & Es); [vm_compute; reflexivity|].
  exists s, s'. split; [|exact Es]. apply rtc_once. exists 100, 1, init_tx, T_LP_ADD, init_payload. exact E.
Qed.
Lemma batch_decodes : SwapBatch.decodeTSwapBatchPayload batch_payload false = Ok toy_batch.
Proof. vm_compute. reflexivity. Qed.

(** *** The same commitments, another coin *)
Lemma coinA_note v : @commitmentForUtxo _ _ (batch_chain coinA) no_records (Outpoint (be 32 14) v) =
  output_commitment (View coinA [commitment_of 100 7]) v.
Proof. vm_compute. reflexivity. Qed.
Lemma coinC_note v : @commitmentForUtxo _ _ (batch_chain coinC) no_records (Outpoint (be 32 14) v) =
  output_commitment (View coinC [commitment_of 100 7]) v.
Proof. vm_compute. reflexivity. Qed.
Lemma other_note coin o : txid o ≠ be 32 14 →
  @commitmentForUtxo _ _ (batch_chain coin) no_records o = @commitmentForUtxo _ _ (batch_chain coinB) no_records o.
Proof. intros Hne. unfold commitmentForUtxo. cbn [fetchTx batch_chain]. by rewrite (bool_decide_eq_false_2 _ Hne). Qed.

Lemma coin_unseen : same_commitments (batch_chain coinA) (batch_chain coinC) no_records no_records.
Proof.
  intros [t v] c. destruct (decide (t = be 32 14)) as [->|Hne]; [|by rewrite (other_note coinA (Outpoint t v) Hne), (other_note coinC (Outpoint t v) Hne)].
  rewrite coinA_note, coinC_note. unfold output_commitment. cbn [v_commitments v_assetId].
  destruct (if v <? 0 then None else _); split; intros [a Ha]; try discriminate; injection Ha as <- <-; by eexists.
Qed.

(** *** Openings *)
Lemma batch_inputs_open :
  Forall2 (λ inp o, ∃ n, @commitmentForUtxo _ _ (batch_chain coinA) no_records inp = Ok n ∧ opens (declared_bytes (pn_commitment n)) o)
    (drop 1 (wvin (batch_tx batch_payload))) [(100, 7); (40, 8)].
Proof.
  constructor; [|constructor; [|constructor]].
  - exists (ParentNote (Hex (commitment_of 100 7)) coinA). split; [vm_compute; reflexivity|].
    unfold opens. apply bytesToPoint_raw. vm_compute. intros [=].
  - exists (ParentNote (Hex (commitment_of 40 8)) coinB). split; [vm_compute; reflexivity|].
    unfold opens. apply bytesToPoint_raw. vm_compute. intros [=].
Qed.
Lemma batch_receipts_open :
  Forall2 (λ rc o, opens (SwapBatch.cOutSecp rc) o) (SwapBatch.receipts toy_batch) [(90, 3); (38, 2)].
Proof.
  change (SwapBatch.receipts toy_batch) with [receipt_of 90 3; receipt_of 38 2].
  repeat constructor; unfold opens, receipt_of, commitment_of; cbn [SwapBatch.cOutSecp fst snd];
    apply bytesToPoint_raw; vm_compute; intros [=].
Qed.
