(* ===== verification/PoolProps.v ===== *)
(** * What the indexer's pools guarantee

    The properties of the pool handlers and of the notes they read, each from the lemmas
    of its component; witnesses on the run of [AmmModel]. *)
From S2P Require Import Prelude Bytes Crypto EnvelopeScript CodecTransfer CodecPool CodecSlots CodecAmm CodecBatch.
From S2P Require Import Messages AmmMath Curve CurveModel Kernel Notes ChainModel WorkerNotes.
From S2P Require Import AmmPool AmmBatch AmmScan AmmPoolFacts AmmScanFacts AmmErrors AmmModel.

(** ** Scanning again *)
(** [r ;; k] is a skip when [r] answers or skips and [k] skips. *)
Lemma null_bind {A B} (r : res A) (k : A → res B) :
  quiet False r → (∀ a, r = Ok a → k a = Null) → r ≫= k = Null.
Proof. destruct r; cbn; auto; contradiction. Qed.

Section pools.
Context `{Hash} {SE : Secp} {CH : Chain} {RC : Records} {IX : Indexer}.

Lemma init_again h i h' i' tx lp ini s s1 s2 :
  lp_init_handler h i tx lp ini s = Ok s1 → evolves s1 s2 → lp_init_handler h' i' tx lp ini s2 = Null.
Proof.
  intros (a & b & sw & pid & lpid & init & E)%lp_init_effect He. cbv zeta in E.
  destruct E as (Ec & _ & Ei & _ & _ & _ & _ & _ & _ & ->). unfold lp_init_handler.
  apply null_bind; [by eauto with quiet|intros _ _].
  apply null_bind; [by eauto with quiet|]. intros [a' b'] Ec'%tryc_Ok. rewrite Ec in Ec'. injection Ec' as <- <-.
  do 3 (apply null_bind; [by eauto with quiet|intros _ _]).
  apply null_bind; [by eauto with quiet|]. intros pid' Ei'%tryc_Ok. rewrite Ei in Ei'. injection Ei' as <-.
  rewrite (bool_decide_eq_true_2 (is_Some _)); [reflexivity|].
  unfold evolves in He. edestruct He as (q & Eq & _); [|by exists q; exact Eq]. autorewrite with amm. apply lookup_insert_eq.
Qed.

(** Once collected, nothing is left to collect. *)
Lemma crystallize_again p x :
  ammCrystallizeProtocolFee p = Ok x →
  ∃ y, ammCrystallizeProtocolFee (with_accrued x 0) = Ok y ∧ protocol_fee_accrued y = 0.
Proof.
  intros Ex.
  assert (Hx : protocol_fee_address x = protocol_fee_address p ∧ protocol_fee_bps x = protocol_fee_bps p ∧
    (_ammIsZeroAddressHex (protocol_fee_address p) = false → protocol_fee_bps p ≠ 0 → k_last x = reserve_a x * reserve_b x)).
  { revert Ex. unfold ammCrystallizeProtocolFee. destruct (_ammIsZeroAddressHex _); [by intros [= <-]|].
    destruct (Z.eqb_spec (protocol_fee_bps p) 0); [by intros [= <-]|]. destruct (_ <=? _); [by intros [= <-]|].
    intros E. apply res_bind_Ok in E as (n' & _ & [= <-]). done. }
  destruct Hx as (Ea & Eb & Hk). unfold ammCrystallizeProtocolFee. cbn. rewrite Ea, Eb.
  destruct (_ammIsZeroAddressHex _); [eexists; split; reflexivity|].
  destruct (Z.eqb_spec (protocol_fee_bps p) 0); [eexists; split; reflexivity|].
  rewrite Hk, Z.leb_refl by done. eexists; split; reflexivity.
Qed.

Lemma claim_again h i h' i' tx cl s s1 :
  fee_claim_handler h i tx cl s = Ok s1 → fee_claim_handler h' i' tx cl s1 = Null.
Proof.
  intros (p & x & e & Ep & _ & Hb & _ & Ex & _ & Hn & _ & _ & ->)%fee_claim_effect. unfold fee_claim_handler.
  autorewrite with amm. rewrite lookup_insert_eq.
  apply null_bind; [done|]. intros ? [= <-]. do 4 (apply null_bind; [by eauto with quiet|]; intros _ _).
  destruct (crystallize_again _ _ Ex) as (y & -> & Hy). cbn [mbind res_bind]. rewrite Hy.
  by rewrite (proj2 (Z.eqb_neq _ _) Hn).
Qed.

Lemma authenticate_total tx payload sv au :
  swap_authenticate tx payload sv = Ok au → au_total au = SwapVar.deltaIn sv + SwapVar.tipAmount sv.
Proof.
  unfold swap_authenticate. intros E.
  repeat first [apply res_bind_Ok in E as (? & _ & E)]. injection E as <-. done.
Qed.

(** A fill changes the pool it fills at. *)
Lemma fill_moves h o asset sv p c :
  swap_execute h o asset sv = inr (p, c) → verified (with_reserves p (raPost c) (rbPost c)) ≠ p.
Proof.
  intros Ex E. pose proof Ex as (_ & _ & Hd & _ & _ & _ & _ & Hc & _)%swap_execute_fill.
  apply swap_execute_sound in Ex as [(_ & _ & _ & _ & _ & Hin & _) _].
  apply curve_fill in Hc as (_ & _ & _ & _ & Hc).
  apply (f_equal reserve_a) in E as Ea. apply (f_equal reserve_b) in E as Eb. cbn in Ea, Eb. lia.
Qed.
End pools.

(** ** Pools *)
Section claims.
Context `{Hash} {SE : Secp} {SL : SecpLaws} {CH : Chain} {RC : Records} {IX : Indexer}.

(** C28: whatever transactions the indexer scans, in any order, every pool record has
    positive 64-bit reserves whose product covers the square of the shares, fees in
    range, and the id its own fields derive; the ids listed under a pair of assets are
    pools of that pair. *)
Theorem pools_invariant s :
  reachable s →
  store_ok s ∧ ∀ pid p, pools s !! pid = Some p → 0 < lp_total_shares p <= Z.sqrt (reserve_a p * reserve_b p).
Proof.
  intros Hr. destruct (steps_keep _ _ empty_store_ok Hr) as [Hs _]. split; [exact Hs|].
  intros pid p Ep. destruct (so_pools _ Hs _ _ Ep). split; [done|]. apply square_le_sqrt; lia.
Qed.

(** C29: a pool never disappears, and in a pool that collects no protocol fee no
    transaction of any kind lowers what a share is worth: the product of the reserves
    over the square of the shares does not fall, over any run of the scan. *)
Theorem share_worth_never_falls s s' pid p :
  reachable s → rtc step s s' → pools s !! pid = Some p →
  ∃ q, pools s' !! pid = Some q ∧ same_pool p q ∧
    (protocol_fee_bps p = 0 →
     reserve_a p * reserve_b p * (lp_total_shares q * lp_total_shares q)
       <= reserve_a q * reserve_b q * (lp_total_shares p * lp_total_shares p)).
Proof.
  intros Hr Hst Ep. destruct (steps_keep _ _ empty_store_ok Hr) as [Hs _].
  destruct (steps_keep _ _ Hs Hst) as [_ He]. exact (He _ _ Ep).
Qed.

(** C30: an accepted swap settles in one of two ways.  It fills, exactly when the pool
    trades and the trader's range, deadline and minimum hold at the current reserves:
    the pool takes the input and pays the floor of the constant-product formula, and the
    receipt is the indexer's own commitment to that output.  Otherwise no pool changes
    and the receipt commits to the whole input, tip included, in the input's asset. *)
Theorem swap_settles h i tx payload sv s s' :
  store_ok s → SwapVar.decodeTSwapVarPayloadWorker payload = Ok sv →
  swap_var_handler h i tx payload sv s = Ok s' →
  ∃ au, swap_authenticate tx payload sv = Ok au ∧
    ((∃ p d, fills h (pools s !! SwapVar.poolId sv) (au_asset au) sv p d ∧
        pools s' = <[SwapVar.poolId sv := filled p sv d]> (pools s) ∧
        swap_accepted s' !! wtxid tx = Some (SwapRecord h (Execute d (SwapVar.deltaOut sv))
          (Some (Credit (if SwapVar.direction sv =? 0 then asset_b p else asset_a p) (toRawBytes (commit d (au_rReceipt au)))))
          (change_record (au_asset au) sv))) ∨
     ((∀ p d, ¬ fills h (pools s !! SwapVar.poolId sv) (au_asset au) sv p d) ∧ pools s' = pools s ∧
      ∃ r, swap_accepted s' !! wtxid tx = Some (SwapRecord h (Passthrough r (SwapVar.deltaIn sv + SwapVar.tipAmount sv))
        (Some (Credit (au_asset au) (toRawBytes (commit (SwapVar.deltaIn sv + SwapVar.tipAmount sv) (au_rReceipt au)))))
        (change_record (au_asset au) sv)))).
Proof.
  intros Hs Hd (au & Ea & [(r & C & Ex & EC & ->)|(p & c & C & Ex & EC & ->)])%swap_var_effect; exists au; (split; [done|]);
    rewrite pedersenCommit_Ok in EC; injection EC as <-.
  - right. rewrite (authenticate_total _ _ _ _ Ea). split; [|split; [done|exists r; apply lookup_insert_eq]].
    intros p d Hf. apply SwapVar.swapVar_decode_Ok in Hd as (_ & _ & Ham & _). unfold SwapVar.amounts in Ham.
    pose proof Hf as (Ep & _). refine (swap_execute_complete _ _ _ _ _ _ _ _ (so_pools _ Hs _ _ Ep) _ Hf Ex). lia.
  - left. exists p, (deltaOut c). destruct (swap_execute_sound _ _ _ _ _ _ Ex) as [Hf <-].
    split; [done|]. split; [by autorewrite with amm|apply lookup_insert_eq].
Qed.

(** C33: the indexer and the client read the same note behind an outpoint, for every kind
    of envelope both read from the transaction itself; variable bids and batched
    atomic transfers, which the client reads, the indexer never resolves. *)
Theorem indexer_reads_client_notes e o a c :
  0 <= vout o →
  (env_opcode e ∈ resolved_opcodes →
   getParentEnvelopeData e o = Some (a, c) ↔ ∃ d, envelope_note e o = Ok (ParentNote d a) ∧ declared_bytes d = c) ∧
  (env_opcode e ∈ [T_AXFER_BPP; T_PREAUTH_BID_VAR] → envelope_note e o = Throw "unsupported envelope opcode").
Proof.
  intros Hv. split; [by apply envelope_note_client|]. unfold envelope_note. intros Ht.
  repeat (apply elem_of_cons in Ht as [->|Ht]; [reflexivity|]). by apply elem_of_nil in Ht.
Qed.

(** C34: what scanning the same transaction again does.  A pool creation and a fee claim
    are skipped the second time.  A swap is not: its checks never look at what was
    applied before, so it settles again against the reserves it finds, and moves them
    once more if it fills. *)
Theorem scanned_again h i tx h' i' :
  (∀ lp ini s s1 s2, lp_init_handler h i tx lp ini s = Ok s1 → evolves s1 s2 →
     lp_init_handler h' i' tx lp ini s2 = Null) ∧
  (∀ cl s s1, fee_claim_handler h i tx cl s = Ok s1 → fee_claim_handler h' i' tx cl s1 = Null) ∧
  (∀ payload sv s s1 s2, swap_var_handler h i tx payload sv s = Ok s1 →
     ∃ au s3, swap_authenticate tx payload sv = Ok au ∧ swap_var_handler h' i' tx payload sv s2 = Ok s3 ∧
       ∀ p c, swap_execute h' (pools s2 !! SwapVar.poolId sv) (au_asset au) sv = inr (p, c) →
         pools s3 !! SwapVar.poolId sv = Some (filled p sv (deltaOut c)) ∧ filled p sv (deltaOut c) ≠ p).
Proof.
  split; [intros; by eapply init_again|]. split; [intros; by eapply claim_again|].
  intros payload sv s s1 s2 (au & Ea & _)%swap_var_effect. exists au.
  unfold swap_var_handler. rewrite Ea. cbn [mbind res_bind]. cbv zeta.
  destruct (swap_execute h' (pools s2 !! SwapVar.poolId sv) (au_asset au) sv) as [r|[p c]] eqn:Ex;
    rewrite pedersenCommit_Ok; cbn [mbind res_bind]; eexists; (split; [done|]); (split; [reflexivity|]); [done|].
  intros ? ? [= <- <-]. destruct (swap_execute_sound _ _ _ _ _ _ Ex) as [Hf <-]. split; [autorewrite with amm; apply lookup_insert_eq|].
  by eapply fill_moves.
Qed.

(** C35: on every reachable store a transaction is scanned to the end, except for the
    causes listed in [stops]: a liquidity operation spending a note of a pre-authorised
    bid, a removal with more than 256 inputs, or a swap whose refund output has no script. *)
Theorem scan_progress `{!HashLen} `{!RecordsLen} s h i tx op payload :
  reachable s → ¬ stops op tx → ∃ s', scan_tx h i tx op payload s = Ok s'.
Proof.
  intros Hr Hn. destruct (steps_keep _ _ empty_store_ok Hr) as [Hs _].
  pose proof (scan_tx_quiet h i tx op payload s Hs) as Hq. unfold scan_tx in *.
  destruct (amm_handler _ _ _ _ _ _); cbn in Hq; [eauto|eauto|contradiction|contradiction].
Qed.
End claims.

(** ** Witnesses *)
Lemma pools_invariant_witness :
  ∃ s p, reachable s ∧ pools s !! toy_pid = Some p ∧ 0 < lp_total_shares p <= Z.sqrt (reserve_a p * reserve_b p).
Proof.
  destruct swap_run as (s & s' & E & _). pose proof (init_reachable s E) as Hr. pose proof (init_pool s E) as Ep.
  exists s, toy_pool. split; [exact Hr|]. split; [exact Ep|].
  exact (proj2 (pools_invariant s Hr) toy_pid toy_pool Ep).
Defined.

Lemma share_worth_never_falls_witness :
  ∃ s s' p q, rtc step s s' ∧ pools s !! toy_pid = Some p ∧ pools s' !! toy_pid = Some q ∧
    reserve_a p * reserve_b p * (lp_total_shares q * lp_total_shares q)
      <= reserve_a q * reserve_b q * (lp_total_shares p * lp_total_shares p).
Proof.
  destruct swap_run as (s & s' & E & Es). pose proof (init_pool s E) as Ep.
  pose proof (rtc_once _ _ (swap_step _ _ _ _ Es)) as Hst.
  destruct (share_worth_never_falls s s' toy_pid toy_pool (init_reachable s E) Hst Ep) as (q & Eq & _ & Hw).
  exists s, s', toy_pool, q. split; [exact Hst|]. split; [exact Ep|]. split; [exact Eq|].
  apply Hw. reflexivity.
Defined.

Lemma swap_settles_witness :
  ∃ s s', toy_swap_handler s = Ok s' ∧ is_Some (swap_accepted s' !! be 32 22).
Proof.
  destruct handler_run as (s & s' & E & Es). exists s, s'. split; [exact Es|].
  destruct (steps_keep _ _ empty_store_ok (init_reachable s E)) as [Hs _].
  destruct (swap_settles 110 2 (swap_tx toy_payload [x52]) toy_payload swap_in_time s s' Hs toy_swap_decodes Es)
    as (au & _ & [(p & d & _ & _ & Hr)|(_ & _ & r & Hr)]); (eexists; exact Hr).
Defined.

Lemma indexer_reads_client_notes_witness :
  ∃ d, envelope_note (Envelope (zeros 32) 0x23 (funding_payload coinA [commitment_of 2000 3; commitment_of 100 7])) fundA
         = Ok (ParentNote d coinA) ∧ declared_bytes d = commitment_of 2000 3.
Proof.
  apply (proj1 (indexer_reads_client_notes
    (Envelope (zeros 32) 0x23 (funding_payload coinA [commitment_of 2000 3; commitment_of 100 7])) fundA coinA
    (commitment_of 2000 3) ltac:(cbn; lia))).
  - cbn [env_opcode]. unfold resolved_opcodes. right. right. left.
  - vm_compute. reflexivity.
Defined.

(** the swap of [swap_twice], scanned twice *)
Lemma scanned_again_witness :
  ∃ s s1 s3, toy_swap_handler s = Ok s1 ∧ toy_swap_handler s1 = Ok s3.
Proof.
  destruct handler_run as (s & s1 & _ & Es). exists s, s1.
  destruct (scanned_again 110 2 (swap_tx toy_payload [x52]) 110 2) as (_ & _ & Ha).
  destruct (Ha toy_payload swap_in_time s s1 s1 Es) as (au & s3 & _ & E3 & _).
  exists s3. split; [exact Es|exact E3].
Defined.

Lemma toy_swap_goes_on : ¬ stops T_SWAP_VAR (swap_tx toy_payload [x52]).
Proof. intros [[E _]|[[E _]|[_ E]]]; discriminate. Qed.
Lemma scan_progress_witness : ∃ s', scan_tx 110 2 (swap_tx toy_payload [x52]) T_SWAP_VAR toy_payload empty_store = Ok s'.
Proof.
  exact (scan_progress empty_store 110 2 (swap_tx toy_payload [x52]) T_SWAP_VAR toy_payload (rtc_refl _ _) toy_swap_goes_on).
Defined.
