(* ===== verification/BatchProps.v ===== *)
(** * What a batched swap guarantees

    The properties of the batch handler, from the lemmas of [AmmBatchFacts]; witnesses on
    the batch of [BatchModel]. *)
From Stdlib Require Import Sorted.
From S2P Require Import Prelude Bytes Crypto EnvelopeScript CodecTransfer CodecPool CodecSlots CodecAmm CodecBatch.
From S2P Require Import Messages AmmMath Curve CurveModel Kernel Notes ChainModel WorkerNotes.
From S2P Require Import AmmPool AmmBatch AmmScan AmmPoolFacts AmmScanFacts AmmErrors AmmModel AmmBatchFacts BatchModel.

Section claims.
Context `{Hash} {SE : Secp} {SL : SecpLaws} {CH : Chain} {RC : Records} {IX : Indexer}.

(** C31: an accepted batch, on any reachable store.  It settles at least two intents, all
    distinct, against one pool of its pair; each intent was signed by its trader for the
    pool, the input it spends and the outputs its receipt and refund go to, has not
    expired, and commits to what its input's note commits to; the reserves move by the
    net amounts, stay positive 64-bit numbers, do not lose product, and give out at most
    what the curve gives for the net input less the fee.  And for each asset, what the
    traders paying it put in is what the traders paid in it receive, plus the tip, plus
    what the pool gains, whatever openings of the notes one knows; otherwise those openings
    give a relation between the generators. *)
Theorem batch_settles h i tx payload s s' :
  reachable s → swap_batch_handler h i tx payload s = Ok s' →
  ∃ pid p env ids,
    let dA := SwapBatch.deltaANetSigned env in
    let dB := SwapBatch.deltaBNetSigned env in
    let n := length (SwapBatch.intents env) in
    SwapBatch.decodeTSwapBatchPayload payload false = Ok env ∧
    (∃ o, op_return_hash tx = Some o ∧ take 32 o = sha256 payload) ∧
    pools s !! pid = Some p ∧ tradable p = true ∧ SwapBatch.feeBpsAtSettle env = fee_bps p ∧
    ammCanonicalAssetPair (SwapBatch.assetA env) (SwapBatch.assetB env) = Ok (asset_a p, asset_b p) ∧
    (2 <= n <= 16)%nat ∧ length (wvin tx) = S n ∧ NoDup ids ∧ Sorted id_lt ids ∧
    (∀ j it, SwapBatch.intents env !! j = Some it →
       ∃ inp note C iid, wvin tx !! S j = Some inp ∧ commitmentForUtxo inp = Ok note ∧
         bytesToPoint (declared_bytes (pn_commitment note)) = Ok C ∧ ids !! j = Some iid ∧
         intent_settled h pid tx n j it inp C iid) ∧
    pools s' = <[pid := with_reserves p (reserve_a p + dA) (reserve_b p + dB)]> (pools s) ∧
    u64_pos (reserve_a p + dA) ∧ u64_pos (reserve_b p + dB) ∧
    reserve_a p * reserve_b p <= (reserve_a p + dA) * (reserve_b p + dB) ∧
    (dA = 0 ∧ dB = 0 ∨
     0 < dA ∧ dB < 0 ∧ - dB * (reserve_a p * 10000 + (10000 - fee_bps p) * dA) <= reserve_b p * (10000 - fee_bps p) * dA ∨
     0 < dB ∧ dA < 0 ∧ - dA * (reserve_b p * 10000 + (10000 - fee_bps p) * dB) <= reserve_a p * (10000 - fee_bps p) * dB) ∧
    (∀ vis vos,
       Forall2 (λ inp o, ∃ n, commitmentForUtxo inp = Ok n ∧ opens (declared_bytes (pn_commitment n)) o) (drop 1 (wvin tx)) vis →
       Forall2 (λ rc o, opens (SwapBatch.cOutSecp rc) o) (SwapBatch.receipts env) vos →
       amounts_u64 vis → amounts_u64 vos →
       (total_v (side true (SwapBatch.intents env) vis)
          = total_v (side false (SwapBatch.intents env) vos) + SwapBatch.tipAAmount env + dA ∨ ∃ x y, relation x y) ∧
       (total_v (side false (SwapBatch.intents env) vis)
          = total_v (side true (SwapBatch.intents env) vos) + SwapBatch.tipBAmount env + dB ∨ ∃ x y, relation x y)).
Proof.
  intros Hr E. destruct (steps_keep _ _ empty_store_ok Hr) as [Hs _].
  apply swap_batch_effect in E as (pid & p & env & cs & ids & ra & rb & Hb & ->).
  exists pid, p, env, ids. cbv zeta. destruct (batch_plain _ _ _ _ _ _ _ _ _ _ _ Hs Hb) as (Hd & Hcan & Hn).
  destruct (batch_intents_settled _ _ _ _ _ _ _ _ _ _ _ Hd Hb) as (Hlen & Hall & Hso).
  pose proof (swap_batch_traded _ _ _ _ _ _ _ _ _ _ _ Hs Hb) as (_ & _ & Hok & Hk).
  pose proof (λ vis vos, batch_balances _ _ _ _ _ _ _ _ _ _ _ vis vos Hd Hb) as Hbal.
  destruct Hb as [Hp _ Ht _ Ho Hf _ _ _ _ _ _ _ _ _ _ _ Hres].
  pose proof (so_pools _ Hs _ _ Hp) as Hpok.
  apply batch_reserves_Ok in Hres as (-> & -> & _ & _ & Hc); [|by destruct Hpok..].
  split_and!; try done; try lia; try apply Hok. { by apply ids_distinct. } by autorewrite with amm.
Qed.

End claims.

(** C32: what the indexer does not look at.  The assets of the notes a batch spends: on two
    chains whose notes commit to the same points the handler answers the same, whatever
    coin the notes are of.  And which of the payload's two assets comes first: a batch
    accepted with one order is accepted with the other, its amounts left on their sides. *)
Theorem batch_blind `{Hash} `{!HashLen} {SE : Secp} {SL : SecpLaws} {IX : Indexer} (CH1 CH2 : Chain) (RC1 RC2 : Records) h i tx payload s :
  (same_commitments CH1 CH2 RC1 RC2 → (∀ cs pi, @bppRangeVerify _ CH1 cs pi = @bppRangeVerify _ CH2 cs pi) →
   @swap_batch_handler _ _ CH1 RC1 IX h i tx payload s = @swap_batch_handler _ _ CH2 RC2 IX h i tx payload s) ∧
  (∀ s', @reachable _ _ CH1 RC1 IX s → @swap_batch_handler _ _ CH1 RC1 IX h i tx payload s = Ok s' →
   ∃ env payload', SwapBatch.decodeTSwapBatchPayload payload false = Ok env ∧
     SwapBatch.decodeTSwapBatchPayload payload' false = Ok (assets_swapped env) ∧ assets_swapped env ≠ env ∧
     @swap_batch_handler _ _ CH1 RC1 IX h i (recommitted tx payload') payload' s = Ok s').
Proof.
  split; [by apply swap_batch_commitments|]. intros s' Hr E. destruct (steps_keep _ _ empty_store_ok Hr) as [Hs _].
  apply swap_batch_effect in E as (pid & p & env & cs & ids & ra & rb & Hb & ->).
  destruct (swap_batch_swapped _ _ _ _ _ _ _ _ _ _ _ Hs Hb) as (payload' & Hd & Hd' & Hne & Hb').
  exists env, payload'. split; [done|]. split; [done|]. split.
  - intros E. apply Hne. by rewrite <- E at 1.
  - rewrite (swap_batch_complete _ i _ _ _ _ _ _ _ _ _ _ Hb'). done.
Qed.

(** ** Witnesses *)
Lemma batch_settles_witness :
  ∃ s s' pid p, batch_handler coinA s = Ok s' ∧ pools s !! pid = Some p ∧
    pools s' = <[pid := with_reserves p (reserve_a p + 62) (reserve_b p - 50)]> (pools s) ∧
    (100 = 38 + 0 + 62 ∨ ∃ x y, relation x y).
Proof.
  destruct batch_run as (s & s' & Hr & Es). exists s, s'.
  destruct (@batch_settles _ _ _ (batch_chain coinA) no_records toy_indexer 110 3 (batch_tx batch_payload) batch_payload
    s s' Hr Es) as (pid & p & env & ids & Hd & _ & Ep & _ & _ & _ & _ & _ & _ & _ & _ & Es' & _ & _ & _ & _ & Hbal).
  exists pid, p. split; [exact Es|]. split; [exact Ep|].
  rewrite batch_decodes in Hd. injection Hd as <-. split; [exact Es'|].
  refine (proj1 (Hbal [(100, 7); (40, 8)] [(90, 3); (38, 2)] batch_inputs_open batch_receipts_open _ _)).
  - split; [repeat constructor; cbn; lia|cbn; lia].
  - split; [repeat constructor; cbn; lia|cbn; lia].
Defined.

Lemma batch_blind_witness :
  ∃ s s', batch_handler coinA s = Ok s' ∧ batch_handler coinC s = Ok s'.
Proof.
  destruct batch_run as (s & s' & Hr & Es). exists s, s'. split; [exact Es|].
  destruct (batch_blind (batch_chain coinA) (batch_chain coinC) no_records no_records 110 3 (batch_tx batch_payload) batch_payload s)
    as [Hc _].
  rewrite <- (Hc coin_unseen (λ _ _, eq_refl)). exact Es.
Defined.
