(* ===== verification/Farm.v ===== *)
(** * The indexer's reward farms

    The farm handlers of [scanForEtches] in [worker/src/index.js]: creation, bonding,
    unbonding, harvest and refund, over the keys of the farm records.  A handler answers
    the list of writes it makes, in the order it makes them: the store is not
    transactional, so a prefix of the list is what an interrupted scan leaves behind. *)
From S2P Require Import Prelude Bytes Crypto CodecTransfer CodecPool CodecSlots CodecAmm CodecBatch.
From S2P Require Import Messages AmmMath Curve Kernel Notes WorkerNotes AmmPool.

Definition AMM_FARM_MIN_BOND : Z := 1000.
Definition AMM_FARM_MIN_REWARD_TOTAL : Z := 1000000000.
Definition AMM_FARM_MAX_START_DELAY : Z := 4320.
Definition AMM_FARM_VIEW_STALENESS : Z := 6.
Definition AMM_FARM_REFUND_GRACE_BLOCKS : Z := 1008.
Definition FARM_ACC_FIXED_POINT_SHIFT : Z := 96.

(** ** Data *)
Record farm := Farm {
  fm_pool : bytes; fm_lp_asset : bytes; fm_reward_asset : bytes; fm_launcher : bytes;
  reward_total : Z; reward_per_block : Z; start_height : Z; end_height : Z;
  acc_reward_per_share : Z; total_bonded : Z; last_update_height : Z; treasury_remaining : Z;
  fm_txid : bytes; refunded : bool }.

Definition with_acc (f : farm) (acc last : Z) : farm :=
  Farm (fm_pool f) (fm_lp_asset f) (fm_reward_asset f) (fm_launcher f) (reward_total f) (reward_per_block f)
       (start_height f) (end_height f) acc (total_bonded f) last (treasury_remaining f) (fm_txid f) (refunded f).
Definition with_bonded (f : farm) (n : Z) : farm :=
  Farm (fm_pool f) (fm_lp_asset f) (fm_reward_asset f) (fm_launcher f) (reward_total f) (reward_per_block f)
       (start_height f) (end_height f) (acc_reward_per_share f) n (last_update_height f) (treasury_remaining f)
       (fm_txid f) (refunded f).
Definition with_treasury (f : farm) (n : Z) (r : bool) : farm :=
  Farm (fm_pool f) (fm_lp_asset f) (fm_reward_asset f) (fm_launcher f) (reward_total f) (reward_per_block f)
       (start_height f) (end_height f) (acc_reward_per_share f) (total_bonded f) (last_update_height f) n
       (fm_txid f) r.

Record bond := Bond {
  bd_farm : bytes; bond_amount : Z; entry_acc_per_share : Z; bonder_pubkey : bytes;
  owner_commit : bytes; receipt_nonce : bytes; bond_height : Z }.
Definition with_entry (b : bond) (acc : Z) : bond :=
  Bond (bd_farm b) (bond_amount b) acc (bonder_pubkey b) (owner_commit b) (receipt_nonce b) (bond_height b).

Inductive receipt_kind := UnbondReceipt | HarvestReceipt | RefundReceipt.
(** the note a farm operation mints at output 1 *)
Record receipt := Receipt {
  rc_kind : receipt_kind; rc_farm : bytes; rc_bond : option bytes;
  rc_asset : bytes; rc_commitment : bytes; rc_amount : Z; rc_r : bytes }.

(** The keys of the farm records: farms, bonds, the bonds of a bonder, the bond of an
    owner, the farms of a pool, and the receipts by transaction. *)
Record fstore := FStore {
  farms : gmap bytes farm;
  bonds : gmap bytes bond;
  bonder_bonds : gmap bytes (list bytes);
  owners : gmap bytes bytes;
  pool_farms : gmap bytes (list bytes);
  receipts : gmap bytes receipt }.

Inductive write :=
| ammFarmPut (id : bytes) (f : farm)
| ammFarmBondPut (id : bytes) (b : bond)
| ammFarmBondDelete (id : bytes)
| ammFarmBonderAppend (bonder id : bytes)
| ammFarmBonderRemove (bonder id : bytes)
| ammFarmOwnerPut (owner id : bytes)
| ammFarmOwnerDelete (owner : bytes)
| ammFarmPoolAppend (pid id : bytes)
| ammFarmUnbondReceiptPut (txid : bytes) (r : receipt).

Definition append_new (id : bytes) (l : list bytes) : list bytes := if bool_decide (id ∈ l) then l else l ++ [id].
(** the list left when an id is taken out; an empty one is deleted *)
Definition remove_id (k id : bytes) (m : gmap bytes (list bytes)) : gmap bytes (list bytes) :=
  match filter (λ x, x ≠ id) (default [] (m !! k)) with
  | [] => delete k m
  | l => <[k := l]> m
  end.

Definition apply_write (s : fstore) (w : write) : fstore :=
  let '(FStore fs bs bb os pf rs) := s in
  match w with
  | ammFarmPut id f => FStore (<[id := f]> fs) bs bb os pf rs
  | ammFarmBondPut id b => FStore fs (<[id := b]> bs) bb os pf rs
  | ammFarmBondDelete id => FStore fs (delete id bs) bb os pf rs
  | ammFarmBonderAppend k id => FStore fs bs (<[k := append_new id (default [] (bb !! k))]> bb) os pf rs
  | ammFarmBonderRemove k id => FStore fs bs (remove_id k id bb) os pf rs
  | ammFarmOwnerPut o id => FStore fs bs bb (<[o := id]> os) pf rs
  | ammFarmOwnerDelete o => FStore fs bs bb (delete o os) pf rs
  | ammFarmPoolAppend p id => FStore fs bs bb os (<[p := append_new id (default [] (pf !! p))]> pf) rs
  | ammFarmUnbondReceiptPut t r => FStore fs bs bb os pf (<[t := r]> rs)
  end.
Definition run_writes (s : fstore) (ws : list write) : fstore := foldl apply_write s ws.

(** ** The accumulator *)
Definition _farmCrystallize (f : farm) (currentHeight : Z) : farm :=
  let h := if currentHeight >? end_height f then end_height f else currentHeight in
  if h <=? last_update_height f then f
  else if h <? start_height f then with_acc f (acc_reward_per_share f) h
  else
    let baseline := if last_update_height f <? start_height f then start_height f else last_update_height f in
    let elapsed := h - baseline in
    let acc :=
      if (total_bonded f >? 0) && (elapsed >? 0) then
        acc_reward_per_share f +
          (Z.shiftl (elapsed * reward_per_block f) FARM_ACC_FIXED_POINT_SHIFT) ÷ total_bonded f
      else acc_reward_per_share f in
    with_acc f acc h.

(** [h > farm.end_height ? farm.end_height : h] *)
Definition canonical_height (f : farm) (h : Z) : Z := if h >? end_height f then end_height f else h.

Section handlers.
Context `{Hash} {SE : Secp} {CH : Chain} {RC : Records} {IX : Indexer}.

(** ** Messages *)
Definition FARM_RECEIPT_DOM : bytes := ascii_bytes "tacit-farm-receipt-v3".
Definition LP_HARVEST_OWNER_DOM : bytes := ascii_bytes "tacit-farm-harvest-owner-v1".
Definition LP_UNBOND_OWNER_DOM : bytes := ascii_bytes "tacit-farm-unbond-owner-v1".

Definition ammDeriveFarmId (poolId launcher rewardAsset nonce : bytes) : bytes :=
  sha256 (concatBytes [FARM_INIT_DOMAIN; poolId; launcher; rewardAsset; nonce]).

Definition farm_init_msg (farmId : bytes) (fi : FarmInit.t) (fundingHash : bytes) : bytes :=
  sha256 (concatBytes
    [FARM_INIT_DOMAIN; farmId; FarmInit.launcherPubkey fi; le 8 (FarmInit.rewardTotal fi); le 8 (FarmInit.rewardPerBlock fi);
     le 4 (FarmInit.startHeight fi); le 4 (FarmInit.endHeight fi); fundingHash;
     le 4 (FarmInit.refundExpiry fi); FarmInit.refundDestXonly fi; FarmInit.refundBlinding fi]).
Definition farm_bond_msg (lb : LpBond.t) (fundingHash : bytes) : bytes :=
  sha256 (concatBytes
    [FARM_BOND_DOMAIN; LpBond.farmId lb; LpBond.bonderPubkey lb; le 8 (LpBond.bondAmount lb); le 16 (LpBond.entryAccPerShare lb);
     le 4 (LpBond.bondViewHeight lb); LpBond.ownerCommit lb; LpBond.nonce lb; fundingHash;
     le 4 (LpBond.refundExpiry lb); LpBond.refundDestXonly lb; LpBond.refundBlinding lb]).
Definition farmReceiptLeaf (farmId lpAsset : bytes) (shares : Z) (owner nonce : bytes) : bytes :=
  keccak_256 (concatBytes [FARM_RECEIPT_DOM; farmId; lpAsset; le 8 shares; owner; nonce]).
Definition lpHarvestOwnerMsg (farmId oldLeaf : bytes) (reward : Z) (rewardR destSpk : bytes) : bytes :=
  keccak_256 (concatBytes [LP_HARVEST_OWNER_DOM; farmId; oldLeaf; be 8 reward; rewardR; destSpk]).
Definition lpUnbondOwnerMsg (farmId oldLeaf : bytes) (shares : Z) (lpReturnR destSpk : bytes) : bytes :=
  keccak_256 (concatBytes [LP_UNBOND_OWNER_DOM; farmId; oldLeaf; be 8 shares; lpReturnR; destSpk]).
Definition farm_refund_msg (farmId : bytes) (amount : Z) (refundR : bytes) (viewHeight : Z) (destSpk : bytes) : bytes :=
  keccak_256 (concatBytes [FARM_REFUND_DOMAIN; farmId; be 8 amount; refundR; be 4 viewHeight; destSpk]).

(** [OP_RETURN] of output 0 binds the envelope. *)
Definition op_return_binds (tx : wtx) (payload : bytes) : res unit :=
  opReturn ← (match op_return_hash tx with Some b => mret b | None => Null end);
  null_when (negb (bool_decide (take 32 opReturn = sha256 payload))).
(** [hexToBytes(tx.vout?.[1]?.scriptpubkey || '')] *)
Definition dest_script (tx : wtx) : bytes := default [] (wvout tx !! 1%nat).

(** ** T_FARM_INIT *)
Definition schedule_ok (h : Z) (p : pool) (fi : FarmInit.t) : bool :=
  let total := FarmInit.rewardTotal fi in
  let rate := FarmInit.rewardPerBlock fi in
  if rate =? 0 then false
  else if total <? AMM_FARM_MIN_REWARD_TOTAL then false
  else if negb (Z.rem total rate =? 0) then false
  else if rate >? 0xffffffff then false
  else if total >=? Z.shiftl 1 63 then false
  else if FarmInit.startHeight fi <? init_height p + AMM_INITIAL_LP_LOCK_BLOCKS then false
  else if FarmInit.startHeight fi <? h + 3 then false
  else if FarmInit.startHeight fi >? h + AMM_FARM_MAX_START_DELAY then false
  else
    let duration := total ÷ rate in
    if duration >? 0xffffffff then false
    else
      let expectedEnd := FarmInit.startHeight fi + duration in
      if expectedEnd >? 0xffffffff then false else FarmInit.endHeight fi =? expectedEnd.

(** the kernel: the input funds the rewards and the change *)
Definition farm_kernel_ok (fi : FarmInit.t) (commitment msg : bytes) : res bool :=
  cIn ← bytesToPoint commitment;
  cChange ← (if all_zero (FarmInit.cChangeOrSentinel fi) then mret ZERO else bytesToPoint (FarmInit.cChangeOrSentinel fi));
  burnedH ← multiply_or_zero H (FarmInit.rewardTotal fi);
  let P := add (add cChange (negate cIn)) burnedH in
  if negb (equals P ZERO) then verifySchnorrWorker (FarmInit.kernelSig fi) msg (xonly P) else mret false.

Definition farm_range_ok (fi : FarmInit.t) : res bool :=
  cChange ← (if all_zero (FarmInit.cChangeOrSentinel fi) then mret ZERO else bytesToPoint (FarmInit.cChangeOrSentinel fi));
  if equals cChange ZERO then mret (0 <? blen (FarmInit.rangeProof fi))
  else mret (bpRangeAggVerify [cChange] (FarmInit.rangeProof fi)).

(** [try { ok = ...; } catch { ok = false; } if (!ok) continue;] *)
Definition require (r : res bool) : res unit := match r with Ok b => null_when (negb b) | _ => Null end.

Definition farm_init_handler (h : Z) (tx : wtx) (payload : bytes) (fi : FarmInit.t) (s : store) (fs : fstore) : res (list write) :=
  op_return_binds tx payload;;
  p ← (match pools s !! FarmInit.poolId fi with Some p => mret p | None => Null end);
  null_when (negb (tradable p));;
  null_when (negb (schedule_ok h p fi));;
  let farmId := ammDeriveFarmId (FarmInit.poolId fi) (FarmInit.launcherPubkey fi) (FarmInit.rewardAssetId fi) (FarmInit.farmNonce fi) in
  inp ← (match wvin tx !! 1%nat with Some i => mret i | None => Null end);
  let initMsg := farm_init_msg farmId fi (ammFundingHash [inp] (FarmInit.kernelSig fi)) in
  require (verifySchnorrWorker (FarmInit.launcherSig fi) initMsg (drop 1 (FarmInit.launcherPubkey fi)));;
  parent ← tryc (commitmentForUtxo inp);
  null_when (negb (bool_decide (pn_asset parent = FarmInit.rewardAssetId fi)));;
  kernelMsg ← computeKernelMsg (FarmInit.rewardAssetId fi) [inp] [FarmInit.cChangeOrSentinel fi] (FarmInit.rewardTotal fi);
  require (farm_kernel_ok fi (declared_bytes (pn_commitment parent)) kernelMsg);;
  require (farm_range_ok fi);;
  null_when (match farms fs !! farmId with Some f => negb (bool_decide (fm_txid f = wtxid tx)) | None => false end);;
  lpAsset ← ammDeriveLpAssetId (FarmInit.poolId fi);
  mret [ammFarmPut farmId
          (Farm (FarmInit.poolId fi) lpAsset (FarmInit.rewardAssetId fi) (FarmInit.launcherPubkey fi)
                (FarmInit.rewardTotal fi) (FarmInit.rewardPerBlock fi) (FarmInit.startHeight fi) (FarmInit.endHeight fi)
                0 0 (FarmInit.startHeight fi) (FarmInit.rewardTotal fi) (wtxid tx) false);
        ammFarmPoolAppend (FarmInit.poolId fi) farmId].

(** ** T_LP_BOND *)
(** output 1 of the bonding transaction *)
Definition bond_id (txid : bytes) : bytes := rev txid ++ le 4 1.

Definition lp_bond_handler (h : Z) (tx : wtx) (payload : bytes) (lb : LpBond.t) (fs : fstore) : res (list write) :=
  op_return_binds tx payload;;
  f ← (match farms fs !! LpBond.farmId lb with Some f => mret f | None => Null end);
  null_when (h >=? end_height f);;
  null_when (LpBond.bondAmount lb <? AMM_FARM_MIN_BOND);;
  let canonicalHeight := canonical_height f h in
  let f' := _farmCrystallize f canonicalHeight in
  null_when (negb (LpBond.entryAccPerShare lb =? acc_reward_per_share f'));;
  null_when (LpBond.bondViewHeight lb <? canonicalHeight - AMM_FARM_VIEW_STALENESS);;
  byAsset ← ammCollectAssetInputs tx 1;
  lpSide ← get_side byAsset (fm_lp_asset f);
  let bondMsg := farm_bond_msg lb (ammFundingHash (side_inputs lpSide) (LpBond.kernelSig lb)) in
  require (verifySchnorrWorker (LpBond.bonderSig lb) bondMsg (drop 1 (LpBond.bonderPubkey lb)));;
  kernelOk ← ammLpBondKernelVerify (LpBond.farmId lb) (fm_lp_asset f) (LpBond.bondAmount lb) (side_inputs lpSide)
               (side_commitments lpSide) (LpBond.kernelSig lb);
  null_when (negb kernelOk);;
  let id := bond_id (wtxid tx) in
  null_when (bool_decide (is_Some (bonds fs !! id)));;
  mret [ammFarmBondPut id (Bond (LpBond.farmId lb) (LpBond.bondAmount lb) (LpBond.entryAccPerShare lb)
                             (LpBond.bonderPubkey lb) (LpBond.ownerCommit lb) (LpBond.nonce lb) h);
        ammFarmBonderAppend (LpBond.bonderPubkey lb) id;
        ammFarmOwnerPut (LpBond.ownerCommit lb) id;
        ammFarmPut (LpBond.farmId lb) (with_bonded f' (total_bonded f' + LpBond.bondAmount lb))].

(** ** T_LP_UNBOND *)
Definition lp_unbond_handler (h : Z) (tx : wtx) (payload : bytes) (lu : LpUnbond.t) (fs : fstore) : res (list write) :=
  op_return_binds tx payload;;
  id ← (match owners fs !! LpUnbond.ownerCommit lu with Some b => mret b | None => Null end);
  b ← (match bonds fs !! id with Some b => mret b | None => Null end);
  null_when (negb (bool_decide (bd_farm b = LpUnbond.farmId lu)));;
  null_when (negb (bool_decide (owner_commit b = LpUnbond.ownerCommit lu)));;
  null_when (negb (bool_decide (receipt_nonce b = LpUnbond.nonce lu)));;
  null_when (negb (LpUnbond.shares lu =? bond_amount b));;
  f ← (match farms fs !! LpUnbond.farmId lu with Some f => mret f | None => Null end);
  let r := bytes32ToBigint (LpUnbond.lpReturnR lu) in
  null_when ((r =? 0) || (r >=? SECP_N));;
  let leaf := farmReceiptLeaf (LpUnbond.farmId lu) (fm_lp_asset f) (LpUnbond.shares lu) (LpUnbond.ownerCommit lu) (LpUnbond.nonce lu) in
  let msg := lpUnbondOwnerMsg (LpUnbond.farmId lu) leaf (LpUnbond.shares lu) (LpUnbond.lpReturnR lu) (dest_script tx) in
  require (verifySchnorrWorker (LpUnbond.unbonderSig lu) msg (LpUnbond.ownerCommit lu));;
  null_when (bool_decide (is_Some (receipts fs !! wtxid tx)));;
  let f' := _farmCrystallize f (canonical_height f h) in
  cLpReturn ← pedersenCommit (bond_amount b) r;
  mret [ammFarmUnbondReceiptPut (wtxid tx)
          (Receipt UnbondReceipt (LpUnbond.farmId lu) (Some id) (fm_lp_asset f) (toRawBytes cLpReturn) (bond_amount b) (LpUnbond.lpReturnR lu));
        ammFarmPut (LpUnbond.farmId lu) (with_bonded f' (total_bonded f' - bond_amount b));
        ammFarmBondDelete id;
        ammFarmBonderRemove (bonder_pubkey b) id;
        ammFarmOwnerDelete (LpUnbond.ownerCommit lu)].

(** ** T_LP_HARVEST *)
Definition lp_harvest_handler (h : Z) (tx : wtx) (payload : bytes) (lh : LpHarvest.t) (fs : fstore) : res (list write) :=
  op_return_binds tx payload;;
  f ← (match farms fs !! LpHarvest.farmId lh with Some f => mret f | None => Null end);
  b ← (match bonds fs !! LpHarvest.bondId lh with Some b => mret b | None => Null end);
  null_when (negb (bool_decide (bd_farm b = LpHarvest.farmId lh)));;
  null_when (negb (bool_decide (bonder_pubkey b = LpHarvest.harvesterPubkey lh)));;
  null_when (negb (bool_decide (owner_commit b = LpHarvest.ownerCommit lh)));;
  null_when (negb (bool_decide (receipt_nonce b = LpHarvest.oldNonce lh)));;
  null_when (negb (LpHarvest.shares lh =? bond_amount b));;
  let f' := _farmCrystallize f (canonical_height f h) in
  let reward := LpHarvest.rewardAmount lh in
  null_when (reward >? treasury_remaining f');;
  let window := if acc_reward_per_share f' >? entry_acc_per_share b then acc_reward_per_share f' - entry_acc_per_share b else 0 in
  null_when (Z.shiftl reward FARM_ACC_FIXED_POINT_SHIFT >? bond_amount b * window);;
  let r := bytes32ToBigint (LpHarvest.rewardR lh) in
  null_when ((reward >? 0) && ((r =? 0) || (r >=? SECP_N)));;
  let destSpk := if reward >? 0 then dest_script tx else [] in
  let leaf := farmReceiptLeaf (LpHarvest.farmId lh) (fm_lp_asset f) (LpHarvest.shares lh) (LpHarvest.ownerCommit lh) (LpHarvest.oldNonce lh) in
  let msg := lpHarvestOwnerMsg (LpHarvest.farmId lh) leaf reward (LpHarvest.rewardR lh) destSpk in
  require (verifySchnorrWorker (LpHarvest.harvesterSig lh) msg (LpHarvest.ownerCommit lh));;
  null_when ((reward >? 0) && bool_decide (is_Some (receipts fs !! wtxid tx)));;
  paid ← (if reward >? 0 then
            C ← pedersenCommit reward r;
            mret [ammFarmUnbondReceiptPut (wtxid tx)
                    (Receipt HarvestReceipt (LpHarvest.farmId lh) (Some (LpHarvest.bondId lh)) (fm_reward_asset f)
                       (toRawBytes C) reward (LpHarvest.rewardR lh))]
          else mret []);
  mret (paid ++ [ammFarmBondPut (LpHarvest.bondId lh) (with_entry b (acc_reward_per_share f'));
                 ammFarmPut (LpHarvest.farmId lh) (with_treasury f' (treasury_remaining f' - reward) (refunded f'))]).

(** ** T_FARM_REFUND *)
Definition farm_refund_handler (h : Z) (tx : wtx) (payload : bytes) (fr : FarmRefund.t) (fs : fstore) : res (list write) :=
  op_return_binds tx payload;;
  f ← (match farms fs !! FarmRefund.farmId fr with Some f => mret f | None => Null end);
  null_when (negb (bool_decide (fm_launcher f = FarmRefund.launcherPubkey fr)));;
  null_when (refunded f);;
  let canonicalHeight := h - 3 in
  null_when (canonicalHeight <? end_height f + AMM_FARM_REFUND_GRACE_BLOCKS);;
  null_when (FarmRefund.refundViewHeight fr <? canonicalHeight - AMM_FARM_VIEW_STALENESS);;
  null_when (negb (FarmRefund.refundAmount fr =? treasury_remaining f));;
  null_when (treasury_remaining f =? 0);;
  let r := bytes32ToBigint (FarmRefund.refundR fr) in
  null_when ((r =? 0) || (r >=? SECP_N));;
  let msg := farm_refund_msg (FarmRefund.farmId fr) (treasury_remaining f) (FarmRefund.refundR fr)
               (FarmRefund.refundViewHeight fr) (dest_script tx) in
  require (verifySchnorrWorker (FarmRefund.launcherSig fr) msg (drop 1 (FarmRefund.launcherPubkey fr)));;
  cRefund ← pedersenCommit (treasury_remaining f) r;
  mret [ammFarmPut (FarmRefund.farmId fr) (with_treasury f 0 true);
        ammFarmUnbondReceiptPut (wtxid tx)
          (Receipt RefundReceipt (FarmRefund.farmId fr) None (fm_reward_asset f) (toRawBytes cRefund)
             (treasury_remaining f) (FarmRefund.refundR fr))].

(** ** One transaction of the scan *)
Definition farm_handler (h : Z) (tx : wtx) (op : Z) (payload : bytes) (s : store) (fs : fstore) : res (list write) :=
  if op =? T_FARM_INIT then
    fi ← tryc (FarmInit.decodeTFarmInitPayload payload); farm_init_handler h tx payload fi s fs
  else if op =? T_LP_BOND then
    lb ← tryc (LpBond.decodeTLpBondPayload payload); lp_bond_handler h tx payload lb fs
  else if op =? T_LP_UNBOND then
    lu ← tryc (LpUnbond.decodeTLpUnbondPayload payload); lp_unbond_handler h tx payload lu fs
  else if op =? T_LP_HARVEST then
    lh ← tryc (LpHarvest.decodeTLpHarvestPayload payload); lp_harvest_handler h tx payload lh fs
  else if op =? T_FARM_REFUND then
    fr ← tryc (FarmRefund.decodeTFarmRefundPayload payload); farm_refund_handler h tx payload fr fs
  else Null.

Definition scan_farm (h : Z) (tx : wtx) (op : Z) (payload : bytes) (s : store) (fs : fstore) : res fstore :=
  match farm_handler h tx op payload s fs with
  | Ok ws => Ok (run_writes fs ws)
  | Null => Ok fs
  | Throw e => Throw e
  | Oob => Oob
  end.
End handlers.
