(* ===== verification/FarmFacts.v ===== *)
(** * The farms stay solvent

    Between any two scanned transactions, a farm's counter of bonded shares is the sum of
    its bonds, and its treasury covers what every bond has accrued and the rewards still
    to be emitted, until its launcher takes the rest back.  The lemmas say what each
    handler writes and why the writes keep this. *)
From S2P Require Import Prelude Bytes Crypto CodecTransfer CodecPool CodecSlots CodecAmm CodecBatch.
From S2P Require Import Messages AmmMath Curve Kernel Notes WorkerNotes AmmPool AmmPoolFacts Farm.

(** ** Sums over a table *)
Section sums.
Context {V : Type}.
Implicit Types (f g : V → Z) (m : gmap bytes V) (b : V).

Definition msum (f : V → Z) (m : gmap bytes V) : Z := map_fold (λ _ b z, f b + z) 0 m.

Lemma msum_empty f : msum f ∅ = 0.
Proof. apply map_fold_empty. Qed.
Lemma msum_insert f k b m : m !! k = None → msum f (<[k := b]> m) = f b + msum f m.
Proof. intros Hk. unfold msum. rewrite map_fold_insert_L; [done| |done]. intros. lia. Qed.
Lemma msum_delete f k b m : m !! k = Some b → msum f (delete k m) = msum f m - f b.
Proof. intros Hk. unfold msum at 2. rewrite (map_fold_delete_L _ _ k b m); [unfold msum; lia| |done]. intros. lia. Qed.
Lemma msum_replace f k b b' m : m !! k = Some b → msum f (<[k := b']> m) = msum f m - f b + f b'.
Proof.
  intros Hk. rewrite <- insert_delete_eq, msum_insert by apply lookup_delete_eq. rewrite (msum_delete _ _ b) by done. lia.
Qed.

(** A property of sums proved entry by entry. *)
Lemma msum_ind (P : Z → gmap bytes V → Prop) f :
  P 0 ∅ → (∀ k b m, m !! k = None → P (msum f m) m → P (f b + msum f m) (<[k := b]> m)) → ∀ m, P (msum f m) m.
Proof.
  intros H0' Hi m. induction m as [|k b m Hk IH] using map_ind; [by rewrite msum_empty|].
  rewrite msum_insert by done. auto.
Qed.

Lemma msum_ext f g m : (∀ k b, m !! k = Some b → f b = g b) → msum f m = msum g m.
Proof.
  apply (msum_ind (λ z m, (∀ k b, m !! k = Some b → f b = g b) → z = msum g m)).
  - by rewrite msum_empty.
  - intros k b m' Hk IH Hb. rewrite msum_insert by done. rewrite IH, (Hb k b).
    + done.
    + apply lookup_insert_eq.
    + intros k' b' Hk'. apply (Hb k'). rewrite lookup_insert_ne; [done|congruence].
Qed.
Lemma msum_add f g m : msum (λ b, f b + g b) m = msum f m + msum g m.
Proof.
  apply (msum_ind (λ z m, z = msum f m + msum g m)); [by rewrite !msum_empty|].
  intros k b m' Hk ->. rewrite !msum_insert by done. lia.
Qed.
Lemma msum_scale c f m : msum (λ b, c * f b) m = c * msum f m.
Proof.
  apply (msum_ind (λ z m, z = c * msum f m)); [rewrite msum_empty; lia|].
  intros k b m' Hk ->. rewrite msum_insert by done. lia.
Qed.
Lemma msum_nonneg f m : (∀ k b, m !! k = Some b → 0 <= f b) → 0 <= msum f m.
Proof.
  apply (msum_ind (λ z m, (∀ k b, m !! k = Some b → 0 <= f b) → 0 <= z)); [lia|].
  intros k b m' Hk IH Hb.
  assert (0 <= f b) by (apply (Hb k); apply lookup_insert_eq).
  assert (0 <= msum f m'); [|lia]. apply IH. intros k' b' Hk'. apply (Hb k'). rewrite lookup_insert_ne; [done|congruence].
Qed.
(** One term is at most the sum. *)
Lemma msum_term f k b m : (∀ k b, m !! k = Some b → 0 <= f b) → m !! k = Some b → f b <= msum f m.
Proof.
  intros Hb Hk. assert (0 <= msum f (delete k m)).
  { apply msum_nonneg. intros k' b' [_ Hk']%lookup_delete_Some. eauto. }
  rewrite (msum_delete _ _ _ _ Hk) in *. lia.
Qed.
End sums.

(** ** Sums over bonds *)
(** [g] over the bonds of one farm *)
Definition own (fid : bytes) (g : bond → Z) (b : bond) : Z := if bool_decide (bd_farm b = fid) then g b else 0.

Lemma own_same b g : own (bd_farm b) g b = g b.
Proof. unfold own. by rewrite bool_decide_eq_true_2. Qed.
Lemma own_other fid b g : bd_farm b ≠ fid → own fid g b = 0.
Proof. intros. unfold own. by rewrite bool_decide_eq_false_2. Qed.
Lemma own_ext fid f g m :
  (∀ k b, m !! k = Some b → bd_farm b = fid → f b = g b) → msum (own fid f) m = msum (own fid g) m.
Proof. intros Hb. apply msum_ext. intros k b Hk. unfold own. case_bool_decide; eauto. Qed.
Lemma own_add fid f g m : msum (own fid (λ b, f b + g b)) m = msum (own fid f) m + msum (own fid g) m.
Proof. rewrite <- msum_add. apply msum_ext. intros k b _. unfold own. by case_bool_decide. Qed.
Lemma own_scale fid c f m : msum (own fid (λ b, c * f b)) m = c * msum (own fid f) m.
Proof. rewrite <- msum_scale. apply msum_ext. intros k b _. unfold own. case_bool_decide; lia. Qed.
Lemma own_nonneg fid f m : (∀ k b, m !! k = Some b → bd_farm b = fid → 0 <= f b) → 0 <= msum (own fid f) m.
Proof. intros Hb. apply msum_nonneg. intros k b Hk. unfold own. case_bool_decide; [eauto|lia]. Qed.
Lemma own_none fid f m : (∀ k b, m !! k = Some b → bd_farm b ≠ fid) → msum (own fid f) m = 0.
Proof.
  intros Hb. rewrite (msum_ext _ (λ _, 0 * 0) m); [rewrite msum_scale; lia|].
  intros k b Hk. rewrite own_other; [lia|eauto].
Qed.
Lemma own_term fid f k b m :
  (∀ k b, m !! k = Some b → bd_farm b = fid → 0 <= f b) → m !! k = Some b → bd_farm b = fid → f b <= msum (own fid f) m.
Proof.
  intros Hb Hk Ef. pose proof (own_same b f) as Eo. rewrite Ef in Eo. rewrite <- Eo. apply (msum_term _ k); [|done].
  intros k' b' Hk'. unfold own. case_bool_decide; [eauto|lia].
Qed.

(** ** The invariant *)
Definition scale : Z := 2 ^ FARM_ACC_FIXED_POINT_SHIFT.

(** what a bond has accrued and not been paid, in fixed point *)
Definition accrued (f : farm) (b : bond) : Z := bond_amount b * (acc_reward_per_share f - entry_acc_per_share b).
Definition owed (bs : gmap bytes bond) (fid : bytes) (f : farm) : Z := msum (own fid (accrued f)) bs.
(** the rewards the schedule has not emitted yet *)
Definition unemitted (f : farm) : Z := reward_per_block f * (end_height f - last_update_height f).

Record farm_ok (bs : gmap bytes bond) (fid : bytes) (f : farm) : Prop := FarmOk {
  fo_rate : 0 < reward_per_block f < 2 ^ 32;
  fo_total : reward_total f = reward_per_block f * (end_height f - start_height f) ∧ reward_total f < 2 ^ 63;
  fo_last : start_height f <= last_update_height f <= end_height f;
  fo_acc : 0 <= acc_reward_per_share f;
  fo_bonded : total_bonded f = msum (own fid bond_amount) bs;
  fo_treasury : 0 <= treasury_remaining f <= reward_total f;
  fo_refunded : refunded f = true → treasury_remaining f = 0;
  fo_solvent : refunded f = false → owed bs fid f <= scale * (treasury_remaining f - unemitted f) }.

Record bond_ok (fs : gmap bytes farm) (b : bond) : Prop := BondOk {
  bo_amount : AMM_FARM_MIN_BOND <= bond_amount b;
  bo_entry : ∃ f, fs !! bd_farm b = Some f ∧ 0 <= entry_acc_per_share b <= acc_reward_per_share f }.

Record fstore_ok (fs : fstore) : Prop := FStoreOk {
  so_farms : ∀ fid f, farms fs !! fid = Some f → farm_ok (bonds fs) fid f;
  so_bonds : ∀ id b, bonds fs !! id = Some b → bond_ok (farms fs) b }.

Definition empty_fstore : fstore := FStore ∅ ∅ ∅ ∅ ∅ ∅.
Lemma empty_fstore_ok : fstore_ok empty_fstore.
Proof. by split. Qed.

(** The bonds of a farm are good for its sums. *)
Lemma bonds_positive fs fid f :
  fstore_ok fs → farms fs !! fid = Some f →
  ∀ k b, bonds fs !! k = Some b → bd_farm b = fid →
    0 < bond_amount b ∧ 0 <= entry_acc_per_share b <= acc_reward_per_share f.
Proof.
  intros Hs Ef k b Hk <-. destruct (so_bonds _ Hs _ _ Hk) as [Ha (f' & Ef' & He)].
  rewrite Ef in Ef'. injection Ef' as <-. unfold AMM_FARM_MIN_BOND in Ha. lia.
Qed.

(** ** The accumulator *)
(** Two farms that differ in the accumulator alone. *)
Lemma scale_pos : 0 < scale.
Proof. done. Qed.

(** The rewards of the blocks since the last update, in fixed point, are split over the
    bonded shares and rounded down. *)
Lemma crystallize_cases f h :
  start_height f <= last_update_height f <= end_height f → 0 < reward_per_block f →
  let h' := Z.min h (end_height f) in
  (h' <= last_update_height f ∧ _farmCrystallize f h = f) ∨
  (last_update_height f < h' ∧
   _farmCrystallize f h =
     with_acc f (acc_reward_per_share f +
       (if 0 <? total_bonded f
        then scale * (reward_per_block f * (h' - last_update_height f)) / total_bonded f else 0)) h').
Proof.
  intros Hl Hr h'. unfold _farmCrystallize.
  assert (E : (if h >? end_height f then end_height f else h) = h').
  { subst h'. destruct (Z.gtb_spec h (end_height f)); lia. }
  rewrite E. clearbody h'. destruct (Z.leb_spec h' (last_update_height f)); [by left|]. right. split; [done|].
  rewrite (proj2 (Z.ltb_ge h' (start_height f))) by lia.
  rewrite (proj2 (Z.ltb_ge (last_update_height f) (start_height f))) by lia.
  rewrite !Z.gtb_ltb. rewrite (proj2 (Z.ltb_lt 0 (h' - last_update_height f))) by lia. rewrite andb_true_r.
  destruct (Z.ltb_spec 0 (total_bonded f)); [|by rewrite Z.add_0_r].
  rewrite Z.shiftl_mul_pow2 by done. fold scale. pose proof scale_pos. rewrite Z.quot_div_nonneg by (try apply Z.mul_nonneg_nonneg; try apply Z.mul_nonneg_nonneg; lia).
  do 3 f_equal. lia.
Qed.

Lemma crystallize_frame f h :
  fm_pool (_farmCrystallize f h) = fm_pool f ∧ reward_per_block (_farmCrystallize f h) = reward_per_block f ∧
  reward_total (_farmCrystallize f h) = reward_total f ∧ start_height (_farmCrystallize f h) = start_height f ∧
  end_height (_farmCrystallize f h) = end_height f ∧ total_bonded (_farmCrystallize f h) = total_bonded f ∧
  treasury_remaining (_farmCrystallize f h) = treasury_remaining f ∧ refunded (_farmCrystallize f h) = refunded f ∧
  fm_txid (_farmCrystallize f h) = fm_txid f.
Proof. unfold _farmCrystallize. repeat case_match; done. Qed.

(** Moving the accumulator by [d] adds [d] per bonded share to what is owed. *)
Lemma owed_acc bs fid f d last : owed bs fid (with_acc f (acc_reward_per_share f + d) last) = owed bs fid f + d * msum (own fid bond_amount) bs.
Proof.
  unfold owed. rewrite <- own_scale, <- own_add. apply own_ext. intros k b _ _. unfold accrued. cbn. lia.
Qed.

Lemma farm_crystallize_ok bs fid f h :
  (∀ k b, bs !! k = Some b → bd_farm b = fid → 0 < bond_amount b) →
  farm_ok bs fid f → farm_ok bs fid (_farmCrystallize f h) ∧ acc_reward_per_share f <= acc_reward_per_share (_farmCrystallize f h).
Proof.
  intros Hb Hf. pose proof Hf as [Hr Ht Hl Ha Hbd Htr Hrf Hs]. pose proof scale_pos.
  destruct (crystallize_cases f h Hl (proj1 Hr)) as [[_ ->]|[Hlt ->]]; [split; [done|lia]|].
  set (h' := Z.min h (end_height f)) in *. assert (h' <= end_height f) by lia. clearbody h'.
  set (n := reward_per_block f * (h' - last_update_height f)). assert (0 <= n) by (subst n; nia).
  set (d := if 0 <? total_bonded f then _ else 0).
  assert (Hd : 0 <= d ∧ d * total_bonded f <= scale * n).
  { subst d. destruct (Z.ltb_spec 0 (total_bonded f)) as [Hpos|].
    - pose proof (Z.mul_div_le (scale * n) (total_bonded f) Hpos).
      split; [apply Z.div_pos; nia|]. subst n. nia.
    - assert (0 <= total_bonded f) by (rewrite Hbd; apply own_nonneg; intros k b Hk Ef; apply Z.lt_le_incl, (Hb k b Hk Ef)).
      nia. }
  clearbody d. destruct Hd as [Hd Hdn]. split; [|cbn; lia].
  split; cbn [with_acc reward_per_block reward_total start_height end_height last_update_height acc_reward_per_share
    total_bonded treasury_remaining refunded]; try done; try lia.
  intros Href. rewrite owed_acc, <- Hbd. specialize (Hs Href). unfold unemitted in *.
  cbn [with_acc reward_per_block end_height last_update_height]. subst n. nia.
Qed.

(** ** What each operation does to its farm *)
Lemma own_agree g F m m' :
  (∀ k b, bd_farm b = g → m !! k = Some b ↔ m' !! k = Some b) → msum (own g F) m = msum (own g F) m'.
Proof.
  assert (Hf : ∀ m, msum (own g F) m = msum F (filter (λ kb, bd_farm kb.2 = g) m)).
  { clear. intros m. apply (msum_ind (λ z m, z = msum F (filter (λ kb, bd_farm kb.2 = g) m))).
    - by rewrite map_filter_empty, msum_empty.
    - intros k b m' Hk ->. destruct (decide (bd_farm b = g)) as [E|E].
      + rewrite map_filter_insert_True by done. rewrite msum_insert by (apply map_lookup_filter_None; by left).
        unfold own. by rewrite bool_decide_eq_true_2.
      + rewrite map_filter_insert_False by done. rewrite own_other, delete_id by done. done. }
  intros Hm. rewrite !Hf. f_equal. apply map_eq. intros k. apply option_eq. intros b.
  rewrite !map_lookup_filter_Some. cbn. split; intros [Hk E]; (split; [by apply Hm|done]).
Qed.

(** A farm does not see the bonds of other farms. *)
Lemma farm_ok_agree g f m m' :
  (∀ k b, bd_farm b = g → m !! k = Some b ↔ m' !! k = Some b) → farm_ok m g f → farm_ok m' g f.
Proof.
  intros Hm []. split; try done.
  - by rewrite <- (own_agree g bond_amount m m' Hm).
  - unfold owed. rewrite <- (own_agree g (accrued f) m m' Hm). done.
Qed.

Ltac farm_fields :=
  cbn [with_acc with_bonded with_treasury reward_per_block reward_total start_height end_height last_update_height
    acc_reward_per_share total_bonded treasury_remaining refunded] in *.

Lemma owed_bonded bs fid f n : owed bs fid (with_bonded f n) = owed bs fid f.
Proof. done. Qed.
Lemma owed_treasury bs fid f n r : owed bs fid (with_treasury f n r) = owed bs fid f.
Proof. done. Qed.

(** A bond that enters at the current accumulator is owed nothing. *)
Lemma farm_bond_ok bs fid f id b :
  bs !! id = None → bd_farm b = fid → entry_acc_per_share b = acc_reward_per_share f →
  farm_ok bs fid f → farm_ok (<[id := b]> bs) fid (with_bonded f (total_bonded f + bond_amount b)).
Proof.
  intros Hid <- He [Hr Ht Hl Ha Hb Htr Hrf Hs]. split; farm_fields; try done.
  - rewrite msum_insert, own_same by done. lia.
  - intros Href. rewrite owed_bonded. unfold owed in *. rewrite msum_insert, own_same by done.
    unfold accrued at 1. rewrite He, Z.sub_diag, Z.mul_0_r. unfold unemitted in *. farm_fields. auto.
Qed.

Lemma farm_unbond_ok bs fid f id b :
  bs !! id = Some b → bd_farm b = fid → 0 <= accrued f b →
  farm_ok bs fid f → farm_ok (delete id bs) fid (with_bonded f (total_bonded f - bond_amount b)).
Proof.
  intros Hid <- He [Hr Ht Hl Ha Hb Htr Hrf Hs]. split; farm_fields; try done.
  - rewrite (msum_delete _ _ b), own_same by done. lia.
  - intros Href. specialize (Hs Href). rewrite owed_bonded. unfold owed in *. rewrite (msum_delete _ _ b), own_same by done.
    unfold unemitted in *. farm_fields. lia.
Qed.

Lemma farm_harvest_ok bs fid f id b n :
  bs !! id = Some b → bd_farm b = fid → 0 <= n <= treasury_remaining f → n * scale <= accrued f b →
  farm_ok bs fid f →
  farm_ok (<[id := with_entry b (acc_reward_per_share f)]> bs) fid (with_treasury f (treasury_remaining f - n) (refunded f)).
Proof.
  intros Hid <- Hn Hw [Hr Ht Hl Ha Hb Htr Hrf Hs].
  assert (Ho : ∀ g, own (bd_farm b) g (with_entry b (acc_reward_per_share f)) = g (with_entry b (acc_reward_per_share f)))
    by (intros g; apply (own_same (with_entry b _))).
  split; farm_fields; try done; try lia.
  - rewrite (msum_replace _ _ b), own_same, Ho by done. cbn. lia.
  - intros Href. specialize (Hrf Href). lia.
  - intros Href. specialize (Hs Href). rewrite owed_treasury. unfold owed in *. rewrite (msum_replace _ _ b), own_same, Ho by done.
    unfold accrued at 3. cbn [bond_amount with_entry entry_acc_per_share]. unfold unemitted in *. farm_fields. lia.
Qed.

Lemma farm_refund_ok bs fid f : farm_ok bs fid f → farm_ok bs fid (with_treasury f 0 true).
Proof. intros [Hr Ht Hl Ha Hb Htr Hrf Hs]. split; farm_fields; try done; lia. Qed.

(** ** Putting a farm back *)
(** [fs'] is [fs] with farm [fid] replaced and bonds of [fid] alone changed. *)
Lemma fstore_ok_put fs fs' fid f' :
  fstore_ok fs → farms fs' = <[fid := f']> (farms fs) →
  (∀ k b, bd_farm b ≠ fid → bonds fs !! k = Some b ↔ bonds fs' !! k = Some b) →
  farm_ok (bonds fs') fid f' →
  (∀ k b, bonds fs' !! k = Some b → bd_farm b = fid →
     AMM_FARM_MIN_BOND <= bond_amount b ∧ 0 <= entry_acc_per_share b <= acc_reward_per_share f') →
  fstore_ok fs'.
Proof.
  intros [Hf Hb] Ef Ho Hok Hbs. split.
  - intros g fg. rewrite Ef. intros [[<- <-]|[Hne Eg]]%lookup_insert_Some; [done|].
    apply (farm_ok_agree _ _ (bonds fs)); [|by apply Hf]. intros k b E. apply Ho. congruence.
  - intros k b Ek. destruct (decide (bd_farm b = fid)) as [<-|Hne].
    + destruct (Hbs k b Ek eq_refl). split; [done|]. exists f'. by rewrite Ef, lookup_insert_eq.
    + apply Ho in Ek as Ek'; [|done]. destruct (Hb k b Ek') as [? (g & Eg & ?)]. split; [done|].
      exists g. rewrite Ef, lookup_insert_ne by done. done.
Qed.

(** ** The handlers *)
Section handlers.
Context `{Hash} {SE : Secp} {CH : Chain} {RC : Records} {IX : Indexer}.

Lemma schedule_ok_spec h p fi :
  0 <= FarmInit.rewardPerBlock fi → 0 <= FarmInit.rewardTotal fi → schedule_ok h p fi = true →
  0 < FarmInit.rewardPerBlock fi < 2 ^ 32 ∧
  FarmInit.rewardTotal fi = FarmInit.rewardPerBlock fi * (FarmInit.endHeight fi - FarmInit.startHeight fi) ∧
  AMM_FARM_MIN_REWARD_TOTAL <= FarmInit.rewardTotal fi < 2 ^ 63 ∧
  FarmInit.startHeight fi < FarmInit.endHeight fi < 2 ^ 32 ∧
  h + 3 <= FarmInit.startHeight fi <= h + AMM_FARM_MAX_START_DELAY ∧
  init_height p + AMM_INITIAL_LP_LOCK_BLOCKS <= FarmInit.startHeight fi.
Proof.
  intros Hr0 Ht0. unfold schedule_ok. cbv zeta. change (Z.shiftl 1 63) with (2 ^ 63).
  intros E. repeat match type of E with (if ?b then false else _) = _ => destruct b eqn:?; [done|] end. bool_to_prop.
  assert (Hr : 0 < FarmInit.rewardPerBlock fi) by lia.
  match goal with Hm : Z.rem _ _ = 0 |- _ => pose proof (Z.quot_rem' (FarmInit.rewardTotal fi) (FarmInit.rewardPerBlock fi)) as Hq; rewrite Hm in Hq end.
  unfold AMM_FARM_MIN_REWARD_TOTAL in *.
  set (d := FarmInit.rewardTotal fi ÷ FarmInit.rewardPerBlock fi) in *.
  assert (Ed : FarmInit.endHeight fi - FarmInit.startHeight fi = d) by lia.
  assert (0 < d) by nia. split_and!; try lia.
Qed.

(** The farms and bonds that the writes of each operation leave. *)
Lemma farm_init_effect h tx payload fi s fs ws :
  farm_init_handler h tx payload fi s fs = Ok ws →
  ∃ p lpAsset,
    let farmId := ammDeriveFarmId (FarmInit.poolId fi) (FarmInit.launcherPubkey fi) (FarmInit.rewardAssetId fi) (FarmInit.farmNonce fi) in
    pools s !! FarmInit.poolId fi = Some p ∧ tradable p = true ∧ schedule_ok h p fi = true ∧
    (∀ f, farms fs !! farmId = Some f → fm_txid f = wtxid tx) ∧
    ws = [ammFarmPut farmId
            (Farm (FarmInit.poolId fi) lpAsset (FarmInit.rewardAssetId fi) (FarmInit.launcherPubkey fi)
                  (FarmInit.rewardTotal fi) (FarmInit.rewardPerBlock fi) (FarmInit.startHeight fi) (FarmInit.endHeight fi)
                  0 0 (FarmInit.startHeight fi) (FarmInit.rewardTotal fi) (wtxid tx) false);
          ammFarmPoolAppend (FarmInit.poolId fi) farmId].
Proof.
  unfold farm_init_handler. intros E. hinv E. subst ws. do 2 eexists. cbv zeta. split_and!; try eassumption; try reflexivity.
  intros f Ef. rewrite Ef in *. by bool_to_prop.
Qed.

Lemma lp_bond_effect h tx payload lb fs ws :
  lp_bond_handler h tx payload lb fs = Ok ws →
  ∃ f,
    let f' := _farmCrystallize f (canonical_height f h) in
    let id := bond_id (wtxid tx) in
    farms fs !! LpBond.farmId lb = Some f ∧ h < end_height f ∧ AMM_FARM_MIN_BOND <= LpBond.bondAmount lb ∧
    LpBond.entryAccPerShare lb = acc_reward_per_share f' ∧ bonds fs !! id = None ∧
    ws = [ammFarmBondPut id (Bond (LpBond.farmId lb) (LpBond.bondAmount lb) (LpBond.entryAccPerShare lb)
                               (LpBond.bonderPubkey lb) (LpBond.ownerCommit lb) (LpBond.nonce lb) h);
          ammFarmBonderAppend (LpBond.bonderPubkey lb) id;
          ammFarmOwnerPut (LpBond.ownerCommit lb) id;
          ammFarmPut (LpBond.farmId lb) (with_bonded f' (total_bonded f' + LpBond.bondAmount lb))].
Proof.
  unfold lp_bond_handler. intros E. hinv E. subst ws. eexists. cbv zeta. split_and!; try eassumption; try reflexivity; try lia.
  match goal with Hn : ¬ is_Some _ |- _ => by apply eq_None_not_Some in Hn end.
Qed.
Lemma lp_unbond_effect h tx payload lu fs ws :
  lp_unbond_handler h tx payload lu fs = Ok ws →
  ∃ id b f C,
    let f' := _farmCrystallize f (canonical_height f h) in
    owners fs !! LpUnbond.ownerCommit lu = Some id ∧ bonds fs !! id = Some b ∧ bd_farm b = LpUnbond.farmId lu ∧
    owner_commit b = LpUnbond.ownerCommit lu ∧ receipt_nonce b = LpUnbond.nonce lu ∧ LpUnbond.shares lu = bond_amount b ∧
    farms fs !! LpUnbond.farmId lu = Some f ∧ receipts fs !! wtxid tx = None ∧
    pedersenCommit (bond_amount b) (bytes32ToBigint (LpUnbond.lpReturnR lu)) = Ok C ∧
    ws = [ammFarmUnbondReceiptPut (wtxid tx)
            (Receipt UnbondReceipt (LpUnbond.farmId lu) (Some id) (fm_lp_asset f) (toRawBytes C) (bond_amount b) (LpUnbond.lpReturnR lu));
          ammFarmPut (LpUnbond.farmId lu) (with_bonded f' (total_bonded f' - bond_amount b));
          ammFarmBondDelete id;
          ammFarmBonderRemove (bonder_pubkey b) id;
          ammFarmOwnerDelete (LpUnbond.ownerCommit lu)].
Proof.
  unfold lp_unbond_handler. intros E. hinv E. subst ws. do 4 eexists. cbv zeta. split_and!; try eassumption; try reflexivity; try done.
  match goal with Hn : ¬ is_Some _ |- _ => by apply eq_None_not_Some in Hn end.
Qed.

(** [paid] is the receipt of the reward, empty when nothing is claimed. *)
Lemma lp_harvest_effect h tx payload lh fs ws :
  lp_harvest_handler h tx payload lh fs = Ok ws →
  ∃ f b paid,
    let f' := _farmCrystallize f (canonical_height f h) in
    let n := LpHarvest.rewardAmount lh in
    farms fs !! LpHarvest.farmId lh = Some f ∧ bonds fs !! LpHarvest.bondId lh = Some b ∧ bd_farm b = LpHarvest.farmId lh ∧
    n <= treasury_remaining f' ∧
    n * scale <= bond_amount b * Z.max 0 (acc_reward_per_share f' - entry_acc_per_share b) ∧
    (paid = [] ∧ n <= 0 ∨
     0 < n ∧ receipts fs !! wtxid tx = None ∧
     ∃ C, pedersenCommit n (bytes32ToBigint (LpHarvest.rewardR lh)) = Ok C ∧
       paid = [ammFarmUnbondReceiptPut (wtxid tx)
                 (Receipt HarvestReceipt (LpHarvest.farmId lh) (Some (LpHarvest.bondId lh)) (fm_reward_asset f)
                    (toRawBytes C) n (LpHarvest.rewardR lh))]) ∧
    ws = paid ++ [ammFarmBondPut (LpHarvest.bondId lh) (with_entry b (acc_reward_per_share f'));
                  ammFarmPut (LpHarvest.farmId lh) (with_treasury f' (treasury_remaining f' - n) (refunded f'))].
Proof.
  unfold lp_harvest_handler. intros E. hinv E. subst ws. do 3 eexists. cbv zeta.
  split; [eassumption|]. split; [eassumption|]. split; [done|]. split; [lia|].
  split; [|split; [|reflexivity]].
  - match goal with Hw : Z.shiftl _ _ <= _ |- _ => rewrite Z.shiftl_mul_pow2 in Hw by done; fold scale in Hw; rewrite Z.gtb_ltb in Hw; rename Hw into Hwin end.
    etrans; [exact Hwin|]. apply Z.eq_le_incl. f_equal. clear. match goal with |- (if ?a <? ?b then _ else _) = _ => destruct (Z.ltb_spec a b); lia end.
  - match goal with Hp : (if _ then _ else _) = Ok _ |- _ => rename Hp into Hpaid end.
    destruct (Z.gtb_spec (LpHarvest.rewardAmount lh) 0) as [Hpos|Hneg].
    + right. split; [done|]. hinv Hpaid. subst.
      match goal with Hn : true && _ = false |- _ => cbn in Hn end. bool_to_prop.
      match goal with Hn : ¬ is_Some _ |- _ => apply eq_None_not_Some in Hn end.
      split; [done|]. eexists. split; [eassumption|reflexivity].
    + left. injection Hpaid as <-. split; [done|lia].
Qed.

Lemma farm_refund_effect h tx payload fr fs ws :
  farm_refund_handler h tx payload fr fs = Ok ws →
  ∃ f C,
    farms fs !! FarmRefund.farmId fr = Some f ∧ refunded f = false ∧ treasury_remaining f ≠ 0 ∧
    end_height f + AMM_FARM_REFUND_GRACE_BLOCKS <= h - 3 ∧ fm_launcher f = FarmRefund.launcherPubkey fr ∧
    pedersenCommit (treasury_remaining f) (bytes32ToBigint (FarmRefund.refundR fr)) = Ok C ∧
    ws = [ammFarmPut (FarmRefund.farmId fr) (with_treasury f 0 true);
          ammFarmUnbondReceiptPut (wtxid tx)
            (Receipt RefundReceipt (FarmRefund.farmId fr) None (fm_reward_asset f) (toRawBytes C)
               (treasury_remaining f) (FarmRefund.refundR fr))].
Proof.
  unfold farm_refund_handler. intros E. hinv E. subst ws. do 2 eexists. split_and!; try eassumption; try reflexivity; done || lia.
Qed.


(** ** The bonds and farms stay sound *)
Lemma crystallized_ok fs fid f h :
  fstore_ok fs → farms fs !! fid = Some f →
  farm_ok (bonds fs) fid (_farmCrystallize f h) ∧ acc_reward_per_share f <= acc_reward_per_share (_farmCrystallize f h).
Proof.
  intros Hs Ef. apply farm_crystallize_ok; [|by apply (so_farms _ Hs)].
  intros k b Ek Eb. by destruct (bonds_positive _ _ _ Hs Ef k b Ek Eb).
Qed.

(** A bond of the farm, seen from the advanced accumulator. *)
Lemma crystallized_bond fs fid f h k b :
  fstore_ok fs → farms fs !! fid = Some f → bonds fs !! k = Some b → bd_farm b = fid →
  AMM_FARM_MIN_BOND <= bond_amount b ∧ 0 <= entry_acc_per_share b <= acc_reward_per_share (_farmCrystallize f h).
Proof.
  intros Hs Ef Ek Eb. pose proof (crystallized_ok fs fid f h Hs Ef) as [_ Hle].
  destruct (bonds_positive _ _ _ Hs Ef k b Ek Eb) as [_ ?]. split; [apply (so_bonds _ Hs _ _ Ek)|lia].
Qed.

Lemma farm_init_ok h tx payload fi s fs ws :
  FarmInit.decodable fi → fstore_ok fs → (∀ fid f, farms fs !! fid = Some f → fm_txid f ≠ wtxid tx) →
  farm_init_handler h tx payload fi s fs = Ok ws → fstore_ok (run_writes fs ws).
Proof.
  intros Hd Hs Hnew (p & lp & E)%farm_init_effect. cbv zeta in E. destruct E as (_ & _ & Hsch & Hex & ->).
  unfold FarmInit.decodable in Hd. apply schedule_ok_spec in Hsch as (Hr & Ht & Hb & Hst & _); [|lia..].
  set (fid := ammDeriveFarmId _ _ _ _) in *.
  assert (Hnone : ∀ k b, bonds fs !! k = Some b → bd_farm b ≠ fid).
  { intros k b Ek Eb. destruct (so_bonds _ Hs _ _ Ek) as [_ (f & Ef & _)]. rewrite Eb in Ef. eapply Hnew, Hex; eassumption. }
  destruct fs as [fm bm bb ow pf rs]. cbn [run_writes foldl apply_write]. cbn [farms bonds] in *.
  eapply fstore_ok_put; [exact Hs|reflexivity|done| |].
  - unfold AMM_FARM_MIN_REWARD_TOTAL in *. split; cbn -[Z.pow]; try done; try lia.
    + by rewrite own_none.
    + intros _. unfold owed. rewrite own_none by done. unfold unemitted. cbn. rewrite Ht. lia.
  - intros k b Ek Eb. by destruct (Hnone k b Ek).
Qed.

Lemma lp_bond_ok h tx payload lb fs ws :
  fstore_ok fs → lp_bond_handler h tx payload lb fs = Ok ws → fstore_ok (run_writes fs ws).
Proof.
  intros Hs (f & E)%lp_bond_effect. cbv zeta in E. destruct E as (Ef & _ & Hmin & He & Hid & ->).
  pose proof (crystallized_ok _ _ _ (canonical_height f h) Hs Ef) as [Hok _].
  pose proof (λ k b, crystallized_bond _ _ _ (canonical_height f h) k b Hs Ef) as Hbs.
  set (f' := _farmCrystallize f _) in *. set (b0 := Bond _ _ _ _ _ _ _). set (id := bond_id _) in *.
  destruct fs as [fm bm bb ow pf rs]. cbn [run_writes foldl apply_write]. cbn [farms bonds] in *.
  eapply fstore_ok_put; [exact Hs|reflexivity| | |]; cbn [bonds].
  - intros k b Hne. rewrite lookup_insert_Some. split; [|by intros [[_ <-]|[_ ?]]].
    intros Ek. right. split; [congruence|done].
  - apply (farm_bond_ok _ _ f' id b0); done.
  - intros k b [[_ <-]|[_ Ek]]%lookup_insert_Some Eb; [|by apply (Hbs k)]. cbn.
    split; [done|]. rewrite He. destruct Hok. cbn. lia.
Qed.

Lemma lp_unbond_ok h tx payload lu fs ws :
  fstore_ok fs → lp_unbond_handler h tx payload lu fs = Ok ws → fstore_ok (run_writes fs ws).
Proof.
  intros Hs (id & b & f & C & E)%lp_unbond_effect. cbv zeta in E. destruct E as (_ & Ek & Eb & _ & _ & _ & Ef & _ & _ & ->).
  pose proof (crystallized_ok _ _ _ (canonical_height f h) Hs Ef) as [Hok _].
  pose proof (λ k b, crystallized_bond _ _ _ (canonical_height f h) k b Hs Ef) as Hbs.
  set (f' := _farmCrystallize f _) in *.
  destruct fs as [fm bm bb ow pf rs]. cbn [run_writes foldl apply_write]. cbn [farms bonds] in *.
  eapply fstore_ok_put; [exact Hs|reflexivity| | |]; cbn [bonds].
  - intros k b' Hne. rewrite lookup_delete_Some. split; [|by intros [_ ?]]. intros Ek'. split; [congruence|done].
  - apply (farm_unbond_ok _ _ f' id b); try done. destruct (Hbs id b Ek Eb) as [Hm ?].
    unfold accrued, AMM_FARM_MIN_BOND in *. apply Z.mul_nonneg_nonneg; lia.
  - intros k b' [_ Ek']%lookup_delete_Some Eb'. by apply (Hbs k).
Qed.

Lemma lp_harvest_ok h tx payload lh fs ws :
  0 <= LpHarvest.rewardAmount lh → fstore_ok fs → lp_harvest_handler h tx payload lh fs = Ok ws → fstore_ok (run_writes fs ws).
Proof.
  intros Hn Hs (f & b & paid & E)%lp_harvest_effect. cbv zeta in E. destruct E as (Ef & Ek & Eb & Ht & Hw & Hp & ->).
  pose proof (crystallized_ok _ _ _ (canonical_height f h) Hs Ef) as [Hok _].
  pose proof (λ k b, crystallized_bond _ _ _ (canonical_height f h) k b Hs Ef) as Hbs.
  set (f' := _farmCrystallize f _) in *.
  assert (Hr : farms (run_writes fs paid) = farms fs ∧ bonds (run_writes fs paid) = bonds fs).
  { destruct Hp as [[-> _]|(_ & _ & C & _ & ->)]; [done|by destruct fs]. }
  unfold run_writes in *. rewrite foldl_app. destruct (foldl _ fs paid) as [fm bm bb ow pf rs].
  cbn [farms bonds] in Hr. destruct Hr as [-> ->]. cbn [foldl apply_write].
  destruct (Hbs _ _ Ek Eb) as [Hm He].
  eapply fstore_ok_put; [exact Hs|reflexivity| | |]; cbn [bonds].
  - intros k b' Hne. rewrite lookup_insert_Some. split; [|by intros [[_ <-]|[_ ?]]].
    intros Ek'. right. split; [congruence|done].
  - apply (farm_harvest_ok _ _ f' _ b); try done. unfold accrued. rewrite Z.max_r in Hw by lia. done.
  - intros k b' [[_ <-]|[_ Ek']]%lookup_insert_Some Eb'; [|by apply (Hbs k)]. cbn.
    split; [done|]. lia.
Qed.

Lemma refund_handler_ok h tx payload fr fs ws :
  fstore_ok fs → farm_refund_handler h tx payload fr fs = Ok ws → fstore_ok (run_writes fs ws).
Proof.
  intros Hs (f & C & Ef & _ & _ & _ & _ & _ & ->)%farm_refund_effect.
  pose proof (so_farms _ Hs _ _ Ef) as Hok. pose proof (bonds_positive _ _ _ Hs Ef) as Hbs.
  pose proof (so_bonds _ Hs) as Hb.
  destruct fs as [fm bm bb ow pf rs]. cbn [run_writes foldl apply_write]. cbn [farms bonds] in *.
  eapply fstore_ok_put; [exact Hs|reflexivity|done| |]; cbn [bonds].
  - by apply farm_refund_ok.
  - intros k b Ek Eb. split; [apply (Hb _ _ Ek)|apply (Hbs k b Ek Eb)].
Qed.
End handlers.
