(* ===== verification/FarmScan.v ===== *)
(** * Farms over a whole scan

    The step relation of the farm handlers, the ledger of the rewards (what a farm was
    funded with is what is left and what its receipts paid out), what scanning a
    transaction again does, and what an interrupted one leaves behind. *)
From S2P Require Import Prelude Bytes Crypto CodecTransfer CodecPool CodecSlots CodecAmm CodecBatch.
From S2P Require Import Messages AmmMath Curve Kernel Notes WorkerNotes AmmPool AmmBatch AmmScan AmmPoolFacts Farm FarmFacts.

(** ** The accumulator, in one step or in two *)
Lemma div_add_bounds x y d : 0 < d → x / d + y / d <= (x + y) / d <= x / d + y / d + 1.
Proof.
  intros Hd. pose proof (Z.div_mod x d ltac:(lia)). pose proof (Z.div_mod y d ltac:(lia)).
  pose proof (Z.mod_pos_bound x d Hd). pose proof (Z.mod_pos_bound y d Hd).
  split; [apply Z.div_le_lower_bound|apply Z.lt_succ_r, Z.div_lt_upper_bound]; nia.
Qed.

(** A farm whose schedule has started to be followed. *)
Definition scheduled (f : farm) : Prop :=
  start_height f <= last_update_height f <= end_height f ∧ 0 < reward_per_block f ∧ 0 <= total_bonded f.

Lemma farm_ok_scheduled fs fid f : fstore_ok fs → farms fs !! fid = Some f → scheduled f.
Proof.
  intros Hs Ef. pose proof (so_farms _ Hs _ _ Ef) as Hok. split; [apply Hok|]. split; [apply Hok|].
  rewrite (fo_bonded _ _ _ Hok). apply own_nonneg. intros k b Ek Eb.
  apply Z.lt_le_incl. by destruct (bonds_positive _ _ _ Hs Ef k b Ek Eb).
Qed.

(** the blocks the accumulator has still to follow up to [h] *)
Definition pending (f : farm) (h : Z) : Z := Z.max 0 (Z.min h (end_height f) - last_update_height f).

Lemma crystallize_acc f h :
  scheduled f →
  last_update_height (_farmCrystallize f h) = last_update_height f + pending f h ∧
  acc_reward_per_share (_farmCrystallize f h) =
    acc_reward_per_share f +
      (if 0 <? total_bonded f then scale * (reward_per_block f * pending f h) / total_bonded f else 0).
Proof.
  intros (Hl & Hr & Hb). unfold pending.
  destruct (crystallize_cases f h Hl Hr) as [[Hle ->]|[Hlt ->]].
  - rewrite Z.max_l by lia. split; [lia|]. rewrite !Z.mul_0_r, Zdiv_0_l. case_match; lia.
  - rewrite Z.max_r by lia. cbn. split; [lia|done].
Qed.

Lemma scheduled_crystallize f h : scheduled f → scheduled (_farmCrystallize f h).
Proof.
  intros Hf. pose proof (crystallize_acc f h Hf) as [Hl _]. destruct Hf as (H1 & H2 & H3).
  destruct (crystallize_frame f h) as (_ & Er & _ & Es & Ee & Et & _). unfold scheduled, pending in *.
  rewrite Er, Es, Ee, Et. lia.
Qed.

Lemma crystallize_split f h1 h2 :
  scheduled f → h1 <= h2 →
  let once := _farmCrystallize f h2 in
  let twice := _farmCrystallize (_farmCrystallize f h1) h2 in
  last_update_height twice = last_update_height once ∧
  acc_reward_per_share twice <= acc_reward_per_share once <= acc_reward_per_share twice + 1.
Proof.
  intros Hf Hh. cbv zeta.
  destruct (crystallize_acc f h2 Hf) as [El2 Ea2]. destruct (crystallize_acc f h1 Hf) as [El1 Ea1].
  destruct (crystallize_acc (_farmCrystallize f h1) h2 (scheduled_crystallize f h1 Hf)) as [El Ea].
  destruct (crystallize_frame f h1) as (_ & Er & _ & _ & Ee & Et & _).
  assert (Ep : pending f h1 + pending (_farmCrystallize f h1) h2 = pending f h2).
  { unfold pending in *. rewrite Ee, El1. destruct Hf as (? & _ & _). lia. }
  rewrite El, El1, El2, Ea, Ea1, Ea2, Er, Et. split; [lia|].
  destruct (Z.ltb_spec 0 (total_bonded f)); [|lia].
  pose proof (div_add_bounds (scale * (reward_per_block f * pending f h1))
    (scale * (reward_per_block f * pending (_farmCrystallize f h1) h2)) (total_bonded f) ltac:(lia)) as Hd.
  rewrite <- Z.mul_add_distr_l, <- Z.mul_add_distr_l, Ep in Hd. lia.
Qed.

(** At no greater height the accumulator stays where it is. *)
Lemma crystallize_settled f h h2 n r :
  scheduled f → h2 <= h →
  let g := with_treasury (_farmCrystallize f (canonical_height f h)) n r in
  acc_reward_per_share (_farmCrystallize g (canonical_height g h2)) = acc_reward_per_share (_farmCrystallize f (canonical_height f h)).
Proof.
  intros Hf Hh g. pose proof (scheduled_crystallize f (canonical_height f h) Hf) as Hf'.
  destruct (crystallize_acc f (canonical_height f h) Hf) as [El _].
  destruct (crystallize_frame f (canonical_height f h)) as (_ & _ & _ & _ & Ee & _).
  destruct (crystallize_acc g (canonical_height g h2) Hf') as [_ ->].
  assert (Hp : pending g (canonical_height g h2) = 0).
  { unfold pending, canonical_height in *. subst g. cbn [with_treasury end_height last_update_height] in *. rewrite Ee, El.
    rewrite !Z.gtb_ltb. destruct (Z.ltb_spec (end_height f) h), (Z.ltb_spec (end_height f) h2); lia. }
  rewrite Hp, !Z.mul_0_r, Zdiv_0_l. subst g. cbn. case_match; lia.
Qed.

(** ** The ledger of the rewards *)
Definition drawn (fid : bytes) (r : receipt) : Z :=
  match rc_kind r with UnbondReceipt => 0 | _ => if bool_decide (rc_farm r = fid) then rc_amount r else 0 end.
(** what the receipts paid out of a farm's treasury *)
Definition paid_out (fs : fstore) (fid : bytes) : Z := msum (drawn fid) (receipts fs).

Record ledger_ok (fs : fstore) : Prop := LedgerOk {
  lo_farm : ∀ t r, receipts fs !! t = Some r → is_Some (farms fs !! rc_farm r);
  lo_sum : ∀ fid f, farms fs !! fid = Some f → reward_total f = treasury_remaining f + paid_out fs fid }.

Lemma empty_ledger : ledger_ok empty_fstore.
Proof. by split. Qed.

Lemma drawn_other fid r : rc_farm r ≠ fid → drawn fid r = 0.
Proof. intros Hn. unfold drawn. rewrite bool_decide_eq_false_2 by done. by destruct (rc_kind r). Qed.

Lemma paid_none fs fid : (∀ t r, receipts fs !! t = Some r → rc_farm r ≠ fid) → paid_out fs fid = 0.
Proof.
  intros Hn. unfold paid_out. rewrite (msum_ext _ (λ _, 0 * 0)); [rewrite msum_scale; lia|].
  intros t r Er. rewrite drawn_other; eauto.
Qed.

(** One farm changes and at most one receipt of it is added. *)
Lemma ledger_step fs fs' fid f f' :
  ledger_ok fs → farms fs !! fid = Some f → farms fs' = <[fid := f']> (farms fs) → reward_total f' = reward_total f →
  (receipts fs' = receipts fs ∧ treasury_remaining f' = treasury_remaining f) ∨
  (∃ t r, receipts fs !! t = None ∧ receipts fs' = <[t := r]> (receipts fs) ∧ rc_farm r = fid ∧
     treasury_remaining f' + drawn fid r = treasury_remaining f) →
  ledger_ok fs'.
Proof.
  intros [Hr Hsum] Ef Ef' Et Hc.
  assert (Hfarm : ∀ g, is_Some (farms fs !! g) → is_Some (farms fs' !! g)).
  { intros g. rewrite Ef', lookup_insert. case_decide; [by intros _; eexists|done]. }
  destruct Hc as [[Er Etr]|(t & r & Hnone & Er & Erf & Etr)].
  - assert (Ep : ∀ g, paid_out fs' g = paid_out fs g) by (intros g; unfold paid_out; by rewrite Er).
    split; [intros t r; rewrite Er; eauto|]. intros g fg. rewrite Ef', Ep.
    intros [[<- <-]|[_ Eg]]%lookup_insert_Some; [rewrite Et, Etr|]; by apply Hsum.
  - assert (Ep : ∀ g, paid_out fs' g = drawn g r + paid_out fs g) by (intros g; unfold paid_out; by rewrite Er, msum_insert).
    split.
    + intros t' r'. rewrite Er. intros [[_ <-]|[_ ?]]%lookup_insert_Some; [|eauto]. rewrite Erf. apply Hfarm. eauto.
    + intros g fg. rewrite Ef', Ep. intros [[<- <-]|[Hne Eg]]%lookup_insert_Some.
      * specialize (Hsum _ _ Ef). lia.
      * rewrite drawn_other by congruence. by apply Hsum.
Qed.

Section scan.
Context `{Hash} {SE : Secp} {CH : Chain} {RC : Records} {IX : Indexer}.

Lemma farm_init_ledger h tx payload fi s fs ws :
  ledger_ok fs → (∀ fid f, farms fs !! fid = Some f → fm_txid f ≠ wtxid tx) →
  farm_init_handler h tx payload fi s fs = Ok ws → ledger_ok (run_writes fs ws).
Proof.
  intros [Hr Hsum] Hnew (p & lp & E)%farm_init_effect. cbv zeta in E. destruct E as (_ & _ & _ & Hex & ->).
  set (fid := ammDeriveFarmId _ _ _ _) in *.
  assert (Hnone : ∀ t r, receipts fs !! t = Some r → rc_farm r ≠ fid).
  { intros t r Er Eq. destruct (Hr t r Er) as [f Ef]. rewrite Eq in Ef. eapply Hnew, Hex; exact Ef. }
  pose proof (paid_none fs fid Hnone) as Hz.
  destruct fs as [fm bm bb ow pf rs]. cbn [run_writes foldl apply_write]. cbn [farms receipts] in *. split; cbn [farms receipts].
  - intros t r Er. rewrite lookup_insert_ne by (apply not_eq_sym; eauto). eauto.
  - intros g fg [[<- <-]|[_ Eg]]%lookup_insert_Some; [|exact (Hsum _ _ Eg)].
    change (paid_out (FStore _ bm bb ow _ rs) fid) with (paid_out (FStore fm bm bb ow pf rs) fid). rewrite Hz. cbn. lia.
Qed.

Lemma lp_bond_ledger h tx payload lb fs ws :
  ledger_ok fs → lp_bond_handler h tx payload lb fs = Ok ws → ledger_ok (run_writes fs ws).
Proof.
  intros Hl (f & E)%lp_bond_effect. cbv zeta in E. destruct E as (Ef & _ & _ & _ & _ & ->).
  destruct (crystallize_frame f (canonical_height f h)) as (_ & _ & Et & _ & _ & _ & Etr & _).
  destruct fs as [fm bm bb ow pf rs]. cbn [run_writes foldl apply_write].
  eapply (ledger_step _ _ _ f _ Hl Ef); [reflexivity|done|by left].
Qed.

Lemma lp_unbond_ledger h tx payload lu fs ws :
  ledger_ok fs → lp_unbond_handler h tx payload lu fs = Ok ws → ledger_ok (run_writes fs ws).
Proof.
  intros Hl (id & b & f & C & E)%lp_unbond_effect. cbv zeta in E. destruct E as (_ & _ & _ & _ & _ & _ & Ef & Hn & _ & ->).
  destruct (crystallize_frame f (canonical_height f h)) as (_ & _ & Et & _ & _ & _ & Etr & _).
  destruct fs as [fm bm bb ow pf rs]. cbn [run_writes foldl apply_write].
  eapply (ledger_step _ _ _ f _ Hl Ef); [reflexivity|done|right]. do 2 eexists.
  split; [exact Hn|]. split; [reflexivity|]. split; [done|]. cbn. lia.
Qed.

Lemma lp_harvest_ledger h tx payload lh fs ws :
  0 <= LpHarvest.rewardAmount lh → ledger_ok fs → lp_harvest_handler h tx payload lh fs = Ok ws → ledger_ok (run_writes fs ws).
Proof.
  intros H0' Hl (f & b & paid & E)%lp_harvest_effect. cbv zeta in E. destruct E as (Ef & _ & _ & _ & _ & Hp & ->).
  destruct (crystallize_frame f (canonical_height f h)) as (_ & _ & Et & _ & _ & _ & Etr & _).
  destruct fs as [fm bm bb ow pf rs].
  destruct Hp as [[-> Hn]|(Hn & Hno & C & _ & ->)]; cbn [app run_writes foldl apply_write];
    (eapply (ledger_step _ _ _ f _ Hl Ef); [reflexivity|done|]).
  - left. split; [done|]. cbn. lia.
  - right. do 2 eexists. split; [exact Hno|]. split; [reflexivity|]. split; [done|].
    unfold drawn. cbn. rewrite bool_decide_eq_true_2 by done. lia.
Qed.

Lemma refund_ledger h tx payload fr fs ws :
  receipts fs !! wtxid tx = None → ledger_ok fs → farm_refund_handler h tx payload fr fs = Ok ws → ledger_ok (run_writes fs ws).
Proof.
  intros Hno Hl (f & C & Ef & _ & _ & _ & _ & _ & ->)%farm_refund_effect.
  destruct fs as [fm bm bb ow pf rs]. cbn [run_writes foldl apply_write].
  eapply (ledger_step _ _ _ f _ Hl Ef); [reflexivity|done|right]. do 2 eexists. split; [exact Hno|].
  split; [reflexivity|]. split; [done|]. unfold drawn. cbn. rewrite bool_decide_eq_true_2 by done. lia.
Qed.

(** ** The scan *)
(** What the scan relies on: a transaction that created a farm is not scanned again, and
    the transaction of a refund carries no other operation's receipt. *)
Definition first_scan (op : Z) (tx : wtx) (fs : fstore) : Prop :=
  (op = T_FARM_INIT → ∀ fid f, farms fs !! fid = Some f → fm_txid f ≠ wtxid tx) ∧
  (op = T_FARM_REFUND → receipts fs !! wtxid tx = None).

Definition farm_step (fs fs' : fstore) : Prop :=
  ∃ h tx op payload s, first_scan op tx fs ∧ scan_farm h tx op payload s fs = Ok fs'.
Definition farm_reachable (fs : fstore) : Prop := rtc farm_step empty_fstore fs.

Lemma scan_farm_Ok h tx op payload s fs fs' :
  scan_farm h tx op payload s fs = Ok fs' →
  fs' = fs ∨ ∃ ws, farm_handler h tx op payload s fs = Ok ws ∧ fs' = run_writes fs ws.
Proof. unfold scan_farm. case_match; intros [= <-]; [right; eauto|by left]. Qed.

(** Which handler ran. *)
Lemma farm_handler_Ok h tx op payload s fs ws :
  farm_handler h tx op payload s fs = Ok ws →
  (op = T_FARM_INIT ∧ ∃ fi, FarmInit.decodeTFarmInitPayload payload = Ok fi ∧ farm_init_handler h tx payload fi s fs = Ok ws) ∨
  (op = T_LP_BOND ∧ ∃ lb, LpBond.decodeTLpBondPayload payload = Ok lb ∧ lp_bond_handler h tx payload lb fs = Ok ws) ∨
  (op = T_LP_UNBOND ∧ ∃ lu, LpUnbond.decodeTLpUnbondPayload payload = Ok lu ∧ lp_unbond_handler h tx payload lu fs = Ok ws) ∨
  (op = T_LP_HARVEST ∧ ∃ lh, LpHarvest.decodeTLpHarvestPayload payload = Ok lh ∧ lp_harvest_handler h tx payload lh fs = Ok ws) ∨
  (op = T_FARM_REFUND ∧ ∃ fr, FarmRefund.decodeTFarmRefundPayload payload = Ok fr ∧ farm_refund_handler h tx payload fr fs = Ok ws).
Proof.
  unfold farm_handler. intros E.
  repeat match type of E with (if ?a =? ?b then _ else _) = _ => destruct (Z.eqb_spec a b) as [Ho|_] end; [..|done];
    apply res_bind_Ok in E as (m & Em & E); apply (proj1 (tryc_Ok _ _)) in Em;
    [left|right; left|do 2 right; left|do 3 right; left|do 4 right]; (split; [exact Ho|]); exists m; by split.
Qed.

Lemma farm_step_ok fs fs' : farm_step fs fs' → fstore_ok fs → ledger_ok fs → fstore_ok fs' ∧ ledger_ok fs'.
Proof.
  intros (h & tx & op & payload & s & [Hi Hr] & E) Hs Hl. apply scan_farm_Ok in E as [->|(ws & E & ->)]; [done|].
  apply farm_handler_Ok in E as [(-> & m & Em & E)|[(-> & m & Em & E)|[(-> & m & Em & E)|[(-> & m & Em & E)|(-> & m & Em & E)]]]].
  - apply FarmInit.farmInit_decode_Ok in Em as [_ Hd]. split; [eapply farm_init_ok|eapply farm_init_ledger]; eauto.
  - eauto using lp_bond_ok, lp_bond_ledger.
  - eauto using lp_unbond_ok, lp_unbond_ledger.
  - apply LpHarvest.lpHarvest_decode_Ok in Em as [_ Hd]. unfold LpHarvest.decodable in Hd.
    split; [eapply lp_harvest_ok|eapply lp_harvest_ledger]; try eassumption; apply Hd.
  - eauto using refund_handler_ok, refund_ledger.
Qed.

Lemma farm_reachable_ok fs : farm_reachable fs → fstore_ok fs ∧ ledger_ok fs.
Proof.
  unfold farm_reachable. pose proof empty_fstore_ok as Hs. pose proof empty_ledger as Hl. revert Hs Hl.
  generalize empty_fstore. intros fs0 Hs Hl Hr. induction Hr as [|fs1 fs2 fs3 Hst _ IH]; [done|].
  destruct (farm_step_ok _ _ Hst Hs Hl). auto.
Qed.

(** ** Scanning a transaction again *)
(** Receipts stay, and so do the records of a farm, whatever is written. *)
Lemma writes_keep_receipts ws fs t : is_Some (receipts fs !! t) → is_Some (receipts (run_writes fs ws) !! t).
Proof.
  unfold run_writes. revert fs. induction ws as [|w ws IH]; [done|]. intros fs Hr. apply IH.
  destruct fs as [fm bm bb ow pf rs], w; cbn in *; try done. rewrite lookup_insert. case_decide; [by eexists|done].
Qed.
Lemma steps_keep_receipts fs fs' t : rtc farm_step fs fs' → is_Some (receipts fs !! t) → is_Some (receipts fs' !! t).
Proof.
  intros Hst. induction Hst as [|fs1 fs2 fs3 (h & tx & op & payload & s & _ & E) _ IH]; [done|]. intros Hr. apply IH.
  apply scan_farm_Ok in E as [->|(ws & _ & ->)]; [done|by apply writes_keep_receipts].
Qed.

(** A refunded farm stays refunded. *)
Definition is_refunded (fid : bytes) (fs : fstore) : Prop := ∃ f, farms fs !! fid = Some f ∧ refunded f = true.

Lemma refunded_put fid g f' fm bm bb ow pf rs bm' bb' ow' pf' rs' :
  (∀ f, fm !! g = Some f → g = fid → refunded f = true → refunded f' = true) → (is_Some (fm !! g) ∨ g ≠ fid) →
  is_refunded fid (FStore fm bm bb ow pf rs) → is_refunded fid (FStore (<[g := f']> fm) bm' bb' ow' pf' rs').
Proof.
  intros Hf Hg (f & Ef & Hr). cbn in Ef. unfold is_refunded. cbn. destruct (decide (g = fid)) as [->|Hne].
  - exists f'. rewrite lookup_insert_eq. eauto.
  - exists f. by rewrite lookup_insert_ne.
Qed.

Lemma step_keeps_refunded fid fs fs' : farm_step fs fs' → is_refunded fid fs → is_refunded fid fs'.
Proof.
  intros (h & tx & op & payload & s & [Hi _] & E) Hr. apply scan_farm_Ok in E as [->|(ws & E & ->)]; [done|].
  apply farm_handler_Ok in E as [(-> & m & _ & E)|[(-> & m & _ & E)|[(-> & m & _ & E)|[(-> & m & _ & E)|(-> & m & _ & E)]]]].
  - apply farm_init_effect in E as (p & lp & E). cbv zeta in E. destruct E as (_ & _ & _ & Hex & ->).
    assert (Hne : ammDeriveFarmId (FarmInit.poolId m) (FarmInit.launcherPubkey m) (FarmInit.rewardAssetId m) (FarmInit.farmNonce m) ≠ fid).
    { intros Eq. destruct Hr as (f & Ef & _). rewrite <- Eq in Ef. eapply Hi; eauto. }
    destruct fs. cbn [run_writes foldl apply_write]. eapply refunded_put; [|by right|exact Hr]. intros ? _ ?. contradiction.
  - apply lp_bond_effect in E as (f & E). cbv zeta in E. destruct E as (Ef & _ & _ & _ & _ & ->).
    destruct fs. cbn [run_writes foldl apply_write]. eapply refunded_put; [|left; by eexists|exact Hr].
    cbn in *. rewrite Ef. intros ? [= <-] _ Hf. cbn. by destruct (crystallize_frame f (canonical_height f h)) as (_&_&_&_&_&_&_&->&_).
  - apply lp_unbond_effect in E as (id & b & f & C & E). cbv zeta in E. destruct E as (_ & _ & _ & _ & _ & _ & Ef & _ & _ & ->).
    destruct fs. cbn [run_writes foldl apply_write]. eapply refunded_put; [|left; by eexists|exact Hr].
    cbn in *. rewrite Ef. intros ? [= <-] _ Hf. cbn. by destruct (crystallize_frame f (canonical_height f h)) as (_&_&_&_&_&_&_&->&_).
  - apply lp_harvest_effect in E as (f & b & paid & E). cbv zeta in E. destruct E as (Ef & _ & _ & _ & _ & Hp & ->).
    destruct fs. destruct Hp as [[-> _]|(_ & _ & C & _ & ->)]; cbn [app run_writes foldl apply_write];
      (eapply refunded_put; [|left; by eexists|exact Hr]);
      cbn in *; rewrite Ef; intros ? [= <-] _ Hf; cbn; by destruct (crystallize_frame f (canonical_height f h)) as (_&_&_&_&_&_&_&->&_).
  - apply farm_refund_effect in E as (f & C & Ef & _ & _ & _ & _ & _ & ->).
    destruct fs. cbn [run_writes foldl apply_write]. eapply refunded_put; [done|left; by eexists|exact Hr].
Qed.

Lemma steps_keep_refunded fid fs fs' : rtc farm_step fs fs' → is_refunded fid fs → is_refunded fid fs'.
Proof. induction 1; [done|]. eauto using step_keeps_refunded. Qed.
End scan.
