(* ===== verification/FarmModel.v ===== *)
(** * A concrete run of a farm

    The pool of [AmmModel] gets a farm of 10^9 units over 1,000 blocks; one note of 2,000
    shares is bonded before it starts, harvested, and unbonded, over the group of
    [CurveModel].  The witnesses of the farm theorems are evaluated on this run. *)
From S2P Require Import Prelude Bytes Crypto EnvelopeScript CodecTransfer CodecPool CodecSlots CodecAmm CodecBatch.
From S2P Require Import Messages AmmMath Curve CurveModel Kernel Notes ChainModel WorkerNotes.
From S2P Require Import AmmPool AmmBatch AmmScan AmmPoolFacts AmmScanFacts AmmErrors AmmModel Farm FarmFacts FarmScan.

(** ** Funding *)
Definition toy_lp : bytes := Eval vm_compute in ok_or [] (ammDeriveLpAssetId toy_pid).
Definition reward_note : outpoint := Outpoint (be 32 14) 0.
Definition share_note : outpoint := Outpoint (be 32 15) 0.

Definition farm_chain : Chain := {|
  fetchTx id :=
    if bool_decide (id = be 32 14) then Some (funding_tx (funding_payload coinA [commitment_of 1000000000 3]))
    else if bool_decide (id = be 32 15) then Some (funding_tx (funding_payload toy_lp [commitment_of 2000 5]))
    else None;
  bppEnabled := true; bpRangeAggVerify _ _ := true; bppRangeVerify _ _ := true; trackedNotes _ := None;
  getAssetMeta _ := false; coordsHash _ := []; reflectedHeight := None; poolBinding := None;
  evmNullifierSpent _ := None; serviceParent _ _ := None; strictValidation := false |}.

Definition pubkey (secret : Z) : bytes := toRawBytes (commit 0 secret).

(** ** The farm *)
Definition toy_init_of (ks ls : bytes) : FarmInit.t :=
  FarmInit.Mk toy_pid (zeros 32) (pubkey 4) coinA 1000000000 1000000 120 1120 (zeros 33) [x00] ks ls 0 (zeros 32) (zeros 32).
Definition toy_fid : bytes := Eval vm_compute in ammDeriveFarmId toy_pid (pubkey 4) coinA (zeros 32).
Definition fi_ksig : bytes := Eval vm_compute in sign (SECP_N - 3) (ok_or [] (computeKernelMsg coinA [reward_note] [zeros 33] 1000000000)).
Definition toy_fi : FarmInit.t := Eval vm_compute in toy_init_of fi_ksig (sign 4 (farm_init_msg toy_fid (toy_init_of fi_ksig []) (ammFundingHash [reward_note] fi_ksig))).
Definition bound_tx (id : Z) (ins : list outpoint) (payload : bytes) : wtx :=
  WTx (be 32 id) (funding :: ins) [u8b 0x6a ++ u8b 0x20 ++ sha256 payload; [x51]].
Definition fi_payload : bytes := Eval vm_compute in ok_or [] (FarmInit.encodeFarmInit toy_fi).
Definition fi_tx : wtx := bound_tx 31 [reward_note] fi_payload.
(** ** A bond of 2,000 shares *)
Definition owner_key : bytes := Eval vm_compute in drop 1 (pubkey 6).
Definition bond_of (ks bs : bytes) : LpBond.t :=
  LpBond.Mk toy_fid (pubkey 4) 2000 0 115 owner_key (zeros 32) (zeros 33) [x00] ks bs 0 (zeros 32) (zeros 32).
Definition bond_ksig : bytes := Eval vm_compute in sign 5 (ok_or [] (ammLpBondKernelMsg toy_fid toy_lp 2000 [share_note])).
Definition toy_lb : LpBond.t := Eval vm_compute in bond_of bond_ksig (sign 4 (farm_bond_msg (bond_of bond_ksig []) (ammFundingHash [share_note] bond_ksig))).
Definition lb_payload : bytes := Eval vm_compute in ok_or [] (LpBond.encodeLpBond toy_lb).
Definition lb_tx : wtx := bound_tx 32 [share_note] lb_payload.

(** ** A harvest of half the rewards, in the middle of the schedule *)
Definition toy_id : bytes := Eval vm_compute in bond_id (be 32 32).
Definition harvest_with (sg : bytes) : LpHarvest.t :=
  LpHarvest.Mk toy_fid toy_id (pubkey 4) 0 0 500000000 (bigintToBytes32 8) owner_key (zeros 32) (zeros 32) 2000 0 sg.
Definition toy_lh : LpHarvest.t := Eval vm_compute in harvest_with (sign 6 (lpHarvestOwnerMsg toy_fid (farmReceiptLeaf toy_fid toy_lp 2000 owner_key (zeros 32)) 500000000 (bigintToBytes32 8) [x51])).
Definition lh_payload : bytes := Eval vm_compute in ok_or [] (LpHarvest.encodeLpHarvest toy_lh).
Abbreviation toy_harvest_handler h tx := (lp_harvest_handler h (bound_tx tx [] lh_payload) lh_payload toy_lh).

(** ** The bond taken out *)
Definition unbond_with (sg : bytes) : LpUnbond.t := LpUnbond.Mk toy_fid owner_key (zeros 32) 2000 0 (bigintToBytes32 9) sg.
Definition toy_lu : LpUnbond.t := Eval vm_compute in unbond_with (sign 6 (lpUnbondOwnerMsg toy_fid (farmReceiptLeaf toy_fid toy_lp 2000 owner_key (zeros 32)) 2000 (bigintToBytes32 9) [x51])).
Definition lu_payload : bytes := Eval vm_compute in ok_or [] (LpUnbond.encodeLpUnbond toy_lu).
Abbreviation toy_unbond_handler h tx := (lp_unbond_handler h (bound_tx tx [] lu_payload) lu_payload toy_lu).

(** ** The runs *)
Abbreviation farm_run h tx op payload fs := (farm_handler (CH := farm_chain) h tx op payload pool_store fs).
Definition init_writes : list write := Eval vm_compute in ok_or [] (farm_run 110 fi_tx T_FARM_INIT fi_payload empty_fstore).
Definition created : fstore := run_writes empty_fstore init_writes.
Definition bond_writes : list write := Eval vm_compute in ok_or [] (farm_run 115 lb_tx T_LP_BOND lb_payload created).
Definition bonded : fstore := run_writes created bond_writes.
Lemma created_run : farm_run 110 fi_tx T_FARM_INIT fi_payload empty_fstore = Ok init_writes.
Proof. vm_compute. reflexivity. Qed.
Lemma bonded_run : farm_run 115 lb_tx T_LP_BOND lb_payload created = Ok bond_writes.
Proof. vm_compute. reflexivity. Qed.

Definition do_bond (fs : fstore) : res fstore := scan_farm 115 lb_tx T_LP_BOND lb_payload empty_store fs (CH := farm_chain).
Definition do_harvest (h : Z) (tx : Z) (fs : fstore) : res fstore :=
  scan_farm h (bound_tx tx [] lh_payload) T_LP_HARVEST lh_payload empty_store fs (CH := farm_chain).
Definition do_unbond (h : Z) (tx : Z) (fs : fstore) : res fstore :=
  scan_farm h (bound_tx tx [] lu_payload) T_LP_UNBOND lu_payload empty_store fs (CH := farm_chain).
Definition farm_in (r : res fstore) : option (Z * Z * nat * nat) :=
  match r with
  | Ok fs => option_map (λ f, (total_bonded f, treasury_remaining f, size (bonds fs), size (receipts fs))) (farms fs !! toy_fid)
  | _ => None
  end.

Example in_bonded : farm_in (Ok bonded) = Some (2000, 1000000000, 1%nat, 0%nat).
Proof. vm_compute. reflexivity. Qed.
(** another transaction repeating the claim is refused *)
Example run_harvest_twice :
  farm_in (do_harvest 620 33 bonded) = Some (2000, 500000000, 1%nat, 1%nat) ∧
  farm_in (fs ← do_harvest 620 33 bonded; do_harvest 620 34 fs) = Some (2000, 500000000, 1%nat, 1%nat).
Proof. split; vm_compute; reflexivity. Qed.
(** one block earlier the same claim is above the accrual *)
Example run_early : farm_in (do_harvest 619 33 bonded) = Some (2000, 1000000000, 1%nat, 0%nat).
Proof. vm_compute. reflexivity. Qed.
(** bonded and unbonded before the start, the bond transaction scanned again brings the
    bond back, and a second unbond returns its shares once more *)
Example run_resurrected :
  farm_in (do_unbond 116 35 bonded) = Some (0, 1000000000, 0%nat, 1%nat) ∧
  farm_in (fs ← do_unbond 116 35 bonded; do_bond fs) = Some (2000, 1000000000, 1%nat, 1%nat) ∧
  farm_in (fs ← do_unbond 116 35 bonded; fs ← do_bond fs; do_unbond 117 36 fs) = Some (0, 1000000000, 0%nat, 2%nat).
Proof. split_and!; vm_compute; reflexivity. Qed.
(** the creation scanned again refills the treasury and forgets the bonded shares *)
Example run_reset :
  farm_in (fs ← do_harvest 620 33 bonded; scan_farm (CH := farm_chain) 110 fi_tx T_FARM_INIT fi_payload pool_store fs) =
    Some (0, 1000000000, 1%nat, 1%nat).
Proof. vm_compute. reflexivity. Qed.

(** ** The runs as steps *)
Lemma scan_runs h tx op payload s fs ws :
  farm_handler (CH := farm_chain) h tx op payload s fs = Ok ws → scan_farm (CH := farm_chain) h tx op payload s fs = Ok (run_writes fs ws).
Proof. unfold scan_farm. by intros ->. Qed.

Abbreviation toy_reachable := (@farm_reachable _ _ farm_chain _ _).
Lemma bonded_reachable : toy_reachable bonded.
Proof.
  apply (rtc_l _ _ created); [|apply rtc_once].
  - exists 110, fi_tx, T_FARM_INIT, fi_payload, pool_store. split; [|exact (scan_runs _ _ _ _ _ _ _ created_run)]. split; [|discriminate].
    intros _ fid f Hf. discriminate Hf.
  - exists 115, lb_tx, T_LP_BOND, lb_payload, pool_store. split; [|exact (scan_runs _ _ _ _ _ _ _ bonded_run)]. split; discriminate.
Qed.

Definition toy_farm : farm := Eval vm_compute in
  Farm toy_pid toy_lp coinA (pubkey 4) 1000000000 1000000 120 1120 0 2000 120 1000000000 (be 32 31) false.
Lemma bonded_farm : farms bonded !! toy_fid = Some toy_farm.
Proof. vm_compute. reflexivity. Qed.

Definition harvest_writes : list write := Eval vm_compute in ok_or [] (toy_harvest_handler 620 33 bonded).
Lemma harvest_run : toy_harvest_handler 620 33 bonded = Ok harvest_writes.
Proof. vm_compute. reflexivity. Qed.
Definition unbond_writes : list write := Eval vm_compute in ok_or [] (toy_unbond_handler 116 35 bonded).
Lemma unbond_run : toy_unbond_handler 116 35 bonded = Ok unbond_writes.
Proof. vm_compute. reflexivity. Qed.
Lemma toy_lh_decodes : LpHarvest.decodeTLpHarvestPayload lh_payload = Ok toy_lh.
Proof. vm_compute. reflexivity. Qed.
Lemma toy_lb_decodes : LpBond.decodeTLpBondPayload lb_payload = Ok toy_lb.
Proof. vm_compute. reflexivity. Qed.

(** A farm two days of its highest rate into its schedule, with the least bond. *)
Definition fast_farm : farm :=
  Farm toy_pid toy_lp coinA (pubkey 4) (4294967295 * 1000000) 4294967295 120 1000120 0 1000 120 (4294967295 * 1000000) (be 32 31) false.
Lemma fast_scheduled : scheduled fast_farm.
Proof. unfold scheduled. cbn. lia. Qed.
