(* ===== verification/FarmProps.v ===== *)
(** * What the indexer's farms guarantee

    The properties of the farm handlers, each from the lemmas of its component; witnesses
    on the run of [FarmModel]. *)
From S2P Require Import Prelude Bytes Crypto EnvelopeScript CodecTransfer CodecPool CodecSlots CodecAmm CodecBatch.
From S2P Require Import Messages AmmMath Curve CurveModel Kernel Notes ChainModel WorkerNotes.
From S2P Require Import AmmPool AmmBatch AmmScan AmmPoolFacts AmmScanFacts AmmErrors AmmModel Farm FarmFacts FarmScan FarmModel.


Section lemmas.
Context `{Hash} {SE : Secp} {CH : Chain} {RC : Records} {IX : Indexer}.

(** A store with one more receipt, to a transaction that does not carry it. *)
Definition with_receipt (t : bytes) (r : receipt) (fs : fstore) : fstore :=
  FStore (farms fs) (bonds fs) (bonder_bonds fs) (owners fs) (pool_farms fs) (<[t := r]> (receipts fs)).

Lemma unbond_reads h tx payload lu fs t r :
  wtxid tx ≠ t → lp_unbond_handler h tx payload lu (with_receipt t r fs) = lp_unbond_handler h tx payload lu fs.
Proof.
  intros Hne. unfold lp_unbond_handler. cbn [with_receipt farms bonds owners receipts].
  rewrite lookup_insert_ne by done. done.
Qed.
Lemma harvest_reads h tx payload lh fs t r :
  wtxid tx ≠ t → lp_harvest_handler h tx payload lh (with_receipt t r fs) = lp_harvest_handler h tx payload lh fs.
Proof.
  intros Hne. unfold lp_harvest_handler. cbn [with_receipt farms bonds owners receipts].
  rewrite lookup_insert_ne by done. done.
Qed.

Lemma unbond_blocked h tx payload lu fs ws : is_Some (receipts fs !! wtxid tx) → lp_unbond_handler h tx payload lu fs ≠ Ok ws.
Proof.
  intros [r Er] (id & b & f & C & E)%lp_unbond_effect. cbv zeta in E. destruct E as (_ & _ & _ & _ & _ & _ & _ & Hn & _). congruence.
Qed.
Lemma harvest_blocked h tx payload lh fs ws :
  0 < LpHarvest.rewardAmount lh → is_Some (receipts fs !! wtxid tx) → lp_harvest_handler h tx payload lh fs ≠ Ok ws.
Proof.
  intros Hpos [r Er] (f & b & paid & E)%lp_harvest_effect. cbv zeta in E.
  destruct E as (_ & _ & _ & _ & _ & [[_ Hn]|(_ & Hn & _)] & _); [lia|congruence].
Qed.
Lemma bond_blocked h tx payload lb fs ws : is_Some (bonds fs !! bond_id (wtxid tx)) → lp_bond_handler h tx payload lb fs ≠ Ok ws.
Proof.
  intros [b Eb] (f & E)%lp_bond_effect. cbv zeta in E. destruct E as (_ & _ & _ & _ & Hn & _). congruence.
Qed.

Lemma unbond_first h tx payload lu fs ws :
  lp_unbond_handler h tx payload lu fs = Ok ws →
  ∃ r, run_writes fs (take 1 ws) = with_receipt (wtxid tx) r fs ∧ rc_kind r = UnbondReceipt ∧ rc_amount r = LpUnbond.shares lu.
Proof.
  intros (id & b & f & C & E)%lp_unbond_effect. cbv zeta in E. destruct E as (_ & _ & _ & _ & _ & Hsh & _ & _ & _ & ->).
  destruct fs. cbn. eexists. split; [reflexivity|]. split; [done|]. cbn. lia.
Qed.
Lemma harvest_first h tx payload lh fs ws :
  lp_harvest_handler h tx payload lh fs = Ok ws → 0 < LpHarvest.rewardAmount lh →
  ∃ r, run_writes fs (take 1 ws) = with_receipt (wtxid tx) r fs ∧ rc_kind r = HarvestReceipt ∧
    rc_amount r = LpHarvest.rewardAmount lh ∧ rc_farm r = LpHarvest.farmId lh ∧
    receipts fs !! wtxid tx = None ∧ is_Some (farms fs !! LpHarvest.farmId lh).
Proof.
  intros (f & b & paid & E)%lp_harvest_effect Hpos. cbv zeta in E.
  destruct E as (Ef & _ & _ & _ & _ & [[_ Hn]|(_ & Hn & C & _ & ->)] & ->); [lia|].
  destruct fs. cbn. eexists. split; [reflexivity|]. split; [done|]. split; [done|]. split; [done|]. split; [done|by eexists].
Qed.

(** A store with the bond but not its farm's counter is short. *)
Lemma bond_short fs fs' id b :
  fstore_ok fs → is_Some (farms fs !! bd_farm b) → farms fs' = farms fs → bonds fs !! id = None →
  bonds fs' = <[id := b]> (bonds fs) → AMM_FARM_MIN_BOND <= bond_amount b → ¬ fstore_ok fs'.
Proof.
  intros Hs [f Ef] Efm Hid Ebm Hm Hs'. pose proof (so_farms _ Hs _ _ Ef) as Hok.
  rewrite <- Efm in Ef. pose proof (so_farms _ Hs' _ _ Ef) as Hok'.
  pose proof (fo_bonded _ _ _ Hok) as E1. pose proof (fo_bonded _ _ _ Hok') as E2.
  rewrite Ebm, msum_insert, own_same in E2 by done. unfold AMM_FARM_MIN_BOND in Hm. lia.
Qed.

(** The writes of a bond short of the last. *)
Lemma bond_cut h tx payload lb fs ws k :
  lp_bond_handler h tx payload lb fs = Ok ws → (1 <= k <= 3)%nat →
  ∃ b, farms (run_writes fs (take k ws)) = farms fs ∧ bonds (run_writes fs (take k ws)) = <[bond_id (wtxid tx) := b]> (bonds fs) ∧
    bonds fs !! bond_id (wtxid tx) = None ∧ is_Some (farms fs !! bd_farm b) ∧ AMM_FARM_MIN_BOND <= bond_amount b.
Proof.
  intros (f & E)%lp_bond_effect Hk. cbv zeta in E. destruct E as (Ef & _ & Hm & _ & Hn & ->).
  exists (Bond (LpBond.farmId lb) (LpBond.bondAmount lb) (LpBond.entryAccPerShare lb) (LpBond.bonderPubkey lb) (LpBond.ownerCommit lb) (LpBond.nonce lb) h).
  assert (k = 1 ∨ k = 2 ∨ k = 3)%nat as [-> | [-> | ->]] by lia; destruct fs; cbn; split_and!; done || by eexists.
Qed.


End lemmas.

(** ** What a harvest leaves *)
Section harvest.
Context `{Hash} {SE : Secp} {SL : SecpLaws} {CH : Chain} {RC : Records} {IX : Indexer}.

Definition harvest_receipt (asset : bytes) (lh : LpHarvest.t) : receipt :=
  Receipt HarvestReceipt (LpHarvest.farmId lh) (Some (LpHarvest.bondId lh)) asset
    (toRawBytes (commit (LpHarvest.rewardAmount lh) (bytes32ToBigint (LpHarvest.rewardR lh)))) (LpHarvest.rewardAmount lh)
    (LpHarvest.rewardR lh).

(** The store after a harvest. *)
Lemma harvest_leaves tx lh fs f' b paid asset t0 r0 :
  treasury_remaining f' = t0 → refunded f' = r0 →
  (paid = [] ∧ LpHarvest.rewardAmount lh <= 0 ∨
   0 < LpHarvest.rewardAmount lh ∧ receipts fs !! wtxid tx = None ∧
   ∃ C, pedersenCommit (LpHarvest.rewardAmount lh) (bytes32ToBigint (LpHarvest.rewardR lh)) = Ok C ∧
     paid = [ammFarmUnbondReceiptPut (wtxid tx)
               (Receipt HarvestReceipt (LpHarvest.farmId lh) (Some (LpHarvest.bondId lh)) asset
                  (toRawBytes C) (LpHarvest.rewardAmount lh) (LpHarvest.rewardR lh))]) →
  ∃ rs, run_writes fs (paid ++ [ammFarmBondPut (LpHarvest.bondId lh) (with_entry b (acc_reward_per_share f'));
            ammFarmPut (LpHarvest.farmId lh) (with_treasury f' (treasury_remaining f' - LpHarvest.rewardAmount lh) (refunded f'))]) =
      FStore (<[LpHarvest.farmId lh := with_treasury f' (t0 - LpHarvest.rewardAmount lh) r0]> (farms fs))
        (<[LpHarvest.bondId lh := with_entry b (acc_reward_per_share f')]> (bonds fs)) (bonder_bonds fs) (owners fs) (pool_farms fs) rs ∧
    (0 < LpHarvest.rewardAmount lh → rs !! wtxid tx = Some (harvest_receipt asset lh)).
Proof.
  intros <- <- Hp. destruct fs as [fm bm bb ow pf rs].
  destruct Hp as [[-> Hn]|(Hn & _ & C & EC & ->)]; cbn [app run_writes foldl apply_write]; eexists; (split; [reflexivity|]); [lia|].
  rewrite pedersenCommit_Ok in EC. injection EC as <-. intros _. apply lookup_insert_eq.
Qed.
End harvest.

(** ** Farms *)
Section claims.
Context `{Hash} {SE : Secp} {SL : SecpLaws} {CH : Chain} {RC : Records} {IX : Indexer}.

(** C36: farms are solvent and conserve their rewards.  In every reachable state what a farm
    was funded with is what its treasury holds plus what its harvest and refund receipts
    paid out, and the treasury is never negative; its counter of bonded shares is the sum
    of its bonds until it is refunded, and until then its treasury covers, at any height,
    all that its bonds have accrued together; so the treasury never refuses a harvest that
    stays within the position's own accrual. *)
Theorem farm_solvent fs fid f :
  farm_reachable fs → farms fs !! fid = Some f →
  (reward_total f = treasury_remaining f + paid_out fs fid ∧ 0 <= treasury_remaining f ∧ 0 <= paid_out fs fid) ∧
  ∀ h, refunded f = false →
    total_bonded f = msum (own fid bond_amount) (bonds fs) ∧
    owed (bonds fs) fid (_farmCrystallize f h) <= scale * treasury_remaining f ∧
    ∀ id b n, bonds fs !! id = Some b → bd_farm b = fid →
      n * scale <= bond_amount b * (acc_reward_per_share (_farmCrystallize f h) - entry_acc_per_share b) →
      n <= treasury_remaining f.
Proof.
  intros Hr Ef. split.
  {
    destruct (farm_reachable_ok _ Hr) as [Hs Hl].
    pose proof (fo_treasury _ _ _ (so_farms _ Hs _ _ Ef)). pose proof (lo_sum _ Hl _ _ Ef). lia.
  }
  intros h Href. destruct (farm_reachable_ok _ Hr) as [Hs _].
  pose proof (crystallized_ok fs fid f h Hs Ef) as [Hok _].
  destruct (crystallize_frame f h) as (_ & Er & _ & _ & Ee & Et & Etr & Ere & _).
  pose proof (fo_solvent _ _ _ Hok ltac:(by rewrite Ere)) as Hsol. pose proof (fo_rate _ _ _ Hok). pose proof (fo_last _ _ _ Hok).
  assert (Hun : 0 <= unemitted (_farmCrystallize f h)) by (unfold unemitted; nia).
  rewrite Etr in Hsol. pose proof scale_pos.
  assert (Hown : owed (bonds fs) fid (_farmCrystallize f h) <= scale * treasury_remaining f) by nia.
  split; [rewrite <- Et; apply Hok|]. split; [exact Hown|]. intros id b n Ek Eb Hn.
  assert (Hterm : accrued (_farmCrystallize f h) b <= owed (bonds fs) fid (_farmCrystallize f h)).
  { apply (own_term fid (accrued (_farmCrystallize f h)) id b (bonds fs)); [|done|done]. intros k b' Ek' Eb'.
    destruct (crystallized_bond _ _ _ h _ _ Hs Ef Ek' Eb'). unfold accrued, AMM_FARM_MIN_BOND in *. apply Z.mul_nonneg_nonneg; lia. }
  unfold accrued in Hterm. nia.
Qed.

(** C37: an accepted harvest pays at most the position's shares times the growth of the
    accumulator since its last stamp, rounded down; the receipt commits to exactly that
    amount in the reward asset, the treasury falls by it, and the position is stamped
    with the accumulator, so that a later claim at no greater height is for nothing. *)
Theorem harvest_settles h tx payload lh fs ws :
  fstore_ok fs → LpHarvest.decodeTLpHarvestPayload payload = Ok lh →
  lp_harvest_handler h tx payload lh fs = Ok ws →
  ∃ f b, let f' := _farmCrystallize f (canonical_height f h) in let n := LpHarvest.rewardAmount lh in let fs' := run_writes fs ws in
    farms fs !! LpHarvest.farmId lh = Some f ∧ bonds fs !! LpHarvest.bondId lh = Some b ∧
    n <= bond_amount b * (acc_reward_per_share f' - entry_acc_per_share b) / scale ∧
    farms fs' !! LpHarvest.farmId lh = Some (with_treasury f' (treasury_remaining f - n) (refunded f)) ∧
    bonds fs' !! LpHarvest.bondId lh = Some (with_entry b (acc_reward_per_share f')) ∧
    (0 < n → receipts fs' !! wtxid tx = Some (harvest_receipt (fm_reward_asset f) lh)) ∧
    ∀ h2 tx2 payload2 lh2 ws2, h2 <= h → LpHarvest.bondId lh2 = LpHarvest.bondId lh →
      lp_harvest_handler h2 tx2 payload2 lh2 fs' = Ok ws2 → LpHarvest.rewardAmount lh2 <= 0.
Proof.
  intros Hs [_ Hd]%LpHarvest.lpHarvest_decode_Ok (f & b & paid & E)%lp_harvest_effect. cbv zeta in E.
  unfold LpHarvest.decodable in Hd. destruct E as (Ef & Ek & Eb & Ht & Hw & Hp & ->). exists f, b. cbv zeta.
  destruct (crystallized_bond _ _ _ (canonical_height f h) _ _ Hs Ef Ek Eb) as [Hm He].
  destruct (crystallize_frame f (canonical_height f h)) as (_ & _ & _ & _ & Ee & _ & Etr & Ere & _).
  pose proof scale_pos. set (f' := _farmCrystallize f _) in *.
  destruct (harvest_leaves tx lh fs f' b paid (fm_reward_asset f) _ _ Etr Ere Hp) as (rs & -> & Hrs).
  cbn [farms bonds receipts]. rewrite !lookup_insert_eq.
  split; [done|]. split; [done|]. split; [apply Z.div_le_lower_bound; [done|]; rewrite Z.max_r in Hw by lia; lia|].
  split; [done|]. split; [done|]. split; [exact Hrs|].
  intros h2 tx2 payload2 lh2 ws2 Hh Eid (f2 & b2 & paid2 & E2)%lp_harvest_effect. cbv zeta in E2. cbn [farms bonds] in E2.
  destruct E2 as (Ef2 & Ek2 & Eb2 & _ & Hw2 & _). rewrite Eid, lookup_insert_eq in Ek2. injection Ek2 as <-.
  cbn [with_entry bd_farm] in Eb2. rewrite <- Eb2, Eb, lookup_insert_eq in Ef2. injection Ef2 as <-.
  cbn [with_entry entry_acc_per_share bond_amount] in Hw2.
  pose proof (crystallize_settled f h h2 (treasury_remaining f - LpHarvest.rewardAmount lh) (refunded f)
    (farm_ok_scheduled _ _ _ Hs Ef) Hh) as Hc. cbv zeta in Hc. fold f' in Hc. rewrite Hc in Hw2.
  rewrite Z.max_l in Hw2 by (subst f'; lia). nia.
Qed.

(** What a farm gives out between two heights. *)
Lemma accumulated f h1 h2 :
  scheduled f → h1 <= h2 →
  let grown := acc_reward_per_share (_farmCrystallize f h2) - acc_reward_per_share f in
  let twice := _farmCrystallize (_farmCrystallize f h1) h2 in
  last_update_height (_farmCrystallize f h2) = Z.max (last_update_height f) (Z.min h2 (end_height f)) ∧
  (0 < total_bonded f →
   grown * total_bonded f <= scale * (reward_per_block f * pending f h2) < (grown + 1) * total_bonded f) ∧
  (total_bonded f = 0 → grown = 0) ∧
  last_update_height twice = last_update_height (_farmCrystallize f h2) ∧
  acc_reward_per_share twice <= acc_reward_per_share (_farmCrystallize f h2) <= acc_reward_per_share twice + 1.
Proof.
  intros Hf Hh. cbv zeta. pose proof (crystallize_split f h1 h2 Hf Hh) as Hsp. cbv zeta in Hsp.
  destruct (crystallize_acc f h2 Hf) as [El Ea]. split; [rewrite El; unfold pending; lia|].
  split; [|split; [|exact Hsp]].
  - intros Hpos. rewrite Ea. rewrite (proj2 (Z.ltb_lt _ _) Hpos).
    set (n := scale * _). pose proof (Z.div_mod n (total_bonded f) ltac:(lia)). pose proof (Z.mod_pos_bound n (total_bonded f) Hpos). lia.
  - intros Hz. rewrite Ea, Hz. cbn. lia.
Qed.
Lemma field_outgrown fs fid f h tx payload lb :
  farms fs !! fid = Some f → scheduled f → 0 <= acc_reward_per_share f → 0 < total_bonded f →
  total_bonded f * 2 ^ 32 <= reward_per_block f * pending f (canonical_height f h) →
  LpBond.decodeTLpBondPayload payload = Ok lb → LpBond.farmId lb = fid →
  2 ^ 128 <= acc_reward_per_share (_farmCrystallize f (canonical_height f h)) ∧
  ∀ ws, lp_bond_handler h tx payload lb fs ≠ Ok ws.
Proof.
  intros Ef Hf Ha Hpos Hbig [_ Hd]%LpBond.lpBond_decode_Ok Eid.
  destruct (crystallize_acc f (canonical_height f h) Hf) as [_ Eacc].
  assert (Hacc : 2 ^ 128 <= acc_reward_per_share (_farmCrystallize f (canonical_height f h))).
  { rewrite Eacc, (proj2 (Z.ltb_lt _ _) Hpos). change (2 ^ 128) with (scale * 2 ^ 32). pose proof scale_pos.
    assert (scale * 2 ^ 32 <= scale * (reward_per_block f * pending f (canonical_height f h)) / total_bonded f); [|lia].
    apply Z.div_le_lower_bound; [done|]. apply (Z.mul_le_mono_nonneg_l _ _ scale) in Hbig; lia. }
  split; [exact Hacc|]. intros ws (f' & E)%lp_bond_effect. cbv zeta in E. destruct E as (Ef' & _ & _ & He & _).
  rewrite Eid, Ef in Ef'. injection Ef' as <-. unfold LpBond.decodable in Hd. lia.
Qed.

(** C38: the accumulator gives out the scheduled rewards and no more: the growth times the
    bonded shares is the fixed-point reward of the elapsed blocks, short by less than one
    unit per share; reaching a height in two steps loses at most one more unit than
    reaching it at once; and a farm with nothing bonded gives out nothing.  But it outgrows
    the field that carries it, 128 bits of the bonding envelope: once the rewards of the
    blocks not yet followed reach 2^32 per bonded share, no envelope names the farm's
    accumulator, and every bond is refused. *)
Theorem accumulator_exact f :
  scheduled f →
  (∀ h1 h2, h1 <= h2 →
   let grown := acc_reward_per_share (_farmCrystallize f h2) - acc_reward_per_share f in
   let twice := _farmCrystallize (_farmCrystallize f h1) h2 in
   last_update_height (_farmCrystallize f h2) = Z.max (last_update_height f) (Z.min h2 (end_height f)) ∧
   (0 < total_bonded f →
    grown * total_bonded f <= scale * (reward_per_block f * pending f h2) < (grown + 1) * total_bonded f) ∧
   (total_bonded f = 0 → grown = 0) ∧
   last_update_height twice = last_update_height (_farmCrystallize f h2) ∧
   acc_reward_per_share twice <= acc_reward_per_share (_farmCrystallize f h2) <= acc_reward_per_share twice + 1) ∧
  (∀ fs fid h tx payload lb,
   farms fs !! fid = Some f → 0 <= acc_reward_per_share f → 0 < total_bonded f →
   total_bonded f * 2 ^ 32 <= reward_per_block f * pending f (canonical_height f h) →
   LpBond.decodeTLpBondPayload payload = Ok lb → LpBond.farmId lb = fid →
   2 ^ 128 <= acc_reward_per_share (_farmCrystallize f (canonical_height f h)) ∧
   ∀ ws, lp_bond_handler h tx payload lb fs ≠ Ok ws).
Proof.
  intros Hf. split; [intros h1 h2; by apply accumulated|]. intros fs fid h tx payload lb Ef.
  by apply (field_outgrown fs fid f h tx payload lb Ef).
Qed.


(** C40: a scan interrupted after its first write.  The receipt is written first, so the
    transaction is never completed: after an unbond the note of the shares exists while
    the position, its owner's key and its farm stand as before, and to every other
    transaction the unbond has not happened; after a harvest the reward was paid and the
    position was not stamped, so the rewards no longer add up.  After a bond cut short
    anywhere before its last write the position is live, and its shares are never
    counted. *)
Theorem interrupted_writes h tx payload fs ws :
  (∀ lu, lp_unbond_handler h tx payload lu fs = Ok ws →
    let cut := run_writes fs (take 1 ws) in
    (farms cut = farms fs ∧ bonds cut = bonds fs ∧ owners cut = owners fs) ∧
    (∃ r, receipts cut !! wtxid tx = Some r ∧ rc_kind r = UnbondReceipt ∧ rc_amount r = LpUnbond.shares lu) ∧
    (∀ h' payload' lu' ws', lp_unbond_handler h' tx payload' lu' cut ≠ Ok ws') ∧
    (∀ h' tx' payload' lu', wtxid tx' ≠ wtxid tx →
       lp_unbond_handler h' tx' payload' lu' cut = lp_unbond_handler h' tx' payload' lu' fs)) ∧
  (∀ lh, lp_harvest_handler h tx payload lh fs = Ok ws → 0 < LpHarvest.rewardAmount lh →
    let cut := run_writes fs (take 1 ws) in
    (farms cut = farms fs ∧ bonds cut = bonds fs) ∧ (ledger_ok fs → ¬ ledger_ok cut) ∧
    (∀ h' payload' ws', lp_harvest_handler h' tx payload' lh cut ≠ Ok ws') ∧
    (∀ h' tx' payload' lh', wtxid tx' ≠ wtxid tx →
       lp_harvest_handler h' tx' payload' lh' cut = lp_harvest_handler h' tx' payload' lh' fs)) ∧
  (∀ lb k, lp_bond_handler h tx payload lb fs = Ok ws → (1 <= k <= 3)%nat →
    let cut := run_writes fs (take k ws) in
    (fstore_ok fs → ¬ fstore_ok cut) ∧ ∀ h' payload' lb' ws', lp_bond_handler h' tx payload' lb' cut ≠ Ok ws').
Proof.
  split; [|split].
  - intros lu E cut. destruct (unbond_first _ _ _ _ _ _ E) as (r & Er & Hk & Ha). subst cut. rewrite Er.
    split; [done|]. split; [exists r; split; [apply lookup_insert_eq|done]|]. split.
    + intros h' payload' lu' ws'. apply unbond_blocked. cbn. rewrite lookup_insert_eq. by eexists.
    + intros h' tx' payload' lu' Hne. by apply unbond_reads.
  - intros lh E Hpos cut. destruct (harvest_first _ _ _ _ _ _ E Hpos) as (r & Er & Hk & Ha & Hf & Hn & f & Ef). subst cut. rewrite Er.
    split; [done|]. split; [|split].
    + intros Hl Hl'. pose proof (lo_sum _ Hl _ _ Ef) as E1. pose proof (lo_sum _ Hl' _ _ Ef) as E2.
      unfold paid_out in *. cbn [with_receipt receipts] in E2. rewrite msum_insert in E2 by done.
      assert (drawn (LpHarvest.farmId lh) r = rc_amount r) by (unfold drawn; by rewrite Hk, bool_decide_eq_true_2). lia.
    + intros h' payload' ws'. apply harvest_blocked; [done|]. cbn. rewrite lookup_insert_eq. by eexists.
    + intros h' tx' payload' lh' Hne. by apply harvest_reads.
  - intros lb k E Hk cut. destruct (bond_cut _ _ _ _ _ _ k E Hk) as (b & Hfm & Hbm & Hid & Hb & Hm). split.
    + intros Hs. eapply bond_short; eauto.
    + intros h' payload' lb' ws'. apply bond_blocked. subst cut. rewrite Hbm, lookup_insert_eq. by eexists.
Qed.

End claims.

(** ** Witnesses *)
Lemma farm_solvent_witness :
  toy_reachable bonded ∧ reward_total toy_farm = treasury_remaining toy_farm + paid_out bonded toy_fid ∧
  owed (bonds bonded) toy_fid (_farmCrystallize toy_farm 620) <= scale * treasury_remaining toy_farm.
Proof.
  split; [exact bonded_reachable|]. destruct (farm_solvent bonded toy_fid toy_farm bonded_reachable bonded_farm) as [Hc Hs].
  split; [exact (proj1 Hc)|exact (proj1 (proj2 (Hs 620 eq_refl)))].
Defined.

Lemma harvest_settles_witness :
  ∃ r, receipts (run_writes bonded harvest_writes) !! be 32 33 = Some r.
Proof.
  destruct (farm_reachable_ok _ bonded_reachable) as [Hs _].
  destruct (harvest_settles 620 (bound_tx 33 [] lh_payload) lh_payload toy_lh bonded harvest_writes Hs toy_lh_decodes harvest_run)
    as (f & b & _ & _ & _ & _ & _ & Hrec & _).
  eexists. apply Hrec. reflexivity.
Defined.

Lemma accumulator_exact_witness :
  acc_reward_per_share (_farmCrystallize (_farmCrystallize fast_farm 130) 150)
    <= acc_reward_per_share (_farmCrystallize fast_farm 150) ∧
  2 ^ 128 <= acc_reward_per_share (_farmCrystallize fast_farm (canonical_height fast_farm 2000)) ∧
  ∀ ws, lp_bond_handler (CH := farm_chain) 2000 lb_tx lb_payload toy_lb (FStore {[ toy_fid := fast_farm ]} ∅ ∅ ∅ ∅ ∅) ≠ Ok ws.
Proof.
  destruct (accumulator_exact (CH := farm_chain) fast_farm fast_scheduled) as [Ha Hb].
  split; [exact (proj1 (proj2 (proj2 (proj2 (proj2 (Ha 130 150 ltac:(lia)))))))|].
  refine (Hb (FStore {[ toy_fid := fast_farm ]} ∅ ∅ ∅ ∅ ∅) toy_fid 2000 lb_tx lb_payload toy_lb
    (lookup_singleton_eq _ _) _ _ _ toy_lb_decodes eq_refl); [done|done|]. vm_compute. discriminate.
Defined.


Lemma interrupted_writes_witness :
  bonds (run_writes bonded (take 1 unbond_writes)) = bonds bonded ∧
  toy_unbond_handler 117 36 (run_writes bonded (take 1 unbond_writes)) = toy_unbond_handler 117 36 bonded.
Proof.
  destruct (@interrupted_writes _ _ farm_chain _ _ 116 (bound_tx 35 [] lu_payload) lu_payload bonded unbond_writes) as [Ha _].
  destruct (Ha toy_lu unbond_run) as ((_ & Hb & _) & _ & _ & Hs). split; [exact Hb|].
  apply Hs. discriminate.
Defined.
