(* ===== verification/ProtocolProps.v ===== *)
(** * What signatures, kernels, messages and the AMM arithmetic guarantee

    The properties of the components below the validator and the pool handlers, each
    from the lemmas of its component; witnesses over the group of [CurveModel]. *)
From S2P Require Import Prelude Bytes Crypto CodecTransfer CodecPool CodecSlots Messages AmmMath Curve CurveModel Kernel.

(** ** Signatures and commitments *)
Section curve.
Context {SE : Secp} {SL : SecpLaws} `{Hash}.

(** C20: signing and the two verifiers.  The worker's verifier always answers; the dapp's
    answers the same except on a signature whose [s], or whose challenge, is zero, where
    it throws instead of returning false.  What the signer signs verifies, under the key
    whose x coordinate it used, for any key and any nonce randomness. *)
Theorem schnorr_verifiers :
  (∀ sig m pk,
    (∃ b, verifySchnorrWorker sig m pk = Ok b) ∧
    verifySchnorr sig m pk =
      match sig_parse sig m pk with
      | Some (Rx, s, P) => if (s =? 0) || (challenge Rx pk m =? 0) then Throw "invalid scalar"
                           else verifySchnorrWorker sig m pk
      | None => Ok false
      end) ∧
  (∀ aux m priv sig, blen m = 32 → signSchnorr aux m priv = Ok sig →
    verifySchnorrWorker sig m (xonly (smul (bytes32ToBigint priv) G)) = Ok true).
Proof.
  split; [|apply sign_verify]. intros sig m pk. split; [apply verifyWorker_total|apply verify_dapp_worker].
Qed.

(** Pedersen commitments never throw, add up, and open to two amounts only with a
    relation between the generators. *)
Theorem pedersen_commitments v r w s :
  pedersenCommit v r = Ok (commit v r) ∧
  pedersenCommit (v + w) (r + s) = Ok (add (commit v r) (commit w s)) ∧
  (pedersenCommit v r = pedersenCommit w s → v mod SECP_N = w mod SECP_N ∨ relation (v - w) (s - r)).
Proof.
  rewrite !pedersenCommit_Ok. split; [done|]. split; [by rewrite commit_add|].
  intros [= E]. by apply commit_binding.
Qed.

(** ** Public-amount kernels *)

(** C22: the key a liquidity kernel is checked under is the excess of the inputs over the
    public amount; knowing its discrete logarithm, the inputs sum to that amount, or
    there is a relation between the generators.  And an honest provider is accepted: when
    the inputs do sum to the amount added, the verifier accepts the signature made with
    the sum of their blindings. *)
Theorem lp_kernel_exact `{!HashLen} ins vis delta :
  ins ≠ [] → Forall2 opens ins vis → amounts_u64 vis → 0 < delta < 2 ^ 64 →
  ammLpAddKernelKey ins delta = ammLpRemoveKernelKey ins delta ∧
  (∀ key, ammLpAddKernelKey ins delta = Ok key → key = xonly (public_excess vis delta)) ∧
  (∀ e, public_excess vis delta = smul e G →
     total_v vis = delta ∨ relation (total_v vis - delta) (e - total_r vis)) ∧
  (∀ k aux msg sig, ak_deltaX k = delta → total_v vis = delta → total_r vis mod SECP_N ≠ 0 →
     ammLpAddKernelMsg k = Ok msg → signSchnorr aux msg (kernel_secret vis) = Ok sig →
     ammLpAddKernelVerify k ins sig = Ok true).
Proof.
  intros Hne Hf Hv Hd. rewrite (lpAdd_key ins vis delta), (lpRemove_key ins vis delta) by (done || lia).
  split; [done|]. split; [|split].
  - intros key E. apply res_bind_Ok in E as (? & _ & [= <-]). done.
  - intros e. apply public_conserves; [done|lia].
  - intros k aux msg sig Ek Hsum Hr Em Es. apply (lpAdd_complete k ins vis aux msg); try done; lia.
Qed.

(** The liquidity-add and bond verifiers always answer; the removal's verifier builds
    its message outside the handler, so it throws what the message builder throws. *)
Theorem lp_verifiers_errors :
  (∀ k ins sig, ∃ b, ammLpAddKernelVerify k ins sig = Ok b) ∧
  (∀ fid a n ops ins sig, ∃ b, ammLpBondKernelVerify fid a n ops ins sig = Ok b) ∧
  (∀ k ins sig key e, ammLpRemoveKernelKey ins (rk_shareAmount k) = Ok key → ammLpRemoveKernelMsg k = Throw e →
     ammLpRemoveKernelVerify k ins sig = Throw e).
Proof. split; [apply lpAdd_verify_total|]. split; [apply lpBond_verify_total|apply lpRemove_verify_throws]. Qed.

(** The swap kernel's point commits to change plus amount swapped minus input, with a
    missing change note counted as zero; it is a multiple of [G] alone exactly when the
    amounts balance, unless there is a relation between the generators. *)
Theorem swap_kernel_balance change input c i delta :
  0 <= delta < 2 ^ 64 → opens input i →
  (if all_zero (take 33 change) then c = (0, 0) else opens change c) →
  0 <= c.1 < 2 ^ 64 → 0 <= i.1 < 2 ^ 64 →
  ammSwapVarKernelVerifyPoint change input delta = Ok (commit (c.1 + delta - i.1) (c.2 - i.2)) ∧
  (c.1 + delta = i.1 → commit (c.1 + delta - i.1) (c.2 - i.2) = smul (c.2 - i.2) G) ∧
  (∀ e, commit (c.1 + delta - i.1) (c.2 - i.2) = smul e G →
     c.1 + delta = i.1 ∨ relation (c.1 + delta - i.1) (e - (c.2 - i.2))).
Proof.
  intros Hd Hi Hc Hc1 Hi1. split; [by apply swap_point_opens|]. split.
  - intros E. replace (c.1 + delta - i.1) with 0 by lia. apply excess_balanced.
  - intros e E. apply excess_conserves in E as [E|E]; [left; lia|by right|].
    assert (1000 * 2 ^ 64 < SECP_N) by done. lia.
Qed.
End curve.

(** ** Messages *)
Section messages.
Context `{Hash}.

(** C21: a signature covers its operation.  On messages the hash does not collide on, equal
    kernel messages have the same asset, inputs, outputs and burned amount; equal
    preimages of liquidity additions, of removals, of swap intents, of the intents of a
    batch and of mixer deposits are about the same pool, amounts, notes, inputs, outputs
    and refunds; and hashed strings that start with domain tags of the protocol are equal
    only if the tags are, so messages of different kinds never coincide. *)
Theorem messages_bind :
  (∀ a ins outs b a' ins' outs' b' m,
    collision_free_on (λ p, ∃ a ins outs b, kernel_wf a ins outs b ∧ p = kernel_preimage a ins outs b) →
    kernel_wf a ins outs b → kernel_wf a' ins' outs' b' →
    computeKernelMsg a ins outs b = Ok m → computeKernelMsg a' ins' outs' b' = Ok m →
    a = a' ∧ ins = ins' ∧ outs = outs' ∧ b = b') ∧
  (∀ k l, lp_add_wf k → lp_add_wf l → lp_add_preimage k = lp_add_preimage l → k = l) ∧
  (∀ k l, lp_remove_wf k → lp_remove_wf l → lp_remove_preimage k = lp_remove_preimage l → k = l) ∧
  (∀ i j, swap_intent_wf i → swap_intent_wf j → swap_intent_preimage i = swap_intent_preimage j → i = j) ∧
  (∀ i j, batch_intent_wf i → batch_intent_wf j → batch_intent_preimage i = batch_intent_preimage j → i = j) ∧
  (∀ a d t v l a' d' t' v' l', deposit_wf a d t v l → deposit_wf a' d' t' v' l' →
    deposit_preimage a d t v l = deposit_preimage a' d' t' v' l' → a = a' ∧ d = d' ∧ t = t' ∧ v = v' ∧ l = l') ∧
  (∀ d m r r', d ∈ domains → m ∈ domains → d ++ r = m ++ r' → d = m ∧ r = r').
Proof.
  split; [|split_and!; [apply lp_add_preimage_inj|apply lp_remove_preimage_inj|apply swap_intent_preimage_inj
    |apply batch_intent_preimage_inj|apply deposit_preimage_inj|apply domain_separation]].
  intros a ins outs b a' ins' outs' b' m Hcf Hw Hw' E E'. unfold computeKernelMsg in E, E'. enc_inv E. enc_inv E'.
  injection E as <-. injection E' as E'. apply Hcf in E'; [|by exists a', ins', outs', b'|by exists a, ins, outs, b].
  symmetry in E'. by apply kernel_preimage_inj in E'.
Qed.

(** Creating a pool: the message does not say where one identifier of the pool ends and
    the next begins. *)
Theorem pool_init_boundary a d vk ce x m :
  computePoolInitMsg a d (vk ++ x) ce = Ok m → computePoolInitMsg a d vk (x ++ ce) = Ok m.
Proof.
  unfold computePoolInitMsg. destruct (negb _); [done|]. cbn -[concatBytes]. intros <-.
  by rewrite !concatBytes_cons, !concatBytes_nil, !app_nil_r, <- !app_assoc.
Qed.
End messages.

(** ** AMM arithmetic *)

(** C23: the AMM's arithmetic.  The integer square root is the floor of the root of every
    non-negative number, and throws on a negative one.  A swap on the curve succeeds
    exactly on positive 64-bit reserves and input with a fee in range, when the new
    reserve still fits 64 bits; the output is the floor of the constant-product formula,
    the reserves stay positive 64-bit numbers and their product does not fall.  So there
    is no free lunch: swapping there and back never pays; adding liquidity and taking the
    new shares out again never pays; and the protocol fee, which never throws in range,
    mints at most [bps] of the growth of the square root of the invariant. *)
Theorem amm_arithmetic :
  (∀ n, ammIsqrt n = if n <? 0 then Throw "isqrt of negative" else Ok (Z.sqrt n)) ∧
  (∀ dir ra rb din fbps c,
    (ammCurveDeltaOut dir ra rb din fbps = Ok c ↔
     curve_args_ok ra rb din fbps ∧
     ((dir = 0 ∧ ra + din < U64 ∧
       c = Curve (curve_out ra rb din fbps) (ra + din) (rb - curve_out ra rb din fbps)) ∨
      (dir = 1 ∧ rb + din < U64 ∧
       c = Curve (curve_out rb ra din fbps) (ra - curve_out rb ra din fbps) (rb + din)))) ∧
    (ammCurveDeltaOut dir ra rb din fbps = Ok c →
     u64_pos (raPost c) ∧ u64_pos (rbPost c) ∧ 0 <= deltaOut c < U64 ∧ ra * rb <= raPost c * rbPost c)) ∧
  (∀ ra rb din fbps c c',
    ammCurveDeltaOut 0 ra rb din fbps = Ok c →
    ammCurveDeltaOut 1 (raPost c) (rbPost c) (deltaOut c) fbps = Ok c' →
    deltaOut c' <= din) ∧
  (∀ da db ra rb s x da' db',
    0 <= da → 0 <= db → 0 <= ra → 0 <= rb → 0 <= s →
    ammLpAddShares da db ra rb s = Ok x →
    ammLpRemoveOutputs x (ra + da) (rb + db) (s + x) = Ok (da', db') →
    da' <= da ∧ db' <= db) ∧
  (∀ s kPre kNow bps,
    0 <= s → 0 <= kPre → 0 <= bps <= AMM_PROTOCOL_FEE_BPS_MAX →
    ∃ x, ammComputeProtocolShares s kPre kNow bps = Ok x ∧ 0 <= x ∧
         x * 10000 * Z.sqrt kNow <= (s + x) * bps * Z.max 0 (Z.sqrt kNow - Z.sqrt kPre)).
Proof.
  split; [|split; [|split; [intros; by eapply curve_no_free_lunch|split; [exact lp_add_remove_no_gain|exact protocol_shares_bound]]]].
  - intros n. destruct (Z.ltb_spec n 0); [|by apply ammIsqrt_spec]. unfold ammIsqrt. by rewrite (proj2 (Z.ltb_lt n 0)).
  - intros dir ra rb din fbps c. split; [apply ammCurveDeltaOut_Ok|]. intros E. by apply curve_fill in E as (? & ? & ? & ? & _).
Qed.

(** ** Witnesses *)
Definition w_key : bytes := bigintToBytes32 5.
Definition w_msg : bytes := zeros 32.
Definition w_ins : list bytes := [toRawBytes (commit 40 2); toRawBytes (commit 2 9)].
Definition w_vis : list (Z * Z) := [(40, 2); (2, 9)].
Definition w_add : lp_add_kernel :=
  LpAddKernel 0 (zeros 32) (zeros 32) 42 10 (zeros 33) [Outpoint (zeros 32) 0; Outpoint (zeros 32) 1] 0 (zeros 32) (zeros 32).
Definition get_ok {A} (d : A) (r : res A) : A := match r with Ok a => a | _ => d end.

Lemma w_opens : Forall2 opens w_ins w_vis.
Proof. repeat constructor; unfold opens; apply bytesToPoint_raw; vm_compute; intros [=]. Qed.

Lemma schnorr_verifiers_witness :
  verifySchnorr (zeros 64) w_msg (xonly G) = Throw "invalid scalar" ∧
  (∃ b, verifySchnorrWorker (zeros 64) w_msg (xonly G) = Ok b) ∧
  ∃ sig, signSchnorr (zeros 32) w_msg w_key = Ok sig ∧
    verifySchnorrWorker sig w_msg (xonly (smul (bytes32ToBigint w_key) G)) = Ok true.
Proof.
  destruct schnorr_verifiers as [Hv Hs]. destruct (Hv (zeros 64) w_msg (xonly G)) as [Hw Hd]. split; [|split; [exact Hw|]].
  - rewrite Hd.
    assert (E : match sig_parse (zeros 64) w_msg (xonly G) with Some (_, s, _) => s =? 0 | None => false end = true)
      by (vm_compute; reflexivity).
    destruct (sig_parse _ _ _) as [[[Rx s] P]|]; [|discriminate]. rewrite E. reflexivity.
  - exists (get_ok [] (signSchnorr (zeros 32) w_msg w_key)). split; [vm_compute; reflexivity|].
    apply (Hs (zeros 32)); [vm_compute; reflexivity|vm_compute; reflexivity].
Defined.

Lemma pedersen_commitments_witness : pedersenCommit (3 + 4) (5 + 6) = Ok (add (commit 3 5) (commit 4 6)).
Proof. exact (proj1 (proj2 (pedersen_commitments 3 5 4 6))). Defined.

Lemma lp_kernel_exact_witness :
  ammLpAddKernelKey w_ins 42 = ammLpRemoveKernelKey w_ins 42 ∧ (total_v w_vis = 42 ∨ relation (42 - 42) (11 - 11)) ∧
  ∃ sig, ammLpAddKernelVerify w_add w_ins sig = Ok true.
Proof.
  destruct (lp_kernel_exact w_ins w_vis 42) as (E & _ & Hc & Hv).
  - done.
  - exact w_opens.
  - split; [repeat constructor; cbn; lia|cbn; lia].
  - lia.
  - split; [exact E|]. split; [apply (Hc 11); apply zn_eq; vm_compute; reflexivity|].
    exists (get_ok [] (signSchnorr (zeros 32) (get_ok [] (ammLpAddKernelMsg w_add)) (kernel_secret w_vis))).
    apply (Hv w_add (zeros 32) (get_ok [] (ammLpAddKernelMsg w_add))); [reflexivity|reflexivity| | |].
    + vm_compute. intros [=].
    + vm_compute. reflexivity.
    + vm_compute. reflexivity.
Defined.

Lemma lp_verifiers_errors_witness :
  ∃ e, ammLpRemoveKernelVerify (LpRemoveKernel (zeros 32) 42 0 0 [] [] [Outpoint (zeros 32) 0] []) w_ins [] = Throw e.
Proof.
  eexists. apply (proj2 (proj2 lp_verifiers_errors) _ _ _ (get_ok [] (ammLpRemoveKernelKey w_ins 42)));
    vm_compute; reflexivity.
Defined.

Lemma swap_kernel_balance_witness :
  ammSwapVarKernelVerifyPoint (toRawBytes (commit 2 9)) (toRawBytes (commit 40 2)) 38 = Ok (commit (2 + 38 - 40) (9 - 2)).
Proof.
  apply (swap_kernel_balance _ _ (2, 9) (40, 2) 38); cbn [fst snd]; try lia.
  - unfold opens. apply bytesToPoint_raw. vm_compute. intros [=].
  - replace (all_zero (take 33 (toRawBytes (commit 2 9)))) with false by (vm_compute; reflexivity).
    unfold opens. apply bytesToPoint_raw. vm_compute. intros [=].
Defined.

(** A hash without collisions: the preimage itself. *)
Definition plain_hash : Hash := λ m, m.

Lemma w_kernel_wf : kernel_wf (zeros 32) [Outpoint (zeros 32) 1] [zeros 33] 7.
Proof.
  assert (Hz : blen (zeros 32) = 32) by (vm_compute; reflexivity).
  assert (Hz' : blen (zeros 33) = 33) by (vm_compute; reflexivity).
  unfold kernel_wf. cbn -[zeros blen]. split_and!; try assumption; try lia; repeat constructor; try assumption; cbn; lia.
Qed.

Lemma pool_init_boundary_witness :
  @computePoolInitMsg plain_hash (zeros 32) 5 [] [x01] = @computePoolInitMsg plain_hash (zeros 32) 5 [x01] [].
Proof. exact (@pool_init_boundary plain_hash (zeros 32) 5 [] [] [x01] _ eq_refl). Defined.

Lemma w_add_wf : lp_add_wf w_add.
Proof.
  assert (Hz : blen (zeros 32) = 32) by (vm_compute; reflexivity).
  assert (Hz' : blen (zeros 33) = 33) by (vm_compute; reflexivity).
  unfold lp_add_wf, w_add. cbn -[zeros blen].
  split_and!; try assumption; try lia.
  repeat (constructor; [split; [exact Hz|cbn; lia]|]). constructor.
Qed.

Lemma messages_bind_witness : (zeros 32 = zeros 32 ∧ 7 = 7) ∧ w_add = w_add ∧ [x00] = [x00].
Proof.
  destruct (@messages_bind plain_hash) as (Hk & Ha & _ & _ & _ & _ & Hd).
  split; [|split; [exact (Ha w_add w_add w_add_wf w_add_wf eq_refl)
    |exact (proj2 (Hd KERNEL_DOMAIN KERNEL_DOMAIN [x00] [x00] ltac:(by left) ltac:(by left) eq_refl))]].
  destruct (Hk (zeros 32) [Outpoint (zeros 32) 1] [zeros 33] 7
    (zeros 32) [Outpoint (zeros 32) 1] [zeros 33] 7 (kernel_preimage (zeros 32) [Outpoint (zeros 32) 1] [zeros 33] 7)) as (E & _ & _ & E').
  - intros m n _ _ E. exact E.
  - exact w_kernel_wf.
  - exact w_kernel_wf.
  - vm_compute. reflexivity.
  - vm_compute. reflexivity.
  - exact (conj E E').
Defined.

Lemma amm_arithmetic_witness : u64_pos 1100 ∧ 98 <= 100 ∧ (100 <= 100 ∧ 200 <= 200).
Proof.
  assert (E : ammCurveDeltaOut 0 1000 1000 100 30 = Ok (Curve 90 1100 910)) by (vm_compute; reflexivity).
  destruct amm_arithmetic as (_ & Hc & Hs & Ha & _).
  split; [exact (proj1 (proj2 (Hc 0 1000 1000 100 30 (Curve 90 1100 910)) E))|]. split.
  - apply (Hs 1000 1000 100 30 (Curve 90 1100 910) (Curve 98 1002 1000)); [exact E|vm_compute; reflexivity].
  - apply (Ha 100 200 1000 2000 500 50 100 200); try lia; vm_compute; reflexivity.
Defined.
